(** * cricket_score: the schedule and scorecard scraper

    A shallow embedding of the extraction logic of [scraper.py], of the
    download script [download_flags.py] and of the two parsing endpoints of
    [app.py], and the properties of the Slugify helper, the Flag Resolver,
    the Source Normalizer, the Schedule Extractor, the Scorecard Extractor,
    the download script and the endpoints.

    - A Python [str] is a [string]; a character is a code point in
      U+0000..U+00FF, with [str.isspace], [str.lower] and the character
      classes of the [re] module written out on that range.
    - The markup handed to BeautifulSoup is the element tree it returns:
      the functions start from the parsed tree ([Node]) and embed the
      navigation calls the scraper makes on it ([find], [find_all],
      [select], [find_next], [find_parent], [get_text]).
    - The Flag Resolver works on an explicit [World]: the mapping cache of
      the module, the mapping file, the image files and the flag server.
      The functions with effects are written in a state monad over [World].
    - The Scorecard Extractor is written in the [option] monad, [None] for
      an exception that leaves the function.
    - The download script works on a [Disk] of its own, where the
      dictionaries of the mapping file keep their order; its functions
      pass the disk along.
    - [fetch_schedules_html] and [fetch_scorecard_html] talk to the network
      and to the clock and are not embedded: the endpoints take what they
      return. *)

From Stdlib Require Import Ascii String NArith.
From stdpp Require Import gmap strings list pretty.

Local Open Scope string_scope.
Local Open Scope list_scope.

(** ** Python strings *)

Definition code (c : Ascii.ascii) : N := N_of_ascii c.

Definition in_range (lo hi : N) (c : Ascii.ascii) : bool :=
  ((lo <=? code c) && (code c <=? hi))%N.

Definition char_is (a c : Ascii.ascii) : bool := (code a =? code c)%N.

(** [str.isspace] on one character. *)
Definition is_space (c : Ascii.ascii) : bool :=
  in_range 9 13 c || in_range 28 32 c || (code c =? 133)%N || (code c =? 160)%N.

(** The class [[a-z0-9]]. *)
Definition is_lower_alnum (c : Ascii.ascii) : bool :=
  in_range 97 122 c || in_range 48 57 c.

(** The class [[0-9]]. *)
Definition is_digit (c : Ascii.ascii) : bool := in_range 48 57 c.

(** [str.lower] on one character: A-Z, and U+00C0..U+00DE except the
    multiplication sign U+00D7, move up by 32. *)
Definition lower_char (c : Ascii.ascii) : Ascii.ascii :=
  if in_range 65 90 c || (in_range 192 222 c && negb (code c =? 215)%N)
  then ascii_of_N (code c + 32) else c.

Fixpoint lower (s : string) : string :=
  match s with
  | "" => ""
  | String c t => String (lower_char c) (lower t)
  end.

Fixpoint lstrip_with (p : Ascii.ascii -> bool) (s : string) : string :=
  match s with
  | "" => ""
  | String c t => if p c then lstrip_with p t else s
  end.

Fixpoint rstrip_with (p : Ascii.ascii -> bool) (s : string) : string :=
  match s with
  | "" => ""
  | String c t =>
      match rstrip_with p t with
      | "" => if p c then "" else String c ""
      | r => String c r
      end
  end.

Definition strip_with (p : Ascii.ascii -> bool) (s : string) : string :=
  rstrip_with p (lstrip_with p s).

(** [s.strip()] *)
Definition strip (s : string) : string := strip_with is_space s.

(** [s.lstrip("/")], [s.strip("-")] *)
Definition lstrip_char (a : Ascii.ascii) (s : string) : string := lstrip_with (char_is a) s.
Definition strip_char (a : Ascii.ascii) (s : string) : string := strip_with (char_is a) s.

(** Truthiness of a [str]. *)
Definition nonempty (s : string) : bool :=
  match s with "" => false | _ => true end.

(** [s or None] *)
Definition or_none (s : string) : option string :=
  if nonempty s then Some s else None.

(** [o or ""] *)
Definition or_empty (o : option string) : string := default "" o.

(** Truthiness of an [Optional[str]]. *)
Definition truthy (o : option string) : bool :=
  match o with Some s => nonempty s | None => false end.

(** [sep.join(l)] *)
Fixpoint join (sep : string) (l : list string) : string :=
  match l with
  | [] => ""
  | [x] => x
  | x :: r => x +:+ sep +:+ join sep r
  end.

(** [s.startswith(p)] *)
Definition startswith (s p : string) : bool := String.prefix p s.

Fixpoint drop_chars (n : nat) (s : string) : string :=
  match n, s with
  | O, _ => s
  | S _, "" => ""
  | S m, String _ t => drop_chars m t
  end.

(** [p in s] *)
Fixpoint contains (p s : string) : bool :=
  startswith s p ||
  match s with
  | "" => false
  | String _ t => contains p t
  end.

(** [re.sub(r"C+", repl, s)] for a character class [C]: every maximal run
    of characters of the class is replaced by [repl]; [in_run] tells that
    the previous character belonged to the run being replaced. *)
Fixpoint re_sub_runs (cls : Ascii.ascii -> bool) (repl : string) (in_run : bool)
    (s : string) : string :=
  match s with
  | "" => ""
  | String c t =>
      if cls c then
        if in_run then re_sub_runs cls repl true t
        else repl +:+ re_sub_runs cls repl true t
      else String c (re_sub_runs cls repl false t)
  end.

(** Every character of a string passes a test. *)
Fixpoint all_chars (p : Ascii.ascii -> bool) (s : string) : bool :=
  match s with
  | "" => true
  | String c t => p c && all_chars p t
  end.

Definition not_slash (c : Ascii.ascii) : bool := negb (char_is "/" c).

(** A string that does not start with white space. *)
Definition no_lead_space (s : string) : bool :=
  match s with
  | "" => true
  | String c _ => negb (is_space c)
  end.

(** ** scraper.py: [_slugify] *)

Definition _slugify (name : string) : string :=
  let s := lower (strip name) in
  let s := re_sub_runs (fun c => negb (is_lower_alnum c)) "-" false s in
  let s := strip_char "-" (re_sub_runs (char_is "-") "-" false s) in
  if nonempty s then s else "unknown".

(** ** download_flags.py: [slugify] *)

Module DownloadFlags.

Definition slugify (name : string) : string :=
  let s := lower (strip name) in
  let s := re_sub_runs (fun c => negb (is_lower_alnum c)) "-" false s in
  let s := strip_char "-" (re_sub_runs (char_is "-") "-" false s) in
  if nonempty s then s else "unknown".

End DownloadFlags.

(** A slug token: runs of [[a-z0-9]] separated by single hyphens, neither
    starting nor ending with a hyphen, and not empty.  [prev] tells that the
    previous character was alphanumeric. *)
Fixpoint slug_from (prev : bool) (s : string) : bool :=
  match s with
  | "" => prev
  | String c t =>
      if is_lower_alnum c then slug_from true t
      else if char_is "-" c then prev && slug_from false t
      else false
  end.

Definition is_slug (s : string) : bool := slug_from false s.

(** A slug token that may still end with a hyphen. *)
Fixpoint slug_pre (prev : bool) (s : string) : bool :=
  match s with
  | "" => true
  | String c t =>
      if is_lower_alnum c then slug_pre true t
      else if char_is "-" c then prev && slug_pre false t
      else false
  end.

(** Only characters of a slug token. *)
Fixpoint slug_chars (s : string) : bool :=
  match s with
  | "" => true
  | String c t => (is_lower_alnum c || char_is "-" c) && slug_chars t
  end.

(** ** Regular expressions of the scraper *)

(** [\w] of a [str] pattern, on U+0000..U+00FF. *)
Definition is_word_char (c : Ascii.ascii) : bool :=
  in_range 48 57 c || in_range 65 90 c || in_range 97 122 c || (code c =? 95)%N ||
  (code c =? 170)%N || (code c =? 178)%N || (code c =? 179)%N || (code c =? 181)%N ||
  (code c =? 185)%N || (code c =? 186)%N || in_range 188 190 c ||
  in_range 192 214 c || in_range 216 246 c || in_range 248 255 c.

(** The lower-case literal [p] matches at the start of [s] under [re.I]. *)
Definition ci_startswith (s p : string) : bool :=
  startswith (lower s) p.

Definition word_char_at (n : nat) (s : string) : bool :=
  match drop_chars n s with
  | "" => false
  | String c _ => is_word_char c
  end.

(** [re.search(r"\bPST\b|AM|PM", s, re.I)], as a truth value; [prev_word]
    tells that the character before [s] is a word character. *)
Fixpoint time_marker_from (prev_word : bool) (s : string) : bool :=
  (negb prev_word && ci_startswith s "pst" && negb (word_char_at 3 s))
  || ci_startswith s "am" || ci_startswith s "pm"
  || match s with
     | "" => false
     | String c t => time_marker_from (is_word_char c) t
     end.

Definition has_time_marker (s : string) : bool := time_marker_from false s.

Fixpoint span_digits (s : string) : string * string :=
  match s with
  | "" => ("", "")
  | String c t =>
      if is_digit c then let '(d, r) := span_digits t in (String c d, r)
      else ("", s)
  end.

(** [(?:cricflag|flags)/([0-9]+)\.(?:png|gif)] anchored at the start of
    [s]; the result is group 1.  The digit run is followed by a dot, so the
    greedy run is the only one that can match. *)
Definition flag_pattern_at (s : string) : option string :=
  let rest :=
    if startswith s "cricflag/" then Some (drop_chars 9 s)
    else if startswith s "flags/" then Some (drop_chars 6 s)
    else None in
  match rest with
  | Some r =>
      let '(d, r') := span_digits r in
      if nonempty d && (startswith r' ".png" || startswith r' ".gif")
      then Some d else None
  | None => None
  end.

(** [re.search(r"(?:cricflag|flags)/([0-9]+)\.(?:png|gif)", s)], group 1 of
    the leftmost match. *)
Fixpoint flag_id_search (s : string) : option string :=
  match flag_pattern_at s with
  | Some d => Some d
  | None =>
      match s with
      | "" => None
      | String _ t => flag_id_search t
      end
  end.

(** A flag identifier: the digits group 1 of the flag pattern captures. *)
Definition is_flag_id (s : string) : bool := nonempty s && all_chars is_digit s.

(** The reference [s] reads [pre] and then a match of the flag pattern
    [(?:cricflag|flags)/([0-9]+)\.(?:png|gif)] whose group 1 is [fid]. *)
Definition flag_occurrence (s pre fid : string) : Prop :=
  exists dir ext post,
    s = pre +:+ dir +:+ "/" +:+ fid +:+ "." +:+ ext +:+ post
    /\ (dir = "cricflag" \/ dir = "flags") /\ (ext = "png" \/ ext = "gif")
    /\ is_flag_id fid = true.

(** [s.replace(old, "")]: the occurrences of [old] are deleted in one pass
    from the left; an empty [old] leaves [s] as it is.  [skip] counts the
    characters of the occurrence being deleted that are still to drop. *)
Fixpoint delete_all_go (old : string) (skip : nat) (s : string) : string :=
  match s with
  | "" => ""
  | String c t =>
      match skip with
      | S k => delete_all_go old k t
      | O =>
          if startswith s old then delete_all_go old (String.length old - 1) t
          else String c (delete_all_go old 0 t)
      end
  end.

Definition delete_all (old s : string) : string :=
  if nonempty old then delete_all_go old 0 s else s.

(** [s.split(sep, 1)] when [sep in s]: the text before and after the
    leftmost occurrence. *)
Fixpoint split_once (sep s : string) : option (string * string) :=
  if startswith s sep then Some ("", drop_chars (String.length sep) s)
  else match s with
       | "" => None
       | String c t =>
           match split_once sep t with
           | Some (l, r) => Some (String c l, r)
           | None => None
           end
       end.

(** ** The element tree returned by BeautifulSoup

    An element carries its tag name, the tokens of its [class] attribute
    (BeautifulSoup keeps that attribute as a list) and its other
    attributes.  A [Text] node is a string that [get_text] collects;
    comments and the content of script and style elements, which it skips,
    are not nodes of the tree. *)
#[local] Unset Elimination Schemes.
Inductive Node : Type :=
| Text (s : string)
| Elem (tag : string) (classes : list string) (attrs : list (string * string))
       (children : list Node).
#[local] Set Elimination Schemes.

Definition tag_of (n : Node) : option string :=
  match n with Text _ => None | Elem t _ _ _ => Some t end.

Definition classes_of (n : Node) : list string :=
  match n with Text _ => [] | Elem _ cl _ _ => cl end.

Definition is_elem (n : Node) : bool :=
  match n with Text _ => false | Elem _ _ _ _ => true end.

Fixpoint assoc (k : string) (l : list (string * string)) : option string :=
  match l with
  | [] => None
  | (k', v) :: r => if String.eqb k k' then Some v else assoc k r
  end.

(** [tag.get(k)] *)
Definition get_attr (k : string) (n : Node) : option string :=
  match n with Text _ => None | Elem _ _ a _ => assoc k a end.

Definition mem (x : string) (l : list string) : bool :=
  existsb (String.eqb x) l.

Definition has_tag (t : string) (n : Node) : bool :=
  match tag_of n with Some t' => String.eqb t t' | None => false end.

Definition has_tag_in (ts : list string) (n : Node) : bool :=
  match tag_of n with Some t' => mem t' ts | None => false end.

Definition has_class (c : string) (n : Node) : bool :=
  is_elem n && mem c (classes_of n).

(** [class_=re.compile(pat)] for a literal [pat] without blanks: some class
    token contains it. *)
Definition class_contains (pat : string) (n : Node) : bool :=
  is_elem n && existsb (contains pat) (classes_of n).

(** The nodes of a subtree in document order, the root first. *)
Fixpoint subtree (n : Node) : list Node :=
  n :: match n with
       | Text _ => []
       | Elem _ _ _ cs => flat_map subtree cs
       end.

(** [tag.descendants] *)
Definition descendants (n : Node) : list Node := tail (subtree n).

(** [tag.find_all(...)] and [tag.select(...)] for a test on single
    elements; [tag.find(...)] and [tag.select_one(...)]. *)
Definition find_all (p : Node -> bool) (n : Node) : list Node :=
  filter (fun d => p d) (descendants n).

Definition find (p : Node -> bool) (n : Node) : option Node :=
  head (find_all p n).

(** The text nodes below a node, in document order. *)
Fixpoint strings (n : Node) : list string :=
  match n with
  | Text s => [s]
  | Elem _ _ _ cs => flat_map strings cs
  end.

(** [tag.get_text(sep, strip=True)]: the stripped, non-empty text pieces
    joined by [sep]. *)
Definition get_text (sep : string) (n : Node) : string :=
  join sep (filter (fun s => nonempty s) (map strip (strings n))).

(** [_text(el)] *)
Definition _text (el : option Node) : string :=
  match el with Some n => get_text " " n | None => "" end.

(** An element together with its place in the document: [after] lists the
    nodes that follow its subtree in document order, [ups] its ancestors,
    the parent first, each with its own [after]. *)
Record Cursor : Type := mkCursor {
  here : Node;
  after : list Node;
  ups : list (Node * list Node)
}.

(** [tag.next_elements] *)
Definition next_elements (c : Cursor) : list Node :=
  descendants (here c) ++ after c.

(** [tag.find_next(...)] *)
Definition find_next (p : Node -> bool) (c : Cursor) : option Node :=
  head (filter (fun d => p d) (next_elements c)).

(** [tag.find_parent()] *)
Definition find_parent (c : Cursor) : option Cursor :=
  match ups c with
  | [] => None
  | (p, a) :: r => Some (mkCursor p a r)
  end.

(** The cursors of a subtree in document order, the root first. *)
Fixpoint walk (n : Node) (aft : list Node) (up : list (Node * list Node)) : list Cursor :=
  mkCursor n aft up ::
  match n with
  | Text _ => []
  | Elem _ _ _ cs =>
      (fix kids (l : list Node) : list Cursor :=
         match l with
         | [] => []
         | c :: r => walk c (flat_map subtree r ++ aft) ((n, aft) :: up) ++ kids r
         end) cs
  end.

(** The cursors of the children [l] of [n], in document order. *)
Fixpoint walk_children (n : Node) (aft : list Node) (up : list (Node * list Node))
    (l : list Node) : list Cursor :=
  match l with
  | [] => []
  | c :: r => walk c (flat_map subtree r ++ aft) ((n, aft) :: up) ++ walk_children n aft up r
  end.

(** Induction on the element tree. *)
Fixpoint Node_ind (P : Node -> Prop)
    (HText : forall s, P (Text s))
    (HElem : forall t cl a cs, Forall P cs -> P (Elem t cl a cs))
    (n : Node) : P n :=
  match n with
  | Text s => HText s
  | Elem t cl a cs =>
      HElem t cl a cs
        ((fix all (l : list Node) : Forall P l :=
            match l with
            | [] => @List.Forall_nil Node P
            | c :: r => @List.Forall_cons Node P c r (Node_ind P HText HElem c) (all r)
            end) cs)
  end.

(** The descendants of a cursor, as cursors. *)
Definition below (c : Cursor) : list Cursor :=
  tail (walk (here c) (after c) (ups c)).

Definition find_all_c (p : Node -> bool) (c : Cursor) : list Cursor :=
  filter (fun d => p (here d)) (below c).

Definition find_c (p : Node -> bool) (c : Cursor) : option Cursor :=
  head (find_all_c p c).

(** The BeautifulSoup object: the document node, with nothing around it. *)
Definition soup_of (doc : Node) : Cursor := mkCursor doc [] [].

(** Some ancestor of the cursor satisfies [p]. *)
Definition has_ancestor (p : Node -> bool) (c : Cursor) : bool :=
  existsb (fun a => p (fst a)) (ups c).

(** ** The world of the flag resolver *)

(** The flags mapping: [mapping.json] holds the two keys [id_to_path] and
    [id_to_name], as [_save_flags_mapping] writes them. *)
Record FlagMapping : Type := mkFlags {
  id_to_path : gmap string string;
  id_to_name : gmap string string
}.

(** - [flags_mem] is the module variable [_FLAGS_MAP]; [None] stands for the
      empty dict it starts with.
    - [mapping_file] is the content of [mapping.json], [None] when the file
      does not exist.
    - [files] are the image files on disk, a path to the size of the file
      stored there; directories are not tracked, so [_ensure_dirs], which
      only creates directories, has nothing to do here.
    - [remote] is the flag server: a URL to the size of the body of a
      successful response, [None] for any failure of the request.  The
      server is a function of the URL: it answers a request the same way
      each time.
    Reading and writing the files themselves does not fail. *)
Record World : Type := mkWorld {
  flags_mem : option FlagMapping;
  mapping_file : option FlagMapping;
  files : gmap string nat;
  remote : string -> option nat
}.

Definition State (A : Type) : Type := World -> A * World.

#[global] Instance state_ret : MRet State := fun A x w => (x, w).
#[global] Instance state_bind : MBind State :=
  fun A B f m w => let '(x, w') := m w in f x w'.

Definition get_world : State World := fun w => (w, w).

Definition _STATIC_FLAGS_MAPPING : string := "/workspace/static/flags/mapping.json".
Definition _FLAGS_RAW_DIR : string := "/workspace/static/flags/raw".
Definition _FLAGS_BY_NAME_DIR : string := "/workspace/static/flags/by-name".
Definition _FLAGS_BASE_URL : string := "https://hamariweb.com//cricket/flags/".

Fixpoint ends_with_slash (s : string) : bool :=
  match s with
  | "" => false
  | String c "" => char_is "/" c
  | String _ t => ends_with_slash t
  end.

(** [os.path.join(a, b)] *)
Definition path_join (a b : string) : string :=
  if startswith b "/" then b
  else if negb (nonempty a) || ends_with_slash a then a +:+ b
  else a +:+ "/" +:+ b.

(** [os.path.basename(p)]: what follows the last slash. *)
Fixpoint basename (p : string) : string :=
  match p with
  | "" => ""
  | String c t => if contains "/" p then basename t else p
  end.

(** [os.path.exists(p)] *)
Definition path_exists (p : string) (w : World) : bool :=
  bool_decide (is_Some (files w !! p)).

(** [_load_flags_mapping]: the cached mapping when there is one, else the
    file, else the empty mapping; the result is cached. *)
Definition _load_flags_mapping : State FlagMapping := fun w =>
  match flags_mem w with
  | Some m => (m, w)
  | None =>
      let m := default (mkFlags ∅ ∅) (mapping_file w) in
      (m, mkWorld (Some m) (mapping_file w) (files w) (remote w))
  end.

(** The mutation of the cached mapping through the dicts
    [_load_flags_mapping] returned. *)
Definition set_flags_mem (m : FlagMapping) : State unit := fun w =>
  (tt, mkWorld (Some m) (mapping_file w) (files w) (remote w)).

(** [_save_flags_mapping]: the temporary file replaces [mapping.json]. *)
Definition _save_flags_mapping (m : FlagMapping) : State unit := fun w =>
  (tt, mkWorld (flags_mem w) (Some m) (files w) (remote w)).

Definition write_file (p : string) (size : nat) : State unit := fun w =>
  (tt, mkWorld (flags_mem w) (mapping_file w) (<[p := size]> (files w)) (remote w)).

(** [shutil.copyfile(src, dst)]; [src] is the path the download returned. *)
Definition copyfile (src dst : string) : State unit := fun w =>
  match files w !! src with
  | Some n => write_file dst n w
  | None => (tt, w)
  end.

(** [os.path.getsize(p)] of an existing file. *)
Definition getsize (p : string) (w : World) : nat := default 0 (files w !! p).

(** [_download_flag_gif] *)
Definition _download_flag_gif (flag_id : string) : State (option string) := fun w =>
  let dst := path_join _FLAGS_RAW_DIR (flag_id +:+ ".gif") in
  if path_exists dst w && bool_decide (0 < getsize dst w) then (Some dst, w)
  else
    match remote w (_FLAGS_BASE_URL +:+ flag_id +:+ ".gif") with
    | Some len =>
        if bool_decide (len < 100) then (None, w)
        else (Some dst, snd (write_file dst len w))
    | None => (None, w)
    end.

(** [os.path.join(_FLAGS_BY_NAME_DIR, f"{base}-{suffix}.gif")] *)
Definition numbered_path (base : string) (suffix : nat) : string :=
  path_join _FLAGS_BY_NAME_DIR (base +:+ "-" +:+ pretty suffix +:+ ".gif").

(** The [while os.path.exists(out_path)] loop of [_ensure_flag_local]:
    [mapped] is [id_to_path.get(flag_id)].  The loop runs on fuel; the number
    of files plus one is always enough ([find_out_path_total]). *)
Fixpoint find_out_path (fuel : nat) (base : string) (mapped : option string)
    (fs : gmap string nat) (out_path : string) (suffix : nat) : option string :=
  match fuel with
  | O => None
  | S k =>
      if bool_decide (is_Some (fs !! out_path)) then
        let rel := "/static/flags/by-name/" +:+ basename out_path in
        if bool_decide (mapped = Some rel) then Some out_path
        else find_out_path k base mapped fs (numbered_path base suffix) (S suffix)
      else Some out_path
  end.

(** The paths the loop can leave in [out_path]: a file of the by-name
    directory whose name has no slash. *)
Definition by_name_file (out_path : string) : Prop :=
  exists fname,
    out_path = "/workspace/static/flags/by-name" +:+ "/" +:+ fname
    /\ all_chars not_slash fname = true.

(** [_ensure_flag_local] *)
Definition _ensure_flag_local (flag_id team_name : string) : State (option string) :=
  flags ← _load_flags_mapping;
  w ← get_world;
  let existing := id_to_path flags !! flag_id in
  if truthy existing &&
     path_exists (path_join "/workspace" (lstrip_char "/" (or_empty existing))) w
  then
    (if nonempty team_name && negb (bool_decide (id_to_name flags !! flag_id = Some team_name))
     then
       let flags' := mkFlags (id_to_path flags) (<[flag_id := team_name]> (id_to_name flags)) in
       _ ← set_flags_mem flags';
       _save_flags_mapping flags'
     else mret tt) ≫= fun _ =>
    mret existing
  else
    raw ← _download_flag_gif flag_id;
    match raw with
    | None => mret None
    | Some raw_path =>
        w ← get_world;
        let base := _slugify (if nonempty team_name then team_name else "flag-" +:+ flag_id) in
        let out_path :=
          default (path_join _FLAGS_BY_NAME_DIR (base +:+ ".gif"))
            (find_out_path (S (size (files w))) base existing (files w)
               (path_join _FLAGS_BY_NAME_DIR (base +:+ ".gif")) 2) in
        _ ← copyfile raw_path out_path;
        let rel_path := "/static/flags/by-name/" +:+ basename out_path in
        let flags' :=
          mkFlags (<[flag_id := rel_path]> (id_to_path flags))
                  (if nonempty team_name then <[flag_id := team_name]> (id_to_name flags)
                   else id_to_name flags) in
        _ ← set_flags_mem flags';
        _ ← _save_flags_mapping flags';
        mret (Some rel_path)
    end.

(** [_local_gif_for_src] *)
Definition _local_gif_for_src (src : option string) : State (option string) :=
  match src with
  | Some s =>
      if nonempty s then
        match flag_id_search s with
        | Some fid => flags ← _load_flags_mapping; mret (id_to_path flags !! fid)
        | None => mret None
        end
      else mret None
  | None => mret None
  end.

(** [_norm_src] *)
Definition _norm_src (src : option string) : State (option string) :=
  match src with
  | Some s =>
      if nonempty s then
        local ← _local_gif_for_src src;
        if truthy local then mret local
        else if startswith s "data:" then mret None
        else if startswith s "//" then mret (Some ("https:" +:+ s))
        else if startswith s "/" then mret (Some ("https://hamariweb.com" +:+ s))
        else mret (Some s)
      else mret None
  | None => mret None
  end.

(** ** The Schedule Extractor *)

Record MatchRecord : Type := mkMatch {
  title : string;
  teams : list string;
  team_images : list (option string);
  status : option string;
  time_or_venue : option string;
  link : option string
}.

(** [_find_content_root] *)
Definition _find_content_root (soup : Cursor) : Cursor :=
  let by_id :=
    omap (fun i => find_c (fun n => is_elem n && bool_decide (get_attr "id" n = Some i)) soup)
         ["main"; "content"; "mainContent"; "ContentPlaceHolder1"] in
  match by_id with
  | el :: _ => el
  | [] =>
      match find_c (has_tag "main") soup with
      | Some m => m
      | None => default soup (find_c (has_tag "body") soup)
      end
  end.

(** The image of a team element, as both passes compute it: the flag
    resolver when the raw reference carries a flag id and the team has a
    name, the normalizer otherwise. *)
Definition team_image (raw : option string) (name : string) : State (option string) :=
  enriched ←
    (if truthy raw && nonempty name then
       match flag_id_search (or_empty raw) with
       | Some fid => _ensure_flag_local fid name
       | None => mret None
       end
     else mret None);
  if truthy enriched then mret enriched else _norm_src raw.

(** The name of a [.teamname] element of a card: the first span that is
    not a score, or the element's own text. *)
Definition card_team_name (tn : Node) : string :=
  match find (fun sp => has_tag "span" sp && negb (mem "score" (classes_of sp))) tn with
  | Some name_span => get_text "" name_span
  | None => get_text " " tn
  end.

Definition card_team_raw_image (tn : Node) : option string :=
  match find (has_tag "img") tn with
  | Some img_tag => get_attr "src" img_tag
  | None => None
  end.

(** The names a loop over team elements appends: the non-empty ones. *)
Definition names_of (name : Node -> string) (l : list Node) : list string :=
  flat_map (fun x => if nonempty (name x) then [name x] else []) l.

(** The loop over [team_nodes] of [_parse_match_updates]. *)
Fixpoint card_teams (team_nodes : list Node) : State (list string * list (option string)) :=
  match team_nodes with
  | [] => mret ([], [])
  | tn :: r =>
      let name_text := card_team_name tn in
      img_src ← team_image (card_team_raw_image tn) name_text;
      '(ts, imgs) ← card_teams r;
      mret ((if nonempty name_text then [name_text] else []) ++ ts, img_src :: imgs)
  end.

(** The test that keeps an entry: some of title, teams, time is not empty. *)
Definition keep_entry (title : string) (teams : list string) (time : option string) : bool :=
  (nonempty title && nonempty (strip title))
  || (bool_decide (teams ≠ []) && bool_decide (0 < length teams))
  || (truthy time && nonempty (strip (or_empty time))).

(** The title and status of a card. *)
Definition card_title_status (mu : Node) : string * option string :=
  let p_tag := find (has_tag "p") mu in
  let raw_title := match p_tag with Some p => get_text " " p | None => "" end in
  let status_tag := match p_tag with Some p => find (has_tag "small") p | None => None end in
  let status_text := match status_tag with Some st => Some (get_text "" st) | None => None end in
  match status_tag, p_tag with
  | Some _, Some _ => (strip (delete_all (or_empty status_text) raw_title), status_text)
  | _, _ => (raw_title, status_text)
  end.

(** [mu.select(".teamname")] *)
Definition card_team_nodes (mu : Node) : list Node :=
  find_all (has_class "teamname") mu.

(** The timing/result text of a card. *)
Definition card_time (mu : Node) : option string :=
  match find (has_class "match_result") mu with
  | Some res => Some (get_text " " res)
  | None => None
  end.

(** One [.match_update] element: the entry, or [None] when it is skipped. *)
Definition parse_match_update (mu : Node) : State (option MatchRecord) :=
  let '(title, status_text) := card_title_status mu in
  '(teams, team_images) ← card_teams (card_team_nodes mu);
  let '(teams, team_images) :=
    if bool_decide (2 < length teams) then (take 2 teams, take 2 team_images)
    else (teams, team_images) in
  let link_tag := find (fun n => has_tag "a" n && bool_decide (is_Some (get_attr "href" n))) mu in
  href ← _norm_src (match link_tag with Some a => get_attr "href" a | None => None end);
  let time_or_venue := card_time mu in
  if negb (keep_entry title teams time_or_venue) then mret None
  else mret (Some (mkMatch title teams team_images status_text time_or_venue href)).

(** The loop of a pass: each element in turn, the kept entries in order. *)
Fixpoint collect {A : Type} (f : A -> State (option MatchRecord)) (l : list A)
    : State (list MatchRecord) :=
  match l with
  | [] => mret []
  | x :: r =>
      o ← f x;
      items ← collect f r;
      mret (match o with Some it => it :: items | None => items end)
  end.

(** [_parse_match_updates] *)
Definition _parse_match_updates (root : Cursor) : State (list MatchRecord) :=
  collect parse_match_update (find_all (has_class "match_update") (here root)).

(** [root.select_one(".table-responsive table.table, table.table")]: the
    first descendant that one of the two selectors matches. *)
Definition select_one_table (root : Cursor) : option Node :=
  option_map here
    (head (filter (fun c =>
                     let table_table := has_tag "table" (here c) && has_class "table" (here c) in
                     (has_ancestor (has_class "table-responsive") c && table_table)
                     || table_table)
                  (below root))).

(** The schedule table of [_parse_schedule_table]. *)
Definition schedule_table (root : Cursor) : option Node :=
  let schedule_heading :=
    head (filter (fun h => contains "schedule" (lower (get_text " " (here h))))
                 (find_all_c (has_tag_in ["h2"; "h3"; "h1"]) root)) in
  match schedule_heading with
  | Some h =>
      match find_next (fun n => has_tag "div" n && class_contains "table-responsive" n) h with
      | Some wrapper => find (has_tag "table") wrapper
      | None => find_next (has_tag "table") h
      end
  | None => select_one_table root
  end.

Definition table_team_name (a : Node) : string :=
  match find (has_tag "span") a with
  | Some name_span => get_text "" name_span
  | None => get_text " " a
  end.

Definition table_team_raw_image (a : Node) : option string :=
  match find (has_tag "img") a with
  | Some img =>
      if truthy (get_attr "data-src" img) then get_attr "data-src" img
      else get_attr "src" img
  | None => None
  end.

(** The loop over [team_cells[:2]] of [_parse_schedule_table]; [link] is
    the link found so far. *)
Fixpoint table_teams (team_cells : list Node) (link : option string)
    : State (list string * list (option string) * option string) :=
  match team_cells with
  | [] => mret ([], [], link)
  | a :: r =>
      let name := table_team_name a in
      img ← team_image (table_team_raw_image a) name;
      link ← (if negb (truthy link) && truthy (get_attr "href" a)
              then _norm_src (get_attr "href" a) else mret link);
      '(ns, imgs, link) ← table_teams r link;
      mret ((if nonempty name then [name] else []) ++ ns, img :: imgs, link)
  end.

Definition row_title (teams_names : list string) (match_type : option string) : string :=
  let title_parts :=
    (if bool_decide (teams_names ≠ []) then [join " vs " (take 2 teams_names)] else [])
    ++ (if truthy match_type then [or_empty match_type] else []) in
  if bool_decide (title_parts ≠ []) then join ", " title_parts
  else or_empty match_type.

Definition row_status (date_time : option string) : option string :=
  if truthy date_time && has_time_marker (or_empty date_time) then Some "Upcoming"
  else None.

Definition row_date_time (tds : list Node) : option string :=
  match tds !! 2 with
  | Some td => or_none (get_text " " td)
  | None => None
  end.

Definition row_match_type (tds : list Node) : option string :=
  match tds !! 1 with
  | Some td => or_none (get_text " " td)
  | None => None
  end.

(** [tds[0].select("a.team_name")[:2]] *)
Definition row_team_cells (td0 : Node) : list Node :=
  take 2 (find_all (fun n => has_tag "a" n && has_class "team_name" n) td0).

(** One [tr] of the schedule table: the entry, or [None] when the row has
    no cell or is skipped as empty. *)
Definition parse_schedule_row (tr : Node) : State (option MatchRecord) :=
  let tds := find_all (has_tag "td") tr in
  match tds with
  | [] => mret None
  | td0 :: _ =>
      '(teams_names, team_images, link) ← table_teams (row_team_cells td0) None;
      link ←
        (if negb (truthy link) then
           match find (fun n => has_tag "a" n && bool_decide (is_Some (get_attr "href" n))) td0 with
           | Some series_link => _norm_src (get_attr "href" series_link)
           | None => mret link
           end
         else mret link);
      let match_type := row_match_type tds in
      let date_time := row_date_time tds in
      let title := row_title teams_names match_type in
      let status := row_status date_time in
      if negb (keep_entry title teams_names date_time) then mret None
      else mret (Some (mkMatch title teams_names team_images status date_time link))
  end.

(** [_parse_schedule_table] *)
Definition _parse_schedule_table (root : Cursor) : State (list MatchRecord) :=
  match schedule_table root with
  | None => mret []
  | Some table => collect parse_schedule_row (find_all (has_tag "tr") table)
  end.

(** [key_for] inside [parse_schedules_html] *)
Definition key_for (it : MatchRecord) : string :=
  title it +:+ "|" +:+ join "-" (teams it) +:+ "|" +:+ or_empty (time_or_venue it).

(** The entry has the key [k]. *)
Definition has_key (k : string) (it : MatchRecord) : bool := String.eqb k (key_for it).

(** The merge loop of [parse_schedules_html]. *)
Fixpoint dedupe (seen : gset string) (items : list MatchRecord) : list MatchRecord :=
  match items with
  | [] => []
  | it :: r =>
      let k := key_for it in
      if bool_decide (k ∈ seen) then dedupe seen r
      else it :: dedupe ({[k]} ∪ seen) r
  end.

(** [parse_schedules_html], from the tree BeautifulSoup built. *)
Definition parse_schedules_html (doc : Node) : State (list MatchRecord) :=
  let root := _find_content_root (soup_of doc) in
  card_items ← _parse_match_updates root;
  table_items ← _parse_schedule_table root;
  mret (dedupe ∅ (card_items ++ table_items)).

(** ** The Scorecard Extractor

    Its functions are written in the [option] monad: [None] stands for an
    exception that escapes the function (an index out of range, a method
    called on [None]); list indexing is [l !! i]. *)

Record BattingEntry : Type := mkBatting {
  bat_name : string;
  dismissal : option string;
  runs : option string;
  balls : option string;
  fours : option string;
  sixes : option string;
  sr : option string
}.

Record BowlingEntry : Type := mkBowling {
  bowl_name : string;
  bowl_ov : string;
  bowl_m : string;
  bowl_r : string;
  bowl_w : string;
  bowl_econ : string
}.

(** The dict of an innings; [bowling] and [team] are the keys that
    [parse_scorecard_html] adds, [None] while the key is absent. *)
Record Innings : Type := mkInnings {
  batting : list BattingEntry;
  extras : option string;
  total : option string;
  note : option string;
  bowling : option (list BowlingEntry);
  team : option string
}.

Record ScorecardResult : Type := mkScorecard {
  ok : bool;
  sc_title : option string;
  sc_teams : list string;
  info : gmap string string;
  innings : list Innings;
  batting_count : nat;
  bowling_count : nat
}.

(** [" ".join(_text(td) for td in tds[1:]).strip() or None] *)
Definition rest_text (tds : list Node) : option string :=
  or_none (strip (join " " (map (fun td => _text (Some td)) (drop 1 tds)))).

(** [_text(tds[i]) if len(tds) > i else None] *)
Definition stat_cell (tds : list Node) (i : nat) : option (option string) :=
  if bool_decide (i < length tds) then
    td ← tds !! i; Some (Some (_text (Some td)))
  else Some None.

(** The name of a player row: the first [b] of the first cell, or the text
    of the cell. *)
Definition batting_name (td0 : Node) : string :=
  let name_b := find (has_tag "b") td0 in
  if nonempty (_text name_b) then _text name_b else _text (Some td0).

(** One [tr] of a batting table, from the innings collected so far. *)
Definition batting_row (tr : Node) (inn : Innings) : option Innings :=
  let tds := find_all (has_tag "td") tr in
  if bool_decide (length tds = 0) then Some inn
  else
    td0 ← tds !! 0;
    let label := lower (_text (Some td0)) in
    if startswith label "extras" then
      Some (mkInnings (batting inn) (rest_text tds) (total inn) (note inn)
              (bowling inn) (team inn))
    else if startswith label "total" then
      Some (mkInnings (batting inn) (extras inn) (rest_text tds) (note inn)
              (bowling inn) (team inn))
    else
      let name := batting_name td0 in
      let dismissal := or_none (_text (find (has_tag "small") td0)) in
      s1 ← stat_cell tds 1;
      s2 ← stat_cell tds 2;
      s3 ← stat_cell tds 3;
      s4 ← stat_cell tds 4;
      s5 ← stat_cell tds 5;
      if nonempty name && existsb truthy [s1; s2; s3; s4; s5]
         && negb (startswith label "did not bat")
      then
        Some (mkInnings (batting inn ++ [mkBatting name dismissal s1 s2 s3 s4 s5])
                (extras inn) (total inn) (note inn) (bowling inn) (team inn))
      else Some inn.

(** A loop over rows that threads what has been collected. *)
Fixpoint fold_rows {A : Type} (f : Node -> A -> option A) (rows : list Node) (acc : A)
    : option A :=
  match rows with
  | [] => Some acc
  | tr :: r => acc' ← f tr acc; fold_rows f r acc'
  end.

(** [table.find("tbody") or table] *)
Definition tbody_of (table : Node) : Node :=
  default table (find (has_tag "tbody") table).

(** The dict [_parse_batting_table] starts from. *)
Definition empty_innings : Innings := mkInnings [] None None None None None.

(** [_parse_batting_table] *)
Definition _parse_batting_table (table : Node) : option Innings :=
  fold_rows batting_row (find_all (has_tag "tr") (tbody_of table)) empty_innings.

Definition bowling_row (tr : Node) (bowlers : list BowlingEntry) : option (list BowlingEntry) :=
  let tds := find_all (has_tag "td") tr in
  if bool_decide (length tds = 0) || bool_decide (length tds < 6) then Some bowlers
  else
    td0 ← tds !! 0; td1 ← tds !! 1; td2 ← tds !! 2;
    td3 ← tds !! 3; td4 ← tds !! 4; td5 ← tds !! 5;
    let name := _text (Some td0) in
    if nonempty name then
      Some (bowlers ++ [mkBowling name (_text (Some td1)) (_text (Some td2))
                          (_text (Some td3)) (_text (Some td4)) (_text (Some td5))])
    else Some bowlers.

(** [_parse_bowling_table] *)
Definition _parse_bowling_table (table : Node) : option (list BowlingEntry) :=
  fold_rows bowling_row (find_all (has_tag "tr") (tbody_of table)) [].

Definition info_row (tr : Node) (info : gmap string string) : option (gmap string string) :=
  let key := _text (find (has_tag "th") tr) in
  let val := _text (find (has_tag "td") tr) in
  if nonempty key && nonempty val then Some (<[key := val]> info) else Some info.

(** The elements [.section_title .title, .section_title h1,
    .section_title h2] select. *)
Definition section_titles (soup : Cursor) : list Cursor :=
  filter (fun c => has_ancestor (has_class "section_title") c &&
                   (has_class "title" (here c) || has_tag "h1" (here c) || has_tag "h2" (here c)))
         (below soup).

(** [_parse_match_info] *)
Definition _parse_match_info (soup : Cursor) : option (gmap string string) :=
  let title_div :=
    head (filter (fun d => contains "match information" (lower (_text (Some (here d)))))
                 (section_titles soup)) in
  table ←
    match title_div with
    | Some d =>
        parent ← find_parent d;
        match find_next (fun n => has_tag "div" n && class_contains "table-responsive" n) parent with
        | Some wrap => Some (find (has_tag "table") wrap)
        | None => Some None
        end
    | None => Some None
    end;
  let table := match table with Some t => Some t | None => find (has_tag "table") (here soup) end in
  match table with
  | None => Some ∅
  | Some t => fold_rows info_row (find_all (has_tag "tr") t) ∅
  end.

(** [s.split(",", 1)[0]] *)
Definition before_comma (s : string) : string :=
  match split_once "," s with
  | Some (l, _) => l
  | None => s
  end.

(** [_extract_title_and_teams]; [title.split(" VS ", 1)] has a second part
    only when the separator occurs. *)
Definition _extract_title_and_teams (soup : Cursor) : option (option string * list string) :=
  let title := or_none (_text (find (has_tag "title") (here soup))) in
  if truthy title && contains " VS " (or_empty title) then
    '(l, right_part) ← split_once " VS " (or_empty title);
    let left := strip l in
    let right := strip (before_comma right_part) in
    if nonempty left && nonempty right then Some (title, [left; right])
    else Some (title, [])
  else Some (title, []).

(** The classification loop of [parse_scorecard_html]. *)
Definition table_head (t : Node) : option string :=
  option_map (fun th => lower (get_text " " th)) (find (has_tag "thead") t).

Definition is_batting_table (t : Node) : bool :=
  match table_head t with Some h => contains "batting" h | None => false end.

Definition is_bowling_table (t : Node) : bool :=
  match table_head t with
  | Some h => negb (contains "batting" h) && contains "bowling" h
  | None => false
  end.

(** The loop over [enumerate(batting_tables)]. *)
Fixpoint build_innings (idx : nat) (batting_tables bowling_tables : list Node)
    (teams : list string) : option (list Innings) :=
  match batting_tables with
  | [] => Some []
  | bt :: r =>
      inn ← _parse_batting_table bt;
      bowl ← (if bool_decide (idx < length bowling_tables)
              then b ← bowling_tables !! idx; Some (Some b) else Some None);
      bowling ← match bowl with
                | Some b => l ← _parse_bowling_table b; Some (Some l)
                | None => Some (bowling inn)
                end;
      team ← (if bool_decide (teams ≠ [])
              then t ← (if bool_decide (length teams = 0) then None
                        else teams !! (idx mod length teams));
                   Some (Some t)
              else Some (team inn));
      rest ← build_innings (S idx) r bowling_tables teams;
      Some (mkInnings (batting inn) (extras inn) (total inn) (note inn) bowling team :: rest)
  end.

(** [parse_scorecard_html], from the tree BeautifulSoup built. *)
Definition parse_scorecard_html (doc : Node) : option ScorecardResult :=
  let soup := soup_of doc in
  '(title, teams) ← _extract_title_and_teams soup;
  let tables := find_all (has_tag "table") doc in
  let batting_tables := filter (fun t => is_batting_table t) tables in
  let bowling_tables := filter (fun t => is_bowling_table t) tables in
  innings ← build_innings 0 batting_tables bowling_tables teams;
  info ← _parse_match_info soup;
  Some (mkScorecard true title teams info innings
          (length batting_tables) (length bowling_tables)).

(** ** Sample inputs *)

(** No cached mapping, no mapping file, no image on disk; the flag server
    knows flag 12 only. *)
Definition sample_world : World :=
  mkWorld None None ∅
    (fun url => if String.eqb url "https://hamariweb.com//cricket/flags/12.gif"
                then Some 500 else None).

(** A world whose mapping sends flag 12 to a by-name file. *)
Definition mapped_world : World :=
  mkWorld None
    (Some (mkFlags {["12" := "/static/flags/by-name/team-a.gif"]} ∅)) ∅
    (fun _ => None).

(** A card: "Team A" against "Team B", status "Live". *)
Definition sample_status : Node := Elem "small" [] [] [Text "Live"].

Definition sample_title_p : Node := Elem "p" [] [] [Text "Final "; sample_status].

Definition sample_card : Node :=
  Elem "div" ["match_update"] [] [
    sample_title_p;
    Elem "div" ["teamname"] []
      [Elem "img" [] [("src", "/cricflag/12.png")] []; Elem "span" [] [] [Text "Team A"]];
    Elem "div" ["teamname"] []
      [Elem "span" ["score"] [] [Text "12/1"]; Elem "span" [] [] [Text "Team B"]]].

(** A schedule page with that card and one table row ("Team C" against
    "Team D", at "12 May 2024, 3:00 PM"). *)
Definition sample_schedule_page : Node :=
  Elem "[document]" [] [] [Elem "html" [] [] [Elem "body" [] [] [
    sample_card;
    Elem "h2" [] [] [Text "Match Schedule"];
    Elem "div" ["table-responsive"] [] [Elem "table" ["table"] [] [
      Elem "tr" [] [] [Elem "th" [] [] [Text "Teams"]];
      Elem "tr" [] [] [
        Elem "td" [] []
          [Elem "a" ["team_name"] [("href", "/m/1")] [Elem "span" [] [] [Text "Team C"]];
           Elem "a" ["team_name"] [] [Elem "span" [] [] [Text "Team D"]]];
        Elem "td" [] [] [Text "1st ODI"];
        Elem "td" [] [] [Text "12 May 2024, 3:00 PM"]]]]]]].

Definition sample_card_entry : MatchRecord :=
  mkMatch "Final" ["Team A"; "Team B"]
    [Some "/static/flags/by-name/team-a.gif"; None] (Some "Live") None None.

Definition sample_row_entry : MatchRecord :=
  mkMatch "Team C vs Team D, 1st ODI" ["Team C"; "Team D"] [None; None]
    (Some "Upcoming") (Some "12 May 2024, 3:00 PM") (Some "https://hamariweb.com/m/1").

(** A schedule page with two table rows: the date/time of the first names
    a time zone, "14:00 GMT"; that of the second is a venue, "Edgbaston,
    Birmingham". *)
Definition marker_rows_page : Node :=
  Elem "[document]" [] [] [Elem "html" [] [] [Elem "body" [] [] [
    Elem "h2" [] [] [Text "Match Schedule"];
    Elem "div" ["table-responsive"] [] [Elem "table" ["table"] [] [
      Elem "tr" [] [] [
        Elem "td" [] []
          [Elem "a" ["team_name"] [] [Elem "span" [] [] [Text "Team C"]];
           Elem "a" ["team_name"] [] [Elem "span" [] [] [Text "Team D"]]];
        Elem "td" [] [] [Text "1st ODI"];
        Elem "td" [] [] [Text "14:00 GMT"]];
      Elem "tr" [] [] [
        Elem "td" [] []
          [Elem "a" ["team_name"] [] [Elem "span" [] [] [Text "Team E"]];
           Elem "a" ["team_name"] [] [Elem "span" [] [] [Text "Team F"]]];
        Elem "td" [] [] [Text "2nd ODI"];
        Elem "td" [] [] [Text "Edgbaston, Birmingham"]]]]]]].

Definition time_zone_entry : MatchRecord :=
  mkMatch "Team C vs Team D, 1st ODI" ["Team C"; "Team D"] [None; None]
    None (Some "14:00 GMT") None.

Definition venue_entry : MatchRecord :=
  mkMatch "Team E vs Team F, 2nd ODI" ["Team E"; "Team F"] [None; None]
    (Some "Upcoming") (Some "Edgbaston, Birmingham") None.

(** A card whose title holds the status text twice more. *)
Definition repeated_status_card : Node :=
  Elem "div" ["match_update"] [] [
    Elem "p" [] [] [Text "Live Final, Live from Lahore "; sample_status]].

(** A schedule row whose second team link holds a picture and no name. *)
Definition unnamed_team_row : Node :=
  Elem "tr" [] [] [
    Elem "td" [] []
      [Elem "a" ["team_name"] [] [Elem "span" [] [] [Text "Team C"]];
       Elem "a" ["team_name"] [] [Elem "img" [] [("src", "/img/tbd.png")] []]];
    Elem "td" [] [] [Text "Final"];
    Elem "td" [] [] [Text "12 May 2024"]].

Definition unnamed_team_page : Node :=
  Elem "[document]" [] [] [Elem "html" [] [] [Elem "body" [] [] [
    Elem "h2" [] [] [Text "Schedule"];
    Elem "div" ["table-responsive"] [] [Elem "table" ["table"] [] [unnamed_team_row]]]]].

Definition unnamed_team_entry : MatchRecord :=
  mkMatch "Team C, Final" ["Team C"] [None; Some "https://hamariweb.com/img/tbd.png"]
    None (Some "12 May 2024") None.

(** A card with three team elements, the first with a picture and no name. *)
Definition three_team_card : Node :=
  Elem "div" ["match_update"] [] [
    Elem "p" [] [] [Text "Tri-series"];
    Elem "div" ["teamname"] [] [Elem "img" [] [("src", "/img/a.png")] []];
    Elem "div" ["teamname"] [] [Elem "span" [] [] [Text "Team B"]];
    Elem "div" ["teamname"] [] [Elem "span" [] [] [Text "Team C"]]].

Definition three_team_entry : MatchRecord :=
  mkMatch "Tri-series" ["Team B"; "Team C"]
    [Some "https://hamariweb.com/img/a.png"; None; None] None None None.

(** A page where a card and a table row have the same key. *)
Definition duplicate_key_page : Node :=
  Elem "[document]" [] [] [Elem "html" [] [] [Elem "body" [] [] [
    Elem "div" ["match_update"] [] [
      Elem "p" [] [] [Text "Team A vs Team B "; Elem "small" [] [] [Text "Live"]];
      Elem "div" ["teamname"] [] [Elem "span" [] [] [Text "Team A"]];
      Elem "div" ["teamname"] [] [Elem "span" [] [] [Text "Team B"]]];
    Elem "h2" [] [] [Text "Schedule"];
    Elem "div" ["table-responsive"] [] [Elem "table" ["table"] [] [
      Elem "tr" [] [] [
        Elem "td" [] []
          [Elem "a" ["team_name"] [("href", "/m/2")] [Elem "span" [] [] [Text "Team A"]];
           Elem "a" ["team_name"] [] [Elem "span" [] [] [Text "Team B"]]]]]]]]].

(** A batting row "Extras" with an empty cell before the figure, and one
    that holds the cell "Extras" only. *)
Definition extras_row : Node :=
  Elem "tr" [] [] [
    Elem "td" [] [] [Text "Extras (b 4, lb 2)"];
    Elem "td" [] [] [];
    Elem "td" [] [] [Text "12"]].

Definition bare_extras_row : Node :=
  Elem "tr" [] [] [Elem "td" [] [] [Text "Extras"]].

(** ** What the flag resolver keeps *)

(** The mapping the scraper works with: the cached one, or the one of the
    mapping file, or the empty one. *)
Definition current_mapping (w : World) : FlagMapping := fst (_load_flags_mapping w).

(** The file a local reference names:
    [os.path.join("/workspace", ref.lstrip("/"))]. *)
Definition ref_file (ref : string) : string := path_join "/workspace" (lstrip_char "/" ref).

(** The cached mapping, when there is one, is the one of the mapping file. *)
Definition cache_coherent (w : World) : Prop :=
  forall m, flags_mem w = Some m -> m = default (mkFlags ∅ ∅) (mapping_file w).

(** From [w] to [w'] the flag server is the same and every file that is not
    empty is still there with its size. *)
Definition keeps_files (w w' : World) : Prop :=
  remote w' = remote w
  /\ forall p n, files w !! p = Some n -> 0 < n -> files w' !! p = Some n.

(** From [w] to [w'] no identifier loses its reference or its name. *)
Definition keeps_ids (w w' : World) : Prop :=
  forall fid,
    (is_Some (id_to_path (current_mapping w) !! fid) ->
     is_Some (id_to_path (current_mapping w') !! fid))
    /\ (is_Some (id_to_name (current_mapping w) !! fid) ->
        is_Some (id_to_name (current_mapping w') !! fid)).

(** Every reference of the mapping names a file on disk, and two
    identifiers never share a file. *)
Definition mapping_sound (w : World) : Prop :=
  (forall fid e, id_to_path (current_mapping w) !! fid = Some e ->
                 e <> "" /\ exists n, files w !! ref_file e = Some n /\ 0 < n)
  /\ (forall f1 f2 e1 e2,
        id_to_path (current_mapping w) !! f1 = Some e1 ->
        id_to_path (current_mapping w) !! f2 = Some e2 ->
        ref_file e1 = ref_file e2 -> f1 = f2).

(** A computation keeps an invariant of the world. *)
Definition preserves {A : Type} (I : World -> Prop) (m : State A) : Prop :=
  forall w, I w -> I (snd (m w)).

(** A string that does not end with white space. *)
Fixpoint no_trail_space (s : string) : bool :=
  match s with
  | "" => true
  | String c "" => negb (is_space c)
  | String _ t => no_trail_space t
  end.

(** A reference an entry can carry: not empty, and either not rooted at
    [/] or the name of a file on disk that is not empty. *)
Definition good_ref (w : World) (x : string) : Prop :=
  x <> "" /\ (startswith x "/" = false \/ exists n, files w !! ref_file x = Some n /\ 0 < n).

Definition good_opt (w : World) (o : option string) : Prop :=
  forall x, o = Some x -> good_ref w x.

Definition good_record (w : World) (r : MatchRecord) : Prop :=
  Forall (good_opt w) (team_images r) /\ good_opt w (link r).

(** ** The rows of a scorecard table *)

(** [_has_th_with_text] *)
Definition _has_th_with_text (table : Node) (keyword : string) : bool :=
  match find (has_tag "thead") table with
  | None => false
  | Some thead => contains (lower keyword) (lower (get_text " " thead))
  end.

(** The label of a row of a batting table: the text of its first cell in
    lower case. *)
Definition row_label (tr : Node) : option string :=
  match find_all (has_tag "td") tr with
  | [] => None
  | td0 :: _ => Some (lower (_text (Some td0)))
  end.

Definition is_extras_row (tr : Node) : bool :=
  match row_label tr with Some l => startswith l "extras" | None => false end.

Definition is_total_row (tr : Node) : bool :=
  match row_label tr with Some l => startswith l "total" | None => false end.

(** A row of a bowling table that gives an entry: six cells or more, the
    first with text. *)
Definition is_bowler_row (tr : Node) : bool :=
  let tds := find_all (has_tag "td") tr in
  bool_decide (6 <= length tds) && nonempty (_text (head tds)).

(** A player entry as the batting loop keeps it: a name and a figure. *)
Definition player_entry (e : BattingEntry) : Prop :=
  bat_name e <> "" /\ strip (bat_name e) = bat_name e
  /\ (forall x, dismissal e = Some x -> x <> "")
  /\ Exists (fun s => exists x, s = Some x /\ x <> "")
       [runs e; balls e; fours e; sixes e; sr e].

(** The class of the characters other than the comma. *)
Definition not_comma (c : Ascii.ascii) : bool := negb (char_is "," c).

(** ** download_flags.py: the download script

    The script keeps its dictionaries in the order of insertion and walks
    through them, so a [dict] is the list of its items here.  Its world is
    the mapping file as [json.load] reads it (the two dictionaries
    [id_to_name] and [id_to_path], an absent key as the empty one), the
    image files, the flag server and the schedules page; [None] as the page
    stands for a request that fails.  As in the world of the scraper,
    directories are not tracked: a path exists when a file is stored at
    it. *)

Definition Dict : Type := list (string * string).

(** [k in d] *)
Definition dict_has (k : string) (d : Dict) : bool :=
  match assoc k d with Some _ => true | None => false end.

(** [d[k] = v] *)
Fixpoint dict_set (k v : string) (d : Dict) : Dict :=
  match d with
  | [] => [(k, v)]
  | (k', v') :: r => if String.eqb k k' then (k', v) :: r else (k', v') :: dict_set k v r
  end.

(** [d.update(new)] *)
Definition dict_update (d new : Dict) : Dict :=
  fold_left (fun acc kv => dict_set (fst kv) (snd kv) acc) new d.

Record Disk : Type := mkDisk {
  disk_mapping : option (Dict * Dict);
  disk_files : gmap string nat;
  flag_server : string -> option nat;
  schedules_page : option Node
}.

Definition BASE : string := "/workspace".
Definition STATIC_DIR : string := path_join BASE "static".
Definition FLAGS_RAW_DIR : string := path_join (path_join STATIC_DIR "flags") "raw".
Definition FLAGS_BY_NAME_DIR : string := path_join (path_join STATIC_DIR "flags") "by-name".
Definition FLAGS_BASE_URL : string := "https://hamariweb.com//cricket/flags/".

Definition disk_exists (p : string) (d : Disk) : bool :=
  bool_decide (is_Some (disk_files d !! p)).

Definition disk_write (p : string) (size : nat) (d : Disk) : Disk :=
  mkDisk (disk_mapping d) (<[p := size]> (disk_files d)) (flag_server d) (schedules_page d).

(** [download_gif] *)
Definition download_gif (flag_id : nat) (d : Disk) : option string * Disk :=
  let dst := path_join FLAGS_RAW_DIR (pretty flag_id +:+ ".gif") in
  if disk_exists dst d && bool_decide (0 < default 0 (disk_files d !! dst)) then (Some dst, d)
  else
    match flag_server d (FLAGS_BASE_URL +:+ pretty flag_id +:+ ".gif") with
    | Some len =>
        if bool_decide (len < 100) then (None, d)
        else (Some dst, disk_write dst len d)
    | None => (None, d)
    end.

(** [record] inside [build_id_to_name_map]: the first name seen for an
    identifier stays. *)
Definition record (img_src name : option string) (mapping : Dict) : Dict :=
  if negb (truthy img_src) || negb (truthy name) then mapping
  else
    match flag_id_search (or_empty img_src) with
    | None => mapping
    | Some key =>
        if dict_has key mapping then mapping
        else mapping ++ [(key, strip (or_empty name))]
    end.

(** [re.split(r"\s{2,}|\s+\d+/?\d*", txt)[0]]: the text before the first
    white space that is followed by white space or by a digit. *)
Fixpoint before_score (s : string) : string :=
  match s with
  | "" => ""
  | String c t =>
      if is_space c && match t with
                       | String d _ => is_space d || is_digit d
                       | "" => false
                       end
      then "" else String c (before_score t)
  end.

(** [name = img["alt"]] when no name was found and the image has one. *)
Definition name_or_alt (name : option string) (img : option Node) : option string :=
  if negb (truthy name) then
    match img with
    | Some i => if truthy (get_attr "alt" i) then get_attr "alt" i else name
    | None => name
    end
  else name.

(** The source and the name a team link of the table gives to [record]. *)
Definition link_record (a : Node) : option string * option string :=
  let img := find (has_tag "img") a in
  let img_src :=
    match img with
    | Some i => if truthy (get_attr "data-src" i) then get_attr "data-src" i
                else get_attr "src" i
    | None => None
    end in
  let name :=
    or_none (match find (has_tag "span") a with
             | Some span => get_text "" span
             | None => get_text " " a
             end) in
  (img_src, name_or_alt name img).

(** The source and the name a team element of a card gives to [record]. *)
Definition card_record (tn : Node) : option string * option string :=
  let img := find (has_tag "img") tn in
  let img_src := match img with Some i => get_attr "src" i | None => None end in
  let txt := get_text " " tn in
  let name := if nonempty txt then Some (strip (before_score txt)) else None in
  (img_src, name_or_alt name img).

(** [soup.select(".match_update .teamname")] *)
Definition card_team_elements (soup : Cursor) : list Node :=
  map here (filter (fun c => has_ancestor (has_class "match_update") c
                             && has_class "teamname" (here c))
                   (below soup)).

(** The calls of [record], in order: the team links, then the cards. *)
Definition recorded_pairs (doc : Node) : list (option string * option string) :=
  map link_record (find_all (fun n => has_tag "a" n && has_class "team_name" n) doc)
  ++ map card_record (card_team_elements (soup_of doc)).

(** [build_id_to_name_map]; [None] when the page cannot be had and the
    exception leaves the function. *)
Definition build_id_to_name_map (d : Disk) : option Dict :=
  match schedules_page d with
  | None => None
  | Some doc =>
      Some (fold_left (fun mapping p => record (fst p) (snd p) mapping) (recorded_pairs doc) [])
  end.

(** The loop of [write_by_name_gifs]; the result is [None] when
    [shutil.copyfile] is asked to copy a file onto itself and raises. *)
Fixpoint write_loop (items : Dict) (used_names : gmap string nat) (id_to_path : Dict)
    (d : Disk) : option Dict * Disk :=
  match items with
  | [] => (Some id_to_path, d)
  | (sid, name) :: r =>
      let src := path_join FLAGS_RAW_DIR (sid +:+ ".gif") in
      if negb (disk_exists src d) then write_loop r used_names id_to_path d
      else
        let base := DownloadFlags.slugify name in
        let count := default 0 (used_names !! base) in
        let out_name :=
          if bool_decide (count = 0) then base else base +:+ "-" +:+ pretty (count + 1) in
        let used_names := <[base := count + 1]> used_names in
        let dst := path_join FLAGS_BY_NAME_DIR (out_name +:+ ".gif") in
        if String.eqb src dst then (None, d)
        else
          let d := disk_write dst (default 0 (disk_files d !! src)) d in
          let rel := "/static/flags/by-name/" +:+ out_name +:+ ".gif" in
          write_loop r used_names (dict_set sid rel id_to_path) d
  end.

(** [write_by_name_gifs] *)
Definition write_by_name_gifs (id_to_name : Dict) (d : Disk) : option Dict * Disk :=
  write_loop id_to_name ∅ [] d.

(** [_load_existing_mapping] *)
Definition _load_existing_mapping (d : Disk) : Dict * Dict :=
  default ([], []) (disk_mapping d).

(** The file an existing reference is checked at, in [main]. *)
Definition fs_path (rel : string) : string :=
  if startswith rel "/" then path_join BASE (lstrip_char "/" rel) else path_join BASE rel.

(** The two loops of [main] that merge the paths. *)
Definition merge_paths (existing_paths id_to_path_new : Dict) (d : Disk) : Dict :=
  let kept :=
    fold_left (fun merged kv =>
                 if disk_exists (fs_path (snd kv)) d then dict_set (fst kv) (snd kv) merged
                 else merged)
              existing_paths [] in
  fold_left (fun merged kv =>
               if dict_has (fst kv) merged then merged
               else dict_set (fst kv) (snd kv) merged)
            id_to_path_new kept.

(** The first loop of [main]: [download_gif] for each identifier. *)
Definition download_all (ids : list nat) (d : Disk) : Disk :=
  fold_left (fun acc i => snd (download_gif i acc)) ids d.

(** The part of [main] that follows the downloads: [existing] is the
    mapping loaded at the start. *)
Definition finish_main (existing : Dict * Dict) (d : Disk) : option unit * Disk :=
  match build_id_to_name_map d with
  | None => (None, d)
  | Some id_to_name_new =>
      let id_to_name := dict_update (fst existing) id_to_name_new in
      match write_by_name_gifs id_to_name d with
      | (None, d) => (None, d)
      | (Some id_to_path_new, d) =>
          let merged_paths := merge_paths (snd existing) id_to_path_new d in
          (Some tt,
           mkDisk (Some (id_to_name, merged_paths)) (disk_files d) (flag_server d)
             (schedules_page d))
      end
  end.

(** [main]; the result is [None] when an exception leaves it. *)
Definition main (d : Disk) : option unit * Disk :=
  let existing := _load_existing_mapping d in
  let d := download_all (seq 1 300) d in
  finish_main existing d.

(** The pair gives [record] a name for the identifier [key]. *)
Definition records (key : string) (p : option string * option string) : bool :=
  truthy (fst p) && truthy (snd p)
  && bool_decide (flag_id_search (or_empty (fst p)) = Some key).

(** The raw file of an identifier, as the script names it. *)
Definition raw_file (sid : string) : string := path_join FLAGS_RAW_DIR (sid +:+ ".gif").

(** The reference of the copy number [count + 1] of a slug, as
    [write_by_name_gifs] names it. *)
Definition script_rel (base : string) (count : nat) : string :=
  "/static/flags/by-name/"
  +:+ (if bool_decide (count = 0) then base else base +:+ "-" +:+ pretty (count + 1))
  +:+ ".gif".

(** The items with a raw file on disk whose name has the slug [base]. *)
Definition same_slug (base : string) (d : Disk) (items : list (string * string))
    : list (string * string) :=
  filter (fun kv => disk_exists (raw_file (fst kv)) d
                    && String.eqb (DownloadFlags.slugify (snd kv)) base) items.

(** The raw image of the identifier [i] is on disk and not empty. *)
Definition has_raw (i : nat) (d : Disk) : Prop :=
  exists n, disk_files d !! raw_file (pretty i) = Some n /\ 0 < n.

(** The flag server answers the request for [i] with 100 bytes or more. *)
Definition served (i : nat) (d : Disk) : Prop :=
  exists n, flag_server d (FLAGS_BASE_URL +:+ pretty i +:+ ".gif") = Some n /\ 100 <= n.

(** ** app.py: the endpoints

    A handler returns a body and a status.  The page a fetch function
    returns is the tree BeautifulSoup builds from it; a fetch that raises
    gives the text of its exception. *)
Inductive Body : Type :=
| ErrorBody (error : string)
| ScheduleBody (count : nat) (items : list MatchRecord)
| ScorecardBody (data : ScorecardResult).

Record Response : Type := mkResponse {
  body : Body;
  http_status : nat
}.

(** [api_schedules]; [fetched] is what [fetch_schedules_html] gives. *)
Definition api_schedules (fetched : Node + string) : State Response :=
  match fetched with
  | inl doc =>
      items ← parse_schedules_html doc;
      mret (mkResponse (ScheduleBody (length items) items) 200)
  | inr error => mret (mkResponse (ErrorBody error) 500)
  end.

(** [api_scorecard]; [url] is [request.args.get("url")] and [fetch] is
    [fetch_scorecard_html].  [parse_error] stands for the text of an
    exception of the extraction. *)
Definition api_scorecard (url : option string) (fetch : string -> Node + string)
    (parse_error : string) : Response :=
  if negb (truthy url) then mkResponse (ErrorBody "missing url") 400
  else
    match fetch (or_empty url) with
    | inl doc =>
        match parse_scorecard_html doc with
        | Some data => mkResponse (ScorecardBody data) 200
        | None => mkResponse (ErrorBody parse_error) 500
        end
    | inr error => mkResponse (ErrorBody error) 500
    end.

(** The writes of the loop of [write_by_name_gifs], as a list: the
    references it gives and, in order, the files it writes with their
    sizes.  The raw files are read from [d]. *)
Fixpoint write_plan (items : Dict) (used_names : gmap string nat) (id_to_path : Dict)
    (d : Disk) : Dict * list (string * nat) :=
  match items with
  | [] => (id_to_path, [])
  | (sid, name) :: r =>
      let src := path_join FLAGS_RAW_DIR (sid +:+ ".gif") in
      if negb (disk_exists src d) then write_plan r used_names id_to_path d
      else
        let base := DownloadFlags.slugify name in
        let count := default 0 (used_names !! base) in
        let out_name :=
          if bool_decide (count = 0) then base else base +:+ "-" +:+ pretty (count + 1) in
        let used_names := <[base := count + 1]> used_names in
        let dst := path_join FLAGS_BY_NAME_DIR (out_name +:+ ".gif") in
        let rel := "/static/flags/by-name/" +:+ out_name +:+ ".gif" in
        let plan := write_plan r used_names (dict_set sid rel id_to_path) d in
        (fst plan, (dst, default 0 (disk_files d !! src)) :: snd plan)
  end.

Definition apply_writes (writes : list (string * nat)) (fs : gmap string nat)
    : gmap string nat :=
  fold_left (fun acc pn => <[fst pn := snd pn]> acc) writes fs.

(** The size the last write to [p] leaves. *)
Fixpoint last_write (p : string) (writes : list (string * nat)) : option nat :=
  match writes with
  | [] => None
  | (q, n) :: r =>
      match last_write p r with
      | Some m => Some m
      | None => if String.eqb p q then Some n else None
      end
  end.

(** A disk of the script: a mapping file that names flag 7, the raw images
    of the flags 7 and 8, a server that knows flag 12 only, and the sample
    schedule page. *)
Definition sample_disk : Disk :=
  mkDisk (Some ([("7", "Team A")], []))
    (<["/workspace/static/flags/raw/7.gif" := 300]>
       (<["/workspace/static/flags/raw/8.gif" := 400]> ∅))
    (fun url => if String.eqb url "https://hamariweb.com//cricket/flags/12.gif"
                then Some 500 else None)
    (Some sample_schedule_page).

(** ** The calls of the resolver that a page gives rise to *)

(** The world once the mapping is loaded. *)
Definition loaded (w : World) : World := snd (_load_flags_mapping w).

(** The world after a restart of the process: the cache is empty. *)
Definition restart (w : World) : World :=
  mkWorld None (mapping_file w) (files w) (remote w).

(** The call of [_ensure_flag_local] a team element makes: none, or one
    with the identifier its picture shows and its name. *)
Definition team_calls (raw : option string) (name : string) : list (string * string) :=
  if truthy raw && nonempty name then
    match flag_id_search (or_empty raw) with
    | Some fid => [(fid, name)]
    | None => []
    end
  else [].

Definition card_calls (mu : Node) : list (string * string) :=
  flat_map (fun tn => team_calls (card_team_raw_image tn) (card_team_name tn))
           (card_team_nodes mu).

Definition row_calls (tr : Node) : list (string * string) :=
  match find_all (has_tag "td") tr with
  | [] => []
  | td0 :: _ =>
      flat_map (fun a => team_calls (table_team_raw_image a) (table_team_name a))
               (row_team_cells td0)
  end.

(** The calls of a page, in the order [parse_schedules_html] makes them. *)
Definition page_calls (doc : Node) : list (string * string) :=
  let root := _find_content_root (soup_of doc) in
  flat_map card_calls (find_all (has_class "match_update") (here root))
  ++ match schedule_table root with
     | None => []
     | Some table => flat_map row_calls (find_all (has_tag "tr") table)
     end.

Definition run_calls (calls : list (string * string)) (w : World) : World :=
  fold_left (fun acc c => snd (_ensure_flag_local (fst c) (snd c) acc)) calls w.

(** Up to the loading of the mapping, a computation changes the world as
    the calls [calls] of the resolver do. *)
Definition has_calls {A : Type} (m : State A) (calls : list (string * string)) : Prop :=
  forall w, loaded (snd (m w)) = run_calls calls (loaded w).

(** The identifier has a reference; no image of it can be had. *)
Definition mapped (i : string) (w : World) : Prop :=
  is_Some (id_to_path (current_mapping w) !! i).

Definition unavailable (i : string) (w : World) : Prop :=
  fst (_download_flag_gif i w) = None.

(** The name of the last call for an identifier. *)
Fixpoint last_name (i : string) (calls : list (string * string)) : option string :=
  match calls with
  | [] => None
  | (j, n) :: r =>
      match last_name i r with
      | Some x => Some x
      | None => if String.eqb i j then Some n else None
      end
  end.

(** ** The scraper on the disk of the script *)

(** The world the scraper finds when its process starts on a disk of the
    script: nothing is cached yet, the mapping file, the files and the
    server are those of the disk.  The two JSON objects of the mapping file
    are read as maps. *)
Definition world_of_disk (d : Disk) : World :=
  mkWorld None
    (match disk_mapping d with
     | Some (names, paths) => Some (mkFlags (list_to_map paths) (list_to_map names))
     | None => None
     end)
    (disk_files d) (flag_server d).

(** A world whose mapping holds a reference for flag 12 that names no file
    on disk; the flag server knows flag 7 only. *)
Definition stale_world : World :=
  mkWorld None
    (Some (mkFlags {["12" := "/static/flags/by-name/team-b.gif"]} ∅)) ∅
    (fun url => if String.eqb url "https://hamariweb.com//cricket/flags/7.gif"
                then Some 500 else None).

(** A card with the flags 12 and 7. *)
Definition stale_page : Node :=
  Elem "[document]" [] [] [Elem "html" [] [] [Elem "body" [] [] [
    Elem "div" ["match_update"] [] [
      Elem "p" [] [] [Text "Final"];
      Elem "div" ["teamname"] []
        [Elem "img" [] [("src", "/cricflag/12.png")] []; Elem "span" [] [] [Text "Team A"]];
      Elem "div" ["teamname"] []
        [Elem "img" [] [("src", "/cricflag/7.png")] []; Elem "span" [] [] [Text "Team B"]]]]]].

(** ** Proof tools *)

(** A fact about one character, by its 256 cases. *)
Ltac by_cases_on_char c :=
  destruct c as [[|] [|] [|] [|] [|] [|] [|] [|]]; vm_compute; intros; congruence.

(** Unfold the bind and return of the state monad. *)
Ltac unfold_state := unfold mbind, state_bind, mret, state_ret in *.

(** * Properties *)

(** ** Characters *)

Lemma alnum_not_space c : is_lower_alnum c = true -> is_space c = false.
Proof. by_cases_on_char c. Qed.

Lemma alnum_not_dash c : is_lower_alnum c = true -> char_is "-" c = false.
Proof. by_cases_on_char c. Qed.

Lemma alnum_lower c : is_lower_alnum c = true -> lower_char c = c.
Proof. by_cases_on_char c. Qed.

Lemma dash_lower c : char_is "-" c = true -> lower_char c = c.
Proof. by_cases_on_char c. Qed.

Lemma char_is_eq a c : char_is a c = true -> c = a.
Proof.
  unfold char_is, code. intros H. apply N.eqb_eq in H.
  rewrite <- (ascii_N_embedding c), <- (ascii_N_embedding a). now rewrite H.
Qed.

(** ** Slug tokens *)

Lemma sub_nonalnum_chars s b :
  slug_chars (re_sub_runs (fun c => negb (is_lower_alnum c)) "-" b s) = true.
Proof.
  revert b. induction s as [|c t IH]; intros b; simpl; [reflexivity|].
  destruct (is_lower_alnum c) eqn:Hc; simpl.
  - rewrite Hc. simpl. apply IH.
  - destruct b; [apply IH|]. change (slug_chars (re_sub_runs (fun c0 => negb (is_lower_alnum c0)) "-" true t) = true). apply IH.
Qed.

Lemma sub_dash_pre s b :
  slug_chars s = true ->
  slug_pre (negb b) (re_sub_runs (char_is "-") "-" b s) = true.
Proof.
  revert b. induction s as [|c t IH]; intros b Hs; simpl in *; [reflexivity|].
  apply andb_true_iff in Hs as [Hc Ht].
  destruct (char_is "-" c) eqn:Hd.
  - destruct b; simpl.
    + apply (IH true Ht).
    + apply (IH true Ht).
  - rewrite orb_false_r in Hc. simpl. rewrite Hc. apply (IH false Ht).
Qed.

Lemma lstrip_dash_pre s :
  slug_pre true s = true -> slug_pre false (lstrip_with (char_is "-") s) = true.
Proof.
  destruct s as [|c t]; simpl; [reflexivity|].
  destruct (is_lower_alnum c) eqn:Hc.
  - rewrite (alnum_not_dash _ Hc). simpl. now rewrite Hc.
  - destruct (char_is "-" c) eqn:Hd; [|discriminate].
    simpl. intros Ht. destruct t as [|c' t']; simpl in *; [reflexivity|].
    destruct (is_lower_alnum c') eqn:Hc'.
    + rewrite (alnum_not_dash _ Hc'). simpl. now rewrite Hc'.
    + destruct (char_is "-" c'); discriminate.
Qed.

Lemma rstrip_dash_slug s prev :
  slug_pre prev s = true ->
  rstrip_with (char_is "-") s = "" \/ slug_from prev (rstrip_with (char_is "-") s) = true.
Proof.
  revert prev. induction s as [|c t IH]; intros prev; simpl; [auto|].
  destruct (is_lower_alnum c) eqn:Hc.
  - intros Ht. right. destruct (IH true Ht) as [He|Hs].
    + rewrite He, (alnum_not_dash _ Hc). simpl. now rewrite Hc.
    + destruct (rstrip_with (char_is "-") t) eqn:Hr.
      * rewrite (alnum_not_dash _ Hc). simpl. now rewrite Hc.
      * simpl. rewrite Hc. exact Hs.
  - destruct (char_is "-" c) eqn:Hd; [|discriminate].
    intros Hp. apply andb_true_iff in Hp as [-> Ht].
    destruct (IH false Ht) as [He|Hs].
    + left. now rewrite He.
    + right. destruct (rstrip_with (char_is "-") t) eqn:Hr; [discriminate|].
      simpl. rewrite Hc, Hd. exact Hs.
Qed.

Lemma slug_pipeline_token s :
  let u := strip_char "-"
             (re_sub_runs (char_is "-") "-" false
                (re_sub_runs (fun c => negb (is_lower_alnum c)) "-" false s)) in
  is_slug (if nonempty u then u else "unknown") = true.
Proof.
  intros u.
  assert (Hu : u = "" \/ slug_from false u = true).
  { apply rstrip_dash_slug, lstrip_dash_pre.
    apply (sub_dash_pre _ false), sub_nonalnum_chars. }
  destruct Hu as [->|Hu]; [reflexivity|].
  destruct u; [discriminate|]. exact Hu.
Qed.

Lemma slug_rstrip_id p s prev :
  (forall c, is_lower_alnum c = true -> p c = false) ->
  slug_from prev s = true -> rstrip_with p s = s.
Proof.
  intros Hp. revert prev. induction s as [|c t IH]; intros prev; simpl; [reflexivity|].
  destruct (is_lower_alnum c) eqn:Hc.
  - intros Ht. rewrite (IH _ Ht). destruct t; [now rewrite (Hp _ Hc)|reflexivity].
  - destruct (char_is "-" c); [|discriminate].
    intros H. apply andb_true_iff in H as [_ Ht]. rewrite (IH _ Ht).
    destruct t; [discriminate|reflexivity].
Qed.

Lemma slug_strip_id p s :
  (forall c, is_lower_alnum c = true -> p c = false) ->
  is_slug s = true -> strip_with p s = s.
Proof.
  intros Hp Hs. unfold strip_with.
  assert (Hl : lstrip_with p s = s).
  { destruct s as [|c t]; [reflexivity|]. simpl in *. unfold is_slug in Hs. simpl in Hs.
    destruct (is_lower_alnum c) eqn:Hc; [now rewrite (Hp _ Hc)|].
    destruct (char_is "-" c); discriminate. }
  rewrite Hl. now apply slug_rstrip_id with (prev := false).
Qed.

Lemma slug_lower_id s prev : slug_from prev s = true -> lower s = s.
Proof.
  revert prev. induction s as [|c t IH]; intros prev; simpl; [reflexivity|].
  destruct (is_lower_alnum c) eqn:Hc.
  - intros Ht. now rewrite (alnum_lower _ Hc), (IH _ Ht).
  - destruct (char_is "-" c) eqn:Hd; [|discriminate].
    intros H. apply andb_true_iff in H as [_ Ht]. now rewrite (dash_lower _ Hd), (IH _ Ht).
Qed.

Lemma slug_sub_nonalnum_id s prev b :
  slug_from prev s = true -> (prev = true -> b = false) ->
  re_sub_runs (fun c => negb (is_lower_alnum c)) "-" b s = s.
Proof.
  revert prev b. induction s as [|c t IH]; intros prev b; simpl; [reflexivity|].
  destruct (is_lower_alnum c) eqn:Hc; simpl.
  - intros Ht _. now rewrite (IH true false Ht).
  - destruct (char_is "-" c) eqn:Hd; [|discriminate].
    intros H Hb. apply andb_true_iff in H as [-> Ht]. rewrite (Hb eq_refl).
    rewrite (IH false true Ht); [|discriminate].
    now rewrite (char_is_eq _ _ Hd).
Qed.

Lemma slug_sub_dash_id s prev b :
  slug_from prev s = true -> (prev = true -> b = false) ->
  re_sub_runs (char_is "-") "-" b s = s.
Proof.
  revert prev b. induction s as [|c t IH]; intros prev b; simpl; [reflexivity|].
  destruct (is_lower_alnum c) eqn:Hc; simpl.
  - intros Ht _. now rewrite (alnum_not_dash _ Hc), (IH true false Ht).
  - destruct (char_is "-" c) eqn:Hd; [|discriminate].
    intros H Hb. apply andb_true_iff in H as [-> Ht]. rewrite (Hb eq_refl).
    rewrite (IH false true Ht); [|discriminate].
    now rewrite (char_is_eq _ _ Hd).
Qed.

Lemma slugify_fixes_slug s : is_slug s = true -> _slugify s = s.
Proof.
  intros Hs. unfold _slugify, strip, strip_char.
  rewrite (slug_strip_id is_space s alnum_not_space Hs).
  rewrite (slug_lower_id s false Hs).
  rewrite (slug_sub_nonalnum_id s false false Hs); [|discriminate].
  rewrite (slug_sub_dash_id s false false Hs); [|discriminate].
  rewrite (slug_strip_id (char_is "-") s alnum_not_dash Hs).
  destruct s; [discriminate|reflexivity].
Qed.

Lemma slugify_is_slug name : is_slug (_slugify name) = true.
Proof. unfold _slugify. apply slug_pipeline_token. Qed.

(** C5: for every input string, [_slugify] of scraper.py and [slugify] of
    download_flags.py return a slug token (a non-empty string of runs of
    [[a-z0-9]] separated by single hyphens, with no hyphen at either end;
    the placeholder "unknown" is one, and is what the empty string and a
    string of punctuation give), and each function applied to its own output
    returns that output. *)
Theorem slugify_token_idempotent (name : string) :
  is_slug (_slugify name) = true
  /\ _slugify (_slugify name) = _slugify name
  /\ is_slug (DownloadFlags.slugify name) = true
  /\ DownloadFlags.slugify (DownloadFlags.slugify name) = DownloadFlags.slugify name
  /\ _slugify "" = "unknown" /\ _slugify "?!.," = "unknown".
Proof.
  change DownloadFlags.slugify with _slugify.
  pose proof (slugify_is_slug name) as Hs.
  pose proof (slugify_fixes_slug _ Hs) as Hi.
  repeat split; auto.
Qed.

(** ** The cursors of a document *)

Lemma walk_elem t cl a cs aft up :
  walk (Elem t cl a cs) aft up
  = mkCursor (Elem t cl a cs) aft up :: walk_children (Elem t cl a cs) aft up cs.
Proof.
  simpl. f_equal. generalize (Elem t cl a cs) as n. intros n.
  induction cs as [|c r IH]; [reflexivity|]. simpl. now rewrite IH.
Qed.

(** The cursors of a subtree stand on its nodes, in document order. *)
Lemma walk_here n : forall aft up, map here (walk n aft up) = subtree n.
Proof.
  induction n as [s|t cl a cs IH] using Node_ind; intros aft up; [reflexivity|].
  rewrite walk_elem. simpl. f_equal.
  set (n := Elem t cl a cs). clearbody n.
  induction IH as [|c r Hc _ IHr]; [reflexivity|].
  simpl. now rewrite map_app, Hc, IHr.
Qed.

Lemma walk_length n aft up : length (walk n aft up) = length (subtree n).
Proof. now rewrite <- (walk_here n aft up), length_map. Qed.

(** What follows a cursor is what follows its node in the document. *)
Lemma walk_next_elements n :
  forall aft up i c,
    walk n aft up !! i = Some c ->
    next_elements c = drop (S i) (subtree n) ++ aft.
Proof.
  induction n as [s|t cl a cs IH] using Node_ind; intros aft up i c.
  - destruct i as [|i]; [|intros H; discriminate H]. intros [= <-]. reflexivity.
  - rewrite walk_elem. destruct i as [|i]; [intros [= <-]; reflexivity|].
    simpl. set (n := Elem t cl a cs). clearbody n.
    revert i. induction IH as [|c0 r Hc _ IHr]; intros i; [intros H; discriminate H|].
    simpl. intros H. set (up' := (n, aft) :: up) in *.
    destruct (decide (i < length (walk c0 (flat_map subtree r ++ aft) up'))) as [Hlt|Hge].
    + rewrite lookup_app_l in H by exact Hlt.
      rewrite (Hc _ _ _ _ H). rewrite walk_length in Hlt.
      rewrite (drop_app_le _ _ (S i)) by lia. now rewrite app_assoc.
    + rewrite lookup_app_r in H by lia. apply IHr in H. rewrite H.
      rewrite walk_length in *. rewrite (drop_app_ge _ _ (S i)) by lia.
      do 2 f_equal. lia.
Qed.

(** ** The state monad and the loops of the two passes *)

Lemma collect_In {A : Type} (f : A -> State (option MatchRecord)) (l : list A) w r :
  In r (fst (collect f l w)) ->
  exists x w1 w2, In x l /\ f x w1 = (Some r, w2).
Proof.
  revert w. induction l as [|x l IH]; intros w; simpl.
  - intros [].
  - unfold_state. destruct (f x w) as [o w1] eqn:Hf.
    specialize (IH w1). destruct (collect f l w1) as [items w2] eqn:Hc. simpl in *.
    assert (Hrest : In r items -> exists x0 w3 w4, (x = x0 \/ In x0 l) /\ f x0 w3 = (Some r, w4)).
    { intros Hin. destruct (IH Hin) as (x0 & w3 & w4 & Hx & Hfx). exists x0, w3, w4. auto. }
    destruct o as [it|]; simpl; [|exact Hrest].
    intros [->|Hin]; [|exact (Hrest Hin)].
    exists x, w, w1. auto.
Qed.

Lemma card_teams_spec l w :
  exists imgs w',
    card_teams l w = ((names_of card_team_name l, imgs), w') /\ length imgs = length l.
Proof.
  revert w. induction l as [|tn l IH]; intros w; simpl.
  - exists [], w. split; reflexivity.
  - unfold_state. destruct (team_image (card_team_raw_image tn) (card_team_name tn) w) as [img w1].
    destruct (IH w1) as (imgs & w2 & -> & Hlen).
    exists (img :: imgs), w2. simpl. split; [reflexivity|]. now rewrite Hlen.
Qed.

Lemma table_teams_spec l link w :
  exists imgs link' w',
    table_teams l link w = ((names_of table_team_name l, imgs, link'), w')
    /\ length imgs = length l.
Proof.
  revert link w. induction l as [|a l IH]; intros link w; simpl.
  - exists [], link, w. split; reflexivity.
  - unfold_state. destruct (team_image (table_team_raw_image a) (table_team_name a) w) as [img w1].
    destruct ((if negb (truthy link) && truthy (get_attr "href" a)
               then _norm_src (get_attr "href" a) else fun w => (link, w)) w1) as [link1 w2].
    destruct (IH link1 w2) as (imgs & link' & w3 & -> & Hlen).
    exists (img :: imgs), link', w3. simpl. split; [reflexivity|]. now rewrite Hlen.
Qed.

(** What [parse_match_update] returns, field by field. *)
Lemma parse_match_update_spec mu w :
  let names := names_of card_team_name (card_team_nodes mu) in
  exists imgs href w',
    length imgs = length (card_team_nodes mu) /\
    parse_match_update mu w =
      (if keep_entry (fst (card_title_status mu))
            (if bool_decide (2 < length names) then take 2 names else names) (card_time mu)
       then Some (mkMatch (fst (card_title_status mu))
                    (if bool_decide (2 < length names) then take 2 names else names)
                    (if bool_decide (2 < length names) then take 2 imgs else imgs)
                    (snd (card_title_status mu)) (card_time mu) href)
       else None, w').
Proof.
  intros names. unfold parse_match_update.
  destruct (card_title_status mu) as [t st]. unfold_state.
  destruct (card_teams_spec (card_team_nodes mu) w) as (imgs & w1 & Hct & Hlen).
  rewrite Hct. fold names.
  set (h := match find (fun n => has_tag "a" n && bool_decide (is_Some (get_attr "href" n))) mu
            with Some a => get_attr "href" a | None => None end).
  destruct (_norm_src h w1) as [href w2] eqn:Hn.
  exists imgs, href, w2. split; [exact Hlen|].
  simpl. destruct (bool_decide (2 < length names)); rewrite Hn;
    match goal with |- context [keep_entry ?a ?b ?c] => destruct (keep_entry a b c) end;
    reflexivity.
Qed.

(** What [parse_schedule_row] returns, field by field. *)
Lemma parse_schedule_row_spec tr w :
  let tds := find_all (has_tag "td") tr in
  match tds with
  | [] => parse_schedule_row tr w = (None, w)
  | td0 :: _ =>
      let names := names_of table_team_name (row_team_cells td0) in
      exists imgs link w',
        length imgs = length (row_team_cells td0) /\
        parse_schedule_row tr w =
          (if keep_entry (row_title names (row_match_type tds)) names (row_date_time tds)
           then Some (mkMatch (row_title names (row_match_type tds)) names imgs
                        (row_status (row_date_time tds)) (row_date_time tds) link)
           else None, w')
  end.
Proof.
  intros tds. unfold parse_schedule_row. fold tds.
  destruct tds as [|td0 rest] eqn:Htds; [reflexivity|].
  set (names := names_of table_team_name (row_team_cells td0)).
  unfold_state.
  destruct (table_teams_spec (row_team_cells td0) None w) as (imgs & link & w1 & Htt & Hlen).
  rewrite Htt. fold names.
  set (fix_link := if negb (truthy link) then _ else _).
  destruct (fix_link w1) as [link' w2] eqn:Hl.
  exists imgs, link', w2. split; [exact Hlen|].
  match goal with |- context [keep_entry ?a ?b ?c] => destruct (keep_entry a b c) end;
    reflexivity.
Qed.

(** Every entry of the card pass is the entry of one card. *)
Lemma card_record_inv root w r :
  In r (fst (_parse_match_updates root w)) ->
  exists mu imgs w1 w2,
    In mu (find_all (has_class "match_update") (here root))
    /\ parse_match_update mu w1 = (Some r, w2)
    /\ length imgs = length (card_team_nodes mu)
    /\ let names := names_of card_team_name (card_team_nodes mu) in
       title r = fst (card_title_status mu)
       /\ teams r = (if bool_decide (2 < length names) then take 2 names else names)
       /\ team_images r = (if bool_decide (2 < length names) then take 2 imgs else imgs)
       /\ status r = snd (card_title_status mu)
       /\ time_or_venue r = card_time mu
       /\ keep_entry (title r) (teams r) (time_or_venue r) = true.
Proof.
  unfold _parse_match_updates. intros Hin.
  destruct (collect_In _ _ _ _ Hin) as (mu & w1 & w2 & Hmu & Hf).
  destruct (parse_match_update_spec mu w1) as (imgs & href & w' & Hlen & Hspec).
  exists mu, imgs, w1, w2. split; [exact Hmu|]. split; [exact Hf|]. split; [exact Hlen|].
  rewrite Hspec in Hf.
  destruct (keep_entry _ _ _) eqn:Hk; [|discriminate].
  injection Hf as <- _. simpl. rewrite Hk. repeat split; reflexivity.
Qed.

(** Every entry of the table pass is the entry of one row with a cell. *)
Lemma table_record_inv root w r :
  In r (fst (_parse_schedule_table root w)) ->
  exists table tr td0 rest imgs w1 w2,
    schedule_table root = Some table
    /\ In tr (find_all (has_tag "tr") table)
    /\ find_all (has_tag "td") tr = td0 :: rest
    /\ parse_schedule_row tr w1 = (Some r, w2)
    /\ length imgs = length (row_team_cells td0)
    /\ let names := names_of table_team_name (row_team_cells td0) in
       let tds := td0 :: rest in
       title r = row_title names (row_match_type tds)
       /\ teams r = names
       /\ team_images r = imgs
       /\ status r = row_status (row_date_time tds)
       /\ time_or_venue r = row_date_time tds
       /\ keep_entry (title r) (teams r) (time_or_venue r) = true.
Proof.
  unfold _parse_schedule_table. destruct (schedule_table root) as [table|]; [|intros []].
  intros Hin.
  destruct (collect_In _ _ _ _ Hin) as (tr & w1 & w2 & Htr & Hf).
  pose proof (parse_schedule_row_spec tr w1) as Hspec. simpl in Hspec.
  destruct (find_all (has_tag "td") tr) as [|td0 rest] eqn:Htds.
  - rewrite Hspec in Hf. discriminate.
  - destruct Hspec as (imgs & link & w' & Hlen & Hspec).
    exists table, tr, td0, rest, imgs, w1, w2.
    split; [reflexivity|]. split; [exact Htr|]. split; [exact Htds|].
    split; [exact Hf|]. split; [exact Hlen|].
    rewrite Hspec in Hf.
    destruct (keep_entry _ _ _) eqn:Hk; [|discriminate].
    injection Hf as <- _. simpl. rewrite Hk. repeat split; reflexivity.
Qed.

Lemma or_none_nonempty s t : or_none s = Some t -> nonempty t = true.
Proof. unfold or_none. destruct (nonempty s) eqn:H; [|discriminate]. now intros [= <-]. Qed.

Lemma row_date_time_nonempty tds dt : row_date_time tds = Some dt -> nonempty dt = true.
Proof.
  unfold row_date_time. destruct (tds !! 2); [apply or_none_nonempty|discriminate].
Qed.

Lemma contains_cons p c t :
  contains p (String c t) = startswith (String c t) p || contains p t.
Proof. reflexivity. Qed.

(** The time marker: "am" or "pm" anywhere in the text, in any case, is
    one; "pst" is one as a word of its own. *)
Lemma time_marker_from_am_pm s prev :
  contains "am" (lower s) = true \/ contains "pm" (lower s) = true ->
  time_marker_from prev s = true.
Proof.
  revert prev. induction s as [|c t IH]; intros prev.
  - intros [H|H]; discriminate H.
  - change (lower (String c t)) with (String (lower_char c) (lower t)).
    rewrite !contains_cons.
    change (time_marker_from prev (String c t))
      with ((negb prev && ci_startswith (String c t) "pst" && negb (word_char_at 3 (String c t)))
            || ci_startswith (String c t) "am" || ci_startswith (String c t) "pm"
            || time_marker_from (is_word_char c) t).
    unfold ci_startswith.
    change (lower (String c t)) with (String (lower_char c) (lower t)).
    intros [H|H]; apply orb_true_iff in H as [H|H].
    + rewrite H. now rewrite !orb_true_r.
    + rewrite (IH _ (or_introl H)). apply orb_true_r.
    + rewrite H. now rewrite !orb_true_r.
    + rewrite (IH _ (or_intror H)). apply orb_true_r.
Qed.

Lemma time_marker_am_pm s :
  contains "am" (lower s) = true \/ contains "pm" (lower s) = true ->
  has_time_marker s = true.
Proof. apply time_marker_from_am_pm. Qed.

Example time_marker_examples :
  has_time_marker "12 May 2024, 3:00 PM" = true
  /\ has_time_marker "12 May 2024" = false
  /\ has_time_marker "10:00 pst" = true
  /\ has_time_marker "Upstairs" = false
  /\ has_time_marker "Hambantota" = true.
Proof. vm_compute. repeat split. Qed.

Lemma lower_char_letters (c : Ascii.ascii) :
  ((lower_char c = "a" <-> c = "a" \/ c = "A")
   /\ (lower_char c = "m" <-> c = "m" \/ c = "M")
   /\ (lower_char c = "p" <-> c = "p" \/ c = "P")
   /\ (lower_char c = "s" <-> c = "s" \/ c = "S")
   /\ (lower_char c = "t" <-> c = "t" \/ c = "T"))%char.
Proof.
  destruct c as [[|] [|] [|] [|] [|] [|] [|] [|]]; vm_compute;
    repeat split;
    first [ intros H; discriminate H
          | intros [H|H]; discriminate H
          | intros _; first [now left | now right]
          | reflexivity ].
Qed.

Lemma prefix_empty s : String.prefix "" s = true.
Proof. now destruct s. Qed.

Lemma ci_startswith_2 s (p1 p2 : Ascii.ascii) :
  ci_startswith s (String p1 (String p2 "")) = true <->
  exists c1 c2 b, s = String c1 (String c2 b) /\ lower_char c1 = p1 /\ lower_char c2 = p2.
Proof.
  unfold ci_startswith, startswith. destruct s as [|c1 [|c2 b]]; cbn [lower String.prefix].
  - split; [discriminate|]. intros (? & ? & ? & H & _). discriminate H.
  - split.
    + destruct (ascii_dec p1 (lower_char c1)); discriminate.
    + intros (? & ? & ? & H & _). discriminate H.
  - destruct (ascii_dec p1 (lower_char c1)) as [->|H1].
    + destruct (ascii_dec p2 (lower_char c2)) as [->|H2].
      * rewrite prefix_empty. split; [intros _; exists c1, c2, b; auto|reflexivity].
      * split; [discriminate|]. intros (? & ? & ? & [= <- <- <-] & _ & H). congruence.
    + split; [discriminate|]. intros (? & ? & ? & [= <- <- <-] & H & _). congruence.
Qed.

Lemma ci_startswith_3 s (p1 p2 p3 : Ascii.ascii) :
  ci_startswith s (String p1 (String p2 (String p3 ""))) = true <->
  exists c1 c2 c3 b, s = String c1 (String c2 (String c3 b))
                     /\ lower_char c1 = p1 /\ lower_char c2 = p2 /\ lower_char c3 = p3.
Proof.
  unfold ci_startswith, startswith. destruct s as [|c1 [|c2 [|c3 b]]]; cbn [lower String.prefix].
  - split; [discriminate|]. intros (? & ? & ? & ? & H & _). discriminate H.
  - split.
    + destruct (ascii_dec p1 (lower_char c1)); discriminate.
    + intros (? & ? & ? & ? & H & _). discriminate H.
  - split.
    + destruct (ascii_dec p1 (lower_char c1)); [|discriminate].
      destruct (ascii_dec p2 (lower_char c2)); discriminate.
    + intros (? & ? & ? & ? & H & _). discriminate H.
  - destruct (ascii_dec p1 (lower_char c1)) as [->|H1].
    + destruct (ascii_dec p2 (lower_char c2)) as [->|H2].
      * destruct (ascii_dec p3 (lower_char c3)) as [->|H3].
        -- rewrite prefix_empty. split; [intros _; exists c1, c2, c3, b; auto|reflexivity].
        -- split; [discriminate|].
           intros (? & ? & ? & ? & [= <- <- <- <-] & _ & _ & H). congruence.
      * split; [discriminate|].
        intros (? & ? & ? & ? & [= <- <- <- <-] & _ & H & _). congruence.
    + split; [discriminate|].
      intros (? & ? & ? & ? & [= <- <- <- <-] & H & _). congruence.
Qed.

Lemma append_eq_nil a b : a +:+ b = "" -> a = "" /\ b = "".
Proof. destruct a; [auto|discriminate]. Qed.

Lemma snoc_cons_cases (c c' : Ascii.ascii) a1 a' :
  String c a1 = a' +:+ String c' "" ->
  (a1 = "" /\ a' = "" /\ c' = c) \/ (exists a1', a' = String c a1' /\ a1 = a1' +:+ String c' "").
Proof.
  destruct a' as [|d a'']; cbn.
  - intros [= -> ->]. now left.
  - intros [= -> ->]. right. eauto.
Qed.

(** The texts [re.search(r"\bPST\b|AM|PM", s, re.I)] finds a match in. *)
Lemma time_marker_from_spec s : forall prev,
  time_marker_from prev s = true <->
  (exists a c1 c2 b,
      s = a +:+ String c1 (String c2 b)
      /\ (c1 = "a" \/ c1 = "A" \/ c1 = "p" \/ c1 = "P")%char
      /\ (c2 = "m" \/ c2 = "M")%char)
  \/ (exists a c1 c2 c3 b,
        s = a +:+ String c1 (String c2 (String c3 b))
        /\ (c1 = "p" \/ c1 = "P")%char /\ (c2 = "s" \/ c2 = "S")%char
        /\ (c3 = "t" \/ c3 = "T")%char
        /\ ((a = "" /\ prev = false)
            \/ exists a' c, a = a' +:+ String c "" /\ is_word_char c = false)
        /\ (b = "" \/ exists c b', b = String c b' /\ is_word_char c = false)).
Proof.
  induction s as [|c t IH]; intros prev.
  - split.
    + cbn. rewrite andb_false_r. discriminate.
    + intros [(a & ? & ? & ? & H & _)|(a & ? & ? & ? & ? & H & _)];
        symmetry in H; apply append_eq_nil in H as [_ H]; discriminate H.
  - change (time_marker_from prev (String c t))
      with ((negb prev && ci_startswith (String c t) "pst" && negb (word_char_at 3 (String c t)))
            || ci_startswith (String c t) "am" || ci_startswith (String c t) "pm"
            || time_marker_from (is_word_char c) t).
    rewrite !orb_true_iff, !andb_true_iff, !negb_true_iff, (IH (is_word_char c)),
      !ci_startswith_2, ci_startswith_3.
    split.
    + intros [[[((Hp & (c1 & c2 & c3 & b & Hs & H1 & H2 & H3)) & Hw)
               |(c1 & c2 & b & Hs & H1 & H2)]
              |(c1 & c2 & b & Hs & H1 & H2)]
             |[(a & c1 & c2 & b & Hs & H1 & H2)
              |(a & c1 & c2 & c3 & b & Hs & H1 & H2 & H3 & Hl & Hr)]].
      * right. exists "", c1, c2, c3, b. split; [exact Hs|].
        destruct (lower_char_letters c1) as (_ & _ & Hc1 & _).
        destruct (lower_char_letters c2) as (_ & _ & _ & Hc2 & _).
        destruct (lower_char_letters c3) as (_ & _ & _ & _ & Hc3).
        split; [now apply Hc1|]. split; [now apply Hc2|]. split; [now apply Hc3|].
        split; [now left|]. rewrite Hs in Hw. unfold word_char_at in Hw. cbn [drop_chars] in Hw.
        destruct b as [|d b']; [now left|right; eauto].
      * left. exists "", c1, c2, b. split; [exact Hs|].
        destruct (lower_char_letters c1) as (Hc1 & _).
        destruct (lower_char_letters c2) as (_ & Hc2 & _).
        apply Hc1 in H1. apply Hc2 in H2. tauto.
      * left. exists "", c1, c2, b. split; [exact Hs|].
        destruct (lower_char_letters c1) as (_ & _ & Hc1 & _).
        destruct (lower_char_letters c2) as (_ & Hc2 & _).
        apply Hc1 in H1. apply Hc2 in H2. tauto.
      * left. exists (String c a), c1, c2, b. rewrite Hs. auto.
      * right. exists (String c a), c1, c2, c3, b. rewrite Hs.
        split; [reflexivity|]. split; [exact H1|]. split; [exact H2|]. split; [exact H3|].
        split; [right|exact Hr].
        destruct Hl as [[-> Hc]|(a' & d & -> & Hd)].
        -- exists "", c. auto.
        -- exists (String c a'), d. auto.
    + intros [(a & c1 & c2 & b & Hs & H1 & H2)
             |(a & c1 & c2 & c3 & b & Hs & H1 & H2 & H3 & Hl & Hr)].
      * destruct a as [|d a1]; cbn in Hs.
        -- left.
           destruct (lower_char_letters c1) as (Ha & _ & Hp & _).
           destruct (lower_char_letters c2) as (_ & Hm & _).
           apply Hm in H2.
           destruct H1 as [H1|[H1|[H1|H1]]].
           ++ left. right. exists c1, c2, b. split; [exact Hs|]. split; [apply Ha; auto|exact H2].
           ++ left. right. exists c1, c2, b. split; [exact Hs|]. split; [apply Ha; auto|exact H2].
           ++ right. exists c1, c2, b. split; [exact Hs|]. split; [apply Hp; auto|exact H2].
           ++ right. exists c1, c2, b. split; [exact Hs|]. split; [apply Hp; auto|exact H2].
        -- injection Hs as -> ->. right. left. exists a1, c1, c2, b. auto.
      * destruct a as [|d a1]; cbn in Hs.
        -- left. left. left.
           destruct Hl as [[_ ->]|(a' & d & Ha & _)];
             [|symmetry in Ha; apply append_eq_nil in Ha as [_ Ha]; discriminate Ha].
           split; [split; [reflexivity|]|].
           ++ exists c1, c2, c3, b. split; [exact Hs|].
              destruct (lower_char_letters c1) as (_ & _ & Hc1 & _).
              destruct (lower_char_letters c2) as (_ & _ & _ & Hc2 & _).
              destruct (lower_char_letters c3) as (_ & _ & _ & _ & Hc3).
              split; [now apply Hc1|]. split; [now apply Hc2|now apply Hc3].
           ++ rewrite Hs. unfold word_char_at. cbn [drop_chars].
              destruct Hr as [->|(e & b' & -> & He)]; [reflexivity|exact He].
        -- injection Hs as -> ->. right. right. exists a1, c1, c2, c3, b.
           split; [reflexivity|]. split; [exact H1|]. split; [exact H2|]. split; [exact H3|].
           split; [|exact Hr].
           destruct Hl as [[Ha _]|(a' & e & Ha & He)]; [discriminate Ha|].
           apply snoc_cons_cases in Ha as [(-> & _ & ->)|(a1' & _ & ->)].
           ++ left. auto.
           ++ right. eauto.
Qed.

(** The claim as it reads does not hold: a row whose date/time names the
    time zone GMT has no status, and a row whose date/time is the venue
    "Edgbaston, Birmingham", with no time in it, has the status
    "Upcoming". *)
Lemma time_zone_row_has_no_status :
  fst (parse_schedules_html marker_rows_page sample_world) = [time_zone_entry; venue_entry]
  /\ time_or_venue time_zone_entry = Some "14:00 GMT"
  /\ status time_zone_entry = None
  /\ time_or_venue venue_entry = Some "Edgbaston, Birmingham"
  /\ status venue_entry = Some "Upcoming"
  /\ ~ (forall r dt,
          In r (fst (_parse_schedule_table
                       (_find_content_root (soup_of marker_rows_page)) sample_world)) ->
          time_or_venue r = Some dt ->
          (exists a b, dt = a +:+ "GMT" +:+ b) -> status r = Some "Upcoming").
Proof.
  assert (H : fst (parse_schedules_html marker_rows_page sample_world)
              = [time_zone_entry; venue_entry]) by (vm_compute; reflexivity).
  split; [exact H|]. repeat (split; [reflexivity|]).
  intros Hall.
  assert (Hin : In time_zone_entry
                  (fst (_parse_schedule_table
                          (_find_content_root (soup_of marker_rows_page)) sample_world)))
    by (vm_compute; left; reflexivity).
  assert (Hst : status time_zone_entry = Some "Upcoming").
  { apply (Hall time_zone_entry "14:00 GMT" Hin eq_refl). exists "14:00 ", "". reflexivity. }
  discriminate Hst.
Qed.

(** The word characters of a pattern, by their codes: the digits, the
    letters, the underscore, and the letters and numbers of U+00AA to
    U+00FF. *)
Lemma is_word_char_codes c :
  is_word_char c = true <->
  (let n := N_of_ascii c in
   48 <= n <= 57 \/ 65 <= n <= 90 \/ n = 95 \/ 97 <= n <= 122
   \/ n = 170 \/ n = 178 \/ n = 179 \/ n = 181 \/ n = 185 \/ n = 186
   \/ 188 <= n <= 190 \/ 192 <= n <= 214 \/ 216 <= n <= 246 \/ 248 <= n <= 255)%N.
Proof.
  unfold is_word_char, in_range, code. cbv zeta.
  rewrite !orb_true_iff, !andb_true_iff, !N.leb_le, !N.eqb_eq. lia.
Qed.

(** C1, amended: in the schedule table pass, the status of an entry is
    "Upcoming" if and only if its date/time field is present and holds the
    letters AM or PM, in either case and anywhere in the text, or the
    letters PST, in either case, as a word of their own: with no word
    character (a digit, a letter or the underscore) right before or right
    after them.  Every other entry has no status. *)
Theorem schedule_row_status_upcoming (root : Cursor) (w : World) (r : MatchRecord) :
  In r (fst (_parse_schedule_table root w)) ->
  let word := fun c : Ascii.ascii =>
    (let n := N_of_ascii c in
     48 <= n <= 57 \/ 65 <= n <= 90 \/ n = 95 \/ 97 <= n <= 122
     \/ n = 170 \/ n = 178 \/ n = 179 \/ n = 181 \/ n = 185 \/ n = 186
     \/ 188 <= n <= 190 \/ 192 <= n <= 214 \/ 216 <= n <= 246 \/ 248 <= n <= 255)%N in
  let am_pm := fun dt : string =>
    exists a c1 c2 b,
      dt = a +:+ String c1 (String c2 b)
      /\ (c1 = "a" \/ c1 = "A" \/ c1 = "p" \/ c1 = "P")%char
      /\ (c2 = "m" \/ c2 = "M")%char in
  let pst_word := fun dt : string =>
    exists a c1 c2 c3 b,
      dt = a +:+ String c1 (String c2 (String c3 b))
      /\ (c1 = "p" \/ c1 = "P")%char /\ (c2 = "s" \/ c2 = "S")%char
      /\ (c3 = "t" \/ c3 = "T")%char
      /\ (a = "" \/ exists a' c, a = a' +:+ String c "" /\ ~ word c)
      /\ (b = "" \/ exists c b', b = String c b' /\ ~ word c) in
  (status r = Some "Upcoming" <->
     exists dt, time_or_venue r = Some dt /\ (am_pm dt \/ pst_word dt))
  /\ ((forall dt, time_or_venue r = Some dt -> ~ (am_pm dt \/ pst_word dt)) ->
      status r = None)
  /\ (status r = Some "Upcoming" \/ status r = None).
Proof.
  intros Hin word am_pm pst_word.
  assert (Hword : forall c, is_word_char c = false <-> ~ word c).
  { intros c. rewrite <- not_true_iff_false. unfold word. now rewrite is_word_char_codes. }
  assert (Hspec : forall dt, has_time_marker dt = true <-> am_pm dt \/ pst_word dt).
  { intros dt. unfold has_time_marker. rewrite time_marker_from_spec.
    unfold am_pm, pst_word. split.
    - intros [H|(a & c1 & c2 & c3 & b & Hs & H1 & H2 & H3 & Hl & Hr)]; [now left|right].
      exists a, c1, c2, c3, b. repeat (split; [assumption|]). split.
      + destruct Hl as [[-> _]|(a' & c & Ha & Hc)]; [now left|right].
        exists a', c. split; [exact Ha|now apply Hword].
      + destruct Hr as [->|(c & b' & Hb & Hc)]; [now left|right].
        exists c, b'. split; [exact Hb|now apply Hword].
    - intros [H|(a & c1 & c2 & c3 & b & Hs & H1 & H2 & H3 & Hl & Hr)]; [now left|right].
      exists a, c1, c2, c3, b. repeat (split; [assumption|]). split.
      + destruct Hl as [->|(a' & c & Ha & Hc)]; [now left|right].
        exists a', c. split; [exact Ha|now apply Hword].
      + destruct Hr as [->|(c & b' & Hb & Hc)]; [now left|right].
        exists c, b'. split; [exact Hb|now apply Hword]. }
  destruct (table_record_inv _ _ _ Hin)
    as (table & tr & td0 & rest & imgs & w1 & w2 & _ & _ & _ & _ & _ & Hr).
  simpl in Hr. destruct Hr as (_ & _ & _ & Hst & Htm & _).
  rewrite Hst, Htm. unfold row_status.
  destruct (row_date_time (td0 :: rest)) as [dt|] eqn:Hd; simpl.
  - rewrite (row_date_time_nonempty _ _ Hd). simpl.
    destruct (has_time_marker dt) eqn:Hm.
    + apply Hspec in Hm. split; [|split; [|now left]].
      * split; [intros _; exists dt; auto|reflexivity].
      * intros Hno. exfalso. exact (Hno dt eq_refl Hm).
    + split; [|split; [reflexivity|now right]].
      split; [discriminate|]. intros (dt' & [= <-] & Hm'). apply Hspec in Hm'. congruence.
  - split; [|split; [reflexivity|now right]].
    split; [discriminate|]. intros (dt & Hdt & _). discriminate.
Qed.

(** ** Stripped text *)

Lemma lstrip_no_lead s : no_lead_space (lstrip_with is_space s) = true.
Proof.
  induction s as [|c t IH]; simpl; [reflexivity|].
  destruct (is_space c) eqn:Hc; [exact IH|]. simpl. now rewrite Hc.
Qed.

Lemma rstrip_keeps_head s :
  no_lead_space s = true ->
  no_lead_space (rstrip_with is_space s) = true
  /\ nonempty (rstrip_with is_space s) = nonempty s.
Proof.
  destruct s as [|c t]; simpl; [auto|].
  intros Hc. apply negb_true_iff in Hc.
  destruct (rstrip_with is_space t); rewrite ?Hc; simpl; rewrite ?Hc; auto.
Qed.

Lemma strip_no_lead s : no_lead_space (strip s) = true.
Proof. unfold strip, strip_with. apply rstrip_keeps_head, lstrip_no_lead. Qed.

Lemma lstrip_id s : no_lead_space s = true -> lstrip_with is_space s = s.
Proof.
  destruct s as [|c t]; simpl; [reflexivity|].
  intros Hc. apply negb_true_iff in Hc. now rewrite Hc.
Qed.


Lemma append_no_lead a b :
  nonempty a = true -> no_lead_space a = true -> no_lead_space (a +:+ b) = true.
Proof. destruct a; simpl; [discriminate|auto]. Qed.

Lemma join_no_lead sep l :
  Forall (fun x => nonempty x = true /\ no_lead_space x = true) l ->
  no_lead_space (join sep l) = true.
Proof.
  destruct 1 as [|x r [Hx Hn] Hr]; simpl; [reflexivity|].
  destruct r; [exact Hn|]. now apply append_no_lead.
Qed.

Lemma get_text_no_lead sep n : no_lead_space (get_text sep n) = true.
Proof.
  unfold get_text. apply join_no_lead.
  induction (strings n) as [|x l IH]; simpl; [constructor|].
  rewrite filter_cons. destruct (decide _) as [Hx|]; [|exact IH].
  constructor; [|exact IH]. split; [now apply Is_true_true|apply strip_no_lead].
Qed.

Lemma nonempty_true s : nonempty s = true <-> s <> "".
Proof. destruct s; simpl; split; congruence. Qed.








Example sample_schedule_entries :
  fst (parse_schedules_html sample_schedule_page sample_world)
  = [sample_card_entry; sample_row_entry].
Proof. vm_compute. reflexivity. Qed.

(** ** Teams and their images *)

Lemma names_of_length f l : length (names_of f l) <= length l.
Proof.
  induction l as [|x l IH]; simpl; [lia|].
  destruct (nonempty (f x)); simpl; lia.
Qed.

Lemma names_of_all f l :
  Forall (fun x => f x <> "") l -> length (names_of f l) = length l.
Proof.
  induction 1 as [|x l Hx _ IH]; simpl; [reflexivity|].
  apply nonempty_true in Hx. rewrite Hx. simpl. now rewrite IH.
Qed.

Lemma row_team_cells_length td0 : length (row_team_cells td0) <= 2.
Proof. unfold row_team_cells. rewrite length_take. lia. Qed.

(** The entry of a row with an unnamed team has one team and two images;
    the entry of a card with three team elements, one of them unnamed, has
    two teams and three images. *)
Lemma unnamed_team_lengths_differ :
  fst (parse_schedules_html unnamed_team_page sample_world) = [unnamed_team_entry]
  /\ length (teams unnamed_team_entry) = 1
  /\ length (team_images unnamed_team_entry) = 2
  /\ fst (parse_match_update three_team_card sample_world) = Some three_team_entry
  /\ length (teams three_team_entry) = 2
  /\ length (team_images three_team_entry) = 3
  /\ ~ (forall r, In r (fst (parse_schedules_html unnamed_team_page sample_world)) ->
          length (team_images r) = length (teams r) /\ length (team_images r) <= 2).
Proof.
  assert (H : fst (parse_schedules_html unnamed_team_page sample_world) = [unnamed_team_entry])
    by (vm_compute; reflexivity).
  split; [exact H|]. split; [reflexivity|]. split; [reflexivity|].
  split; [vm_compute; reflexivity|]. split; [reflexivity|]. split; [reflexivity|].
  intros Hall. destruct (Hall unnamed_team_entry) as [Heq _].
  - rewrite H. left. reflexivity.
  - discriminate Heq.
Qed.

(** The lengths of teams and team_images in an entry of a pass. *)
Lemma pass_entry_lengths (root : Cursor) (w : World) (r : MatchRecord) :
  (In r (fst (_parse_match_updates root w)) ->
   exists mu w1 w2,
     In mu (find_all (has_class "match_update") (here root))
     /\ parse_match_update mu w1 = (Some r, w2)
     /\ length (teams r) <= 2
     /\ length (teams r) <= length (team_images r)
     /\ (Forall (fun tn => card_team_name tn <> "") (card_team_nodes mu) ->
         length (team_images r) = length (teams r)))
  /\ (In r (fst (_parse_schedule_table root w)) ->
      exists tr td0 rest w1 w2,
        find_all (has_tag "td") tr = td0 :: rest
        /\ parse_schedule_row tr w1 = (Some r, w2)
        /\ length (teams r) <= length (team_images r)
        /\ length (team_images r) <= 2
        /\ (Forall (fun a => table_team_name a <> "") (row_team_cells td0) ->
            length (team_images r) = length (teams r))).
Proof.
  split; intros Hin.
  - destruct (card_record_inv _ _ _ Hin) as (mu & imgs & w1 & w2 & Hmu & Hf & Hlen & Hr).
    simpl in Hr. destruct Hr as (_ & Hn & Hi & _).
    exists mu, w1, w2. split; [exact Hmu|]. split; [exact Hf|].
    pose proof (names_of_length card_team_name (card_team_nodes mu)) as Hle.
    rewrite Hn, Hi.
    destruct (bool_decide (2 < length (names_of card_team_name (card_team_nodes mu)))) eqn:Hb.
    + apply bool_decide_eq_true in Hb. rewrite !length_take.
      repeat split; try lia.
    + apply bool_decide_eq_false in Hb. repeat split; try lia.
      intros Hall. rewrite (names_of_all _ _ Hall). lia.
  - destruct (table_record_inv _ _ _ Hin)
      as (table & tr & td0 & rest & imgs & w1 & w2 & _ & _ & Htds & Hf & Hlen & Hr).
    simpl in Hr. destruct Hr as (_ & Hn & Hi & _).
    exists tr, td0, rest, w1, w2. split; [exact Htds|]. split; [exact Hf|].
    pose proof (names_of_length table_team_name (row_team_cells td0)) as Hle.
    pose proof (row_team_cells_length td0) as H2.
    rewrite Hn, Hi. repeat split; try lia.
    intros Hall. rewrite (names_of_all _ _ Hall). lia.
Qed.

(** ** Deleting the occurrences of a text *)

Lemma prefix_app p a b : String.prefix p a = true -> String.prefix p (a +:+ b) = true.
Proof.
  revert a. induction p as [|c p IH]; intros a.
  - intros _. destruct (a +:+ b); reflexivity.
  - destruct a as [|d a]; simpl; [discriminate|].
    destruct (Ascii.ascii_dec c d); [apply IH|discriminate].
Qed.

Lemma prefix_split p s : String.prefix p s = true -> s = p +:+ drop_chars (String.length p) s.
Proof.
  revert s. induction p as [|c p IH]; intros s; [reflexivity|].
  destruct s as [|d s]; simpl; [discriminate|].
  destruct (Ascii.ascii_dec c d) as [->|]; [|discriminate].
  intros H. change (String d s = String d (p +:+ drop_chars (String.length p) s)).
  f_equal. apply (IH _ H).
Qed.

Lemma drop_chars_length k s : String.length (drop_chars k s) <= String.length s - k.
Proof.
  revert s. induction k as [|k IH]; intros s; simpl; [lia|].
  destruct s as [|c s]; simpl; [lia|]. apply IH.
Qed.

Lemma delete_all_go_skip old k s :
  delete_all_go old k s = delete_all_go old 0 (drop_chars k s).
Proof.
  revert k. induction s as [|c t IH]; intros k.
  - destruct k; reflexivity.
  - destruct k as [|k]; [reflexivity|]. simpl drop_chars.
    change (delete_all_go old (S k) (String c t)) with (delete_all_go old k t). apply IH.
Qed.

(** The equations of the one pass from the left. *)
Lemma delete_all_step old s :
  old <> "" ->
  delete_all old s =
    match s with
    | "" => ""
    | String c t =>
        if startswith s old then delete_all old (drop_chars (String.length old) s)
        else String c (delete_all old t)
    end.
Proof.
  intros Hold. unfold delete_all. apply nonempty_true in Hold. rewrite Hold.
  destruct s as [|c t]; [reflexivity|].
  change (delete_all_go old 0 (String c t))
    with (if startswith (String c t) old then delete_all_go old (String.length old - 1) t
          else String c (delete_all_go old 0 t)).
  destruct (startswith (String c t) old); [|reflexivity].
  rewrite delete_all_go_skip. destruct old as [|o old']; [discriminate|].
  simpl. now rewrite Nat.sub_0_r.
Qed.

Lemma contains_empty old : old <> "" -> contains old "" = false.
Proof. destruct old; [congruence|reflexivity]. Qed.

Lemma append_cons c a b : String c a +:+ b = String c (a +:+ b).
Proof. reflexivity. Qed.

Lemma append_nil_r a : a +:+ "" = a.
Proof. induction a as [|c a IH]; [reflexivity|]. now rewrite append_cons, IH. Qed.

Lemma join_cons_head sep x l : exists rest, join sep (x :: l) = x +:+ rest.
Proof.
  destruct l as [|y l]; simpl.
  - exists "". now rewrite append_nil_r.
  - eauto.
Qed.

Lemma join_push sep c x l : join sep (String c x :: l) = String c (join sep (x :: l)).
Proof. destruct l; reflexivity. Qed.

(** [delete_all old s] cuts [s] at occurrences of [old] and glues the
    pieces in between, none of which holds an occurrence of [old]. *)
Lemma delete_all_pieces old s :
  old <> "" ->
  exists pieces,
    s = join old pieces
    /\ delete_all old s = join "" pieces
    /\ Forall (fun p => contains old p = false) pieces.
Proof.
  intros Hold.
  assert (Hgen : forall n s, String.length s <= n ->
            exists p ps, s = join old (p :: ps)
              /\ delete_all old s = join "" (p :: ps)
              /\ Forall (fun p => contains old p = false) (p :: ps)).
  { clear s. induction n as [|n IH]; intros s Hn.
    - destruct s; [|simpl in Hn; lia]. exists "", []. rewrite delete_all_step by exact Hold.
      repeat split. constructor; [now apply contains_empty|constructor].
    - destruct s as [|c t].
      + exists "", []. rewrite delete_all_step by exact Hold.
        repeat split. constructor; [now apply contains_empty|constructor].
      + rewrite delete_all_step by exact Hold.
        destruct (startswith (String c t) old) eqn:Hp.
        * pose proof (prefix_split _ _ Hp) as Hs.
          destruct (IH (drop_chars (String.length old) (String c t))) as (p & ps & H1 & H2 & H3).
          { pose proof (drop_chars_length (String.length old) (String c t)) as Hd.
            destruct old; [congruence|]. simpl in *. lia. }
          exists "", (p :: ps). split; [|split].
          -- rewrite Hs at 1. rewrite H1 at 1. reflexivity.
          -- rewrite H2. reflexivity.
          -- constructor; [now apply contains_empty|exact H3].
        * destruct (IH t) as (p & ps & H1 & H2 & H3); [simpl in Hn; lia|].
          exists (String c p), ps. rewrite !join_push. split; [|split].
          -- now rewrite <- H1.
          -- now rewrite <- H2.
          -- inversion H3 as [|? ? Hcp Hps]; subst. constructor; [|exact Hps].
             rewrite contains_cons, Hcp, orb_false_r.
             destruct (startswith (String c p) old) eqn:Hq; [|reflexivity].
             destruct (join_cons_head old p ps) as [rest Hrest].
             unfold startswith in *. rewrite Hrest, <- append_cons in Hp.
             rewrite (prefix_app _ _ rest Hq) in Hp. discriminate. }
  destruct (Hgen (String.length s) s (le_n _)) as (p & ps & H). eauto.
Qed.

(** C10: when the title paragraph of a card holds a status fragment, the
    title of the card is the text of the paragraph with the status text
    deleted by one global replacement and then stripped: the text is cut at
    occurrences of the status text, wherever they are in the title, and the
    pieces in between, none of which holds the status text, are glued
    together; an empty status text deletes nothing. *)
Theorem card_title_drops_status (mu p st : Node) (w : World) :
  find (has_tag "p") mu = Some p ->
  find (has_tag "small") p = Some st ->
  let status_text := get_text "" st in
  let raw_title := get_text " " p in
  card_title_status mu = (strip (delete_all status_text raw_title), Some status_text)
  /\ (forall r w', parse_match_update mu w = (Some r, w') ->
        title r = strip (delete_all status_text raw_title) /\ status r = Some status_text)
  /\ (status_text = "" -> delete_all status_text raw_title = raw_title)
  /\ (status_text <> "" ->
      exists pieces,
        raw_title = join status_text pieces
        /\ delete_all status_text raw_title = join "" pieces
        /\ Forall (fun piece => contains status_text piece = false) pieces).
Proof.
  intros Hp Hst status_text raw_title.
  assert (Hc : card_title_status mu
               = (strip (delete_all status_text raw_title), Some status_text)).
  { unfold card_title_status. rewrite Hp, Hst. reflexivity. }
  split; [exact Hc|]. split; [|split].
  - intros r w' Hr.
    destruct (parse_match_update_spec mu w) as (imgs & href & w2 & _ & Hspec).
    rewrite Hspec, Hc in Hr. simpl in Hr.
    destruct (keep_entry _ _ _); [|discriminate].
    injection Hr as <- _. split; reflexivity.
  - intros ->. reflexivity.
  - apply delete_all_pieces.
Qed.

(** ** The merge of the two passes *)

Lemma dedupe_sublist seen l : sublist (dedupe seen l) l.
Proof.
  revert seen. induction l as [|it l IH]; intros seen; simpl; [constructor|].
  destruct (bool_decide (key_for it ∈ seen)).
  - apply sublist_cons, IH.
  - apply sublist_skip, IH.
Qed.

Lemma dedupe_unseen seen l x : In x (dedupe seen l) -> key_for x ∉ seen.
Proof.
  revert seen. induction l as [|it l IH]; intros seen; simpl; [intros []|].
  destruct (bool_decide (key_for it ∈ seen)) eqn:Hb.
  - apply IH.
  - apply bool_decide_eq_false in Hb.
    intros [<-|Hin]; [exact Hb|]. specialize (IH _ Hin). set_solver.
Qed.

Lemma dedupe_NoDup seen l : NoDup (map key_for (dedupe seen l)).
Proof.
  revert seen. induction l as [|it l IH]; intros seen; simpl; [constructor|].
  destruct (bool_decide (key_for it ∈ seen)); [apply IH|].
  simpl. constructor; [|apply IH].
  intros Hin. apply list_elem_of_In, in_map_iff in Hin as (x & Hk & Hx).
  apply dedupe_unseen in Hx. set_solver.
Qed.

Lemma dedupe_find seen l k :
  k ∉ seen -> List.find (has_key k) (dedupe seen l) = List.find (has_key k) l.
Proof.
  revert seen. induction l as [|it l IH]; intros seen Hk; simpl; [reflexivity|].
  unfold has_key at 2. destruct (String.eqb k (key_for it)) eqn:He.
  - apply String.eqb_eq in He. subst k.
    rewrite bool_decide_false by exact Hk. simpl. unfold has_key.
    now rewrite String.eqb_refl.
  - apply String.eqb_neq in He. destruct (bool_decide (key_for it ∈ seen)).
    + now apply IH.
    + simpl. unfold has_key at 1. apply String.eqb_neq in He. rewrite He.
      apply IH. apply String.eqb_neq in He.
      intros [Hs|Hs]%elem_of_union; [apply elem_of_singleton in Hs; congruence|auto].
Qed.

Lemma dedupe_distinct seen l :
  NoDup (map key_for l) -> (forall x, In x l -> key_for x ∉ seen) -> dedupe seen l = l.
Proof.
  revert seen. induction l as [|it l IH]; intros seen Hnd Hun; simpl; [reflexivity|].
  simpl in Hnd. apply NoDup_cons in Hnd as [Hit Hnd].
  rewrite bool_decide_false by (apply Hun; now left). f_equal.
  apply IH; [exact Hnd|]. intros x Hx.
  assert (key_for x <> key_for it).
  { intros He. apply Hit. rewrite <- He. apply list_elem_of_In, in_map, Hx. }
  specialize (Hun x (or_intror Hx)).
  intros [Hs|Hs]%elem_of_union; [apply elem_of_singleton in Hs; congruence|auto].
Qed.

Lemma find_app_first {A : Type} (f : A -> bool) l1 l2 x :
  In x l1 -> f x = true ->
  exists y, In y l1 /\ List.find f (l1 ++ l2) = Some y.
Proof.
  induction l1 as [|a l1 IH]; simpl; [intros []|].
  intros [->|Hin] Hx.
  - rewrite Hx. eauto.
  - destruct (f a); [eauto|]. destruct (IH Hin Hx) as (y & Hy & Hf). eauto.
Qed.


(** Every entry of the merged result is an entry of one of the passes. *)
Lemma merged_entry_origin doc w r :
  In r (fst (parse_schedules_html doc w)) ->
  exists root w', In r (fst (_parse_match_updates root w'))
                  \/ In r (fst (_parse_schedule_table root w')).
Proof.
  unfold parse_schedules_html. unfold_state.
  set (root := _find_content_root (soup_of doc)).
  destruct (_parse_match_updates root w) as [cs w1] eqn:Hc.
  destruct (_parse_schedule_table root w1) as [ts w2] eqn:Ht. simpl.
  intros Hin.
  assert (Hsub : In r (cs ++ ts)).
  { apply list_elem_of_In. eapply elem_of_sublist; [|apply dedupe_sublist].
    apply list_elem_of_In, Hin. }
  apply in_app_or in Hsub as [Hr|Hr].
  - exists root, w. left. now rewrite Hc.
  - exists root, w1. right. now rewrite Ht.
Qed.

Lemma names_of_filter f l :
  length (names_of f l) = length (List.filter (fun x => nonempty (f x)) l).
Proof.
  induction l as [|x l IH]; simpl; [reflexivity|].
  destruct (nonempty (f x)); simpl; now rewrite IH.
Qed.

(** C2, amended: an entry of either pass has at most two teams and never
    more teams than images, and as many images as teams whenever every
    team element looked at gives a name.  In the table pass team_images
    holds one image for each team link looked at, the first two of the
    row, so it has at most two images.  In the card pass team_images holds
    one image for each team element when the card has at most two of them,
    and teams and team_images both have two entries when more than two
    team elements give a name. *)
Theorem team_images_cover_teams (doc : Node) (root : Cursor) (w : World) (r : MatchRecord) :
  (In r (fst (_parse_match_updates root w)) ->
   exists mu w1 w2,
     In mu (find_all (has_class "match_update") (here root))
     /\ parse_match_update mu w1 = (Some r, w2)
     /\ length (teams r) <= 2
     /\ length (teams r) <= length (team_images r)
     /\ (length (find_all (has_class "teamname") mu) <= 2 ->
         length (team_images r) = length (find_all (has_class "teamname") mu))
     /\ (2 < length (List.filter (fun tn => nonempty (card_team_name tn))
                                 (find_all (has_class "teamname") mu)) ->
         length (teams r) = 2 /\ length (team_images r) = 2)
     /\ (Forall (fun tn => card_team_name tn <> "") (card_team_nodes mu) ->
         length (team_images r) = length (teams r)))
  /\ (In r (fst (_parse_schedule_table root w)) ->
      exists tr td0 rest w1 w2,
        find_all (has_tag "td") tr = td0 :: rest
        /\ parse_schedule_row tr w1 = (Some r, w2)
        /\ length (teams r) <= length (team_images r)
        /\ length (team_images r)
           = length (take 2 (find_all (fun n => has_tag "a" n && has_class "team_name" n) td0))
        /\ length (team_images r) <= 2
        /\ (Forall (fun a => table_team_name a <> "") (row_team_cells td0) ->
            length (team_images r) = length (teams r)))
  /\ (In r (fst (parse_schedules_html doc w)) ->
      length (teams r) <= 2 /\ length (teams r) <= length (team_images r)).
Proof.
  split; [|split].
  - intros Hin.
    destruct (card_record_inv _ _ _ Hin) as (mu & imgs & w1 & w2 & Hmu & Hf & Hlen & Hr).
    simpl in Hr. destruct Hr as (_ & Hn & Hi & _).
    exists mu, w1, w2. split; [exact Hmu|]. split; [exact Hf|].
    fold (card_team_nodes mu).
    pose proof (names_of_length card_team_name (card_team_nodes mu)) as Hle.
    rewrite <- names_of_filter. rewrite Hn, Hi.
    destruct (bool_decide (2 < length (names_of card_team_name (card_team_nodes mu)))) eqn:Hb.
    + apply bool_decide_eq_true in Hb. rewrite !length_take.
      repeat split; intros; lia.
    + apply bool_decide_eq_false in Hb. repeat split; intros; try lia.
      rewrite (names_of_all card_team_name (card_team_nodes mu)); [lia|assumption].
  - intros Hin.
    destruct (table_record_inv _ _ _ Hin)
      as (table & tr & td0 & rest & imgs & w1 & w2 & _ & _ & Htds & Hf & Hlen & Hr).
    simpl in Hr. destruct Hr as (_ & Hn & Hi & _).
    exists tr, td0, rest, w1, w2. split; [exact Htds|]. split; [exact Hf|].
    pose proof (names_of_length table_team_name (row_team_cells td0)) as Hle.
    pose proof (row_team_cells_length td0) as H2.
    rewrite Hn, Hi. fold (row_team_cells td0). repeat split; try lia.
    intros Hall. rewrite (names_of_all _ _ Hall). lia.
  - intros Hin. destruct (merged_entry_origin _ _ _ Hin) as (root' & w' & [Hr|Hr]).
    + destruct (proj1 (pass_entry_lengths root' w' r) Hr) as (mu & w1 & w2 & _ & _ & H2 & Hle & _).
      split; assumption.
    + destruct (proj2 (pass_entry_lengths root' w' r) Hr)
        as (tr & td0 & rest & w1 & w2 & _ & _ & Hle & H2 & _).
      split; [lia|assumption].
Qed.


Lemma NoDup_map_eq {A B : Type} (f : A -> B) (l : list A) a b :
  NoDup (map f l) -> In a l -> In b l -> f a = f b -> a = b.
Proof.
  induction l as [|x l IH]; simpl; [intros _ []|].
  intros Hnd. apply NoDup_cons in Hnd as [Hx Hnd].
  intros [->|Ha] [->|Hb] Hf; auto.
  - exfalso. apply Hx. rewrite Hf. apply list_elem_of_In, in_map, Hb.
  - exfalso. apply Hx. rewrite <- Hf. apply list_elem_of_In, in_map, Ha.
Qed.

Lemma find_key_In l k it :
  In it l -> has_key k it = true -> exists it', List.find (has_key k) l = Some it'.
Proof.
  induction l as [|x l IH]; simpl; [intros []|].
  intros [->|Hin] Hk; [rewrite Hk; eauto|].
  destruct (has_key k x); [eauto|]. now apply IH.
Qed.

(** C3: the merge concatenates the entries of the card pass and of the table
    pass and removes the duplicates of the composite key: the title, a
    bar, the teams joined by "-", a bar, and the time/venue (empty when
    absent).  The result is a subsequence of the concatenation, so the
    order is kept; no key occurs twice, so of the entries with the same
    title, teams and time/venue one is left; for every key the entry that
    survives is the first one of the concatenation with that key, so a card
    entry wins over a table entry with its key; every key of the
    concatenation is still there, and when all keys differ every entry
    survives, however many there are. *)
Theorem merge_keeps_first_occurrence (doc : Node) (w : World) :
  let root := _find_content_root (soup_of doc) in
  let card_items := fst (_parse_match_updates root w) in
  let table_items := fst (_parse_schedule_table root (snd (_parse_match_updates root w))) in
  let merged := fst (parse_schedules_html doc w) in
  let key := fun it : MatchRecord =>
    title it +:+ "|" +:+ join "-" (teams it) +:+ "|" +:+ default "" (time_or_venue it) in
  let first_with := fun (k : string) (l : list MatchRecord) =>
    List.find (fun it => String.eqb k (key it)) l in
  sublist merged (card_items ++ table_items)
  /\ NoDup (map key merged)
  /\ (forall a b, In a merged -> In b merged ->
        title a = title b -> teams a = teams b ->
        default "" (time_or_venue a) = default "" (time_or_venue b) -> a = b)
  /\ (forall k, first_with k merged = first_with k (card_items ++ table_items))
  /\ (forall it, In it (card_items ++ table_items) ->
        exists it', In it' merged /\ key it' = key it)
  /\ (forall c t, In c card_items -> In t table_items -> key c = key t ->
        exists c', In c' card_items /\ first_with (key t) merged = Some c')
  /\ (NoDup (map key (card_items ++ table_items)) -> merged = card_items ++ table_items)
  /\ (forall it, key_for it = key it)
  /\ merged = dedupe ∅ (card_items ++ table_items).
Proof.
  intros root card_items table_items merged key first_with.
  assert (Hm : merged = dedupe ∅ (card_items ++ table_items)).
  { unfold merged, parse_schedules_html, card_items, table_items. fold root. unfold_state.
    destruct (_parse_match_updates root w) as [cs w1]. simpl.
    destruct (_parse_schedule_table root w1) as [ts w2]. reflexivity. }
  change key with key_for in *.
  change first_with with (fun k l => List.find (has_key k) l). cbv beta.
  assert (Hnd : NoDup (map key_for merged)) by (rewrite Hm; apply dedupe_NoDup).
  assert (Hfind : forall k, List.find (has_key k) merged
                            = List.find (has_key k) (card_items ++ table_items)).
  { intros k. rewrite Hm. apply dedupe_find. set_solver. }
  split; [rewrite Hm; apply dedupe_sublist|].
  split; [exact Hnd|].
  split.
  { intros a b Ha Hb Ht Hts Htm. apply (NoDup_map_eq key_for merged a b Hnd Ha Hb).
    unfold key_for, or_empty. now rewrite Ht, Hts, Htm. }
  split; [exact Hfind|].
  split.
  { intros it Hin.
    destruct (find_key_In _ (key_for it) it Hin) as [it' Hit'].
    { unfold has_key. apply String.eqb_refl. }
    rewrite <- Hfind in Hit'. apply find_some in Hit' as [Hin' Hk].
    exists it'. split; [exact Hin'|]. unfold has_key in Hk. apply String.eqb_eq in Hk. auto. }
  split.
  { intros c t Hc _ Hk. rewrite Hfind.
    apply (find_app_first _ _ _ c Hc). unfold has_key. rewrite Hk. apply String.eqb_refl. }
  split.
  { intros Hd. rewrite Hm. apply dedupe_distinct; [exact Hd|]. intros; set_solver. }
  split; [reflexivity|exact Hm].
Qed.

(** ** The Source Normalizer *)

(** The identifiers the flag pattern captures are flag identifiers. *)
Lemma span_digits_digits s : all_chars is_digit (fst (span_digits s)) = true.
Proof.
  induction s as [|c t IH]; simpl; [reflexivity|].
  destruct (is_digit c) eqn:Hc; [|reflexivity].
  destruct (span_digits t) as [d r]. simpl in *. now rewrite Hc, IH.
Qed.

Lemma flag_pattern_at_id s d : flag_pattern_at s = Some d -> is_flag_id d = true.
Proof.
  unfold flag_pattern_at.
  destruct (if startswith s "cricflag/" then _ else _) as [r|]; [|discriminate].
  pose proof (span_digits_digits r) as Hd. destruct (span_digits r) as [d' r'].
  simpl in Hd. destruct (nonempty d' && _) eqn:Hn; [|discriminate].
  intros [= <-]. apply andb_true_iff in Hn as [Hn _].
  unfold is_flag_id. now rewrite Hn, Hd.
Qed.

Lemma flag_id_search_is_flag_id s fid :
  flag_id_search s = Some fid -> is_flag_id fid = true.
Proof.
  induction s as [|c t IH].
  - vm_compute. discriminate.
  - change (flag_id_search (String c t))
      with (match flag_pattern_at (String c t) with
            | Some d => Some d
            | None => flag_id_search t
            end).
    destruct (flag_pattern_at (String c t)) eqn:Hp; [|exact IH].
    intros [= <-]. exact (flag_pattern_at_id _ _ Hp).
Qed.

Lemma span_digits_split s : s = fst (span_digits s) +:+ snd (span_digits s).
Proof.
  induction s as [|c t IH]; simpl; [reflexivity|].
  destruct (is_digit c); [|reflexivity].
  destruct (span_digits t) as [d r]. cbn [fst snd] in *.
  rewrite append_cons. f_equal. exact IH.
Qed.

(** Where the flag pattern matches, the reference reads: a directory name
    of the pattern, a slash, the identifier, a dot and an image extension. *)
Lemma flag_pattern_at_occurrence s fid :
  flag_pattern_at s = Some fid ->
  exists dir ext post,
    s = dir +:+ "/" +:+ fid +:+ "." +:+ ext +:+ post
    /\ (dir = "cricflag" \/ dir = "flags") /\ (ext = "png" \/ ext = "gif").
Proof.
  unfold flag_pattern_at.
  assert (Hr : forall r,
             (let '(d, r') := span_digits r in
              if nonempty d && (startswith r' ".png" || startswith r' ".gif")
              then Some d else None) = Some fid ->
             exists ext post, r = fid +:+ "." +:+ ext +:+ post
                              /\ (ext = "png" \/ ext = "gif")).
  { intros r. pose proof (span_digits_split r) as Hs.
    destruct (span_digits r) as [d r']. simpl in Hs.
    destruct (nonempty d); [|discriminate]. simpl.
    destruct (startswith r' ".png") eqn:Hp.
    - intros [= <-]. exists "png", (drop_chars 4 r'). split; [|now left].
      rewrite Hs at 1. f_equal. exact (prefix_split _ _ Hp).
    - destruct (startswith r' ".gif") eqn:Hg; [|discriminate].
      intros [= <-]. exists "gif", (drop_chars 4 r'). split; [|now right].
      rewrite Hs at 1. f_equal. exact (prefix_split _ _ Hg). }
  destruct (startswith s "cricflag/") eqn:Hc.
  - intros H. destruct (Hr _ H) as (ext & post & Hd & He).
    exists "cricflag", ext, post. split; [|split; [now left|exact He]].
    rewrite (prefix_split _ _ Hc) at 1. simpl String.length. rewrite Hd. reflexivity.
  - destruct (startswith s "flags/") eqn:Hf; [|discriminate].
    intros H. destruct (Hr _ H) as (ext & post & Hd & He).
    exists "flags", ext, post. split; [|split; [now right|exact He]].
    rewrite (prefix_split _ _ Hf) at 1. simpl String.length. rewrite Hd. reflexivity.
Qed.

Lemma flag_id_search_occurrence s fid :
  flag_id_search s = Some fid ->
  exists pre dir ext post,
    s = pre +:+ dir +:+ "/" +:+ fid +:+ "." +:+ ext +:+ post
    /\ (dir = "cricflag" \/ dir = "flags") /\ (ext = "png" \/ ext = "gif").
Proof.
  induction s as [|c t IH].
  - vm_compute. discriminate.
  - change (flag_id_search (String c t))
      with (match flag_pattern_at (String c t) with
            | Some d => Some d
            | None => flag_id_search t
            end).
    destruct (flag_pattern_at (String c t)) eqn:Hp.
    + intros [= <-]. destruct (flag_pattern_at_occurrence _ _ Hp) as (dir & ext & post & H).
      exists "", dir, ext, post. exact H.
    + intros H. destruct (IH H) as (pre & dir & ext & post & Hs & Hd).
      exists (String c pre), dir, ext, post. split; [|exact Hd].
      rewrite append_cons. now f_equal.
Qed.

Lemma local_gif_for_src_spec (s : string) w :
  s <> "" ->
  fst (_local_gif_for_src (Some s) w) =
    match flag_id_search s with
    | Some fid => id_to_path (fst (_load_flags_mapping w)) !! fid
    | None => None
    end.
Proof.
  intros Hs. apply nonempty_true in Hs. unfold _local_gif_for_src. rewrite Hs.
  destruct (flag_id_search s) as [fid|]; [|reflexivity].
  unfold_state. destruct (_load_flags_mapping w). reflexivity.
Qed.

Lemma span_digits_app d r :
  all_chars is_digit d = true ->
  span_digits (d +:+ "." +:+ r) = (d, "." +:+ r).
Proof.
  induction d as [|c d IH]; [reflexivity|].
  cbn [all_chars]. intros H. apply andb_true_iff in H as [Hc Hd].
  rewrite append_cons. cbn [span_digits]. rewrite Hc, (IH Hd). reflexivity.
Qed.

Lemma startswith_app p x : startswith (p +:+ x) p = true.
Proof.
  unfold startswith. induction p as [|c p IH]; [apply prefix_empty|].
  rewrite append_cons. cbn [String.prefix].
  destruct (Ascii.ascii_dec c c); [exact IH|congruence].
Qed.

Lemma flag_pattern_at_complete s fid :
  flag_occurrence s "" fid -> flag_pattern_at s = Some fid.
Proof.
  intros (dir & ext & post & -> & Hdir & Hext & Hfid).
  unfold is_flag_id in Hfid. apply andb_true_iff in Hfid as [Hne Hd].
  unfold flag_pattern_at.
  assert (Hrest : (let '(d, r') := span_digits (fid +:+ "." +:+ ext +:+ post) in
                   if nonempty d && (startswith r' ".png" || startswith r' ".gif")
                   then Some d else None) = Some fid).
  { rewrite (span_digits_app _ _ Hd), Hne.
    destruct Hext as [-> | ->].
    - change ("." +:+ "png" +:+ post) with (".png" +:+ post).
      now rewrite startswith_app.
    - change ("." +:+ "gif" +:+ post) with (".gif" +:+ post).
      rewrite startswith_app. now rewrite orb_true_r. }
  destruct Hdir as [-> | ->].
  - change ("" +:+ "cricflag" +:+ "/" +:+ fid +:+ "." +:+ ext +:+ post)
      with ("cricflag/" +:+ (fid +:+ "." +:+ ext +:+ post)).
    rewrite startswith_app. exact Hrest.
  - change ("" +:+ "flags" +:+ "/" +:+ fid +:+ "." +:+ ext +:+ post)
      with ("flags/" +:+ (fid +:+ "." +:+ ext +:+ post)).
    replace (startswith ("flags/" +:+ (fid +:+ "." +:+ ext +:+ post)) "cricflag/") with false
      by reflexivity.
    rewrite startswith_app. exact Hrest.
Qed.

Lemma flag_pattern_at_sound s fid :
  flag_pattern_at s = Some fid -> flag_occurrence s "" fid.
Proof.
  intros H. destruct (flag_pattern_at_occurrence _ _ H) as (dir & ext & post & Hs & Hd & He).
  exists dir, ext, post. repeat split; auto. exact (flag_pattern_at_id _ _ H).
Qed.

Lemma flag_occurrence_cons c t pre fid :
  flag_occurrence (String c t) (String c pre) fid <-> flag_occurrence t pre fid.
Proof.
  split; intros (dir & ext & post & Hs & H); exists dir, ext, post; split; try exact H.
  - rewrite append_cons in Hs. now injection Hs.
  - rewrite append_cons. now f_equal.
Qed.

Lemma flag_occurrence_head c t d pre fid :
  flag_occurrence (String c t) (String d pre) fid -> d = c.
Proof. intros (dir & ext & post & Hs & _). rewrite append_cons in Hs. now injection Hs. Qed.

(** [flag_id_search] returns the identifier of the leftmost match of the
    flag pattern. *)
Lemma flag_id_search_leftmost s fid :
  flag_id_search s = Some fid <->
  exists pre, flag_occurrence s pre fid
              /\ forall pre' fid', flag_occurrence s pre' fid' ->
                                   String.length pre <= String.length pre'.
Proof.
  revert fid. induction s as [|c t IH]; intros fid.
  - split; [vm_compute; discriminate|].
    intros (pre & (dir & ext & post & Hs & Hd & _) & _). exfalso.
    symmetry in Hs. apply append_eq_nil in Hs as [_ Hs].
    destruct Hd as [-> | ->]; discriminate Hs.
  - change (flag_id_search (String c t))
      with (match flag_pattern_at (String c t) with
            | Some d => Some d
            | None => flag_id_search t
            end).
    destruct (flag_pattern_at (String c t)) as [d|] eqn:Hp.
    + split.
      * intros [= <-]. exists "". split; [now apply flag_pattern_at_sound|]. intros; cbn; lia.
      * intros (pre & Hocc & Hleft).
        specialize (Hleft "" d (flag_pattern_at_sound _ _ Hp)).
        destruct pre; [|cbn in Hleft; lia].
        apply flag_pattern_at_complete in Hocc. congruence.
    + rewrite IH. split.
      * intros (pre & Hocc & Hleft). exists (String c pre).
        split; [exact (proj2 (flag_occurrence_cons c t pre fid) Hocc)|].
        intros [|d pre'] fid' Hocc'.
        -- apply flag_pattern_at_complete in Hocc'. congruence.
        -- pose proof (flag_occurrence_head _ _ _ _ _ Hocc') as ->.
           apply (proj1 (flag_occurrence_cons c t pre' fid')) in Hocc'.
           specialize (Hleft _ _ Hocc'). cbn. lia.
      * intros ([|d pre] & Hocc & Hleft).
        -- apply flag_pattern_at_complete in Hocc. congruence.
        -- pose proof (flag_occurrence_head _ _ _ _ _ Hocc) as ->.
           exists pre. split; [exact (proj1 (flag_occurrence_cons c t pre fid) Hocc)|].
           intros pre' fid' Hocc'. apply (proj2 (flag_occurrence_cons c t pre' fid')) in Hocc'.
           specialize (Hleft _ _ Hocc'). cbn in Hleft. lia.
Qed.

(** C6: the Source Normalizer gives nothing for an absent or empty
    reference; for a reference that matches the flag path pattern (a
    directory cricflag or flags, a slash, a numeric id, a dot, and png or
    gif) with an id, the one of the leftmost match, that the mapping sends
    to a local path, it gives that path, before any other rule; otherwise a
    reference starting with "data:" gives nothing, one starting with "//"
    is prefixed with "https:", one starting with "/" is prefixed with the
    origin "https://hamariweb.com", and any other reference comes back
    unchanged. *)
Theorem norm_src_rules (src : string) (w : World) :
  let flags := fst (_load_flags_mapping w) in
  let occurs := fun pre fid : string =>
    exists dir ext post,
      src = pre +:+ dir +:+ "/" +:+ fid +:+ "." +:+ ext +:+ post
      /\ (dir = "cricflag" \/ dir = "flags") /\ (ext = "png" \/ ext = "gif")
      /\ fid <> "" /\ all_chars is_digit fid = true in
  let shows := fun fid : string =>
    exists pre, occurs pre fid
                /\ forall pre' fid', occurs pre' fid' ->
                                     String.length pre <= String.length pre' in
  fst (_norm_src None w) = None
  /\ fst (_norm_src (Some "") w) = None
  /\ (forall fid p,
        shows fid -> id_to_path flags !! fid = Some p -> p <> "" ->
        fst (_norm_src (Some src) w) = Some p)
  /\ (src <> "" ->
      (forall fid p, shows fid -> id_to_path flags !! fid = Some p -> p = "") ->
      fst (_norm_src (Some src) w) =
        if startswith src "data:" then None
        else if startswith src "//" then Some ("https:" +:+ src)
        else if startswith src "/" then Some ("https://hamariweb.com" +:+ src)
        else Some src)
  /\ (forall fid, flag_id_search src = Some fid <-> shows fid)
  /\ (forall fid fid', shows fid -> shows fid' -> fid = fid')
  /\ (forall p, startswith src p = true <-> exists rest, src = p +:+ rest).
Proof.
  intros flags occurs shows. split; [reflexivity|]. split; [reflexivity|].
  assert (Hocc : forall pre fid, occurs pre fid <-> flag_occurrence src pre fid).
  { intros pre fid. unfold occurs, flag_occurrence, is_flag_id. split.
    - intros (dir & ext & post & Hs & Hd & He & Hn & Ha). exists dir, ext, post.
      repeat split; auto. apply nonempty_true in Hn. now rewrite Hn, Ha.
    - intros (dir & ext & post & Hs & Hd & He & Hf). exists dir, ext, post.
      apply andb_true_iff in Hf as [Hn Ha]. repeat split; auto. now apply nonempty_true. }
  assert (Hshows : forall fid, flag_id_search src = Some fid <-> shows fid).
  { intros fid. rewrite flag_id_search_leftmost. unfold shows. split.
    - intros (pre & Ho & Hl). exists pre. split; [now apply Hocc|].
      intros pre' fid' Ho'. apply (Hl pre' fid'). now apply Hocc.
    - intros (pre & Ho & Hl). exists pre. split; [now apply Hocc|].
      intros pre' fid' Ho'. apply (Hl pre' fid'). now apply Hocc. }
  assert (Hgen : src <> "" ->
            fst (_norm_src (Some src) w) =
              if truthy (fst (_local_gif_for_src (Some src) w))
              then fst (_local_gif_for_src (Some src) w)
              else if startswith src "data:" then None
              else if startswith src "//" then Some ("https:" +:+ src)
              else if startswith src "/" then Some ("https://hamariweb.com" +:+ src)
              else Some src).
  { intros Hs. apply nonempty_true in Hs. unfold _norm_src. rewrite Hs. unfold_state.
    destruct (_local_gif_for_src (Some src) w) as [local w1]. simpl.
    destruct (truthy local); [reflexivity|].
    destruct (startswith src "data:"); [reflexivity|].
    destruct (startswith src "//"); [reflexivity|].
    destruct (startswith src "/"); reflexivity. }
  split.
  { intros fid p Hfid Hp Hne. apply Hshows in Hfid.
    assert (Hs : src <> "") by (intros ->; discriminate Hfid).
    rewrite (Hgen Hs), (local_gif_for_src_spec _ _ Hs), Hfid.
    fold flags. rewrite Hp. simpl. apply nonempty_true in Hne. now rewrite Hne. }
  split.
  { intros Hs Hno. rewrite (Hgen Hs), (local_gif_for_src_spec _ _ Hs).
    fold flags. destruct (flag_id_search src) as [fid|] eqn:Hfid; [|reflexivity].
    destruct (id_to_path flags !! fid) as [p|] eqn:Hp; [|reflexivity].
    rewrite (Hno fid p (proj1 (Hshows fid) eq_refl) Hp). reflexivity. }
  split; [exact Hshows|].
  split; [intros fid fid' H1 H2; apply Hshows in H1, H2; congruence|].
  intros p. split.
  - intros H. eexists. exact (prefix_split _ _ H).
  - intros [rest ->]. apply startswith_app.
Qed.

(** ** The batting table *)

Lemma stat_cell_spec tds i :
  stat_cell tds i = Some (option_map (get_text " ") (tds !! i)).
Proof.
  unfold stat_cell. destruct (bool_decide (i < length tds)) eqn:Hb.
  - apply bool_decide_eq_true in Hb. apply lookup_lt_is_Some in Hb as [td ->]. reflexivity.
  - apply bool_decide_eq_false in Hb. rewrite lookup_ge_None_2 by lia. reflexivity.
Qed.

Lemma startswith_other_head s a p b q :
  startswith s (String a p) = true -> a <> b -> startswith s (String b q) = false.
Proof.
  unfold startswith. destruct s as [|c s]; [discriminate|]. simpl.
  destruct (Ascii.ascii_dec a c), (Ascii.ascii_dec b c); congruence.
Qed.

(** What [batting_row] does with a row that has a cell. *)
Lemma batting_row_spec tr inn td0 rest :
  find_all (has_tag "td") tr = td0 :: rest ->
  let tds := td0 :: rest in
  let label := lower (get_text " " td0) in
  let stat i := option_map (get_text " ") (tds !! i) in
  batting_row tr inn =
    Some (if startswith label "extras" then
            mkInnings (batting inn) (rest_text tds) (total inn) (note inn)
              (bowling inn) (team inn)
          else if startswith label "total" then
            mkInnings (batting inn) (extras inn) (rest_text tds) (note inn)
              (bowling inn) (team inn)
          else if nonempty (batting_name td0)
                  && existsb truthy [stat 1; stat 2; stat 3; stat 4; stat 5]
                  && negb (startswith label "did not bat")
          then
            mkInnings
              (batting inn ++
               [mkBatting (batting_name td0)
                  (or_none (_text (find (has_tag "small") td0)))
                  (stat 1) (stat 2) (stat 3) (stat 4) (stat 5)])
              (extras inn) (total inn) (note inn) (bowling inn) (team inn)
          else inn).
Proof.
  intros Htds tds label stat. unfold batting_row. rewrite Htds. fold tds.
  rewrite bool_decide_false by (simpl; lia).
  change (tds !! 0) with (Some td0). simpl mbind. fold label.
  destruct (startswith label "extras"); [reflexivity|].
  destruct (startswith label "total"); [reflexivity|].
  rewrite !stat_cell_spec. simpl mbind. fold (stat 1) (stat 2) (stat 3) (stat 4) (stat 5).
  destruct (nonempty (batting_name td0) && _ && _); reflexivity.
Qed.

(** The claim as it reads does not hold for the stripped text: the cells
    after "Extras" read "" and "12", their space-joined text is " 12", and
    the field is "12"; a row that holds "Extras" and nothing else sets the
    field to nothing. *)
Lemma extras_text_is_stripped :
  batting_row extras_row empty_innings
  = Some (mkInnings [] (Some "12") None None None None)
  /\ join " " (map (get_text " ") (drop 1 (find_all (has_tag "td") extras_row))) = " 12"
  /\ batting_row bare_extras_row (mkInnings [] (Some "7") None None None None)
     = Some empty_innings
  /\ ~ (forall tr inn td0 rest,
          find_all (has_tag "td") tr = td0 :: rest ->
          startswith (lower (get_text " " td0)) "extras" = true ->
          exists inn', batting_row tr inn = Some inn'
                       /\ extras inn' = Some (join " " (map (get_text " ") rest))).
Proof.
  split; [reflexivity|]. split; [reflexivity|]. split; [reflexivity|].
  intros Hall.
  destruct (Hall extras_row empty_innings
              (Elem "td" [] [] [Text "Extras (b 4, lb 2)"])
              [Elem "td" [] [] []; Elem "td" [] [] [Text "12"]] eq_refl eq_refl)
    as (inn' & Hrow & Hex).
  vm_compute in Hrow. injection Hrow as <-. vm_compute in Hex. discriminate Hex.
Qed.

(** C7, amended: in a batting table, a row whose first cell starts with
    "extras" sets the extras field to the space-joined text of the remaining
    cells, stripped, or to nothing when that text is empty, and adds no
    player; a row whose first cell starts with "total" sets the total field
    in the same way; a row whose first cell starts with "did not bat" adds
    no player and changes nothing; any other row adds a BattingEntry exactly
    when it has a non-empty name and one of the five statistic cells after
    the first cell is non-empty. *)
Theorem batting_row_cases (tr : Node) (inn : Innings) (td0 : Node) (rest : list Node) :
  find_all (has_tag "td") tr = td0 :: rest ->
  let label := lower (get_text " " td0) in
  let stat i := option_map (get_text " ") ((td0 :: rest) !! i) in
  let stripped_rest := or_none (strip (join " " (map (get_text " ") rest))) in
  (startswith label "extras" = true ->
     batting_row tr inn =
       Some (mkInnings (batting inn) stripped_rest (total inn) (note inn)
               (bowling inn) (team inn)))
  /\ (startswith label "extras" = false -> startswith label "total" = true ->
      batting_row tr inn =
        Some (mkInnings (batting inn) (extras inn) stripped_rest (note inn)
                (bowling inn) (team inn)))
  /\ (startswith label "did not bat" = true -> batting_row tr inn = Some inn)
  /\ (startswith label "extras" = false -> startswith label "total" = false ->
      startswith label "did not bat" = false ->
      (batting_name td0 <> "" /\ Exists (fun s => exists x, s = Some x /\ x <> "")
                                   [stat 1; stat 2; stat 3; stat 4; stat 5] ->
       batting_row tr inn =
         Some (mkInnings
                 (batting inn ++
                  [mkBatting (batting_name td0)
                     (or_none (_text (find (has_tag "small") td0)))
                     (stat 1) (stat 2) (stat 3) (stat 4) (stat 5)])
                 (extras inn) (total inn) (note inn) (bowling inn) (team inn)))
      /\ (~ (batting_name td0 <> "" /\ Exists (fun s => exists x, s = Some x /\ x <> "")
                                        [stat 1; stat 2; stat 3; stat 4; stat 5]) ->
          batting_row tr inn = Some inn)).
Proof.
  intros Htds label stat stripped_rest.
  pose proof (batting_row_spec tr inn td0 rest Htds) as Hspec.
  subst stat. cbv beta zeta in Hspec |- *. fold label in Hspec.
  set (s1 := option_map (get_text " ") ((td0 :: rest) !! 1)) in *.
  set (s2 := option_map (get_text " ") ((td0 :: rest) !! 2)) in *.
  set (s3 := option_map (get_text " ") ((td0 :: rest) !! 3)) in *.
  set (s4 := option_map (get_text " ") ((td0 :: rest) !! 4)) in *.
  set (s5 := option_map (get_text " ") ((td0 :: rest) !! 5)) in *.
  assert (Hex : existsb truthy [s1; s2; s3; s4; s5] = true <->
                Exists (fun s => exists x, s = Some x /\ x <> "") [s1; s2; s3; s4; s5]).
  { rewrite existsb_exists, Exists_exists. split.
    - intros (s & Hin & Hs). exists s. split; [now apply list_elem_of_In|].
      destruct s as [x|]; [|discriminate]. exists x. split; [reflexivity|].
      now apply nonempty_true.
    - intros (s & Hin & x & -> & Hx). exists (Some x). split; [now apply list_elem_of_In|].
      now apply nonempty_true. }
  split; [|split; [|split]].
  - intros He. rewrite Hspec, He. reflexivity.
  - intros He Ht. rewrite Hspec, He, Ht. reflexivity.
  - intros Hd. rewrite Hspec.
    assert (He : startswith label "extras" = false)
      by (apply (startswith_other_head _ _ _ _ _ Hd); discriminate).
    assert (Ht : startswith label "total" = false)
      by (apply (startswith_other_head _ _ _ _ _ Hd); discriminate).
    rewrite He, Ht, Hd. simpl. now rewrite andb_false_r.
  - intros He Ht Hd. rewrite Hspec, He, Ht, Hd. simpl negb. rewrite andb_true_r.
    split.
    + intros [Hn Hs]. apply nonempty_true in Hn. apply Hex in Hs. now rewrite Hn, Hs.
    + intros Hno.
      destruct (nonempty (batting_name td0)) eqn:Hn; [|reflexivity].
      destruct (existsb truthy _) eqn:Hs; [|reflexivity].
      exfalso. apply Hno. split; [now apply nonempty_true|now apply Hex].
Qed.

(** ** The scorecard never raises *)

Lemma fold_rows_total {A : Type} (f : Node -> A -> option A) rows acc :
  (forall tr a, is_Some (f tr a)) -> is_Some (fold_rows f rows acc).
Proof.
  intros Hf. revert acc. induction rows as [|tr rows IH]; intros acc; simpl; [eauto|].
  destruct (Hf tr acc) as [acc' ->]. simpl. apply IH.
Qed.

Lemma batting_row_total tr inn : is_Some (batting_row tr inn).
Proof.
  destruct (find_all (has_tag "td") tr) as [|td0 rest] eqn:Htds.
  - unfold batting_row. rewrite Htds. simpl. eauto.
  - rewrite (batting_row_spec tr inn td0 rest Htds). eauto.
Qed.

Lemma bowling_row_total tr bowlers : is_Some (bowling_row tr bowlers).
Proof.
  unfold bowling_row. set (tds := find_all (has_tag "td") tr).
  destruct (bool_decide (length tds = 0) || bool_decide (length tds < 6)) eqn:Hb; [eauto|].
  apply orb_false_iff in Hb as [_ Hb]. apply bool_decide_eq_false in Hb.
  destruct tds as [|td0 [|td1 [|td2 [|td3 [|td4 [|td5 rest]]]]]]; simpl in Hb; try lia.
  simpl. destruct (nonempty _); eauto.
Qed.

Lemma info_row_total tr info : is_Some (info_row tr info).
Proof. unfold info_row. destruct (_ && _); eauto. Qed.

Lemma section_title_has_parent soup d :
  In d (section_titles soup) -> is_Some (find_parent d).
Proof.
  unfold section_titles. intros Hd. apply list_elem_of_In, list_elem_of_filter in Hd as [Hd _].
  apply Is_true_true, andb_true_iff in Hd as [Ha _].
  unfold has_ancestor in Ha. unfold find_parent.
  destruct (ups d) as [|[p a] r]; [discriminate|eauto].
Qed.

Lemma parse_match_info_total soup : is_Some (_parse_match_info soup).
Proof.
  unfold _parse_match_info.
  set (titles := filter _ (section_titles soup)).
  assert (Hsub : forall d, head titles = Some d -> In d (section_titles soup)).
  { intros d Hd. apply head_Some_elem_of in Hd. unfold titles in Hd.
    apply list_elem_of_filter in Hd as [_ Hd]. now apply list_elem_of_In. }
  destruct (head titles) as [d|].
  - destruct (section_title_has_parent soup d (Hsub d eq_refl)) as [parent ->]. simpl.
    destruct (find_next _ parent) as [wrap|]; simpl.
    + destruct (find (has_tag "table") wrap) as [t|]; simpl.
      * apply fold_rows_total, info_row_total.
      * destruct (find (has_tag "table") (here soup)); [|eauto].
        apply fold_rows_total, info_row_total.
    + destruct (find (has_tag "table") (here soup)); [|eauto].
      apply fold_rows_total, info_row_total.
  - simpl. destruct (find (has_tag "table") (here soup)); [|eauto].
    apply fold_rows_total, info_row_total.
Qed.

Lemma split_once_total sep s : contains sep s = true -> is_Some (split_once sep s).
Proof.
  induction s as [|c t IH].
  - simpl. rewrite orb_false_r. intros ->. eauto.
  - rewrite contains_cons.
    change (split_once sep (String c t))
      with (if startswith (String c t) sep
            then Some ("", drop_chars (String.length sep) (String c t))
            else match split_once sep t with
                 | Some (l, r) => Some (String c l, r)
                 | None => None
                 end).
    destruct (startswith (String c t) sep); [eauto|]. simpl.
    intros Ht. destruct (IH Ht) as [[l r] ->]. eauto.
Qed.

Lemma extract_title_and_teams_total soup :
  exists title teams,
    _extract_title_and_teams soup = Some (title, teams)
    /\ (teams = [] \/ length teams = 2).
Proof.
  unfold _extract_title_and_teams.
  set (title := or_none (_text (find (has_tag "title") (here soup)))).
  destruct (truthy title && contains " VS " (or_empty title)) eqn:Hc.
  - apply andb_true_iff in Hc as [_ Hc].
    destruct (split_once_total _ _ Hc) as [[l r] ->]. simpl.
    destruct (nonempty (strip l) && nonempty (strip (before_comma r))); eauto.
  - eauto.
Qed.

Lemma parse_batting_table_total t : is_Some (_parse_batting_table t).
Proof. apply fold_rows_total, batting_row_total. Qed.

Lemma parse_bowling_table_total t : is_Some (_parse_bowling_table t).
Proof. apply fold_rows_total, bowling_row_total. Qed.

Lemma build_innings_total idx bats bowls (teams : list string) :
  exists inns, build_innings idx bats bowls teams = Some inns /\ length inns = length bats.
Proof.
  revert idx. induction bats as [|bt bats IH]; intros idx; simpl; [eauto|].
  destruct (parse_batting_table_total bt) as [inn ->]. simpl.
  assert (Hbowl : exists b, (if bool_decide (idx < length bowls)
                             then bowls !! idx ≫= fun b => Some (Some b) else Some None)
                            = Some b).
  { destruct (bool_decide (idx < length bowls)) eqn:Hb; [|eauto].
    apply bool_decide_eq_true, lookup_lt_is_Some in Hb as [b ->]. simpl. eauto. }
  destruct Hbowl as [bowl ->]. simpl.
  assert (Hbl : exists l, match bowl with
                          | Some b => _parse_bowling_table b ≫= fun l => Some (Some l)
                          | None => Some (bowling inn)
                          end = Some l).
  { destruct bowl as [b|]; [|eauto].
    destruct (parse_bowling_table_total b) as [l ->]. simpl. eauto. }
  destruct Hbl as [bl ->]. simpl.
  assert (Hteam : exists t,
             (if bool_decide (teams ≠ [])
              then (if bool_decide (length teams = 0) then None
                    else teams !! (idx mod length teams)) ≫= fun t => Some (Some t)
              else Some (team inn)) = Some t).
  { destruct (bool_decide (teams ≠ [])) eqn:Ht; [|eauto].
    apply bool_decide_eq_true in Ht.
    assert (Hlen : length teams <> 0) by (destruct teams; simpl; congruence).
    rewrite bool_decide_false by exact Hlen.
    destruct (lookup_lt_is_Some_2 teams (idx mod length teams)) as [t ->];
      [now apply Nat.mod_upper_bound|].
    simpl. eauto. }
  destruct Hteam as [tm ->]. simpl.
  destruct (IH (S idx)) as (inns & -> & Hlen). simpl.
  eexists. split; [reflexivity|]. simpl. now rewrite Hlen.
Qed.

(** C9: for every document, the scorecard extraction returns a result and
    raises nothing: no index is out of range, no method is called on a
    missing element, and a missing part gives an empty collection or an
    absent field; the result has [ok = true], the number of batting tables
    and the number of bowling tables found, and one innings for each batting
    table. *)
Theorem parse_scorecard_never_raises (doc : Node) :
  exists res,
    parse_scorecard_html doc = Some res
    /\ ok res = true
    /\ batting_count res
       = length (filter (fun t => is_batting_table t) (find_all (has_tag "table") doc))
    /\ bowling_count res
       = length (filter (fun t => is_bowling_table t) (find_all (has_tag "table") doc))
    /\ length (innings res) = batting_count res
    /\ (sc_teams res = [] \/ length (sc_teams res) = 2).
Proof.
  unfold parse_scorecard_html.
  destruct (extract_title_and_teams_total (soup_of doc)) as (title & teams & -> & Hteams).
  simpl.
  destruct (build_innings_total 0
              (filter (fun t => is_batting_table t) (find_all (has_tag "table") doc))
              (filter (fun t => is_bowling_table t) (find_all (has_tag "table") doc))
              teams) as (inns & -> & Hlen).
  simpl.
  destruct (parse_match_info_total (soup_of doc)) as [info ->]. simpl.
  eexists. split; [reflexivity|]. simpl. auto.
Qed.

(** ** The Flag Resolver *)

Lemma alnum_not_slash c : is_lower_alnum c = true -> not_slash c = true.
Proof. by_cases_on_char c. Qed.

Lemma dash_not_slash c : char_is "-" c = true -> not_slash c = true.
Proof. by_cases_on_char c. Qed.

Lemma all_chars_app p a b : all_chars p (a +:+ b) = all_chars p a && all_chars p b.
Proof.
  induction a as [|c a IH]; [reflexivity|].
  rewrite append_cons. simpl. now rewrite IH, andb_assoc.
Qed.

Lemma slug_no_slash s prev : slug_from prev s = true -> all_chars not_slash s = true.
Proof.
  revert prev. induction s as [|c t IH]; intros prev; simpl; [reflexivity|].
  destruct (is_lower_alnum c) eqn:Hc.
  - intros Ht. now rewrite (alnum_not_slash _ Hc), (IH _ Ht).
  - destruct (char_is "-" c) eqn:Hd; [|discriminate].
    intros H. apply andb_true_iff in H as [_ Ht]. now rewrite (dash_not_slash _ Hd), (IH _ Ht).
Qed.

Lemma pretty_N_go_no_slash x s :
  all_chars not_slash s = true -> all_chars not_slash (pretty_N_go x s) = true.
Proof.
  revert s. induction (N.lt_wf_0 x) as [x _ IH]; intros s Hs.
  assert (x = 0 \/ 0 < x)%N as [->|Hx] by lia.
  - now rewrite pretty_N_go_0.
  - rewrite pretty_N_go_step by exact Hx. apply IH; [now apply N.div_lt|].
    simpl. rewrite Hs, andb_true_r. unfold pretty_N_char.
    repeat case_match; reflexivity.
Qed.

Lemma pretty_nat_no_slash (n : nat) : all_chars not_slash (pretty n) = true.
Proof.
  unfold pretty, pretty_nat, pretty, pretty_N.
  destruct (decide (N.of_nat n = 0%N)); [reflexivity|].
  now apply pretty_N_go_no_slash.
Qed.

Lemma startswith_char a c s :
  startswith (String c s) (String a "") = if Ascii.ascii_dec a c then true else false.
Proof.
  unfold startswith. cbn [String.prefix].
  destruct (Ascii.ascii_dec a c); [destruct s|]; reflexivity.
Qed.

Lemma basename_no_slash f : all_chars not_slash f = true -> basename f = f.
Proof.
  assert (Hc : forall g, all_chars not_slash g = true -> contains "/" g = false).
  { induction g as [|c g IH]; [reflexivity|]. simpl all_chars.
    intros H. apply andb_true_iff in H as [Hc Hg]. rewrite contains_cons, (IH Hg), orb_false_r.
    rewrite startswith_char. destruct (Ascii.ascii_dec "/" c) as [<-|]; [discriminate|reflexivity]. }
  intros Hf. destruct f as [|c f]; [reflexivity|].
  pose proof (Hc _ Hf) as Hn.
  change (basename (String c f))
    with (if contains "/" (String c f) then basename f else String c f).
  now rewrite Hn.
Qed.

Lemma contains_slash_mid a f : contains "/" (a +:+ "/" +:+ f) = true.
Proof.
  induction a as [|c a IH].
  - change ("" +:+ "/" +:+ f) with (String "/" f).
    rewrite contains_cons, startswith_char.
    destruct (Ascii.ascii_dec "/" "/"); [reflexivity|congruence].
  - rewrite append_cons, contains_cons, IH. apply orb_true_r.
Qed.

Lemma basename_join a f :
  all_chars not_slash f = true -> basename (a +:+ "/" +:+ f) = f.
Proof.
  intros Hf. induction a as [|c a IH].
  - change (basename ("" +:+ "/" +:+ f))
      with (if contains "/" (String "/" f) then basename f else String "/" f).
    pose proof (contains_slash_mid "" f) as Hm.
    change ("" +:+ "/" +:+ f) with (String "/" f) in Hm.
    rewrite Hm. now apply basename_no_slash.
  - rewrite append_cons.
    change (basename (String c (a +:+ "/" +:+ f)))
      with (if contains "/" (String c (a +:+ "/" +:+ f))
            then basename (a +:+ "/" +:+ f) else String c (a +:+ "/" +:+ f)).
    rewrite contains_cons, contains_slash_mid, orb_true_r. exact IH.
Qed.

Lemma slug_startswith_slash base rest :
  is_slug base = true -> startswith (base +:+ rest) "/" = false.
Proof.
  unfold is_slug. destruct base as [|c t]; [discriminate|].
  rewrite append_cons, startswith_char. cbn [slug_from].
  destruct (is_lower_alnum c) eqn:Hc.
  - intros _. destruct (Ascii.ascii_dec "/" c) as [<-|]; [discriminate|reflexivity].
  - destruct (char_is "-" c) eqn:Hd; discriminate.
Qed.

Lemma by_name_path base rest :
  is_slug base = true ->
  path_join _FLAGS_BY_NAME_DIR (base +:+ rest)
  = "/workspace/static/flags/by-name" +:+ "/" +:+ (base +:+ rest).
Proof.
  intros Hb. unfold path_join. rewrite (slug_startswith_slash _ _ Hb). reflexivity.
Qed.

Lemma by_name_plain base : is_slug base = true ->
  by_name_file (path_join _FLAGS_BY_NAME_DIR (base +:+ ".gif")).
Proof.
  intros Hb. exists (base +:+ ".gif"). split; [now apply by_name_path|].
  rewrite all_chars_app, (slug_no_slash _ _ Hb). reflexivity.
Qed.

Lemma by_name_numbered base k : is_slug base = true -> by_name_file (numbered_path base k).
Proof.
  intros Hb. exists (base +:+ "-" +:+ pretty k +:+ ".gif").
  split; [now apply by_name_path|].
  rewrite !all_chars_app, (slug_no_slash _ _ Hb), pretty_nat_no_slash. reflexivity.
Qed.

Lemma find_out_path_shape fuel base mapped fs out suffix res :
  is_slug base = true -> by_name_file out ->
  find_out_path fuel base mapped fs out suffix = Some res -> by_name_file res.
Proof.
  intros Hb. revert out suffix. induction fuel as [|k IH]; intros out suffix Ho; simpl;
    [discriminate|].
  destruct (bool_decide (is_Some (fs !! out))); [|congruence].
  destruct (bool_decide (mapped = Some _)); [congruence|].
  apply IH. now apply by_name_numbered.
Qed.

Lemma by_name_file_rel out :
  by_name_file out ->
  path_join "/workspace" (lstrip_char "/" ("/static/flags/by-name/" +:+ basename out)) = out.
Proof.
  intros (fname & -> & Hf). rewrite (basename_join _ _ Hf).
  change (lstrip_char "/" ("/static/flags/by-name/" +:+ fname))
    with ("static/flags/by-name/" +:+ fname).
  reflexivity.
Qed.

(** A call that finds the flag mapped and its file in place changes
    nothing when the name is known already. *)
Lemma ensure_flag_local_hit fid name m mf fs rm e :
  id_to_path m !! fid = Some e ->
  nonempty e = true ->
  is_Some (fs !! path_join "/workspace" (lstrip_char "/" e)) ->
  (nonempty name = false \/ id_to_name m !! fid = Some name) ->
  _ensure_flag_local fid name (mkWorld (Some m) mf fs rm)
  = (Some e, mkWorld (Some m) mf fs rm).
Proof.
  intros He Hne Hex Hname. unfold _ensure_flag_local, _load_flags_mapping, get_world.
  unfold_state. cbn [flags_mem]. rewrite He. cbn [truthy or_empty default].
  rewrite Hne. unfold path_exists. cbn [files]. rewrite (bool_decide_true _ Hex).
  cbn [andb].
  destruct Hname as [Hn|Hn].
  - rewrite Hn. reflexivity.
  - rewrite (bool_decide_true _ Hn). rewrite andb_false_r. reflexivity.
Qed.

(** The download reads the files and the server only, and changes only the
    files. *)
Lemma download_flag_gif_spec fid w :
  let dst := path_join _FLAGS_RAW_DIR (fid +:+ ".gif") in
  (_download_flag_gif fid w = (None, w)
   /\ forall mem mf, _download_flag_gif fid (mkWorld mem mf (files w) (remote w))
                     = (None, mkWorld mem mf (files w) (remote w)))
  \/ (exists fs' n,
        _download_flag_gif fid w
        = (Some dst, mkWorld (flags_mem w) (mapping_file w) fs' (remote w))
        /\ fs' !! dst = Some n).
Proof.
  intros dst. destruct w as [mem0 mf0 fs rm].
  unfold _download_flag_gif, write_file, path_exists, getsize. fold dst.
  cbn [files remote flags_mem mapping_file snd].
  destruct (bool_decide (is_Some (fs !! dst)) && bool_decide (0 < default 0 (fs !! dst)))
    eqn:Hb.
  - right. apply andb_true_iff in Hb as [Hb _]. apply bool_decide_eq_true in Hb as [n Hn].
    exists fs, n. split; [reflexivity|exact Hn].
  - destruct (rm (_FLAGS_BASE_URL +:+ fid +:+ ".gif")) as [len|] eqn:Hr.
    + destruct (bool_decide (len < 100)) eqn:Hl.
      * left. split; [reflexivity|]. intros mem mf. reflexivity.
      * right. exists (<[dst := len]> fs), len.
        split; [reflexivity|apply lookup_insert_eq].
    + left. split; [reflexivity|]. intros mem mf. reflexivity.
Qed.

Lemma load_flags_mapping_spec mem0 mf0 fs rm :
  let m := match mem0 with Some m => m | None => default (mkFlags ∅ ∅) mf0 end in
  _load_flags_mapping (mkWorld mem0 mf0 fs rm) = (m, mkWorld (Some m) mf0 fs rm).
Proof. unfold _load_flags_mapping. destruct mem0; reflexivity. Qed.

(** A second call from the world the first call left returns what the first
    call returned and leaves that world as it is. *)
Lemma ensure_flag_local_again (flag_id team_name : string) (w : World)
    (r1 : option string) (w1 : World) :
  _ensure_flag_local flag_id team_name w = (r1, w1) ->
  _ensure_flag_local flag_id team_name w1 = (r1, w1).
Proof.
  destruct w as [mem0 mf0 fs rm].
  pose proof (load_flags_mapping_spec mem0 mf0 fs rm) as Hload. cbv zeta in Hload.
  set (m := match mem0 with Some m => m | None => default (mkFlags ∅ ∅) mf0 end) in *.
  unfold _ensure_flag_local at 1. unfold_state. rewrite Hload. unfold get_world.
  cbv beta iota.

  set (base := _slugify (if nonempty team_name then team_name else "flag-" +:+ flag_id)).
  set (plain := path_join _FLAGS_BY_NAME_DIR (base +:+ ".gif")).
  set (wl := mkWorld (Some m) mf0 fs rm).
  destruct (truthy (id_to_path m !! flag_id) && _) eqn:Hhit.
  - apply andb_true_iff in Hhit as [He Hex].
    destruct (id_to_path m !! flag_id) as [e|] eqn:Hm; [|discriminate].
    cbn [truthy or_empty default] in He, Hex.
    unfold path_exists in Hex. apply bool_decide_eq_true in Hex. cbn [files wl] in Hex.
    destruct (nonempty team_name && negb (bool_decide (id_to_name m !! flag_id = Some team_name)))
      eqn:Hupd.
    + intros [= <- <-]. cbn. apply ensure_flag_local_hit; cbn; auto.
      right. apply lookup_insert_eq.
    + intros [= <- <-]. apply ensure_flag_local_hit; auto.
      apply andb_false_iff in Hupd as [Hn|Hn]; [now left|right].
      apply negb_false_iff, bool_decide_eq_true in Hn. exact Hn.
  - destruct (download_flag_gif_spec flag_id wl) as [[Hd Hd2]|(fs' & n & Hd & Hn)].
    + rewrite Hd. intros [= <- <-].
      unfold _ensure_flag_local. unfold_state. unfold wl at 1.
      rewrite (load_flags_mapping_spec (Some m) mf0 fs rm). unfold get_world.
      cbv beta iota. fold wl. rewrite Hhit, Hd. reflexivity.
    + rewrite Hd. cbn [flags_mem mapping_file remote wl files].
      set (w2 := mkWorld (Some m) mf0 fs' rm).
      set (out := default plain (find_out_path (S (size fs')) base (id_to_path m !! flag_id)
                                   fs' plain 2)).
      assert (Hout : by_name_file out).
      { pose proof (slugify_is_slug (if nonempty team_name then team_name
                                     else "flag-" +:+ flag_id)) as Hb. fold base in Hb.
        unfold out. destruct (find_out_path _ _ _ _ _ _) as [res|] eqn:Hf; cbn [default].
        - exact (find_out_path_shape _ _ _ _ _ _ _ Hb (by_name_plain _ Hb) Hf).
        - exact (by_name_plain _ Hb). }
      unfold copyfile, write_file, set_flags_mem, _save_flags_mapping.
      cbn [files flags_mem mapping_file remote w2]. rewrite Hn.
      cbn [files flags_mem mapping_file remote].
      intros [= <- <-]. apply ensure_flag_local_hit.
      * apply lookup_insert_eq.
      * reflexivity.
      * rewrite (by_name_file_rel _ Hout), lookup_insert_eq. eauto.
      * destruct (nonempty team_name); [right; apply lookup_insert_eq|now left].
Qed.

(** ** The loop over candidate names ends *)

Lemma length_append a b : String.length (a +:+ b) = String.length a + String.length b.
Proof. induction a as [|c a IH]; [reflexivity|]. rewrite append_cons. simpl. now rewrite IH. Qed.

Lemma append_inj_r a b s : a +:+ s = b +:+ s -> a = b.
Proof.
  revert b. induction a as [|c a IH]; intros b H.
  - destruct b as [|d b]; [reflexivity|].
    apply (f_equal String.length) in H. rewrite !length_append in H. simpl in H. lia.
  - destruct b as [|d b].
    + apply (f_equal String.length) in H. rewrite !length_append in H. simpl in H. lia.
    + rewrite !append_cons in H. injection H as -> H. f_equal. now apply IH.
Qed.

Lemma numbered_path_inj base j j' :
  is_slug base = true -> numbered_path base j = numbered_path base j' -> j = j'.
Proof.
  intros Hb. unfold numbered_path. rewrite !(by_name_path _ _ Hb). intros H.
  do 4 apply (inj (String.append _)) in H.
  apply append_inj_r in H. now apply (inj pretty) in H.
Qed.

Lemma numbered_path_not_plain base j :
  is_slug base = true ->
  numbered_path base j <> path_join _FLAGS_BY_NAME_DIR (base +:+ ".gif").
Proof.
  intros Hb. unfold numbered_path. rewrite !(by_name_path _ _ Hb). intros H.
  do 3 apply (inj (String.append _)) in H. discriminate H.
Qed.

Lemma find_out_path_None fuel base mapped fs p s :
  find_out_path fuel base mapped fs p s = None ->
  fuel = 0 \/
  (is_Some (fs !! p) /\
   Forall (fun j => is_Some (fs !! numbered_path base j)) (seq s (fuel - 1))).
Proof.
  revert p s. induction fuel as [|k IH]; intros p s; [auto|]. simpl.
  destruct (bool_decide (is_Some (fs !! p))) eqn:Hp; [|discriminate].
  apply bool_decide_eq_true in Hp.
  destruct (bool_decide (mapped = Some _)); [discriminate|].
  intros H. right. split; [exact Hp|]. rewrite Nat.sub_0_r.
  destruct (IH _ _ H) as [->|[Hn Hrest]]; [constructor|].
  destruct k as [|k']; [constructor|]. simpl in *. rewrite Nat.sub_0_r in Hrest.
  constructor; assumption.
Qed.

(** With one more round than there are files, the loop finds its path. *)
Lemma find_out_path_total base mapped (fs : gmap string nat) :
  is_slug base = true ->
  is_Some (find_out_path (S (size fs)) base mapped fs
             (path_join _FLAGS_BY_NAME_DIR (base +:+ ".gif")) 2).
Proof.
  intros Hb.
  destruct (find_out_path _ _ _ _ _ _) as [res|] eqn:Hf; [eauto|exfalso].
  apply find_out_path_None in Hf as [Hf|[Hp Hall]]; [discriminate|].
  simpl in Hall. rewrite Nat.sub_0_r in Hall.
  set (plain := path_join _FLAGS_BY_NAME_DIR (base +:+ ".gif")) in *.
  set (tried := plain :: (numbered_path base <$> seq 2 (size fs))).
  assert (Hnd : NoDup tried).
  { constructor.
    - intros Hin. apply list_elem_of_fmap in Hin as (j & Hj & _).
      symmetry in Hj. exact (numbered_path_not_plain _ _ Hb Hj).
    - apply NoDup_fmap_2_strong; [|apply NoDup_seq].
      intros x y _ _. now apply numbered_path_inj. }
  assert (Hin : forall x, x ∈ tried -> x ∈ elements (dom fs)).
  { intros x Hx. apply elem_of_elements, elem_of_dom.
    apply elem_of_cons in Hx as [->|Hx]; [exact Hp|].
    apply list_elem_of_fmap in Hx as (j & -> & Hj).
    rewrite Forall_forall in Hall. apply Hall. exact Hj. }
  pose proof (submseteq_length _ _ (NoDup_submseteq _ _ Hnd Hin)) as Hlen.
  unfold tried in Hlen. simpl in Hlen. rewrite length_fmap, length_seq in Hlen.
  change (length (elements (dom fs))) with (size (dom fs)) in Hlen.
  rewrite size_dom in Hlen. lia.
Qed.

(** C8: the Flag Resolver is idempotent.  When a call with a flag identifier
    (a string of digits, as the flag pattern captures it) and a team name
    returns a reference and leaves a world, a second call with the same
    identifier and name from that world returns the same reference and
    leaves the same world: no file is added or changed and the mapping, in
    memory and on disk, is the same.  The flag server answers a request the
    same way both times.  The loop that looks for a free file name always
    ends within its rounds. *)
Theorem flag_resolver_idempotent (flag_id team_name : string) (w : World)
    (r1 : option string) (w1 : World) :
  is_flag_id flag_id = true ->
  _ensure_flag_local flag_id team_name w = (r1, w1) ->
  _ensure_flag_local flag_id team_name w1 = (r1, w1)
  /\ fst (_ensure_flag_local flag_id team_name w1) = r1
  /\ files (snd (_ensure_flag_local flag_id team_name w1)) = files w1
  /\ flags_mem (snd (_ensure_flag_local flag_id team_name w1)) = flags_mem w1
  /\ mapping_file (snd (_ensure_flag_local flag_id team_name w1)) = mapping_file w1
  /\ (forall name mapped (fs : gmap string nat),
        is_Some (find_out_path (S (size fs)) (_slugify name) mapped fs
                   (path_join _FLAGS_BY_NAME_DIR (_slugify name +:+ ".gif")) 2)).
Proof.
  intros _ H. pose proof (ensure_flag_local_again _ _ _ _ _ H) as H2.
  rewrite H2. repeat split.
  intros name mapped fs. apply find_out_path_total, slugify_is_slug.
Qed.

(** ** The claims at sample inputs *)

Lemma schedule_row_status_upcoming_witness :
  In sample_row_entry
     (fst (_parse_schedule_table (_find_content_root (soup_of sample_schedule_page))
             sample_world))
  /\ status sample_row_entry = Some "Upcoming".
Proof.
  assert (H : In sample_row_entry
                (fst (_parse_schedule_table
                        (_find_content_root (soup_of sample_schedule_page)) sample_world)))
    by (vm_compute; left; reflexivity).
  split; [exact H|].
  apply (proj1 (schedule_row_status_upcoming _ _ _ H)).
  exists "12 May 2024, 3:00 PM". split; [reflexivity|]. left.
  exists "12 May 2024, 3:00 ", "P"%char, "M"%char, "". split; [reflexivity|]. split; auto.
Defined.

Lemma team_images_cover_teams_witness :
  In unnamed_team_entry
     (fst (_parse_schedule_table (_find_content_root (soup_of unnamed_team_page))
             sample_world))
  /\ length (teams unnamed_team_entry) <= length (team_images unnamed_team_entry)
  /\ length (team_images unnamed_team_entry) <= 2.
Proof.
  assert (H : In unnamed_team_entry
                (fst (_parse_schedule_table
                        (_find_content_root (soup_of unnamed_team_page)) sample_world)))
    by (vm_compute; left; reflexivity).
  split; [exact H|].
  destruct (proj1 (proj2 (team_images_cover_teams unnamed_team_page _ _ _)) H)
    as (tr & td0 & rest & w1 & w2 & _ & _ & Hle & _ & Hmax & _).
  split; assumption.
Defined.

Lemma norm_src_rules_witness :
  fst (_norm_src (Some "/cricflag/12.png") mapped_world)
  = Some "/static/flags/by-name/team-a.gif"
  /\ fst (_norm_src (Some "//x/y.png") sample_world) = Some "https://x/y.png".
Proof.
  split.
  - destruct (norm_src_rules "/cricflag/12.png" mapped_world)
      as (_ & _ & Hmap & _ & Hshows & _ & _).
    apply (Hmap "12" "/static/flags/by-name/team-a.gif").
    + apply Hshows. reflexivity.
    + reflexivity.
    + discriminate.
  - destruct (norm_src_rules "//x/y.png" sample_world) as (_ & _ & _ & Hrest & Hshows & _ & _).
    apply Hrest.
    + discriminate.
    + intros fid p Hfid. apply Hshows in Hfid. vm_compute in Hfid. discriminate Hfid.
Defined.

Lemma batting_row_cases_witness :
  find_all (has_tag "td") extras_row
  = [Elem "td" [] [] [Text "Extras (b 4, lb 2)"]; Elem "td" [] [] [];
     Elem "td" [] [] [Text "12"]]
  /\ batting_row extras_row empty_innings
     = Some (mkInnings [] (Some "12") None None None None).
Proof.
  split; [reflexivity|].
  exact (proj1 (batting_row_cases extras_row empty_innings
                  (Elem "td" [] [] [Text "Extras (b 4, lb 2)"])
                  [Elem "td" [] [] []; Elem "td" [] [] [Text "12"]] eq_refl) eq_refl).
Defined.

Lemma flag_resolver_idempotent_witness :
  is_flag_id "12" = true
  /\ fst (_ensure_flag_local "12" "New Zealand" sample_world)
  = Some "/static/flags/by-name/new-zealand.gif"
  /\ _ensure_flag_local "12" "New Zealand"
       (snd (_ensure_flag_local "12" "New Zealand" sample_world))
     = (fst (_ensure_flag_local "12" "New Zealand" sample_world),
        snd (_ensure_flag_local "12" "New Zealand" sample_world)).
Proof.
  split; [reflexivity|]. split; [vm_compute; reflexivity|].
  assert (H : _ensure_flag_local "12" "New Zealand" sample_world
              = (fst (_ensure_flag_local "12" "New Zealand" sample_world),
                 snd (_ensure_flag_local "12" "New Zealand" sample_world)))
    by (vm_compute; reflexivity).
  exact (proj1 (flag_resolver_idempotent "12" "New Zealand" sample_world _ _ eq_refl H)).
Defined.

Lemma card_title_drops_status_witness :
  find (has_tag "p") sample_card = Some sample_title_p
  /\ find (has_tag "small") sample_title_p = Some sample_status
  /\ card_title_status sample_card = ("Final", Some "Live").
Proof.
  split; [reflexivity|]. split; [reflexivity|].
  exact (proj1 (card_title_drops_status sample_card sample_title_p sample_status
                  sample_world eq_refl eq_refl)).
Defined.

(** The examples of the specification. *)

Example scorecard_of_empty_document :
  parse_scorecard_html (Elem "[document]" [] [] [])
  = Some (mkScorecard true None [] ∅ [] 0 0).
Proof. reflexivity. Qed.

Example norm_src_examples :
  fst (_norm_src (Some "//x/y.png") sample_world) = Some "https://x/y.png"
  /\ fst (_norm_src (Some "/a/b") sample_world) = Some "https://hamariweb.com/a/b"
  /\ fst (_norm_src (Some "data:image/gif;base64,R0lG") sample_world) = None
  /\ fst (_norm_src (Some "https://already/abs") sample_world) = Some "https://already/abs"
  /\ fst (_norm_src (Some "/cricflag/12.png")
            (snd (_ensure_flag_local "12" "Team A" sample_world)))
     = Some "/static/flags/by-name/team-a.gif".
Proof. vm_compute. repeat split. Qed.

Example duplicate_key_card_wins :
  fst (parse_schedules_html duplicate_key_page sample_world)
  = [mkMatch "Team A vs Team B" ["Team A"; "Team B"] [None; None] (Some "Live") None None].
Proof. vm_compute. reflexivity. Qed.

Example repeated_status_title :
  card_title_status repeated_status_card = ("Final,  from Lahore", Some "Live").
Proof. vm_compute. reflexivity. Qed.

Example did_not_bat_row_skipped :
  batting_row
    (Elem "tr" [] [] [Elem "td" [] [] [Text "Did not bat: Smith"];
                      Elem "td" [] [] [Text "x"]])
    empty_innings
  = Some empty_innings.
Proof. reflexivity. Qed.

Example same_base_two_files :
  let w1 := snd (_ensure_flag_local "12" "Team A" sample_world) in
  let w1' := mkWorld (flags_mem w1) (mapping_file w1)
               (<["/workspace/static/flags/raw/13.gif" := 300]> (files w1)) (remote w1) in
  fst (_ensure_flag_local "13" "team a" w1') = Some "/static/flags/by-name/team-a-2.gif".
Proof. vm_compute. reflexivity. Qed.
(** * Further properties *)

(** ** The raw download *)

Lemma digit_id_no_slash fid rest :
  is_flag_id fid = true -> startswith (fid +:+ rest) "/" = false.
Proof.
  unfold is_flag_id. destruct fid as [|c t]; [discriminate|].
  rewrite append_cons, startswith_char. cbn [nonempty all_chars andb].
  intros H. apply andb_true_iff in H as [Hc _].
  destruct (Ascii.ascii_dec "/" c) as [<-|]; [discriminate|reflexivity].
Qed.

Lemma raw_path_form fid :
  is_flag_id fid = true ->
  path_join _FLAGS_RAW_DIR (fid +:+ ".gif")
  = "/workspace/static/flags/" +:+ ("raw/" +:+ fid +:+ ".gif").
Proof.
  intros Hf. unfold path_join. rewrite (digit_id_no_slash _ _ Hf). reflexivity.
Qed.

Lemma raw_not_by_name fid out :
  is_flag_id fid = true -> by_name_file out ->
  path_join _FLAGS_RAW_DIR (fid +:+ ".gif") <> out.
Proof.
  intros Hf (fname & -> & _). rewrite (raw_path_form _ Hf).
  change ("/workspace/static/flags/by-name" +:+ "/" +:+ fname)
    with ("/workspace/static/flags/" +:+ ("by-name/" +:+ fname)).
  intros H. apply (inj (String.append _)) in H. discriminate H.
Qed.

Lemma find_out_path_fresh fuel base mapped fs p s res :
  find_out_path fuel base mapped fs p s = Some res ->
  fs !! res = None
  \/ (is_Some (fs !! res) /\ mapped = Some ("/static/flags/by-name/" +:+ basename res)).
Proof.
  revert p s. induction fuel as [|k IH]; intros p s; simpl; [discriminate|].
  destruct (bool_decide (is_Some (fs !! p))) eqn:Hp.
  - apply bool_decide_eq_true in Hp.
    destruct (bool_decide (mapped = Some _)) eqn:Hm.
    + apply bool_decide_eq_true in Hm. intros [= <-]. right. split; assumption.
    + apply IH.
  - apply bool_decide_eq_false in Hp. intros [= <-]. left.
    destruct (fs !! p) eqn:E; [exfalso; apply Hp; eauto|reflexivity].
Qed.

Lemma find_out_path_name fuel base mapped fs p s res :
  find_out_path fuel base mapped fs p s = Some res ->
  res = p \/ exists k, s <= k /\ res = numbered_path base k.
Proof.
  revert p s. induction fuel as [|k IH]; intros p s; simpl; [discriminate|].
  destruct (bool_decide (is_Some (fs !! p))); [|intros [= <-]; now left].
  destruct (bool_decide (mapped = Some _)); [intros [= <-]; now left|].
  intros H. apply IH in H as [->|(j & Hj & ->)]; right; [exists s|exists j]; split; auto; lia.
Qed.

(** The outcomes of a call of the resolver: the reference was mapped and
    its file in place; or no image could be had; or a new by-name file was
    made, under a name that was free. *)
Lemma ensure_flag_local_cases fid name mem0 mf0 fs rm :
  is_flag_id fid = true ->
  let m := match mem0 with Some m => m | None => default (mkFlags ∅ ∅) mf0 end in
  let named := if nonempty name then <[fid := name]> (id_to_name m) else id_to_name m in
  let base := _slugify (if nonempty name then name else "flag-" +:+ fid) in
  let dst := path_join _FLAGS_RAW_DIR (fid +:+ ".gif") in
  let w := mkWorld mem0 mf0 fs rm in
  (exists e,
      id_to_path m !! fid = Some e /\ e <> "" /\ is_Some (fs !! ref_file e)
      /\ ((_ensure_flag_local fid name w = (Some e, mkWorld (Some m) mf0 fs rm)
           /\ (nonempty name = false \/ id_to_name m !! fid = Some name))
          \/ (_ensure_flag_local fid name w
              = (Some e, mkWorld (Some (mkFlags (id_to_path m) named))
                           (Some (mkFlags (id_to_path m) named)) fs rm)
              /\ nonempty name = true)))
  \/ ((forall e, id_to_path m !! fid = Some e -> e <> "" -> fs !! ref_file e = None)
      /\ ((_ensure_flag_local fid name w = (None, mkWorld (Some m) mf0 fs rm)
           /\ fst (_download_flag_gif fid w) = None)
          \/ exists fs' n out,
               (fs' = fs \/ (fs' = <[dst := n]> fs /\ (fs !! dst = None \/ fs !! dst = Some 0)))
               /\ fs' !! dst = Some n /\ 0 < n
               /\ by_name_file out /\ fs' !! out = None
               /\ (out = path_join _FLAGS_BY_NAME_DIR (base +:+ ".gif")
                   \/ exists k, 2 <= k /\ out = numbered_path base k)
               /\ _ensure_flag_local fid name w
                  = (Some ("/static/flags/by-name/" +:+ basename out),
                     mkWorld
                       (Some (mkFlags (<[fid := "/static/flags/by-name/" +:+ basename out]>
                                         (id_to_path m)) named))
                       (Some (mkFlags (<[fid := "/static/flags/by-name/" +:+ basename out]>
                                         (id_to_path m)) named))
                       (<[out := n]> fs') rm))).
Proof.
  intros Hfid m named base dst w.
  pose proof (load_flags_mapping_spec mem0 mf0 fs rm) as Hload. cbv zeta in Hload. fold m in Hload.
  remember (_ensure_flag_local fid name w) as run eqn:Hrun.
  unfold _ensure_flag_local in Hrun. unfold_state. unfold w in Hrun at 1.
  rewrite Hload in Hrun. unfold get_world in Hrun. cbv beta iota in Hrun. fold base in Hrun.
  set (plain := path_join _FLAGS_BY_NAME_DIR (base +:+ ".gif")) in *.
  set (wl := mkWorld (Some m) mf0 fs rm) in *.
  assert (Hbase : is_slug base = true) by apply slugify_is_slug.
  destruct (truthy (id_to_path m !! fid) && _) eqn:Hhit.
  - left. apply andb_true_iff in Hhit as [He Hex].
    destruct (id_to_path m !! fid) as [e|] eqn:Hm; [|discriminate].
    cbn [truthy or_empty default] in He, Hex.
    unfold path_exists in Hex. apply bool_decide_eq_true in Hex. cbn [files wl] in Hex.
    exists e. split; [reflexivity|]. split; [now apply nonempty_true|]. split; [exact Hex|].
    destruct (nonempty name && negb (bool_decide (id_to_name m !! fid = Some name))) eqn:Hupd.
    + right. apply andb_true_iff in Hupd as [Hn _]. split; [|exact Hn].
      unfold named. rewrite Hn. exact Hrun.
    + left. split; [exact Hrun|].
      apply andb_false_iff in Hupd as [Hn|Hn]; [now left|right].
      apply negb_false_iff, bool_decide_eq_true in Hn. exact Hn.
  - right.
    assert (Hmiss : forall e, id_to_path m !! fid = Some e -> e <> "" -> fs !! ref_file e = None).
    { intros e He Hne. rewrite He in Hhit. cbn [truthy or_empty default] in Hhit.
      apply nonempty_true in Hne. rewrite Hne in Hhit. cbn [andb] in Hhit.
      unfold path_exists in Hhit. apply bool_decide_eq_false in Hhit. cbn [files wl] in Hhit.
      unfold ref_file. destruct (fs !! _) eqn:E; [exfalso; apply Hhit; eauto|reflexivity]. }
    split; [exact Hmiss|].
    assert (Hdl : (_download_flag_gif fid wl = (None, wl)
                   /\ fst (_download_flag_gif fid w) = None)
                  \/ exists fs' n,
                       _download_flag_gif fid wl = (Some dst, mkWorld (Some m) mf0 fs' rm)
                       /\ (fs' = fs \/ (fs' = <[dst := n]> fs
                                        /\ (fs !! dst = None \/ fs !! dst = Some 0)))
                       /\ fs' !! dst = Some n /\ 0 < n).
    { unfold _download_flag_gif, write_file, path_exists, getsize. fold dst.
      cbn [files remote flags_mem mapping_file snd wl w fst].
      destruct (bool_decide (is_Some (fs !! dst)) && bool_decide (0 < default 0 (fs !! dst)))
        eqn:Hb.
      - right. apply andb_true_iff in Hb as [Hb Hpos].
        apply bool_decide_eq_true in Hb as [n Hn]. rewrite Hn in Hpos.
        apply bool_decide_eq_true in Hpos. cbn in Hpos.
        exists fs, n. repeat split; auto.
      - destruct (rm (_FLAGS_BASE_URL +:+ fid +:+ ".gif")) as [len|] eqn:Hr.
        + destruct (bool_decide (len < 100)) eqn:Hl.
          * left. split; reflexivity.
          * right. apply bool_decide_eq_false in Hl. exists (<[dst := len]> fs), len.
            split; [reflexivity|]. split; [|split; [apply lookup_insert_eq|lia]].
            right. split; [reflexivity|].
            destruct (fs !! dst) as [k|] eqn:Hk; [|now left]. right.
            rewrite (bool_decide_true (is_Some (Some k))) in Hb by eauto.
            cbn in Hb. apply bool_decide_eq_false in Hb. f_equal. lia.
        + left. split; reflexivity. }
    destruct Hdl as [[Hd Hd0]|(fs' & n & Hd & Hfs' & Hn & Hpos)].
    + left. rewrite Hd in Hrun. split; [exact Hrun|exact Hd0].
    + right. rewrite Hd in Hrun. cbn [flags_mem mapping_file remote files] in Hrun.
      set (out := default plain (find_out_path (S (size fs')) base (id_to_path m !! fid)
                                   fs' plain 2)) in *.
      destruct (find_out_path_total base (id_to_path m !! fid) fs' Hbase) as [res Hres].
      fold plain in Hres.
      assert (Hout : out = res) by (unfold out; now rewrite Hres).
      assert (Hshape : by_name_file out).
      { rewrite Hout. exact (find_out_path_shape _ _ _ _ _ _ _ Hbase (by_name_plain _ Hbase) Hres). }
      assert (Hfresh : fs' !! out = None).
      { destruct (find_out_path_fresh _ _ _ _ _ _ _ Hres) as [Hf|[Hf Hmap]];
          [now rewrite Hout|exfalso].
        rewrite <- Hout in Hf, Hmap.
        assert (Hne : "/static/flags/by-name/" +:+ basename out <> "") by discriminate.
        pose proof (Hmiss _ Hmap Hne) as Habs. unfold ref_file in Habs.
        rewrite (by_name_file_rel _ Hshape) in Habs.
        destruct Hfs' as [->|[-> _]].
        - rewrite Habs in Hf. destruct Hf as [? Hf]. discriminate Hf.
        - rewrite lookup_insert_ne in Hf by (now apply raw_not_by_name).
          rewrite Habs in Hf. destruct Hf as [? Hf]. discriminate Hf. }
      exists fs', n, out. split; [exact Hfs'|]. split; [exact Hn|]. split; [exact Hpos|].
      split; [exact Hshape|]. split; [exact Hfresh|]. split.
      { rewrite Hout. destruct (find_out_path_name _ _ _ _ _ _ _ Hres) as [->|Hk]; [now left|now right]. }
      unfold copyfile, write_file, set_flags_mem, _save_flags_mapping in Hrun.
      cbn [files flags_mem mapping_file remote] in Hrun. rewrite Hn in Hrun.
      cbn [files flags_mem mapping_file remote] in Hrun. exact Hrun.
Qed.

Lemma current_mk mem0 mf0 fs rm :
  current_mapping (mkWorld mem0 mf0 fs rm)
  = match mem0 with Some m => m | None => default (mkFlags ∅ ∅) mf0 end.
Proof. unfold current_mapping, _load_flags_mapping. destruct mem0; reflexivity. Qed.

(** The case analysis of a call, with the names of its parts. *)
Ltac resolver_cases fid name w Hfid :=
  let mem0 := fresh "mem0" in
  let mf0 := fresh "mf0" in
  let fs := fresh "fs" in
  let rm := fresh "rm" in
  let Hc := fresh "Hc" in
  destruct w as [mem0 mf0 fs rm];
  pose proof (ensure_flag_local_cases fid name mem0 mf0 fs rm Hfid) as Hc;
  cbv zeta in Hc;
  rewrite <- !(current_mk mem0 mf0 fs rm) in Hc;
  destruct Hc as
    [(e & Hme & Hne & Hlive & [[Hrun Hnm]|[Hrun Hnm]])
    |(Hmiss & [[Hrun Hdl]
              |(fs' & n & out & Hfs' & Hn & Hpos & Hshape & Hfresh & Hname & Hrun)])].

Ltac cur_simpl :=
  repeat match goal with
    | |- context [current_mapping (mkWorld (Some ?m) ?a ?b ?c)] =>
        change (current_mapping (mkWorld (Some m) a b c)) with m
    | H : context [current_mapping (mkWorld (Some ?m) ?a ?b ?c)] |- _ =>
        change (current_mapping (mkWorld (Some m) a b c)) with m in H
    end.

Lemma keeps_files_refl w : keeps_files w w.
Proof. split; auto. Qed.

Lemma keeps_files_trans w1 w2 w3 :
  keeps_files w1 w2 -> keeps_files w2 w3 -> keeps_files w1 w3.
Proof.
  intros [Hr1 Hf1] [Hr2 Hf2]. split; [congruence|].
  intros p n Hp Hn. apply Hf2; auto.
Qed.

Lemma keeps_ids_refl w : keeps_ids w w.
Proof. intros fid. split; auto. Qed.

Lemma keeps_ids_trans w1 w2 w3 : keeps_ids w1 w2 -> keeps_ids w2 w3 -> keeps_ids w1 w3.
Proof.
  intros H1 H2 fid. destruct (H1 fid) as [Ha Hb]. destruct (H2 fid) as [Hc Hd].
  split; auto.
Qed.

(** Loading the mapping fills the cache and changes nothing else. *)
Lemma load_current w :
  current_mapping (snd (_load_flags_mapping w)) = current_mapping w
  /\ files (snd (_load_flags_mapping w)) = files w
  /\ remote (snd (_load_flags_mapping w)) = remote w
  /\ mapping_file (snd (_load_flags_mapping w)) = mapping_file w
  /\ flags_mem (snd (_load_flags_mapping w)) = Some (current_mapping w).
Proof.
  destruct w as [[m|] mf fs rm]; unfold current_mapping, _load_flags_mapping; cbn; auto.
Qed.

Lemma load_keeps_files w : keeps_files w (snd (_load_flags_mapping w)).
Proof.
  destruct (load_current w) as (_ & Hf & Hr & _). split; [exact Hr|].
  intros p n Hp _. now rewrite Hf.
Qed.

Lemma load_keeps_ids w : keeps_ids w (snd (_load_flags_mapping w)).
Proof. intros fid. destruct (load_current w) as (-> & _). auto. Qed.

Lemma load_coherent w : cache_coherent w -> cache_coherent (snd (_load_flags_mapping w)).
Proof.
  intros Hc m. destruct (load_current w) as (_ & _ & _ & -> & ->). intros [= <-].
  destruct w as [[m|] mf fs rm]; rewrite current_mk; [|reflexivity].
  now apply Hc.
Qed.

Lemma load_sound w : mapping_sound w -> mapping_sound (snd (_load_flags_mapping w)).
Proof.
  unfold mapping_sound. destruct (load_current w) as (-> & -> & _). auto.
Qed.

Lemma ensure_keeps_files fid name w :
  is_flag_id fid = true -> keeps_files w (snd (_ensure_flag_local fid name w)).
Proof.
  intros Hfid. resolver_cases fid name w Hfid; rewrite Hrun; cbn [snd];
    try (split; [reflexivity|]; cbn [files]; now auto).
  split; [reflexivity|]. cbn [files]. intros p k Hp Hk.
  assert (Hp' : fs' !! p = Some k).
  { destruct Hfs' as [->|[-> Hold]]; [exact Hp|].
    rewrite lookup_insert_ne; [exact Hp|].
    intros <-. rewrite Hp in Hold. destruct Hold as [Hold|Hold]; [discriminate|].
    injection Hold as ->. lia. }
  rewrite lookup_insert_ne; [exact Hp'|]. intros <-. congruence.
Qed.

Lemma ensure_keeps_ids fid name w :
  is_flag_id fid = true -> keeps_ids w (snd (_ensure_flag_local fid name w)).
Proof.
  intros Hfid. resolver_cases fid name w Hfid; rewrite Hrun; cbn [snd];
    intros o; rewrite !current_mk; cbn [id_to_path id_to_name]; try (split; now auto).
  - split; [auto|]. rewrite Hnm. intros Ho.
    destruct (decide (o = fid)) as [->|Hof];
      [rewrite lookup_insert_eq; eauto|now rewrite lookup_insert_ne].
  - split; intros Ho.
    + destruct (decide (o = fid)) as [->|Hof];
        [rewrite lookup_insert_eq; eauto|now rewrite lookup_insert_ne].
    + destruct (nonempty name); [|exact Ho].
      destruct (decide (o = fid)) as [->|Hof];
        [rewrite lookup_insert_eq; eauto|now rewrite lookup_insert_ne].
Qed.

Lemma ensure_coherent fid name w :
  is_flag_id fid = true ->
  cache_coherent w -> cache_coherent (snd (_ensure_flag_local fid name w)).
Proof.
  intros Hfid Hc.
  assert (Hcur : forall m, flags_mem w = Some m -> m = default (mkFlags ∅ ∅) (mapping_file w))
    by exact Hc.
  resolver_cases fid name w Hfid; rewrite Hrun; cbn [snd]; intros x; cbn; intros [= <-];
    try reflexivity;
    rewrite current_mk; destruct mem0 as [m0|]; [now apply Hcur|reflexivity
                                                |now apply Hcur|reflexivity].
Qed.

Lemma ensure_sound fid name w :
  is_flag_id fid = true ->
  mapping_sound w -> mapping_sound (snd (_ensure_flag_local fid name w)).
Proof.
  intros Hfid [Hsl Hinj].
  pose proof (ensure_keeps_files fid name w Hfid) as [_ Hkeep].
  resolver_cases fid name w Hfid; rewrite Hrun in *; cbn [snd] in *;
    unfold mapping_sound; cur_simpl; cbn [id_to_path files] in *;
    try (split; assumption).
  split.
  - intros o x Ho. destruct (decide (o = fid)) as [->|Hof].
    + rewrite lookup_insert_eq in Ho. injection Ho as <-. split; [discriminate|].
      unfold ref_file. rewrite (by_name_file_rel _ Hshape), lookup_insert_eq. eauto.
    + rewrite lookup_insert_ne in Ho by congruence.
      destruct (Hsl _ _ Ho) as (Hx & k & Hk & Hkpos). split; [exact Hx|].
      exists k. split; [|exact Hkpos]. now apply Hkeep.
  - assert (Hother : forall o x, id_to_path (current_mapping (mkWorld mem0 mf0 fs rm)) !! o
                                 = Some x -> ref_file x <> out).
    { intros o x Ho Heq. destruct (Hsl _ _ Ho) as (_ & k & Hk & Hkpos).
      rewrite Heq in Hk.
      assert (fs !! out = None); [|congruence].
      destruct Hfs' as [->|[-> _]]; [exact Hfresh|].
      apply lookup_insert_None in Hfresh as [Hfresh _]. exact Hfresh. }
    assert (Hnew : ref_file ("/static/flags/by-name/" +:+ basename out) = out)
      by (unfold ref_file; now apply by_name_file_rel).
    intros f1 f2 e1 e2 H1 H2 Heq.
    destruct (decide (f1 = fid)) as [->|Hf1]; destruct (decide (f2 = fid)) as [->|Hf2];
      [reflexivity| | |].
    + rewrite lookup_insert_eq in H1. injection H1 as <-.
      rewrite lookup_insert_ne in H2 by congruence.
      rewrite Hnew in Heq. symmetry in Heq. now apply Hother in H2.
    + rewrite lookup_insert_eq in H2. injection H2 as <-.
      rewrite lookup_insert_ne in H1 by congruence.
      rewrite Hnew in Heq. now apply Hother in H1.
    + rewrite lookup_insert_ne in H1, H2 by congruence. eapply Hinj; eauto.
Qed.

(** ** Invariants through the schedule extraction *)

Lemma preserves_ret {A : Type} (Inv : World -> Prop) (x : A) : preserves Inv (mret x).
Proof. intros w Hw. exact Hw. Qed.

Lemma preserves_bind {A B : Type} (Inv : World -> Prop) (m : State A) (k : A -> State B) :
  preserves Inv m -> (forall x, preserves Inv (k x)) -> preserves Inv (m ≫= k).
Proof.
  intros Hm Hk w Hw. unfold_state. specialize (Hm w Hw).
  destruct (m w) as [x w1]. apply Hk. exact Hm.
Qed.

Section Preservation.

Variable Inv : World -> Prop.
Hypothesis Hload : preserves Inv _load_flags_mapping.
Hypothesis Hensure :
  forall fid name, is_flag_id fid = true -> preserves Inv (_ensure_flag_local fid name).

Lemma local_gif_preserves src : preserves Inv (_local_gif_for_src src).
Proof.
  unfold _local_gif_for_src. destruct src as [s|]; [|apply preserves_ret].
  destruct (nonempty s); [|apply preserves_ret].
  destruct (flag_id_search s); [|apply preserves_ret].
  apply preserves_bind; [exact Hload|]. intros flags. apply preserves_ret.
Qed.

Lemma norm_src_preserves src : preserves Inv (_norm_src src).
Proof.
  unfold _norm_src. destruct src as [s|]; [|apply preserves_ret].
  destruct (nonempty s); [|apply preserves_ret].
  apply preserves_bind; [apply local_gif_preserves|]. intros loc.
  repeat (match goal with |- preserves _ (if ?b then _ else _) => destruct b end);
    apply preserves_ret.
Qed.

Lemma team_image_preserves raw name : preserves Inv (team_image raw name).
Proof.
  unfold team_image. apply preserves_bind.
  - destruct (truthy raw && nonempty name); [|apply preserves_ret].
    destruct (flag_id_search (or_empty raw)) as [fid|] eqn:Hs; [|apply preserves_ret].
    apply Hensure. exact (flag_id_search_is_flag_id _ _ Hs).
  - intros enriched. destruct (truthy enriched); [apply preserves_ret|].
    apply norm_src_preserves.
Qed.

Lemma card_teams_preserves l : preserves Inv (card_teams l).
Proof.
  induction l as [|tn r IH]; cbn [card_teams]; [apply preserves_ret|].
  apply preserves_bind; [apply team_image_preserves|]. intros img.
  apply preserves_bind; [exact IH|]. intros [ts imgs]. apply preserves_ret.
Qed.

Lemma parse_match_update_preserves mu : preserves Inv (parse_match_update mu).
Proof.
  unfold parse_match_update. destruct (card_title_status mu) as [t st].
  apply preserves_bind; [apply card_teams_preserves|]. intros [ts imgs].
  destruct (bool_decide (2 < length ts));
    (apply preserves_bind; [apply norm_src_preserves|]; intros href;
     destruct (negb _); apply preserves_ret).
Qed.

Lemma collect_preserves {A : Type} (f : A -> State (option MatchRecord)) l :
  (forall x, preserves Inv (f x)) -> preserves Inv (collect f l).
Proof.
  intros Hf. induction l as [|x r IH]; cbn [collect]; [apply preserves_ret|].
  apply preserves_bind; [apply Hf|]. intros o.
  apply preserves_bind; [exact IH|]. intros items. apply preserves_ret.
Qed.

Lemma table_teams_preserves l link : preserves Inv (table_teams l link).
Proof.
  revert link. induction l as [|a r IH]; intros link; cbn [table_teams];
    [apply preserves_ret|].
  apply preserves_bind; [apply team_image_preserves|]. intros img.
  apply preserves_bind.
  - destruct (negb (truthy link) && _); [apply norm_src_preserves|apply preserves_ret].
  - intros link'. apply preserves_bind; [apply IH|]. intros [[ns imgs] l3].
    apply preserves_ret.
Qed.

Lemma parse_schedule_row_preserves tr : preserves Inv (parse_schedule_row tr).
Proof.
  unfold parse_schedule_row. destruct (find_all (has_tag "td") tr) as [|td0 rest];
    [apply preserves_ret|].
  apply preserves_bind; [apply table_teams_preserves|]. intros [[ns imgs] link].
  apply preserves_bind.
  - destruct (negb (truthy link)); [|apply preserves_ret].
    destruct (find _ td0); [apply norm_src_preserves|apply preserves_ret].
  - intros link'. destruct (negb _); apply preserves_ret.
Qed.

Lemma parse_schedules_preserves doc : preserves Inv (parse_schedules_html doc).
Proof.
  unfold parse_schedules_html. apply preserves_bind.
  - apply collect_preserves, parse_match_update_preserves.
  - intros cards. apply preserves_bind; [|intros rows; apply preserves_ret].
    unfold _parse_schedule_table. destruct (schedule_table _); [|apply preserves_ret].
    apply collect_preserves, parse_schedule_row_preserves.
Qed.

End Preservation.

(** ** The flag resolver, call by call *)

(** X1: [_download_flag_gif] returns the raw path or nothing.  When it
    returns nothing the world is as before; when it returns the path, the
    raw file is there and not empty, either the one that was there before or
    a response of at least 100 bytes.  No other file, and neither the
    mapping nor the server, changes.  The raw file is a cache: a second call
    returns the same result and changes nothing, and once the file is
    stored the result no longer depends on the server. *)
Theorem raw_download_is_cached (fid : string) (w : World) :
  let dst := path_join _FLAGS_RAW_DIR (fid +:+ ".gif") in
  let r := fst (_download_flag_gif fid w) in
  let w1 := snd (_download_flag_gif fid w) in
  (r = None \/ r = Some dst)
  /\ (r = None -> w1 = w)
  /\ (r = Some dst ->
      exists n, files w1 !! dst = Some n /\ 0 < n
                /\ ((files w !! dst = Some n /\ w1 = w)
                    \/ (remote w (_FLAGS_BASE_URL +:+ fid +:+ ".gif") = Some n /\ 100 <= n)))
  /\ (forall p, p <> dst -> files w1 !! p = files w !! p)
  /\ flags_mem w1 = flags_mem w /\ mapping_file w1 = mapping_file w /\ remote w1 = remote w
  /\ _download_flag_gif fid w1 = (r, w1)
  /\ (r = Some dst ->
      forall rm', _download_flag_gif fid (mkWorld (flags_mem w1) (mapping_file w1) (files w1) rm')
                  = (Some dst, mkWorld (flags_mem w1) (mapping_file w1) (files w1) rm')).
Proof.
  intros dst r w1. subst r w1. destruct w as [mem0 mf0 fs rm].
  unfold _download_flag_gif, write_file, path_exists, getsize. fold dst.
  cbn [files remote flags_mem mapping_file snd fst].
  destruct (bool_decide (is_Some (fs !! dst)) && bool_decide (0 < default 0 (fs !! dst))) eqn:Hb.
  - cbn [fst snd files remote flags_mem mapping_file]. rewrite Hb.
    apply andb_true_iff in Hb as [Hb Hpos].
    apply bool_decide_eq_true in Hb as [n Hn]. rewrite Hn in Hpos.
    apply bool_decide_eq_true in Hpos. cbn in Hpos.
    repeat split; auto. intros _. exists n. auto.
  - destruct (rm (_FLAGS_BASE_URL +:+ fid +:+ ".gif")) as [len|] eqn:Hr.
    + destruct (bool_decide (len < 100)) eqn:Hl.
      * cbn [fst snd files remote flags_mem mapping_file]. rewrite Hb, Hr, Hl.
        repeat split; auto; discriminate.
      * cbn [fst snd files remote flags_mem mapping_file].
        apply bool_decide_eq_false in Hl.
        assert (Hc : bool_decide (is_Some (<[dst := len]> fs !! dst))
                     && bool_decide (0 < default 0 (<[dst := len]> fs !! dst)) = true).
        { rewrite lookup_insert_eq.
          apply andb_true_iff; split; apply bool_decide_eq_true; [eauto|cbn; lia]. }
        rewrite Hc.
        repeat split; auto; try discriminate.
        -- intros _. exists len. rewrite lookup_insert_eq. split; [reflexivity|].
           split; [lia|]. right. split; [reflexivity|lia].
        -- intros p Hp. now rewrite lookup_insert_ne by congruence.
    + cbn [fst snd files remote flags_mem mapping_file]. rewrite Hb, Hr.
      repeat split; auto; discriminate.
Qed.

Lemma run_eq {A : Type} (m : State A) w : m w = (fst (m w), snd (m w)).
Proof. now destruct (m w). Qed.

(** X2: a reference the resolver returns is recorded and usable.  After
    the call the mapping holds that reference for the identifier, the
    reference is not empty and its file is on disk; a team name given with
    the call is the recorded name; and the normalizer, run on any source
    that shows the identifier, returns that reference and changes nothing. *)
Theorem resolver_reference_is_live (fid name : string) (w : World) (r src : string) :
  is_flag_id fid = true ->
  fst (_ensure_flag_local fid name w) = Some r ->
  let w1 := snd (_ensure_flag_local fid name w) in
  id_to_path (current_mapping w1) !! fid = Some r
  /\ r <> ""
  /\ is_Some (files w1 !! ref_file r)
  /\ (name <> "" -> id_to_name (current_mapping w1) !! fid = Some name)
  /\ (flag_id_search src = Some fid -> _norm_src (Some src) w1 = (Some r, w1)).
Proof.
  intros Hfid Hr w1.
  assert (Hmain : id_to_path (current_mapping w1) !! fid = Some r /\ r <> ""
                  /\ is_Some (files w1 !! ref_file r)
                  /\ (name <> "" -> id_to_name (current_mapping w1) !! fid = Some name)
                  /\ exists m, flags_mem w1 = Some m).
  { subst w1. resolver_cases fid name w Hfid; rewrite Hrun in *; cbn [fst snd] in *;
      try discriminate; injection Hr as <-; cur_simpl; cbn [id_to_path id_to_name files flags_mem].
    - repeat split; eauto. intros Hnz. apply nonempty_true in Hnz.
      destruct Hnm as [Hnm|Hnm]; [congruence|exact Hnm].
    - repeat split; eauto. intros _. rewrite Hnm. apply lookup_insert_eq.
    - split; [apply lookup_insert_eq|]. split; [discriminate|].
      split; [unfold ref_file; rewrite (by_name_file_rel _ Hshape), lookup_insert_eq; eauto|].
      split; [|eauto]. intros Hnz. apply nonempty_true in Hnz. rewrite Hnz.
      apply lookup_insert_eq. }
  destruct Hmain as (Hmap & Hne & Hlive & Hnz & m & Hmem).
  repeat split; auto.
  intros Hsrc. unfold _norm_src, _local_gif_for_src.
  assert (Hs : nonempty src = true).
  { destruct src; [discriminate Hsrc|reflexivity]. }
  rewrite Hs, Hsrc. unfold_state.
  assert (Hl : _load_flags_mapping w1 = (current_mapping w1, w1)).
  { unfold current_mapping, _load_flags_mapping. rewrite Hmem. reflexivity. }
  rewrite Hl, Hmap. cbn [truthy]. apply nonempty_true in Hne. rewrite Hne. reflexivity.
Qed.

(** X3: the resolver never deletes a file and never changes a file that is
    not empty; the server is left as it is.  A call touches at most the raw
    file of its identifier and one file of the by-name directory, which did
    not exist before and is the file of the reference returned; a call that
    returns nothing or finds the reference mapped changes no by-name file. *)
Theorem resolver_keeps_files (fid name : string) (w : World) :
  is_flag_id fid = true ->
  let dst := path_join _FLAGS_RAW_DIR (fid +:+ ".gif") in
  let r := fst (_ensure_flag_local fid name w) in
  let w1 := snd (_ensure_flag_local fid name w) in
  keeps_files w w1
  /\ (forall p, is_Some (files w !! p) -> is_Some (files w1 !! p))
  /\ (forall p, p <> dst -> files w1 !! p <> files w !! p ->
        by_name_file p /\ files w !! p = None
        /\ r = Some ("/static/flags/by-name/" +:+ basename p)
        /\ files w1 !! p = files w1 !! dst).
Proof.
  intros Hfid dst r w1. split; [now apply ensure_keeps_files|].
  subst r w1. resolver_cases fid name w Hfid; rewrite Hrun; cbn [fst snd files];
    try (split; [now auto|]; intros p _ Hp; now exfalso).
  fold dst in Hfs', Hn.
  assert (Hsub : forall p, fs' !! p = None -> fs !! p = None).
  { intros p Hp. destruct Hfs' as [->|[-> _]]; [exact Hp|].
    apply lookup_insert_None in Hp as [Hp _]. exact Hp. }
  split.
  - intros p [k Hp]. destruct (decide (p = out)) as [->|Hpo].
    + rewrite (Hsub _ Hfresh) in Hp. discriminate.
    + rewrite lookup_insert_ne by congruence.
      destruct Hfs' as [->|[-> _]]; [eauto|].
      destruct (decide (p = dst)) as [->|Hpd];
        [rewrite lookup_insert_eq; eauto|rewrite lookup_insert_ne by congruence; eauto].
  - intros p Hpd Hp. destruct (decide (p = out)) as [->|Hpo].
    + split; [exact Hshape|]. split; [now apply Hsub|]. split; [reflexivity|].
      rewrite lookup_insert_eq.
      rewrite lookup_insert_ne by (intros <-; congruence).
      now rewrite Hn.
    + exfalso. apply Hp. rewrite lookup_insert_ne by congruence.
      destruct Hfs' as [->|[-> _]]; [reflexivity|].
      now rewrite lookup_insert_ne by congruence.
Qed.

(** X4: a call of the resolver changes the mapping of its own identifier
    only.  The reference and the name of every other identifier are as
    before; a call that returns nothing leaves the whole mapping as it was;
    without a team name the names are as before; and no identifier loses
    its reference or its name. *)
Theorem resolver_touches_own_id (fid name : string) (w : World) :
  is_flag_id fid = true ->
  let r := fst (_ensure_flag_local fid name w) in
  let w1 := snd (_ensure_flag_local fid name w) in
  (forall o, o <> fid ->
     id_to_path (current_mapping w1) !! o = id_to_path (current_mapping w) !! o
     /\ id_to_name (current_mapping w1) !! o = id_to_name (current_mapping w) !! o)
  /\ (r = None -> current_mapping w1 = current_mapping w)
  /\ (name = "" -> id_to_name (current_mapping w1) = id_to_name (current_mapping w))
  /\ keeps_ids w w1.
Proof.
  intros Hfid r w1. split; [|split; [|split; [|now apply ensure_keeps_ids]]]; subst r w1.
  - resolver_cases fid name w Hfid; rewrite Hrun; cbn [fst snd]; cur_simpl;
      cbn [id_to_path id_to_name]; intros o Ho; try (split; reflexivity).
    + rewrite Hnm. now rewrite lookup_insert_ne by congruence.
    + rewrite lookup_insert_ne by congruence. split; [reflexivity|].
      destruct (nonempty name); [now rewrite lookup_insert_ne by congruence|reflexivity].
  - resolver_cases fid name w Hfid; rewrite Hrun; cbn [fst snd]; cur_simpl;
      try discriminate; reflexivity.
  - intros ->. resolver_cases fid "" w Hfid; rewrite Hrun; cbn [fst snd]; cur_simpl;
      cbn [id_to_name nonempty] in *; reflexivity.
Qed.

(** X5: a reference the resolver makes.  When the identifier has no
    reference whose file is on disk and the call returns a reference, that
    reference is [/static/flags/by-name/] followed by a file name without a
    slash: the slug of the team name (of [flag-<id>] without a name) and
    [.gif], or the slug, a hyphen, a number from 2 on and [.gif].  Its file
    did not exist before the call, so it is the file of no reference that
    was usable before; the file is a copy of the raw file; and the new
    mapping is in the cache and in the mapping file. *)
Theorem resolver_new_reference (fid name : string) (w : World) (r : string) :
  is_flag_id fid = true ->
  (forall e, id_to_path (current_mapping w) !! fid = Some e -> e <> "" ->
             files w !! ref_file e = None) ->
  fst (_ensure_flag_local fid name w) = Some r ->
  let w1 := snd (_ensure_flag_local fid name w) in
  let base := _slugify (if nonempty name then name else "flag-" +:+ fid) in
  (exists fname,
      r = "/static/flags/by-name/" +:+ fname
      /\ all_chars not_slash fname = true
      /\ (fname = base +:+ ".gif"
          \/ exists k, 2 <= k /\ fname = base +:+ "-" +:+ pretty k +:+ ".gif")
      /\ ref_file r = "/workspace/static/flags/by-name/" +:+ fname)
  /\ files w !! ref_file r = None
  /\ (forall o e, id_to_path (current_mapping w) !! o = Some e ->
                  is_Some (files w !! ref_file e) -> ref_file e <> ref_file r)
  /\ files w1 !! ref_file r = files w1 !! path_join _FLAGS_RAW_DIR (fid +:+ ".gif")
  /\ flags_mem w1 = Some (current_mapping w1)
  /\ mapping_file w1 = Some (current_mapping w1).
Proof.
  intros Hfid Hstale Hr w1 base. subst w1.
  resolver_cases fid name w Hfid; rewrite Hrun in *; cbn [fst snd files] in *;
    try discriminate.
  - exfalso. rewrite (Hstale _ Hme Hne) in Hlive. destruct Hlive as [? Hl]. discriminate.
  - exfalso. rewrite (Hstale _ Hme Hne) in Hlive. destruct Hlive as [? Hl]. discriminate.
  - injection Hr as <-. cur_simpl. cbn [files flags_mem mapping_file].
    assert (Hsub : fs !! out = None).
    { destruct Hfs' as [->|[-> _]]; [exact Hfresh|].
      apply lookup_insert_None in Hfresh as [Hf _]. exact Hf. }
    assert (Href : ref_file ("/static/flags/by-name/" +:+ basename out) = out)
      by (unfold ref_file; now apply by_name_file_rel).
    assert (Hbase : is_slug base = true) by apply slugify_is_slug.
    rewrite Href. split; [|split; [exact Hsub|split; [|split; [|split; reflexivity]]]].
    + destruct Hshape as (fname & Hout & Hfn). exists fname.
      rewrite Hout at 1. rewrite (basename_join _ _ Hfn).
      split; [reflexivity|]. split; [exact Hfn|]. split; [|exact Hout].
      fold base in Hname. rewrite Hout in Hname.
      destruct Hname as [Hp|(k & Hk & Hp)].
      * left. rewrite (by_name_path _ _ Hbase) in Hp.
        now do 2 apply (inj (String.append _)) in Hp.
      * right. exists k. split; [exact Hk|]. unfold numbered_path in Hp.
        rewrite (by_name_path _ _ Hbase) in Hp.
        now do 2 apply (inj (String.append _)) in Hp.
    + intros o x _ Hx Heq. rewrite Heq, Hsub in Hx. destruct Hx as [? Hx]. discriminate.
    + rewrite lookup_insert_eq.
      rewrite lookup_insert_ne by congruence. now rewrite Hn.
Qed.

(** X6: the resolver keeps the mapping in order.  If the cached mapping is
    the one of the mapping file before a call, it is so after it.  If every
    reference of the mapping names a file on disk that is not empty and no
    two identifiers share a file, then the same holds after the call.  And
    whenever a call changes the mapping, the mapping file holds the new
    mapping. *)
Theorem resolver_invariants (fid name : string) (w : World) :
  is_flag_id fid = true ->
  let w1 := snd (_ensure_flag_local fid name w) in
  (cache_coherent w -> cache_coherent w1)
  /\ (mapping_sound w -> mapping_sound w1)
  /\ (current_mapping w1 <> current_mapping w -> mapping_file w1 = Some (current_mapping w1)).
Proof.
  intros Hfid w1. split; [now apply ensure_coherent|]. split; [now apply ensure_sound|].
  subst w1. resolver_cases fid name w Hfid; rewrite Hrun; cbn [snd]; cur_simpl;
    cbn [mapping_file]; try reflexivity; intros Hch; now exfalso.
Qed.

(** X7: extracting a schedule never deletes a file and never changes a
    file that is not empty, leaves the flag server as it is, and takes no
    reference and no name away from an identifier of the mapping. *)
Theorem schedule_parse_keeps (doc : Node) (w : World) :
  let w1 := snd (parse_schedules_html doc w) in
  keeps_files w w1 /\ keeps_ids w w1.
Proof.
  split.
  - apply (parse_schedules_preserves (keeps_files w)); [| |apply keeps_files_refl].
    + intros w1 H1. exact (keeps_files_trans _ _ _ H1 (load_keeps_files w1)).
    + intros fid name Hfid w1 H1.
      exact (keeps_files_trans _ _ _ H1 (ensure_keeps_files fid name w1 Hfid)).
  - apply (parse_schedules_preserves (keeps_ids w)); [| |apply keeps_ids_refl].
    + intros w1 H1. exact (keeps_ids_trans _ _ _ H1 (load_keeps_ids w1)).
    + intros fid name Hfid w1 H1.
      exact (keeps_ids_trans _ _ _ H1 (ensure_keeps_ids fid name w1 Hfid)).
Qed.

(** X8: extracting a schedule keeps the mapping in order.  From a world
    whose cached mapping is the one of the mapping file, it leaves such a
    world, so that a process that starts again with an empty cache finds
    the same mapping; from a world where every reference of the mapping
    names a file on disk that is not empty and no two identifiers share a
    file, it leaves such a world. *)
Theorem schedule_parse_invariants (doc : Node) (w : World) :
  let w1 := snd (parse_schedules_html doc w) in
  (cache_coherent w -> cache_coherent w1)
  /\ (cache_coherent w -> current_mapping (restart w1) = current_mapping w1)
  /\ (mapping_sound w -> mapping_sound w1).
Proof.
  intros w1.
  assert (Hc : cache_coherent w -> cache_coherent w1).
  { apply (parse_schedules_preserves cache_coherent).
    - intros w2. apply load_coherent.
    - intros fid name Hfid w2. now apply ensure_coherent. }
  split; [exact Hc|]. split.
  - intros Hw. specialize (Hc Hw). unfold restart, current_mapping, _load_flags_mapping.
    cbn [flags_mem mapping_file fst].
    destruct (flags_mem w1) as [m|] eqn:Hm; cbn [fst]; [|reflexivity].
    symmetry. now apply Hc.
  - apply (parse_schedules_preserves mapping_sound).
    + intros w2. apply load_sound.
    + intros fid name Hfid w2. now apply ensure_sound.
Qed.

(** ** Text without white space around it *)

Lemma no_trail_cons c t : nonempty t = true -> no_trail_space (String c t) = no_trail_space t.
Proof. destruct t; [discriminate|reflexivity]. Qed.

Lemma rstrip_id s : no_trail_space s = true -> rstrip_with is_space s = s.
Proof.
  induction s as [|c t IH]; [reflexivity|]. destruct t as [|d t'].
  - cbn. intros H. apply negb_true_iff in H. now rewrite H.
  - intros H. rewrite no_trail_cons in H by reflexivity.
    change (rstrip_with is_space (String c (String d t')))
      with (match rstrip_with is_space (String d t') with
            | "" => if is_space c then "" else String c ""
            | r => String c r
            end).
    rewrite (IH H). reflexivity.
Qed.

Lemma rstrip_no_trail s : no_trail_space (rstrip_with is_space s) = true.
Proof.
  induction s as [|c t IH]; [reflexivity|]. cbn [rstrip_with].
  destruct (rstrip_with is_space t) as [|d r] eqn:E.
  - destruct (is_space c) eqn:Hc; [reflexivity|]. cbn. now rewrite Hc.
  - rewrite no_trail_cons by reflexivity. exact IH.
Qed.

Lemma strip_no_trail s : no_trail_space (strip s) = true.
Proof. apply rstrip_no_trail. Qed.

Lemma trimmed_iff s :
  strip s = s <-> no_lead_space s = true /\ no_trail_space s = true.
Proof.
  split.
  - intros <-. split; [apply strip_no_lead|apply strip_no_trail].
  - intros [Hl Ht]. unfold strip, strip_with. rewrite (lstrip_id _ Hl). now apply rstrip_id.
Qed.

Lemma strip_idem s : strip (strip s) = strip s.
Proof. apply trimmed_iff. split; [apply strip_no_lead|apply strip_no_trail]. Qed.

Lemma nonempty_app_r a b : nonempty b = true -> nonempty (a +:+ b) = true.
Proof. destruct a; [auto|reflexivity]. Qed.

Lemma nonempty_app_l a b : nonempty a = true -> nonempty (a +:+ b) = true.
Proof. destruct a; [discriminate|reflexivity]. Qed.

Lemma no_trail_app a b :
  nonempty b = true -> no_trail_space b = true -> no_trail_space (a +:+ b) = true.
Proof.
  intros Hb Ht. induction a as [|c a IH]; [exact Ht|].
  rewrite append_cons, no_trail_cons; [exact IH|now apply nonempty_app_r].
Qed.

Lemma join_nonempty sep x l : nonempty x = true -> nonempty (join sep (x :: l)) = true.
Proof.
  intros Hx. destruct (join_cons_head sep x l) as [rest ->]. now apply nonempty_app_l.
Qed.

Lemma join_no_trail sep l :
  Forall (fun x => nonempty x = true /\ no_trail_space x = true) l ->
  no_trail_space (join sep l) = true.
Proof.
  induction 1 as [|x r [Hx Ht] Hr IH]; [reflexivity|].
  destruct r as [|y r']; [exact Ht|].
  change (join sep (x :: y :: r')) with (x +:+ sep +:+ join sep (y :: r')).
  apply Forall_cons in Hr as [[Hy _] _].
  apply no_trail_app; [apply nonempty_app_r; now apply join_nonempty|].
  apply no_trail_app; [now apply join_nonempty|exact IH].
Qed.

Lemma get_text_trimmed sep n : strip (get_text sep n) = get_text sep n.
Proof.
  apply trimmed_iff. split; [apply get_text_no_lead|].
  unfold get_text. apply join_no_trail.
  induction (strings n) as [|s l IH]; [constructor|]. cbn [map filter].
  rewrite filter_cons. destruct (decide _) as [Hs|Hs]; [|exact IH].
  constructor; [|exact IH]. split; [now apply Is_true_true|apply strip_no_trail].
Qed.

Lemma join_trimmed sep l :
  Forall (fun x => x <> "" /\ strip x = x) l -> strip (join sep l) = join sep l.
Proof.
  intros Hl. apply trimmed_iff. split.
  - apply join_no_lead. eapply Forall_impl; [exact Hl|].
    intros x [Hx Ht]. split; [now apply nonempty_true|]. now apply trimmed_iff in Ht.
  - apply join_no_trail. eapply Forall_impl; [exact Hl|].
    intros x [Hx Ht]. split; [now apply nonempty_true|]. now apply trimmed_iff in Ht.
Qed.

Lemma names_of_trimmed f l :
  (forall x, strip (f x) = f x) ->
  Forall (fun t => t <> "" /\ strip t = t) (names_of f l).
Proof.
  intros Hf. unfold names_of. induction l as [|x l IH]; [constructor|]. cbn [flat_map].
  destruct (nonempty (f x)) eqn:Hx; [|exact IH].
  constructor; [|exact IH]. split; [now apply nonempty_true|apply Hf].
Qed.

Lemma card_team_name_trimmed tn : strip (card_team_name tn) = card_team_name tn.
Proof. unfold card_team_name. destruct (find _ tn); apply get_text_trimmed. Qed.

Lemma table_team_name_trimmed a : strip (table_team_name a) = table_team_name a.
Proof. unfold table_team_name. destruct (find _ a); apply get_text_trimmed. Qed.

Lemma or_none_trimmed sep n x : or_none (get_text sep n) = Some x -> x <> "" /\ strip x = x.
Proof.
  unfold or_none. destruct (nonempty (get_text sep n)) eqn:Hn; [|discriminate].
  intros [= <-]. split; [now apply nonempty_true|apply get_text_trimmed].
Qed.

Lemma row_title_trimmed names tds :
  Forall (fun t => t <> "" /\ strip t = t) names ->
  strip (row_title names (row_match_type tds)) = row_title names (row_match_type tds).
Proof.
  intros Hn. unfold row_title.
  assert (Hmt : forall x, row_match_type tds = Some x -> x <> "" /\ strip x = x).
  { unfold row_match_type. destruct (tds !! 1); [|discriminate]. apply or_none_trimmed. }
  assert (Hparts : Forall (fun x => x <> "" /\ strip x = x)
            ((if bool_decide (names ≠ []) then [join " vs " (take 2 names)] else [])
             ++ (if truthy (row_match_type tds) then [or_empty (row_match_type tds)] else []))).
  { apply Forall_app. split.
    - destruct (bool_decide (names ≠ [])) eqn:Hb; [|constructor].
      apply bool_decide_eq_true in Hb. constructor; [|constructor].
      destruct names as [|a names']; [congruence|]. clear Hb.
      apply Forall_cons in Hn as [[Ha Hat] Hn'].
      split.
      + apply nonempty_true. destruct names'; cbn [take]; apply join_nonempty;
          now apply nonempty_true.
      + apply join_trimmed. apply Forall_take. constructor; [split|]; assumption.
    - destruct (row_match_type tds) as [x|]; cbn [truthy]; [|constructor].
      destruct (Hmt x eq_refl) as [Hx Hxt].
      destruct (nonempty x); constructor; [split; assumption|constructor]. }
  destruct (bool_decide (_ ≠ [])) eqn:Hb in |- *.
  - now apply join_trimmed.
  - destruct (row_match_type tds) as [x|]; [|reflexivity]. now apply Hmt.
Qed.

Lemma card_title_trimmed mu : strip (fst (card_title_status mu)) = fst (card_title_status mu).
Proof.
  unfold card_title_status.
  destruct (find (has_tag "p") mu) as [p|]; [|reflexivity].
  destruct (find (has_tag "small") p) as [st|]; cbn [fst];
    [apply strip_idem|apply get_text_trimmed].
Qed.

(** X9: the texts of a schedule entry carry no white space around them.
    For every entry of the card pass, of the table pass and of the merged
    result, the title, each team name, the status and the time or venue are
    what [strip()] leaves as they are, and no team name is empty. *)
Theorem schedule_texts_are_trimmed (doc : Node) (root : Cursor) (w : World) (r : MatchRecord) :
  In r (fst (parse_schedules_html doc w))
  \/ In r (fst (_parse_match_updates root w))
  \/ In r (fst (_parse_schedule_table root w)) ->
  strip (title r) = title r
  /\ Forall (fun t => t <> "" /\ strip t = t) (teams r)
  /\ (forall x, status r = Some x -> strip x = x)
  /\ (forall x, time_or_venue r = Some x -> strip x = x).
Proof.
  assert (Hpass : forall root' w',
             In r (fst (_parse_match_updates root' w'))
             \/ In r (fst (_parse_schedule_table root' w')) ->
             strip (title r) = title r
             /\ Forall (fun t => t <> "" /\ strip t = t) (teams r)
             /\ (forall x, status r = Some x -> strip x = x)
             /\ (forall x, time_or_venue r = Some x -> strip x = x)).
  { intros root' w' [Hc|Ht].
    - destruct (card_record_inv _ _ _ Hc)
        as (mu & imgs & w1 & w2 & _ & _ & _ & Htitle & Hteams & _ & Hst & Htm & _).
      rewrite Htitle, Hteams, Hst, Htm. split; [apply card_title_trimmed|]. split.
      + pose proof (names_of_trimmed card_team_name (card_team_nodes mu)
                      card_team_name_trimmed) as Hn.
        destruct (bool_decide _); [now apply Forall_take|exact Hn].
      + split.
        * unfold card_title_status.
          destruct (find (has_tag "p") mu) as [p|]; [|discriminate].
          destruct (find (has_tag "small") p) as [st|]; cbn [snd]; [|discriminate].
          intros x [= <-]. apply get_text_trimmed.
        * unfold card_time. destruct (find _ mu); [|discriminate].
          intros x [= <-]. apply get_text_trimmed.
    - destruct (table_record_inv _ _ _ Ht)
        as (table & tr & td0 & rest & imgs & w1 & w2 & _ & _ & _ & _ & _
            & Htitle & Hteams & _ & Hst & Htm & _).
      rewrite Htitle, Hteams, Hst, Htm.
      pose proof (names_of_trimmed table_team_name (row_team_cells td0)
                    table_team_name_trimmed) as Hn.
      split; [now apply row_title_trimmed|]. split; [exact Hn|]. split.
      + unfold row_status. destruct (_ && _); [|discriminate]. intros x [= <-]. reflexivity.
      + unfold row_date_time. destruct (_ !! 2); [|discriminate].
        intros x Hx. now apply or_none_trimmed in Hx. }
  intros [Hm|Hp]; [|now apply (Hpass root w)].
  destruct (merged_entry_origin _ _ _ Hm) as (root' & w' & Ho). now apply (Hpass root' w').
Qed.

(** ** The slug of a name *)

Lemma lower_char_space c : is_space (lower_char c) = is_space c.
Proof. by_cases_on_char c. Qed.

Lemma lower_char_idem c : lower_char (lower_char c) = lower_char c.
Proof. by_cases_on_char c. Qed.

Lemma lower_idem s : lower (lower s) = lower s.
Proof. induction s as [|c t IH]; [reflexivity|]. cbn. now rewrite lower_char_idem, IH. Qed.

Lemma lower_lstrip s : lstrip_with is_space (lower s) = lower (lstrip_with is_space s).
Proof.
  induction s as [|c t IH]; [reflexivity|]. cbn [lower lstrip_with].
  rewrite lower_char_space. destruct (is_space c); [exact IH|reflexivity].
Qed.

Lemma lower_rstrip s : rstrip_with is_space (lower s) = lower (rstrip_with is_space s).
Proof.
  induction s as [|c t IH]; [reflexivity|]. cbn [lower rstrip_with]. rewrite IH.
  destruct (rstrip_with is_space t) as [|d r]; cbn [lower].
  - rewrite lower_char_space. destruct (is_space c); reflexivity.
  - reflexivity.
Qed.

Lemma lower_strip s : strip (lower s) = lower (strip s).
Proof. unfold strip, strip_with. now rewrite lower_lstrip, lower_rstrip. Qed.

(** X10: the slug does not see the case of a name or the white space
    around it.  [_slugify], and [slugify] of the download script, give a
    name, the name in lower case and the stripped name the same slug; so
    two team names that differ only in case or surrounding white space ask
    for the same by-name file. *)
Theorem slugify_ignores_case_and_margin (name : string) :
  _slugify (lower name) = _slugify name
  /\ _slugify (strip name) = _slugify name
  /\ DownloadFlags.slugify (lower name) = DownloadFlags.slugify name
  /\ DownloadFlags.slugify (strip name) = DownloadFlags.slugify name
  /\ DownloadFlags.slugify name = _slugify name.
Proof.
  change DownloadFlags.slugify with _slugify.
  assert (H1 : _slugify (lower name) = _slugify name)
    by (unfold _slugify; now rewrite lower_strip, lower_idem).
  assert (H2 : _slugify (strip name) = _slugify name)
    by (unfold _slugify; now rewrite strip_idem).
  auto.
Qed.

(** ** The references of the entries *)

Lemma kf_load w0 : preserves (keeps_files w0) _load_flags_mapping.
Proof. intros w1 H1. exact (keeps_files_trans _ _ _ H1 (load_keeps_files w1)). Qed.

Lemma kf_ensure w0 fid name :
  is_flag_id fid = true -> preserves (keeps_files w0) (_ensure_flag_local fid name).
Proof.
  intros Hfid w1 H1. exact (keeps_files_trans _ _ _ H1 (ensure_keeps_files fid name w1 Hfid)).
Qed.

Lemma ms_load : preserves mapping_sound _load_flags_mapping.
Proof. intros w. apply load_sound. Qed.

Lemma ms_ensure fid name :
  is_flag_id fid = true -> preserves mapping_sound (_ensure_flag_local fid name).
Proof. intros Hfid w. now apply ensure_sound. Qed.

Lemma good_ref_keeps w w' x : keeps_files w w' -> good_ref w x -> good_ref w' x.
Proof.
  intros [_ Hk] [Hx [Hr|(n & Hn & Hpos)]]; (split; [exact Hx|]); [now left|right].
  exists n. split; [now apply Hk|exact Hpos].
Qed.

Lemma good_opt_keeps w w' o : keeps_files w w' -> good_opt w o -> good_opt w' o.
Proof. intros Hk Ho x Hx. exact (good_ref_keeps _ _ _ Hk (Ho x Hx)). Qed.

Lemma good_opts_keeps w w' l :
  keeps_files w w' -> Forall (good_opt w) l -> Forall (good_opt w') l.
Proof.
  intros Hk Hl. eapply Forall_impl; [exact Hl|]. intros o. now apply good_opt_keeps.
Qed.

Lemma good_record_keeps w w' r : keeps_files w w' -> good_record w r -> good_record w' r.
Proof.
  intros Hk [Hi Hl]. split; [now apply (good_opts_keeps w)|now apply (good_opt_keeps w)].
Qed.

Lemma good_opt_None w : good_opt w None.
Proof. intros x Hx. discriminate. Qed.

(** The normalizer reads the mapping and changes nothing but the cache. *)
Lemma norm_src_world src w :
  snd (_norm_src src w) = w \/ snd (_norm_src src w) = snd (_load_flags_mapping w).
Proof.
  unfold _norm_src, _local_gif_for_src. destruct src as [s|]; [|now left].
  destruct (nonempty s); [|now left].
  destruct (flag_id_search s) as [fid|]; unfold_state.
  - right. destruct (_load_flags_mapping w) as [m w1]. cbn.
    repeat (match goal with |- context [if ?b then _ else _] => destruct b end); reflexivity.
  - left. cbn.
    repeat (match goal with |- context [if ?b then _ else _] => destruct b end); reflexivity.
Qed.

(** The result of the normalizer: the mapped reference, or the source made
    absolute. *)
Lemma norm_src_result (s : string) w r :
  fst (_norm_src (Some s) w) = Some r ->
  r <> ""
  /\ ((exists fid, flag_id_search s = Some fid
                   /\ id_to_path (current_mapping w) !! fid = Some r)
      \/ (fst (_local_gif_for_src (Some s) w) = None
          \/ fst (_local_gif_for_src (Some s) w) = Some "")
         /\ startswith s "data:" = false
         /\ r = (if startswith s "//" then "https:" +:+ s
                 else if startswith s "/" then "https://hamariweb.com" +:+ s
                 else s)).
Proof.
  unfold _norm_src. destruct (nonempty s) eqn:Hs; [|discriminate].
  unfold_state. destruct (_local_gif_for_src (Some s) w) as [loc w1] eqn:Hloc. cbn [fst].
  destruct (truthy loc) eqn:Ht.
  - cbn. intros ->. destruct r as [|c r']; [discriminate|]. split; [discriminate|]. left.
    unfold _local_gif_for_src in Hloc. rewrite Hs in Hloc.
    destruct (flag_id_search s) as [fid|]; [|discriminate]. exists fid. split; [reflexivity|].
    unfold_state. unfold current_mapping.
    destruct (_load_flags_mapping w) as [m w2]. cbn in *. congruence.
  - assert (Hnl : loc = None \/ loc = Some "").
    { destruct loc as [[|c l]|]; [now right|discriminate|now left]. }
    destruct (startswith s "data:") eqn:Hd; [discriminate|].
    destruct (startswith s "//") eqn:H2.
    + cbn. intros [= <-]. split; [discriminate|]. right. auto.
    + destruct (startswith s "/") eqn:H1.
      * cbn. intros [= <-]. split; [discriminate|]. right. auto.
      * cbn. intros [= <-]. split; [now apply nonempty_true|]. right. auto.
Qed.

Lemma norm_src_good src w :
  mapping_sound w -> good_opt (snd (_norm_src src w)) (fst (_norm_src src w)).
Proof.
  intros [Hlive _] r Hr.
  assert (Hfiles : files (snd (_norm_src src w)) = files w).
  { destruct (norm_src_world src w) as [->| ->]; [reflexivity|].
    now destruct (load_current w) as (_ & -> & _). }
  destruct src as [s|]; [|discriminate].
  destruct (norm_src_result s w r Hr) as (Hne & [(fid & _ & Hm)|(_ & _ & ->)]).
  - split; [exact Hne|]. right. rewrite Hfiles. now apply (Hlive fid).
  - split; [exact Hne|]. left.
    destruct (startswith s "//"); [reflexivity|].
    destruct (startswith s "/") eqn:H1; [reflexivity|exact H1].
Qed.

Lemma ensure_result_mapped fid name w r :
  is_flag_id fid = true ->
  fst (_ensure_flag_local fid name w) = Some r ->
  id_to_path (current_mapping (snd (_ensure_flag_local fid name w))) !! fid = Some r.
Proof.
  intros Hfid Hr.
  resolver_cases fid name w Hfid; rewrite Hrun in *; cbn [fst snd] in *;
    try discriminate; injection Hr as <-; cur_simpl; cbn [id_to_path]; auto.
  apply lookup_insert_eq.
Qed.

Lemma ensure_good fid name w :
  is_flag_id fid = true -> mapping_sound w ->
  good_opt (snd (_ensure_flag_local fid name w)) (fst (_ensure_flag_local fid name w)).
Proof.
  intros Hfid Hs r Hr.
  pose proof (ensure_result_mapped _ _ _ _ Hfid Hr) as Hm.
  destruct (ensure_sound fid name w Hfid Hs) as [Hlive _].
  destruct (Hlive _ _ Hm) as [Hne Hf]. split; [exact Hne|now right].
Qed.

Lemma team_image_good raw name w :
  mapping_sound w -> good_opt (snd (team_image raw name w)) (fst (team_image raw name w)).
Proof.
  intros Hs. unfold team_image. unfold_state.
  set (m := if truthy raw && nonempty name then _ else _).
  assert (Hm : mapping_sound (snd (m w)) /\ good_opt (snd (m w)) (fst (m w))).
  { unfold m. destruct (truthy raw && nonempty name); [|split; [exact Hs|apply good_opt_None]].
    destruct (flag_id_search (or_empty raw)) as [fid|] eqn:Hf;
      [|split; [exact Hs|apply good_opt_None]].
    pose proof (flag_id_search_is_flag_id _ _ Hf) as Hfid.
    split; [now apply ensure_sound|now apply ensure_good]. }
  destruct (m w) as [enriched w1]. cbn [fst snd] in Hm. destruct Hm as [Hs1 Hg1].
  destruct (truthy enriched); [exact Hg1|]. now apply norm_src_good.
Qed.

Lemma card_teams_good l w :
  mapping_sound w ->
  Forall (good_opt (snd (card_teams l w))) (snd (fst (card_teams l w))).
Proof.
  revert w. induction l as [|tn r IH]; intros w Hs; cbn [card_teams]; [constructor|].
  unfold_state.
  pose proof (team_image_good (card_team_raw_image tn) (card_team_name tn) w Hs) as Hg.
  pose proof (team_image_preserves mapping_sound ms_load ms_ensure
                (card_team_raw_image tn) (card_team_name tn) w Hs) as Hs1.
  destruct (team_image _ _ w) as [img w1]. cbn [fst snd] in Hg, Hs1.
  specialize (IH w1 Hs1).
  pose proof (card_teams_preserves (keeps_files w1) (kf_load w1) (kf_ensure w1) r w1
                (keeps_files_refl w1)) as Hk.
  destruct (card_teams r w1) as [[ts imgs] w2]. cbn [fst snd] in *.
  constructor; [now apply (good_opt_keeps w1)|exact IH].
Qed.

Lemma parse_match_update_good mu w :
  mapping_sound w ->
  forall r, fst (parse_match_update mu w) = Some r ->
            good_record (snd (parse_match_update mu w)) r.
Proof.
  intros Hs r. unfold parse_match_update. destruct (card_title_status mu) as [t st].
  unfold_state.
  pose proof (card_teams_good (card_team_nodes mu) w Hs) as Hg.
  pose proof (card_teams_preserves mapping_sound ms_load ms_ensure
                (card_team_nodes mu) w Hs) as Hs1.
  destruct (card_teams (card_team_nodes mu) w) as [[ts imgs] w1]. cbn [fst snd] in Hg, Hs1.
  set (pair := if bool_decide (2 < length ts) then (take 2 ts, take 2 imgs) else (ts, imgs)).
  assert (Hpair : Forall (good_opt w1) (snd pair)).
  { unfold pair. destruct (bool_decide _); cbn [snd]; [now apply Forall_take|exact Hg]. }
  destruct pair as [ts' imgs']. cbn [snd] in Hpair.
  set (href := match find _ mu with Some a => get_attr "href" a | None => None end).
  pose proof (norm_src_good href w1 Hs1) as Hl.
  pose proof (norm_src_preserves (keeps_files w1) (kf_load w1) href w1 (keeps_files_refl w1))
    as Hk.
  destruct (_norm_src href w1) as [lk w2]. cbn [fst snd] in Hl, Hk.
  destruct (negb _); cbn [fst snd]; [discriminate|]. intros [= <-].
  split; cbn [team_images link]; [now apply (good_opts_keeps w1)|exact Hl].
Qed.

Lemma collect_good {A : Type} (f : A -> State (option MatchRecord)) l w :
  (forall x, preserves mapping_sound (f x)) ->
  (forall x w0, preserves (keeps_files w0) (f x)) ->
  (forall x w1, mapping_sound w1 ->
                forall r, fst (f x w1) = Some r -> good_record (snd (f x w1)) r) ->
  mapping_sound w ->
  Forall (good_record (snd (collect f l w))) (fst (collect f l w)).
Proof.
  intros Hps Hpk Hf. revert w. induction l as [|x l IH]; intros w Hs; cbn [collect];
    [constructor|].
  unfold_state.
  pose proof (Hf x w Hs) as Hg. pose proof (Hps x w Hs) as Hs1.
  destruct (f x w) as [o w1]. cbn [fst snd] in Hg, Hs1.
  specialize (IH w1 Hs1).
  pose proof (collect_preserves (keeps_files w1) f l (fun y => Hpk y w1) w1
                (keeps_files_refl w1)) as Hk.
  destruct (collect f l w1) as [items w2]. cbn [fst snd] in *.
  destruct o as [it|]; [|exact IH].
  constructor; [|exact IH]. apply (good_record_keeps w1); [exact Hk|now apply Hg].
Qed.

Lemma table_teams_good l link w :
  mapping_sound w -> good_opt w link ->
  let res := fst (table_teams l link w) in
  let w1 := snd (table_teams l link w) in
  Forall (good_opt w1) (snd (fst res)) /\ good_opt w1 (snd res).
Proof.
  revert link w. induction l as [|a r IH]; intros link w Hs Hl; cbn [table_teams].
  - cbn. split; [constructor|exact Hl].
  - unfold_state.
    pose proof (team_image_good (table_team_raw_image a) (table_team_name a) w Hs) as Hg.
    pose proof (team_image_preserves mapping_sound ms_load ms_ensure
                  (table_team_raw_image a) (table_team_name a) w Hs) as Hs1.
    pose proof (team_image_preserves (keeps_files w) (kf_load w) (kf_ensure w)
                  (table_team_raw_image a) (table_team_name a) w (keeps_files_refl w)) as Hk1.
    destruct (team_image _ _ w) as [img w1]. cbn [fst snd] in Hg, Hs1, Hk1.
    set (m := if negb (truthy link) && truthy (get_attr "href" a) then _ else _).
    assert (Hm : mapping_sound (snd (m w1)) /\ keeps_files w1 (snd (m w1))
                 /\ good_opt (snd (m w1)) (fst (m w1))).
    { unfold m. destruct (negb (truthy link) && _).
      - split; [now apply (norm_src_preserves mapping_sound ms_load)|].
        split; [apply (norm_src_preserves (keeps_files w1) (kf_load w1)), keeps_files_refl|].
        now apply norm_src_good.
      - cbn. split; [exact Hs1|]. split; [apply keeps_files_refl|].
        now apply (good_opt_keeps w). }
    destruct (m w1) as [link' w2]. cbn [fst snd] in Hm. destruct Hm as (Hs2 & Hk2 & Hl2).
    specialize (IH link' w2 Hs2 Hl2). cbv zeta in IH.
    pose proof (table_teams_preserves (keeps_files w2) (kf_load w2) (kf_ensure w2) r link' w2
                  (keeps_files_refl w2)) as Hk3.
    destruct (table_teams r link' w2) as [[[ns imgs] l3] w3]. cbn [fst snd] in *.
    destruct IH as [IH1 IH2]. split; [|exact IH2].
    constructor; [|exact IH1].
    apply (good_opt_keeps w2); [exact Hk3|]. now apply (good_opt_keeps w1).
Qed.

Lemma parse_schedule_row_good tr w :
  mapping_sound w ->
  forall r, fst (parse_schedule_row tr w) = Some r ->
            good_record (snd (parse_schedule_row tr w)) r.
Proof.
  intros Hs r. unfold parse_schedule_row.
  destruct (find_all (has_tag "td") tr) as [|td0 rest]; [discriminate|].
  unfold_state.
  pose proof (table_teams_good (row_team_cells td0) None w Hs (good_opt_None w)) as Hg.
  cbv zeta in Hg.
  pose proof (table_teams_preserves mapping_sound ms_load ms_ensure
                (row_team_cells td0) None w Hs) as Hs1.
  destruct (table_teams (row_team_cells td0) None w) as [[[ns imgs] lk0] w1].
  cbn [fst snd] in Hg, Hs1. destruct Hg as [Hi Hl].
  set (m := if negb (truthy lk0) then _ else _).
  assert (Hm : keeps_files w1 (snd (m w1)) /\ good_opt (snd (m w1)) (fst (m w1))).
  { unfold m. destruct (negb (truthy lk0)); [|split; [apply keeps_files_refl|exact Hl]].
    destruct (find _ td0) as [sl|]; [|split; [apply keeps_files_refl|exact Hl]].
    split; [apply (norm_src_preserves (keeps_files w1) (kf_load w1)), keeps_files_refl|].
    now apply norm_src_good. }
  destruct (m w1) as [link' w2]. cbn [fst snd] in Hm. destruct Hm as [Hk Hl'].
  destruct (negb (keep_entry _ _ _)); cbn [fst snd]; [discriminate|]. intros [= <-].
  split; cbn [team_images link]; [now apply (good_opts_keeps w1)|exact Hl'].
Qed.

(** X11: the references of the entries can be used.  When every reference
    of the mapping names a file on disk that is not empty, every team image
    and every link of an entry the schedule extraction returns is not empty
    and, when it starts with a slash, names a file that is on disk and not
    empty once the extraction is done. *)
Theorem schedule_references_usable (doc : Node) (w : World) (r : MatchRecord) :
  mapping_sound w ->
  In r (fst (parse_schedules_html doc w)) ->
  good_record (snd (parse_schedules_html doc w)) r.
Proof.
  intros Hs. unfold parse_schedules_html. unfold_state.
  set (root := _find_content_root (soup_of doc)).
  pose proof (collect_good parse_match_update (find_all (has_class "match_update") (here root)) w
                (parse_match_update_preserves mapping_sound ms_load ms_ensure)
                (fun x w0 => parse_match_update_preserves (keeps_files w0) (kf_load w0)
                               (kf_ensure w0) x)
                (fun x w1 => parse_match_update_good x w1) Hs) as Hcards.
  pose proof (collect_preserves mapping_sound parse_match_update
                (find_all (has_class "match_update") (here root))
                (parse_match_update_preserves mapping_sound ms_load ms_ensure) w Hs) as Hs1.
  change (collect parse_match_update (find_all (has_class "match_update") (here root)))
    with (_parse_match_updates root) in Hcards, Hs1.
  destruct (_parse_match_updates root w) as [cards w1]. cbn [fst snd] in Hcards, Hs1.
  assert (Hrows : keeps_files w1 (snd (_parse_schedule_table root w1))
                  /\ Forall (good_record (snd (_parse_schedule_table root w1)))
                       (fst (_parse_schedule_table root w1))).
  { unfold _parse_schedule_table. destruct (schedule_table root) as [table|].
    - split.
      + apply (collect_preserves (keeps_files w1)); [|apply keeps_files_refl].
        intros x. apply (parse_schedule_row_preserves (keeps_files w1) (kf_load w1) (kf_ensure w1)).
      + apply collect_good; [| | |exact Hs1].
        * apply (parse_schedule_row_preserves mapping_sound ms_load ms_ensure).
        * intros x w0.
          apply (parse_schedule_row_preserves (keeps_files w0) (kf_load w0) (kf_ensure w0)).
        * intros x w2. apply parse_schedule_row_good.
    - cbn. split; [apply keeps_files_refl|constructor]. }
  destruct (_parse_schedule_table root w1) as [rows w2]. cbn [fst snd] in *.
  destruct Hrows as [Hk Hrows]. intros Hin.
  assert (Hall : Forall (good_record w2) (cards ++ rows)).
  { apply Forall_app. split; [|exact Hrows].
    eapply Forall_impl; [exact Hcards|]. intros x. now apply good_record_keeps. }
  rewrite Forall_forall in Hall. apply Hall.
  apply list_elem_of_In in Hin.
  eapply elem_of_sublist; [exact Hin|apply dedupe_sublist].
Qed.

(** ** The source normalizer *)

Lemma flag_id_search_https s : flag_id_search ("https:" +:+ s) = flag_id_search s.
Proof. reflexivity. Qed.

Lemma flag_id_search_site s :
  flag_id_search ("https://hamariweb.com" +:+ s) = flag_id_search s.
Proof. reflexivity. Qed.

Lemma norm_src_keeps src w :
  let w1 := snd (_norm_src src w) in
  files w1 = files w /\ mapping_file w1 = mapping_file w /\ remote w1 = remote w
  /\ current_mapping w1 = current_mapping w.
Proof.
  cbv zeta. destruct (norm_src_world src w) as [->| ->]; [auto|].
  destruct (load_current w) as (-> & -> & -> & -> & _). auto.
Qed.

(** X12: what the normalizer returns.  A result is never empty.  It is the
    reference the mapping holds for the identifier the source shows, or it
    is the source made absolute: the source does not start with [data:],
    and the result is the source after [https:] when the source starts
    with two slashes, the source after the origin [https://hamariweb.com]
    when it starts with one slash, and the source itself otherwise; such a
    result starts neither with a slash nor with [data:], and the
    normalizer returns it as it is when it is run on it again.  The
    normalizer only reads: the files, the mapping file, the server and the
    mapping are as before. *)
Theorem norm_src_absolute_and_stable (s : string) (w : World) (r : string) :
  fst (_norm_src (Some s) w) = Some r ->
  let w1 := snd (_norm_src (Some s) w) in
  r <> ""
  /\ (files w1 = files w /\ mapping_file w1 = mapping_file w /\ remote w1 = remote w
      /\ current_mapping w1 = current_mapping w)
  /\ ((exists fid, flag_id_search s = Some fid
                   /\ id_to_path (current_mapping w) !! fid = Some r)
      \/ ((forall fid p, flag_id_search s = Some fid ->
                         id_to_path (current_mapping w) !! fid = Some p -> p = "")
          /\ (forall t, s <> "data:" +:+ t)
          /\ ((exists t, s = "//" +:+ t /\ r = "https:" +:+ s)
              \/ (exists t, s = "/" +:+ t /\ (forall u, s <> "//" +:+ u)
                            /\ r = "https://hamariweb.com" +:+ s)
              \/ ((forall t, s <> "/" +:+ t) /\ r = s))
          /\ (forall t, r <> "/" +:+ t) /\ (forall t, r <> "data:" +:+ t)
          /\ fst (_norm_src (Some r) w1) = Some r)).
Proof.
  intros Hr w1. pose proof (norm_src_keeps (Some s) w) as Hk. cbv zeta in Hk. fold w1 in Hk.
  destruct (norm_src_result s w r Hr) as (Hne & Hcase).
  split; [exact Hne|]. split; [exact Hk|].
  destruct Hcase as [Hloc|(Hnl & Hd & Heq)]; [now left|right].
  assert (Hs : s <> "") by (intros ->; discriminate Hr).
  assert (Hsw : forall x p, startswith x p = false -> forall t, x <> p +:+ t).
  { intros x p Hx t ->. now rewrite startswith_app in Hx. }
  assert (Hshape : startswith r "/" = false /\ startswith r "//" = false
                   /\ startswith r "data:" = false
                   /\ flag_id_search r = flag_id_search s).
  { rewrite Heq. destruct (startswith s "//") eqn:H2; [repeat split|].
    destruct (startswith s "/") eqn:H1; [repeat split|].
    repeat split; auto. }
  destruct Hshape as (H1 & H2 & H3 & Hid).
  split.
  { intros fid p Hfid Hp. rewrite (local_gif_for_src_spec s w Hs), Hfid in Hnl.
    unfold current_mapping in Hp. rewrite Hp in Hnl.
    destruct Hnl as [Hnl|Hnl]; [discriminate Hnl|now injection Hnl]. }
  split; [now apply Hsw|]. split.
  { destruct (startswith s "//") eqn:Hss.
    - left. exists (drop_chars 2 s). split; [exact (prefix_split _ _ Hss)|exact Heq].
    - destruct (startswith s "/") eqn:Hs1.
      + right. left. exists (drop_chars 1 s).
        split; [exact (prefix_split _ _ Hs1)|]. split; [now apply Hsw|exact Heq].
      + right. right. split; [now apply Hsw|exact Heq]. }
  split; [now apply Hsw|]. split; [now apply Hsw|].
  assert (Hloc' : fst (_local_gif_for_src (Some r) w1) = fst (_local_gif_for_src (Some s) w)).
  { rewrite (local_gif_for_src_spec r w1 Hne), (local_gif_for_src_spec s w Hs), Hid.
    destruct Hk as (_ & _ & _ & Hcur). unfold current_mapping in Hcur. now rewrite Hcur. }
  unfold _norm_src. apply nonempty_true in Hne. rewrite Hne. unfold_state.
  destruct (_local_gif_for_src (Some r) w1) as [loc w2]. cbn [fst] in Hloc' |- *.
  assert (Ht : truthy loc = false) by (rewrite Hloc'; destruct Hnl as [-> | ->]; reflexivity).
  rewrite Ht, H3, H2, H1. reflexivity.
Qed.

(** ** The tables of a scorecard *)

Lemma fold_rows_inv {A : Type} (P : A -> Prop) (f : Node -> A -> option A) rows acc r :
  P acc -> (forall tr a a', P a -> f tr a = Some a' -> P a') ->
  fold_rows f rows acc = Some r -> P r.
Proof.
  intros Hacc Hstep. revert acc Hacc. induction rows as [|tr rows IH]; intros acc Hacc; simpl.
  - intros [= <-]. exact Hacc.
  - destruct (f tr acc) as [acc'|] eqn:Hf; [|discriminate]. simpl.
    apply IH. exact (Hstep _ _ _ Hacc Hf).
Qed.

Lemma text_trimmed el : strip (_text el) = _text el.
Proof. destruct el; [apply get_text_trimmed|reflexivity]. Qed.

Lemma rest_text_trimmed tds x : rest_text tds = Some x -> x <> "" /\ strip x = x.
Proof.
  unfold rest_text, or_none. destruct (nonempty _) eqn:Hn; [|discriminate].
  intros [= <-]. split; [now apply nonempty_true|apply strip_idem].
Qed.

Lemma batting_name_trimmed td0 : strip (batting_name td0) = batting_name td0.
Proof. unfold batting_name. destruct (nonempty _); apply text_trimmed. Qed.

(** One row of a batting table. *)
Lemma batting_row_step tr inn inn' :
  batting_row tr inn = Some inn' ->
  extras inn' = (if is_extras_row tr then rest_text (find_all (has_tag "td") tr)
                 else extras inn)
  /\ total inn' = (if is_total_row tr then rest_text (find_all (has_tag "td") tr)
                   else total inn)
  /\ note inn' = note inn /\ bowling inn' = bowling inn /\ team inn' = team inn
  /\ (batting inn' = batting inn
      \/ exists e, batting inn' = batting inn ++ [e] /\ player_entry e).
Proof.
  unfold is_extras_row, is_total_row, row_label.
  destruct (find_all (has_tag "td") tr) as [|td0 rest] eqn:Htds.
  - unfold batting_row. rewrite Htds. cbn. intros [= <-]. repeat split; auto.
  - rewrite (batting_row_spec tr inn td0 rest Htds). cbv zeta.
    change (_text (Some td0)) with (get_text " " td0).
    set (label := lower (get_text " " td0)).
    destruct (startswith label "extras") eqn:He.
    + assert (Ht : startswith label "total" = false)
        by (apply (startswith_other_head _ _ _ _ _ He); discriminate).
      rewrite Ht. intros [= <-]. cbn. repeat split; auto.
    + destruct (startswith label "total") eqn:Ht.
      * intros [= <-]. cbn. repeat split; auto.
      * destruct (nonempty (batting_name td0) && _ && _) eqn:Hc.
        -- intros [= <-]. cbn. repeat split; auto. right. eexists. split; [reflexivity|].
           apply andb_true_iff in Hc as [Hc _]. apply andb_true_iff in Hc as [Hn Hs].
           unfold player_entry. cbn [bat_name dismissal runs balls fours sixes sr].
           split; [now apply nonempty_true|]. split; [apply batting_name_trimmed|].
           split.
           { intros x Hx. apply or_none_nonempty in Hx. now apply nonempty_true. }
           apply existsb_exists in Hs as (s & Hin & Hs). apply Exists_exists.
           exists s. split; [now apply list_elem_of_In|].
           destruct s as [x|]; [|discriminate]. exists x. split; [reflexivity|].
           now apply nonempty_true.
        -- intros [= <-]. repeat split; auto.
Qed.

Lemma batting_fold rows acc r :
  fold_rows batting_row rows acc = Some r ->
  extras r = match last (filter (fun tr => is_extras_row tr) rows) with
             | Some tr => rest_text (find_all (has_tag "td") tr)
             | None => extras acc
             end
  /\ total r = match last (filter (fun tr => is_total_row tr) rows) with
               | Some tr => rest_text (find_all (has_tag "td") tr)
               | None => total acc
               end
  /\ note r = note acc /\ bowling r = bowling acc /\ team r = team acc
  /\ exists new, batting r = batting acc ++ new /\ length new <= length rows
                 /\ Forall player_entry new.
Proof.
  revert acc. induction rows as [|tr rows IH]; intros acc; simpl.
  - intros [= <-]. repeat split; auto. exists []. rewrite app_nil_r. repeat split; auto.
  - destruct (batting_row tr acc) as [acc'|] eqn:Hrow; [|discriminate]. simpl. intros Hr.
    destruct (batting_row_step _ _ _ Hrow) as (He & Ht & Hn & Hb & Htm & Hbat).
    destruct (IH _ Hr) as (IHe & IHt & IHn & IHb & IHtm & new & IHbat & IHlen & IHall).
    rewrite !filter_cons.
    split; [|split; [|split; [congruence|split; [congruence|split; [congruence|]]]]].
    + rewrite IHe, He. destruct (is_extras_row tr); simpl.
      * rewrite last_cons.
        now destruct (last (filter (fun tr0 : Node => is_extras_row tr0) rows)).
      * reflexivity.
    + rewrite IHt, Ht. destruct (is_total_row tr); simpl.
      * rewrite last_cons.
        now destruct (last (filter (fun tr0 : Node => is_total_row tr0) rows)).
      * reflexivity.
    + destruct Hbat as [Hsame|(e & Hadd & Hpe)].
      * exists new. rewrite IHbat, Hsame. repeat split; auto.
      * exists (e :: new). rewrite IHbat, Hadd, <- app_assoc. repeat split; simpl; auto.
        lia.
Qed.

(** X13: what a batting table gives.  [_parse_batting_table] returns an
    innings for every table.  Each of its player entries has a name that is
    not empty and carries no white space around it, a dismissal that is not
    empty when there is one, and a figure that is not empty; there are no
    more entries than rows.  The extras are those of the last row whose
    label starts with "extras", the total those of the last row whose label
    starts with "total", each absent without such a row; a text given is
    stripped and not empty.  The note, the bowling list and the team are
    left unset. *)
Theorem batting_table_entries (table : Node) :
  let rows := find_all (has_tag "tr") (tbody_of table) in
  exists inn,
    _parse_batting_table table = Some inn
    /\ Forall player_entry (batting inn)
    /\ length (batting inn) <= length rows
    /\ extras inn = match last (filter (fun tr => is_extras_row tr) rows) with
                    | Some tr => rest_text (find_all (has_tag "td") tr)
                    | None => None
                    end
    /\ total inn = match last (filter (fun tr => is_total_row tr) rows) with
                   | Some tr => rest_text (find_all (has_tag "td") tr)
                   | None => None
                   end
    /\ (forall x, extras inn = Some x \/ total inn = Some x -> x <> "" /\ strip x = x)
    /\ note inn = None /\ bowling inn = None /\ team inn = None.
Proof.
  intros rows. destruct (parse_batting_table_total table) as [inn Hinn].
  exists inn. split; [exact Hinn|].
  unfold _parse_batting_table in Hinn. fold rows in Hinn.
  destruct (batting_fold _ _ _ Hinn) as (He & Ht & Hn & Hb & Htm & new & Hbat & Hlen & Hall).
  cbn in Hbat. subst new.
  split; [exact Hall|]. split; [exact Hlen|]. split; [exact He|]. split; [exact Ht|].
  split; [|auto].
  intros x [Hx|Hx]; [rewrite He in Hx|rewrite Ht in Hx];
    (match type of Hx with
     | match ?l with _ => _ end = _ => destruct l as [tr|]; [|discriminate Hx]
     end);
    now apply rest_text_trimmed in Hx.
Qed.

Lemma bowling_row_step tr bowlers :
  bowling_row tr bowlers
  = Some (if is_bowler_row tr
          then bowlers ++ [mkBowling (_text (find_all (has_tag "td") tr !! 0))
                             (_text (find_all (has_tag "td") tr !! 1))
                             (_text (find_all (has_tag "td") tr !! 2))
                             (_text (find_all (has_tag "td") tr !! 3))
                             (_text (find_all (has_tag "td") tr !! 4))
                             (_text (find_all (has_tag "td") tr !! 5))]
          else bowlers).
Proof.
  unfold bowling_row, is_bowler_row. set (tds := find_all (has_tag "td") tr).
  destruct tds as [|td0 [|td1 [|td2 [|td3 [|td4 [|td5 rest]]]]]]; try reflexivity.
  rewrite (bool_decide_false (length _ = 0)) by (simpl; lia).
  rewrite (bool_decide_false (length _ < 6)) by (simpl; lia).
  rewrite (bool_decide_true (6 <= length _)) by (simpl; lia).
  cbn. destruct (nonempty (get_text " " td0)); reflexivity.
Qed.

Lemma bowling_fold rows acc :
  exists new,
    fold_rows bowling_row rows acc = Some (acc ++ new)
    /\ length new = length (filter (fun tr => is_bowler_row tr) rows)
    /\ Forall (fun e => bowl_name e <> ""
                        /\ Forall (fun t => strip t = t)
                             [bowl_name e; bowl_ov e; bowl_m e; bowl_r e; bowl_w e; bowl_econ e])
         new.
Proof.
  revert acc. induction rows as [|tr rows IH]; intros acc; simpl.
  - exists []. rewrite app_nil_r. repeat split; auto.
  - rewrite bowling_row_step. simpl. rewrite filter_cons.
    destruct (is_bowler_row tr) eqn:Hb; simpl.
    + destruct (IH (acc ++ [mkBowling (_text (find_all (has_tag "td") tr !! 0))
                              (_text (find_all (has_tag "td") tr !! 1))
                              (_text (find_all (has_tag "td") tr !! 2))
                              (_text (find_all (has_tag "td") tr !! 3))
                              (_text (find_all (has_tag "td") tr !! 4))
                              (_text (find_all (has_tag "td") tr !! 5))]))
        as (new & Hf & Hlen & Hall).
      eexists (_ :: new). rewrite Hf, <- app_assoc. split; [reflexivity|].
      split; [simpl; now rewrite Hlen|].
      constructor; [|exact Hall]. cbn. split.
      * unfold is_bowler_row in Hb. apply andb_true_iff in Hb as [_ Hb].
        apply nonempty_true. now destruct (find_all (has_tag "td") tr).
      * repeat constructor; apply text_trimmed.
    + exact (IH acc).
Qed.

(** X14: what a bowling table gives.  [_parse_bowling_table] returns a
    list for every table: one entry for each row with six cells or more
    whose first cell has text, so a heading row and a short row give
    nothing; every entry has a name that is not empty, and no text of an
    entry has white space around it. *)
Theorem bowling_table_entries (table : Node) :
  let rows := find_all (has_tag "tr") (tbody_of table) in
  exists l,
    _parse_bowling_table table = Some l
    /\ length l = length (filter (fun tr => is_bowler_row tr) rows)
    /\ length l <= length rows
    /\ Forall (fun e => bowl_name e <> ""
                        /\ Forall (fun t => strip t = t)
                             [bowl_name e; bowl_ov e; bowl_m e; bowl_r e; bowl_w e; bowl_econ e])
         l.
Proof.
  intros rows. destruct (bowling_fold rows []) as (new & Hf & Hlen & Hall).
  exists new. split; [exact Hf|]. split; [exact Hlen|]. split; [|exact Hall].
  rewrite Hlen. apply length_filter.
Qed.

(** ** The innings of a scorecard *)

Lemma build_innings_nth idx bats bowls (tms : list string) inns :
  build_innings idx bats bowls tms = Some inns ->
  forall i inn, inns !! i = Some inn ->
    exists bt b0,
      bats !! i = Some bt /\ _parse_batting_table bt = Some b0
      /\ batting inn = batting b0 /\ extras inn = extras b0 /\ total inn = total b0
      /\ note inn = note b0
      /\ bowling inn = match bowls !! (idx + i) with
                       | Some b => _parse_bowling_table b
                       | None => None
                       end
      /\ team inn = match tms with
                    | [] => None
                    | _ => tms !! ((idx + i) mod length tms)
                    end.
Proof.
  revert idx inns. induction bats as [|bt bats IH]; intros idx inns; simpl.
  - intros [= <-] i inn Hi. discriminate.
  - destruct (_parse_batting_table bt) as [b0|] eqn:Hb0; [|discriminate]. simpl.
    pose proof (batting_fold _ _ _ Hb0) as (_ & _ & _ & Hbw & Htm & _). cbn in Hbw, Htm.
    destruct (bool_decide (idx < length bowls)) eqn:Hlt.
    + apply bool_decide_eq_true in Hlt.
      destruct (lookup_lt_is_Some_2 bowls idx Hlt) as [b Hb]. rewrite Hb. simpl.
      destruct (_parse_bowling_table b) as [bl|] eqn:Hbl; [|discriminate]. simpl.
      destruct (bool_decide (tms ≠ [])) eqn:Ht.
      * apply bool_decide_eq_true in Ht.
        destruct (bool_decide (length tms = 0)); [discriminate|].
        destruct (tms !! (idx mod length tms)) as [t|] eqn:Hteam; [|discriminate]. simpl.
        destruct (build_innings (S idx) bats bowls tms) as [rest|] eqn:Hrest; [|discriminate].
        simpl. intros [= <-] i inn Hi. destruct i as [|i].
        -- injection Hi as <-. exists bt, b0. rewrite Nat.add_0_r, Hb, Hbl, Hteam. cbn.
           repeat split; auto. now destruct tms.
        -- simpl in Hi. destruct (IH _ _ Hrest i inn Hi) as (bt' & b0' & H).
           exists bt', b0'. replace (idx + S i) with (S idx + i) by lia. exact H.
      * apply bool_decide_eq_false in Ht. assert (tms = []) as ->.
        { destruct tms; [reflexivity|exfalso; apply Ht; discriminate]. }
        simpl.
        destruct (build_innings (S idx) bats bowls []) as [rest|] eqn:Hrest; [|discriminate].
        simpl. intros [= <-] i inn Hi. destruct i as [|i].
        -- injection Hi as <-. exists bt, b0. rewrite Nat.add_0_r, Hb, Hbl. cbn.
           repeat split; auto.
        -- simpl in Hi. destruct (IH _ _ Hrest i inn Hi) as (bt' & b0' & H).
           exists bt', b0'. replace (idx + S i) with (S idx + i) by lia. exact H.
    + apply bool_decide_eq_false in Hlt.
      assert (Hnone : bowls !! idx = None) by (apply lookup_ge_None; lia).
      simpl.
      destruct (bool_decide (tms ≠ [])) eqn:Ht.
      * apply bool_decide_eq_true in Ht.
        destruct (bool_decide (length tms = 0)); [discriminate|].
        destruct (tms !! (idx mod length tms)) as [t|] eqn:Hteam; [|discriminate]. simpl.
        destruct (build_innings (S idx) bats bowls tms) as [rest|] eqn:Hrest; [|discriminate].
        simpl. intros [= <-] i inn Hi. destruct i as [|i].
        -- injection Hi as <-. exists bt, b0. rewrite Nat.add_0_r, Hnone, Hteam. cbn.
           repeat split; auto. now destruct tms.
        -- simpl in Hi. destruct (IH _ _ Hrest i inn Hi) as (bt' & b0' & H).
           exists bt', b0'. replace (idx + S i) with (S idx + i) by lia. exact H.
      * apply bool_decide_eq_false in Ht. assert (tms = []) as ->.
        { destruct tms; [reflexivity|exfalso; apply Ht; discriminate]. }
        simpl.
        destruct (build_innings (S idx) bats bowls []) as [rest|] eqn:Hrest; [|discriminate].
        simpl. intros [= <-] i inn Hi. destruct i as [|i].
        -- injection Hi as <-. exists bt, b0. rewrite Nat.add_0_r, Hnone. cbn.
           repeat split; auto.
        -- simpl in Hi. destruct (IH _ _ Hrest i inn Hi) as (bt' & b0' & H).
           exists bt', b0'. replace (idx + S i) with (S idx + i) by lia. exact H.
Qed.

(** X15: how the innings of a scorecard are put together.  The i-th
    innings holds the players, extras and total of the i-th batting table;
    its bowling list is that of the i-th bowling table, and is absent when
    there are fewer bowling tables; its team is the team at position i
    modulo the number of teams, so with two teams the innings alternate
    between them, and is absent when no teams were found. *)
Theorem innings_pair_tables_and_teams (doc : Node) :
  let tables := find_all (has_tag "table") doc in
  let bats := filter (fun t => is_batting_table t) tables in
  let bowls := filter (fun t => is_bowling_table t) tables in
  exists res,
    parse_scorecard_html doc = Some res
    /\ forall i inn, innings res !! i = Some inn ->
         exists bt b0,
           bats !! i = Some bt /\ _parse_batting_table bt = Some b0
           /\ batting inn = batting b0 /\ extras inn = extras b0 /\ total inn = total b0
           /\ bowling inn = match bowls !! i with
                            | Some b => _parse_bowling_table b
                            | None => None
                            end
           /\ (bowling inn = None <-> bowling_count res <= i)
           /\ team inn = match sc_teams res with
                         | [] => None
                         | _ => sc_teams res !! (i mod length (sc_teams res))
                         end.
Proof.
  intros tables bats bowls. unfold parse_scorecard_html.
  destruct (extract_title_and_teams_total (soup_of doc)) as (ttl & tms & -> & _). simpl.
  fold tables. fold bats. fold bowls.
  destruct (build_innings_total 0 bats bowls tms) as (inns & Hinns & _). rewrite Hinns. simpl.
  destruct (parse_match_info_total (soup_of doc)) as [inf ->]. simpl.
  eexists. split; [reflexivity|]. cbn [innings sc_teams bowling_count].
  intros i inn Hi.
  destruct (build_innings_nth _ _ _ _ _ Hinns i inn Hi)
    as (bt & b0 & Hbt & Hb0 & Hbat & Hex & Htot & _ & Hbowl & Hteam).
  simpl in Hbowl, Hteam. exists bt, b0. repeat split; auto.
  - rewrite Hbowl. intros Hnone. destruct (bowls !! i) as [b|] eqn:Hb.
    + destruct (parse_bowling_table_total b) as [l Hl]. congruence.
    + now apply lookup_ge_None in Hb.
  - intros Hge. rewrite Hbowl. now rewrite (proj2 (lookup_ge_None bowls i) Hge).
Qed.

(** ** The classification of the tables *)

Lemma filter_disjoint_length {A : Type} (p q : A -> bool) (l : list A) :
  (forall x, p x = true -> q x = false) ->
  length (filter (fun x => p x) l) + length (filter (fun x => q x) l) <= length l.
Proof.
  intros Hpq. induction l as [|x l IH]; [reflexivity|]. rewrite !filter_cons.
  destruct (p x) eqn:Hp; simpl.
  - rewrite (Hpq x Hp). simpl. lia.
  - destruct (q x); simpl; lia.
Qed.

(** X16: how the tables of a scorecard are sorted.  A table is a batting
    table when the text of its head holds "batting" in any case, which is
    what [_has_th_with_text] tells for that keyword; it is a bowling table
    when the head holds "bowling" and not "batting".  No table is both, a
    table without a head is neither, [_has_th_with_text] does not see the
    case of its keyword, and the two counts of the result together do not
    exceed the number of tables of the document. *)
Theorem scorecard_tables_sorted (doc : Node) :
  (forall t,
      is_batting_table t = _has_th_with_text t "batting"
      /\ is_bowling_table t
         = negb (_has_th_with_text t "batting") && _has_th_with_text t "bowling"
      /\ is_batting_table t && is_bowling_table t = false
      /\ (find (has_tag "thead") t = None ->
          is_batting_table t = false /\ is_bowling_table t = false)
      /\ (forall kw, _has_th_with_text t (lower kw) = _has_th_with_text t kw))
  /\ exists res,
       parse_scorecard_html doc = Some res
       /\ batting_count res + bowling_count res <= length (find_all (has_tag "table") doc).
Proof.
  split.
  - intros t. unfold is_batting_table, is_bowling_table, table_head, _has_th_with_text.
    destruct (find (has_tag "thead") t) as [th|]; cbn [option_map].
    + change (lower "batting") with "batting". change (lower "bowling") with "bowling".
      repeat split; auto.
      * destruct (contains "batting" _); reflexivity.
      * discriminate.
      * discriminate.
      * intros kw. now rewrite lower_idem.
    + repeat split; auto.
  - unfold parse_scorecard_html.
    destruct (extract_title_and_teams_total (soup_of doc)) as (ttl & tms & -> & _). simpl.
    destruct (build_innings_total 0
                (filter (fun t => is_batting_table t) (find_all (has_tag "table") doc))
                (filter (fun t => is_bowling_table t) (find_all (has_tag "table") doc))
                tms) as (inns & -> & _). simpl.
    destruct (parse_match_info_total (soup_of doc)) as [inf ->]. simpl.
    eexists. split; [reflexivity|]. cbn [batting_count bowling_count].
    apply filter_disjoint_length. intros t. unfold is_batting_table, is_bowling_table.
    destruct (table_head t); [|discriminate]. now intros ->.
Qed.

(** ** The title and the teams of a scorecard *)

Lemma split_once_spec sep s l r :
  sep <> "" -> split_once sep s = Some (l, r) ->
  s = l +:+ sep +:+ r /\ contains sep l = false.
Proof.
  intros Hsep. revert l r. induction s as [|c t IH]; intros l r.
  - cbn [split_once]. destruct (startswith "" sep) eqn:Hp; [|discriminate].
    intros [= <- <-]. exfalso. destruct sep; [congruence|discriminate Hp].
  - change (split_once sep (String c t))
      with (if startswith (String c t) sep
            then Some ("", drop_chars (String.length sep) (String c t))
            else match split_once sep t with
                 | Some (l, r) => Some (String c l, r)
                 | None => None
                 end).
    destruct (startswith (String c t) sep) eqn:Hp.
    + intros [= <- <-]. split; [exact (prefix_split _ _ Hp)|now apply contains_empty].
    + destruct (split_once sep t) as [[l' r']|] eqn:Hs; [|discriminate].
      intros [= <- <-]. destruct (IH _ _ eq_refl) as [Ht Hc]. split.
      * rewrite append_cons. now f_equal.
      * rewrite contains_cons, Hc, orb_false_r.
        destruct (startswith (String c l') sep) eqn:Hq; [|reflexivity].
        pose proof (prefix_app sep (String c l') (sep +:+ r') Hq) as Hq'.
        rewrite append_cons, <- Ht in Hq'. unfold startswith in Hp. congruence.
Qed.

Lemma all_chars_lstrip q p s : all_chars q s = true -> all_chars q (lstrip_with p s) = true.
Proof.
  induction s as [|c t IH]; [auto|]. cbn [lstrip_with all_chars]. intros H.
  destruct (p c); [|exact H]. apply andb_true_iff in H as [_ H]. auto.
Qed.

Lemma all_chars_rstrip q p s : all_chars q s = true -> all_chars q (rstrip_with p s) = true.
Proof.
  induction s as [|c t IH]; [auto|]. cbn [rstrip_with all_chars]. intros H.
  apply andb_true_iff in H as [Hc Ht]. specialize (IH Ht).
  destruct (rstrip_with p t) as [|d r].
  - destruct (p c); [reflexivity|]. cbn. now rewrite Hc.
  - cbn [all_chars] in *. now rewrite Hc, IH.
Qed.

Lemma before_comma_spec s :
  all_chars not_comma (before_comma s) = true
  /\ (s = before_comma s \/ exists rest, s = before_comma s +:+ "," +:+ rest).
Proof.
  unfold before_comma. induction s as [|c t IH].
  - cbn. auto.
  - change (split_once "," (String c t))
      with (if startswith (String c t) ","
            then Some ("", drop_chars 1 (String c t))
            else match split_once "," t with
                 | Some (l, r) => Some (String c l, r)
                 | None => None
                 end).
    rewrite startswith_char. destruct (Ascii.ascii_dec "," c) as [<-|Hc].
    + split; [reflexivity|]. right. exists t. reflexivity.
    + assert (Hnc : not_comma c = true).
      { unfold not_comma. destruct (char_is "," c) eqn:E; [|reflexivity].
        apply char_is_eq in E. congruence. }
      destruct (split_once "," t) as [[l r]|].
      * destruct IH as [Hl Hs]. split; [cbn [all_chars]; now rewrite Hnc, Hl|].
        destruct Hs as [Hs|(rest & Hs)]; [left|right; exists rest];
          rewrite append_cons || idtac; now f_equal.
      * destruct IH as [Hl _]. split; [cbn [all_chars]; now rewrite Hnc, Hl|now left].
Qed.

(** X17: the title and the teams of a scorecard.  The title is the text of
    the [title] element, absent when that text is empty.  The teams are
    none or two.  They are two exactly when the title holds [" VS "] and
    both names are not empty: the title is then [l], [" VS "] and [rp],
    where [l] holds no [" VS "]; the first team is [l] stripped and the
    second is the part of [rp] before its first comma, stripped, so it
    holds no comma; neither name has white space around it. *)
Theorem scorecard_title_and_teams (soup : Cursor) :
  let text := _text (find (has_tag "title") (here soup)) in
  exists tms,
    _extract_title_and_teams soup = Some (or_none text, tms)
    /\ (tms = []
        \/ exists l rp,
             text = l +:+ " VS " +:+ rp
             /\ contains " VS " l = false
             /\ tms = [strip l; strip (before_comma rp)]
             /\ strip l <> "" /\ strip (before_comma rp) <> ""
             /\ all_chars not_comma (strip (before_comma rp)) = true
             /\ (rp = before_comma rp \/ exists rest, rp = before_comma rp +:+ "," +:+ rest))
    /\ (contains " VS " text = false -> tms = [])
    /\ Forall (fun t => t <> "" /\ strip t = t) tms.
Proof.
  intros text. unfold _extract_title_and_teams. fold text.
  assert (Hor : or_empty (or_none text) = text).
  { unfold or_none. destruct text; reflexivity. }
  rewrite Hor.
  destruct (truthy (or_none text) && contains " VS " text) eqn:Hc.
  - apply andb_true_iff in Hc as [_ Hc].
    destruct (split_once_total _ _ Hc) as [[l rp] Hs]. rewrite Hs. simpl.
    assert (Hsep : " VS " <> "") by discriminate.
    destruct (split_once_spec _ _ _ _ Hsep Hs) as [Htext Hl].
    destruct (before_comma_spec rp) as [Hnc Hrp].
    destruct (nonempty (strip l) && nonempty (strip (before_comma rp))) eqn:Hn.
    + apply andb_true_iff in Hn as [Hn1 Hn2]. apply nonempty_true in Hn1, Hn2.
      eexists. split; [reflexivity|]. split; [|split; [congruence|]].
      * right. exists l, rp. repeat split; auto.
        unfold strip, strip_with. now apply all_chars_rstrip, all_chars_lstrip.
      * repeat constructor; auto; apply strip_idem.
    + eexists. split; [reflexivity|]. repeat split; auto.
  - eexists. split; [reflexivity|]. repeat split; auto.
Qed.

(** ** The match information *)

Lemma info_row_step tr acc :
  info_row tr acc
  = Some (if nonempty (_text (find (has_tag "th") tr))
             && nonempty (_text (find (has_tag "td") tr))
          then <[_text (find (has_tag "th") tr) := _text (find (has_tag "td") tr)]> acc
          else acc).
Proof. unfold info_row. now destruct (_ && _). Qed.

(** What the loop over the rows of the information table collects: for a
    key, the value of the last row that holds the key and a value. *)
Lemma info_fold_last rows : forall acc,
  exists info,
    fold_rows info_row rows acc = Some info
    /\ forall k v,
         info !! k = Some v <->
         (exists before tr after,
             rows = before ++ tr :: after
             /\ k = _text (find (has_tag "th") tr) /\ v = _text (find (has_tag "td") tr)
             /\ k <> "" /\ v <> ""
             /\ Forall (fun tr' => k = _text (find (has_tag "th") tr') ->
                                   _text (find (has_tag "td") tr') = "") after)
         \/ (acc !! k = Some v
             /\ Forall (fun tr' => k = _text (find (has_tag "th") tr') -> k <> "" ->
                                   _text (find (has_tag "td") tr') = "") rows).
Proof.
  induction rows as [|tr rows IH]; intros acc.
  - exists acc. split; [reflexivity|]. intros k v. split.
    + intros H. right. split; [exact H|constructor].
    + intros [(before & tr & after & Hr & _)|[H _]]; [|exact H].
      destruct before; discriminate Hr.
  - cbn [fold_rows]. rewrite info_row_step. cbn [mbind option_bind].
    set (key := _text (find (has_tag "th") tr)). set (val := _text (find (has_tag "td") tr)).
    destruct (IH (if nonempty key && nonempty val then <[key := val]> acc else acc))
      as (info & Hfold & Hinfo).
    exists info. split; [exact Hfold|]. intros k v. rewrite Hinfo. split.
    + intros [(before & tr' & after & Hr & Hk & Hv & Hkn & Hvn & Hlast)|[Hacc Hnone]].
      * left. exists (tr :: before), tr', after. rewrite Hr. repeat split; auto.
      * destruct (nonempty key && nonempty val) eqn:Hc.
        -- apply andb_true_iff in Hc as [Hkc Hvc]. apply nonempty_true in Hkc, Hvc.
           destruct (decide (k = key)) as [->|Hne].
           ++ rewrite lookup_insert_eq in Hacc. injection Hacc as <-.
              left. exists [], tr, rows. repeat split; auto.
              eapply Forall_impl; [exact Hnone|]. cbv beta. intros tr' Htr' Hk'. auto.
           ++ rewrite lookup_insert_ne in Hacc by congruence.
              right. split; [exact Hacc|]. constructor; [|exact Hnone].
              intros Hk. now exfalso.
        -- right. split; [exact Hacc|]. constructor; [|exact Hnone].
           intros Hk Hkn. fold key in Hk. fold val. subst k.
           apply nonempty_true in Hkn. rewrite Hkn in Hc.
           cbn in Hc. destruct val; [reflexivity|discriminate Hc].
    + intros [(before & tr' & after & Hr & Hk & Hv & Hkn & Hvn & Hlast)|[Hacc Hnone]].
      * destruct before as [|b before]; cbn in Hr; injection Hr as <- Hr.
        -- right. fold key in Hk. fold val in Hv. subst k v after.
           apply nonempty_true in Hkn, Hvn. rewrite Hkn, Hvn. cbn [andb].
           split; [apply lookup_insert_eq|].
           eapply Forall_impl; [exact Hlast|]. cbv beta. auto.
        -- left. exists before, tr', after. repeat split; auto.
      * right. apply Forall_cons in Hnone as [Htr Hnone]. split; [|exact Hnone].
        destruct (nonempty key && nonempty val) eqn:Hc; [|exact Hacc].
        apply andb_true_iff in Hc as [Hkc Hvc]. apply nonempty_true in Hkc, Hvc.
        rewrite lookup_insert_ne; [exact Hacc|]. intros <-.
        apply Hvc, Htr; [reflexivity|exact Hkc].
Qed.

(** X18: the match information of a scorecard.  [_parse_match_info]
    returns a dictionary for every document.  It reads one table: the
    table of the first [table-responsive] wrapper after the parent of the
    first section title that reads "match information", and when there is
    no such title, wrapper or table, the first table of the document.
    Without a table the dictionary is empty.  Otherwise the dictionary
    holds, for every key, the value of the last row of the table with that
    key: the key is the text of the first header cell of the row and the
    value the text of its first data cell, and a row counts when neither is
    empty. *)
Theorem match_info_pairs (soup : Cursor) :
  let titled :=
    head (filter (fun d => contains "match information" (lower (_text (Some (here d)))))
                 (section_titles soup)) in
  let first_table := find (has_tag "table") (here soup) in
  let is_wrapper := fun n => has_tag "div" n && class_contains "table-responsive" n in
  exists info table,
    _parse_match_info soup = Some info
    /\ match titled with
       | None => table = first_table
       | Some d =>
           exists parent,
             find_parent d = Some parent
             /\ table = match find_next is_wrapper parent with
                        | Some wrap =>
                            match find (has_tag "table") wrap with
                            | Some t => Some t
                            | None => first_table
                            end
                        | None => first_table
                        end
       end
    /\ (table = None -> info = ∅)
    /\ (forall t, table = Some t ->
          forall k v,
            info !! k = Some v <->
            exists before tr after,
              find_all (has_tag "tr") t = before ++ tr :: after
              /\ k = _text (find (has_tag "th") tr) /\ v = _text (find (has_tag "td") tr)
              /\ k <> "" /\ v <> ""
              /\ Forall (fun tr' => k = _text (find (has_tag "th") tr') ->
                                    _text (find (has_tag "td") tr') = "") after).
Proof.
  intros titled first_table is_wrapper.
  assert (Hrows : forall tb : option Node,
             exists info,
               match tb with
               | None => Some ∅
               | Some t => fold_rows info_row (find_all (has_tag "tr") t) ∅
               end = Some info
               /\ (tb = None -> info = ∅)
               /\ (forall t, tb = Some t ->
                     forall k v,
                       info !! k = Some v <->
                       exists before tr after,
                         find_all (has_tag "tr") t = before ++ tr :: after
                         /\ k = _text (find (has_tag "th") tr)
                         /\ v = _text (find (has_tag "td") tr)
                         /\ k <> "" /\ v <> ""
                         /\ Forall (fun tr' => k = _text (find (has_tag "th") tr') ->
                                               _text (find (has_tag "td") tr') = "") after)).
  { intros [t|].
    - destruct (info_fold_last (find_all (has_tag "tr") t) ∅) as (info & Hf & Hi).
      exists info. split; [exact Hf|]. split; [discriminate|].
      intros t' [= <-] k v. rewrite Hi. split; [|now left].
      intros [H|[H _]]; [exact H|]. rewrite lookup_empty in H. discriminate H.
    - exists ∅. split; [reflexivity|]. split; [reflexivity|]. discriminate. }
  unfold _parse_match_info. fold titled. fold first_table.
  assert (Hsub : forall d, titled = Some d -> In d (section_titles soup)).
  { intros d Hd. apply head_Some_elem_of in Hd. unfold titled in Hd.
    apply list_elem_of_filter in Hd as [_ Hd]. now apply list_elem_of_In. }
  destruct titled as [d|].
  - destruct (section_title_has_parent soup d (Hsub d eq_refl)) as [parent Hpar].
    rewrite Hpar. cbn [mbind option_bind].
    fold is_wrapper.
    set (tb := match find_next is_wrapper parent with
               | Some wrap => match find (has_tag "table") wrap with
                              | Some t => Some t
                              | None => first_table
                              end
               | None => first_table
               end).
    destruct (Hrows tb) as (info & Hf & Hrest).
    exists info, tb. split.
    + rewrite <- Hf. unfold tb.
      destruct (find_next is_wrapper parent) as [wrap|]; cbn [mbind option_bind];
        [destruct (find (has_tag "table") wrap)|]; reflexivity.
    + split; [exists parent; auto|exact Hrest].
  - cbn [mbind option_bind]. destruct (Hrows first_table) as (info & Hf & Hrest).
    exists info, first_table. split; [exact Hf|]. split; [reflexivity|exact Hrest].
Qed.

(** ** The download script *)

Lemma assoc_app k (a b : Dict) :
  assoc k (a ++ b) = match assoc k a with Some v => Some v | None => assoc k b end.
Proof.
  induction a as [|[k' v'] a IH]; [reflexivity|]. cbn [app assoc].
  destruct (String.eqb k k'); [reflexivity|exact IH].
Qed.

Lemma dict_has_In k (d : Dict) : dict_has k d = true <-> In k (map fst d).
Proof.
  unfold dict_has. induction d as [|[k' v'] d IH]; cbn [assoc map fst In].
  - split; [discriminate|tauto].
  - destruct (String.eqb_spec k k') as [->|Hne].
    + split; auto.
    + rewrite IH. split; [auto|]. intros [Heq|Hin]; [congruence|exact Hin].
Qed.

Lemma assoc_In k v (d : Dict) : assoc k d = Some v -> In (k, v) d.
Proof.
  induction d as [|[k' v'] d IH]; cbn [assoc In]; [discriminate|].
  destruct (String.eqb_spec k k') as [->|Hne]; [intros [= ->]; now left|auto].
Qed.

Lemma assoc_dict_set_eq k v (d : Dict) : assoc k (dict_set k v d) = Some v.
Proof.
  induction d as [|[k' v'] d IH]; cbn [dict_set assoc].
  - now rewrite String.eqb_refl.
  - destruct (String.eqb_spec k k') as [->|Hne]; cbn [assoc].
    + now rewrite String.eqb_refl.
    + destruct (String.eqb_spec k k'); [congruence|exact IH].
Qed.

Lemma assoc_dict_set_ne k k' v (d : Dict) :
  k' <> k -> assoc k' (dict_set k v d) = assoc k' d.
Proof.
  intros Hne. induction d as [|[k2 v2] d IH]; cbn [dict_set assoc].
  - destruct (String.eqb_spec k' k); [congruence|reflexivity].
  - destruct (String.eqb_spec k k2) as [->|Hk]; cbn [assoc].
    + destruct (String.eqb_spec k' k2); [congruence|reflexivity].
    + destruct (String.eqb_spec k' k2); [reflexivity|exact IH].
Qed.

Lemma dict_has_set k k' v (d : Dict) :
  dict_has k' (dict_set k v d) = true <-> k' = k \/ dict_has k' d = true.
Proof.
  unfold dict_has. destruct (String.eqb_spec k' k) as [->|Hne].
  - rewrite assoc_dict_set_eq. tauto.
  - rewrite (assoc_dict_set_ne _ _ _ _ Hne). split; [auto|]. intros [?|?]; [congruence|auto].
Qed.

Lemma dict_set_keys k v (d : Dict) :
  map fst (dict_set k v d) = if dict_has k d then map fst d else map fst d ++ [k].
Proof.
  unfold dict_has. induction d as [|[k' v'] d IH]; cbn [dict_set assoc map fst app];
    [reflexivity|].
  destruct (String.eqb_spec k k') as [->|Hne]; [reflexivity|].
  cbn [map fst]. rewrite IH. now destruct (assoc k d).
Qed.

Lemma NoDup_snoc_keys (l : list string) k : NoDup l -> ~ In k l -> NoDup (l ++ [k]).
Proof.
  intros Hl Hk. apply NoDup_app. split; [exact Hl|]. split.
  - intros x Hx Hx'. apply list_elem_of_In in Hx. apply list_elem_of_singleton in Hx'.
    congruence.
  - apply NoDup_singleton.
Qed.

Lemma dict_set_NoDup k v (d : Dict) : NoDup (map fst d) -> NoDup (map fst (dict_set k v d)).
Proof.
  intros Hd. rewrite dict_set_keys. destruct (dict_has k d) eqn:Hk; [exact Hd|].
  apply NoDup_snoc_keys; [exact Hd|]. intros Hin. apply dict_has_In in Hin. congruence.
Qed.

(** One call of [record]. *)
Lemma record_step src name (m : Dict) :
  record src name m
  = match flag_id_search (or_empty src) with
    | Some key => if truthy src && truthy name && negb (dict_has key m)
                  then m ++ [(key, strip (or_empty name))] else m
    | None => m
    end.
Proof.
  unfold record. destruct (truthy src); destruct (truthy name); cbn;
    destruct (flag_id_search (or_empty src)) as [key|]; try reflexivity.
  now destruct (dict_has key m).
Qed.

Lemma record_fold pairs (acc : Dict) :
  let m := fold_left (fun mapping p => record (fst p) (snd p) mapping) pairs acc in
  (NoDup (map fst acc) -> NoDup (map fst m))
  /\ (Forall (fun kv => is_flag_id (fst kv) = true /\ strip (snd kv) = snd kv) acc ->
      Forall (fun kv => is_flag_id (fst kv) = true /\ strip (snd kv) = snd kv) m)
  /\ forall key,
       assoc key m = match assoc key acc with
                     | Some v => Some v
                     | None => option_map (fun p => strip (or_empty (snd p)))
                                 (List.find (records key) pairs)
                     end.
Proof.
  revert acc. induction pairs as [|[src name] pairs IH]; intros acc; cbn [fold_left].
  - cbv zeta. repeat split; auto. intros key. cbn. now destruct (assoc key acc).
  - specialize (IH (record src name acc)). cbv zeta in IH |- *. cbn [fst snd] in *.
    destruct IH as (IHn & IHf & IHa).
    remember (record src name acc) as m1 eqn:Hm1. rewrite record_step in Hm1.
    destruct (flag_id_search (or_empty src)) as [k|] eqn:Hs; [|subst m1].
    + destruct (truthy src && truthy name && negb (dict_has k acc)) eqn:Hc; subst m1.
      * apply andb_true_iff in Hc as [Hc Hnew]. apply negb_true_iff in Hnew.
        split; [|split].
        -- intros Hnd. apply IHn. rewrite map_app. cbn. apply NoDup_snoc_keys; [exact Hnd|].
           intros Hin. apply dict_has_In in Hin. congruence.
        -- intros Hall. apply IHf. apply Forall_app. split; [exact Hall|].
           constructor; [|constructor]. cbn. split; [|apply strip_idem].
           exact (flag_id_search_is_flag_id _ _ Hs).
        -- intros key. rewrite IHa, assoc_app. cbn [List.find].
           unfold records at 2. cbn [fst snd]. rewrite Hc, Hs. cbn [andb].
           destruct (assoc key acc) as [v|] eqn:Hacc; [reflexivity|]. cbn [assoc].
           destruct (String.eqb_spec key k) as [->|Hne].
           ++ now rewrite bool_decide_true by reflexivity.
           ++ rewrite bool_decide_false by congruence. reflexivity.
      * split; [exact IHn|]. split; [exact IHf|]. intros key. rewrite IHa.
        destruct (assoc key acc) as [v|] eqn:Hacc; [reflexivity|]. cbn [List.find].
        unfold records at 2. cbn [fst snd]. rewrite Hs.
        destruct (truthy src && truthy name) eqn:Ht; [|reflexivity].
        cbn in Hc. apply negb_false_iff in Hc. cbn [andb].
        destruct (bool_decide (Some k = Some key)) eqn:Hk; [|reflexivity].
        apply bool_decide_eq_true in Hk. injection Hk as ->.
        unfold dict_has in Hc. rewrite Hacc in Hc. discriminate.
    + split; [exact IHn|]. split; [exact IHf|]. intros key. rewrite IHa.
      destruct (assoc key acc); [reflexivity|]. cbn [List.find].
      unfold records at 2. cbn [fst snd]. rewrite Hs.
      rewrite bool_decide_false by discriminate. now rewrite andb_false_r.
Qed.

(** X19: the names the script learns from the schedules page.
    [build_id_to_name_map] raises when the page cannot be had.  Otherwise
    it returns a dictionary whose keys are flag identifiers, each once, and
    whose names carry no white space around them.  The name of an
    identifier is the stripped name of the first element that shows the
    identifier with a source and a name, the team links of the table
    before the team elements of the cards; an identifier no element shows
    is not in the dictionary. *)
Theorem id_to_name_map_first_seen (mp : option (Dict * Dict)) (fs : gmap string nat)
    (srv : string -> option nat) (doc : Node) :
  build_id_to_name_map (mkDisk mp fs srv None) = None
  /\ exists m,
       build_id_to_name_map (mkDisk mp fs srv (Some doc)) = Some m
       /\ NoDup (map fst m)
       /\ Forall (fun kv => is_flag_id (fst kv) = true /\ strip (snd kv) = snd kv) m
       /\ forall key,
            assoc key m
            = option_map (fun p => strip (or_empty (snd p)))
                (List.find (records key) (recorded_pairs doc)).
Proof.
  split; [reflexivity|]. unfold build_id_to_name_map. cbn [schedules_page].
  eexists. split; [reflexivity|].
  destruct (record_fold (recorded_pairs doc) []) as (Hn & Hf & Ha). cbv zeta in *.
  split; [apply Hn; constructor|]. split; [apply Hf; constructor|].
  intros key. now rewrite Ha.
Qed.

Lemma append_assoc a b c : (a +:+ b) +:+ c = a +:+ (b +:+ c).
Proof. induction a as [|x a IH]; [reflexivity|]. rewrite !append_cons. now f_equal. Qed.

(** The name the script gives to the copy number [count + 1] of a slug. *)
Lemma script_out_name name count :
  let base := DownloadFlags.slugify name in
  let out_name :=
    if bool_decide (count = 0) then base else base +:+ "-" +:+ pretty (count + 1) in
  path_join FLAGS_BY_NAME_DIR (out_name +:+ ".gif")
  = "/workspace/static/flags/by-name" +:+ "/" +:+ (out_name +:+ ".gif")
  /\ all_chars not_slash (out_name +:+ ".gif") = true
  /\ fs_path ("/static/flags/by-name/" +:+ out_name +:+ ".gif")
     = path_join FLAGS_BY_NAME_DIR (out_name +:+ ".gif")
  /\ by_name_file (path_join FLAGS_BY_NAME_DIR (out_name +:+ ".gif")).
Proof.
  intros base out_name.
  assert (Hb : is_slug base = true) by apply slugify_is_slug.
  assert (Hp : path_join FLAGS_BY_NAME_DIR (out_name +:+ ".gif")
               = "/workspace/static/flags/by-name" +:+ "/" +:+ (out_name +:+ ".gif")).
  { change FLAGS_BY_NAME_DIR with _FLAGS_BY_NAME_DIR. unfold out_name.
    destruct (bool_decide (count = 0)); [now apply by_name_path|].
    rewrite append_assoc. now apply by_name_path. }
  assert (Hn : all_chars not_slash (out_name +:+ ".gif") = true).
  { unfold out_name. destruct (bool_decide (count = 0)).
    - now rewrite all_chars_app, (slug_no_slash _ _ Hb).
    - now rewrite !all_chars_app, (slug_no_slash _ _ Hb), pretty_nat_no_slash. }
  split; [exact Hp|]. split; [exact Hn|]. split; [now rewrite Hp|].
  exists (out_name +:+ ".gif"). split; [exact Hp|exact Hn].
Qed.

Lemma script_raw_not_by_name sid p :
  is_flag_id sid = true -> by_name_file p -> raw_file sid <> p.
Proof. intros Hs Hp. now apply raw_not_by_name. Qed.

(** What [write_loop] leaves on disk, whatever it returns. *)
Lemma write_loop_frame items used acc d :
  let d' := snd (write_loop items used acc d) in
  disk_mapping d' = disk_mapping d /\ flag_server d' = flag_server d
  /\ schedules_page d' = schedules_page d
  /\ (forall p, is_Some (disk_files d !! p) -> is_Some (disk_files d' !! p))
  /\ (forall p, ~ by_name_file p -> disk_files d' !! p = disk_files d !! p).
Proof.
  revert used acc d. induction items as [|[sid name] r IH]; intros used acc d;
    cbn [write_loop]; [cbn; auto|].
  destruct (negb (disk_exists (path_join FLAGS_RAW_DIR (sid +:+ ".gif")) d)); [apply IH|].
  set (count := default 0 (used !! DownloadFlags.slugify name)).
  destruct (script_out_name name count) as (_ & _ & _ & Hby). cbv zeta in Hby.
  set (out_name := if bool_decide (count = 0) then _ else _) in *.
  set (dst := path_join FLAGS_BY_NAME_DIR (out_name +:+ ".gif")) in *.
  destruct (String.eqb _ dst); [cbn; auto|].
  set (d1 := disk_write dst _ d).
  specialize (IH (<[DownloadFlags.slugify name := count + 1]> used)
                (dict_set sid ("/static/flags/by-name/" +:+ out_name +:+ ".gif") acc) d1).
  cbv zeta in IH |- *. destruct IH as (Hm & Hs & Hpg & Hmono & Hfr).
  split; [exact Hm|]. split; [exact Hs|]. split; [exact Hpg|]. split.
  - intros p Hp. apply Hmono. unfold d1, disk_write. cbn [disk_files].
    destruct (decide (p = dst)) as [->|Hne];
      [rewrite lookup_insert_eq; eauto|now rewrite lookup_insert_ne by congruence].
  - intros p Hp. rewrite (Hfr p Hp). unfold d1, disk_write. cbn [disk_files].
    rewrite lookup_insert_ne; [reflexivity|]. intros <-. now apply Hp.
Qed.

Lemma dict_set_In k v (d : Dict) k' v' :
  In (k', v') (dict_set k v d) -> (k' = k /\ v' = v) \/ In (k', v') d.
Proof.
  induction d as [|[k2 v2] d IH]; cbn [dict_set In].
  - intros [[= <- <-]|[]]. now left.
  - destruct (String.eqb_spec k k2) as [->|Hne]; cbn [In].
    + intros [[= <- <-]|Hin]; [now left|right; now right].
    + intros [Heq|Hin]; [right; now left|]. destruct (IH Hin) as [H|H]; [now left|right; now right].
Qed.

(** The references [write_loop] returns name files that are there. *)
Lemma write_loop_live items used acc d paths :
  fst (write_loop items used acc d) = Some paths ->
  let d' := snd (write_loop items used acc d) in
  (forall sid, dict_has sid acc = true -> dict_has sid paths = true)
  /\ (NoDup (map fst acc) -> NoDup (map fst paths))
  /\ forall sid rel, In (sid, rel) paths ->
       In (sid, rel) acc
       \/ exists fname,
            rel = "/static/flags/by-name/" +:+ fname
            /\ all_chars not_slash fname = true
            /\ is_Some (disk_files d' !! fs_path rel).
Proof.
  revert used acc d. induction items as [|[sid name] r IH]; intros used acc d;
    cbn [write_loop].
  - cbn. intros [= <-]. auto.
  - destruct (negb (disk_exists (path_join FLAGS_RAW_DIR (sid +:+ ".gif")) d)); [apply IH|].
    set (count := default 0 (used !! DownloadFlags.slugify name)).
    destruct (script_out_name name count) as (_ & Hns & Hfs & _). cbv zeta in Hns, Hfs.
    set (out_name := if bool_decide (count = 0) then _ else _) in *.
    set (dst := path_join FLAGS_BY_NAME_DIR (out_name +:+ ".gif")) in *.
    destruct (String.eqb _ dst); [discriminate|].
    set (d1 := disk_write dst _ d).
    set (rel0 := "/static/flags/by-name/" +:+ out_name +:+ ".gif") in *.
    intros Hres. specialize (IH _ _ _ Hres). cbv zeta in IH. destruct IH as (IHd & IHn & IHl).
    pose proof (write_loop_frame r (<[DownloadFlags.slugify name := count + 1]> used)
                  (dict_set sid rel0 acc) d1) as (_ & _ & _ & Hmono & _).
    split; [|split].
    + intros s Hs. apply IHd. apply dict_has_set. now right.
    + intros Hnd. apply IHn. now apply dict_set_NoDup.
    + intros s rel Hrel. destruct (IHl s rel Hrel) as [Hacc|Hnew]; [|now right].
      apply dict_set_In in Hacc as [[-> ->]|Hacc]; [right|now left].
      exists (out_name +:+ ".gif"). split; [reflexivity|]. split; [exact Hns|].
      apply Hmono. fold rel0. rewrite Hfs. unfold d1, disk_write. cbn [disk_files].
      rewrite lookup_insert_eq. eauto.
Qed.

(** With flag identifiers as keys the loop does not fail and gives a
    reference to each identifier that has a raw file. *)
Lemma write_loop_digits items used acc d :
  Forall (fun kv => is_flag_id (fst kv) = true) items ->
  exists paths,
    fst (write_loop items used acc d) = Some paths
    /\ forall sid, dict_has sid paths = true <->
         dict_has sid acc = true
         \/ exists name, In (sid, name) items /\ disk_exists (raw_file sid) d = true.
Proof.
  intros Hitems. revert used acc d.
  induction Hitems as [|[sid name] r Hsid Hr IH]; intros used acc d; cbn [write_loop].
  - exists acc. split; [reflexivity|]. intros s. split; [auto|].
    intros [H|(n & [] & _)]. exact H.
  - cbn [fst] in Hsid. fold (raw_file sid).
    destruct (disk_exists (raw_file sid) d) eqn:Hex; cbn [negb].
    + set (count := default 0 (used !! DownloadFlags.slugify name)).
      destruct (script_out_name name count) as (_ & _ & _ & Hby). cbv zeta in Hby.
      set (out_name := if bool_decide (count = 0) then _ else _) in *.
      set (dst := path_join FLAGS_BY_NAME_DIR (out_name +:+ ".gif")) in *.
      destruct (String.eqb_spec (raw_file sid) dst) as [Heq|Hne];
        [exfalso; exact (script_raw_not_by_name _ _ Hsid Hby Heq)|].
      set (d1 := disk_write dst _ d).
      destruct (IH (<[DownloadFlags.slugify name := count + 1]> used)
                  (dict_set sid ("/static/flags/by-name/" +:+ out_name +:+ ".gif") acc) d1)
        as (paths & Hp & Hdom).
      exists paths. split; [exact Hp|]. intros s. rewrite Hdom, dict_has_set.
      assert (Hraw : forall s', is_flag_id s' = true ->
                disk_exists (raw_file s') d1 = disk_exists (raw_file s') d).
      { intros s' Hs'. unfold disk_exists, d1, disk_write. cbn [disk_files].
        rewrite lookup_insert_ne; [reflexivity|].
        intros Heq. exact (script_raw_not_by_name _ _ Hs' Hby (eq_sym Heq)). }
      rewrite Forall_forall in Hr.
      split.
      * intros [[->|Hacc]|(n & Hin & Hx)]; [right|now left|right].
        -- exists name. split; [now left|exact Hex].
        -- exists n. split; [now right|]. rewrite <- Hraw; [exact Hx|].
           apply (Hr (s, n)). now apply list_elem_of_In.
      * intros [Hacc|(n & [[= -> ->]|Hin] & Hx)]; [left; now right|left; now left|right].
        exists n. split; [exact Hin|]. rewrite Hraw; [exact Hx|].
        apply (Hr (s, n)). now apply list_elem_of_In.
    + destruct (IH used acc d) as (paths & Hp & Hdom). exists paths. split; [exact Hp|].
      intros s. rewrite Hdom. split.
      * intros [Hacc|(n & Hin & Hx)]; [now left|right]. exists n. split; [now right|exact Hx].
      * intros [Hacc|(n & [[= -> ->]|Hin] & Hx)]; [now left|congruence|right].
        exists n. split; [exact Hin|exact Hx].
Qed.

(** X20: the by-name copies of the script.  [write_by_name_gifs] changes
    files of the by-name directory only and removes none; the mapping
    file, the server and the page are as before.  Every reference it
    returns is [/static/flags/by-name/] followed by a file name without a
    slash and names a file that is on disk afterwards.  When the keys are
    flag identifiers the copy never fails, and an identifier gets a
    reference exactly when its raw file is on disk. *)
Theorem by_name_copies (items : Dict) (d : Disk) :
  let d' := snd (write_by_name_gifs items d) in
  (disk_mapping d' = disk_mapping d /\ flag_server d' = flag_server d
   /\ schedules_page d' = schedules_page d
   /\ (forall p, is_Some (disk_files d !! p) -> is_Some (disk_files d' !! p))
   /\ (forall p, ~ by_name_file p -> disk_files d' !! p = disk_files d !! p))
  /\ (forall paths sid rel,
        fst (write_by_name_gifs items d) = Some paths -> assoc sid paths = Some rel ->
        exists fname,
          rel = "/static/flags/by-name/" +:+ fname
          /\ all_chars not_slash fname = true
          /\ is_Some (disk_files d' !! fs_path rel))
  /\ (Forall (fun kv => is_flag_id (fst kv) = true) items ->
      exists paths,
        fst (write_by_name_gifs items d) = Some paths
        /\ forall sid, dict_has sid paths = true <->
             exists name, In (sid, name) items /\ disk_exists (raw_file sid) d = true).
Proof.
  unfold write_by_name_gifs. split; [apply write_loop_frame|]. split.
  - intros paths sid rel Hp Hrel.
    destruct (write_loop_live _ _ _ _ _ Hp) as (_ & _ & Hl).
    destruct (Hl sid rel (assoc_In _ _ _ Hrel)) as [[]|Hnew]. exact Hnew.
  - intros Hd. destruct (write_loop_digits items ∅ [] d Hd) as (paths & Hp & Hdom).
    exists paths. split; [exact Hp|]. intros sid. rewrite Hdom. split.
    + intros [Hacc|H]; [discriminate|exact H].
    + intros H. now right.
Qed.

(** ** The script as a whole *)

Lemma pretty_N_go_digits x s :
  all_chars is_digit s = true -> all_chars is_digit (pretty_N_go x s) = true.
Proof.
  revert s. induction (N.lt_wf_0 x) as [x _ IH]; intros s Hs.
  assert (x = 0 \/ 0 < x)%N as [->|Hx] by lia.
  - now rewrite pretty_N_go_0.
  - rewrite pretty_N_go_step by exact Hx. apply IH; [now apply N.div_lt|].
    simpl. rewrite Hs, andb_true_r. unfold pretty_N_char.
    repeat case_match; reflexivity.
Qed.

Lemma pretty_nat_flag_id (n : nat) : is_flag_id (pretty n) = true.
Proof.
  unfold is_flag_id, pretty, pretty_nat, pretty, pretty_N.
  destruct (decide (N.of_nat n = 0%N)); [reflexivity|].
  assert (Hd : all_chars is_digit (pretty_N_go (N.of_nat n) "") = true)
    by now apply pretty_N_go_digits.
  rewrite Hd, andb_true_r.
  destruct (pretty_N_go (N.of_nat n) "") eqn:E; [|reflexivity].
  exfalso. apply (f_equal String.length) in E.
  assert (0 < N.of_nat n)%N as Hpos by lia.
  rewrite pretty_N_go_step in E by exact Hpos.
  assert (Hlen : forall x s, String.length s <= String.length (pretty_N_go x s)).
  { intros x. induction (N.lt_wf_0 x) as [x _ IH]. intros s.
    assert (x = 0 \/ 0 < x)%N as [->|Hx] by lia; [now rewrite pretty_N_go_0|].
    rewrite pretty_N_go_step by exact Hx.
    etransitivity; [|apply IH; now apply N.div_lt]. simpl. lia. }
  specialize (Hlen (N.of_nat n `div` 10)%N
                (String (pretty_N_char (N.of_nat n `mod` 10)) "")).
  simpl in Hlen, E. lia.
Qed.

Lemma download_gif_frame i d :
  let d' := snd (download_gif i d) in
  disk_mapping d' = disk_mapping d /\ flag_server d' = flag_server d
  /\ schedules_page d' = schedules_page d
  /\ (forall p, is_Some (disk_files d !! p) -> is_Some (disk_files d' !! p))
  /\ (forall p, p <> raw_file (pretty i) -> disk_files d' !! p = disk_files d !! p).
Proof.
  unfold download_gif. fold (raw_file (pretty i)).
  destruct (disk_exists _ d && _); [cbn; auto|].
  destruct (flag_server d _) as [len|]; [|cbn; auto].
  destruct (bool_decide (len < 100)); [cbn; auto|].
  cbn [snd disk_write disk_mapping flag_server schedules_page disk_files].
  repeat split; auto.
  - intros p Hp. destruct (decide (p = raw_file (pretty i))) as [->|Hne];
      [rewrite lookup_insert_eq; eauto|now rewrite lookup_insert_ne by congruence].
  - intros p Hp. now rewrite lookup_insert_ne by congruence.
Qed.

Lemma download_loop_frame l d :
  let d' := download_all l d in
  disk_mapping d' = disk_mapping d /\ flag_server d' = flag_server d
  /\ schedules_page d' = schedules_page d
  /\ (forall p, is_Some (disk_files d !! p) -> is_Some (disk_files d' !! p))
  /\ (forall p, (forall i, In i l -> p <> raw_file (pretty i)) ->
                disk_files d' !! p = disk_files d !! p).
Proof.
  unfold download_all. revert d. induction l as [|i l IH]; intros d; cbn [fold_left]; [cbn; auto|].
  specialize (IH (snd (download_gif i d))). cbv zeta in IH |- *.
  destruct IH as (Hm & Hs & Hp & Hmono & Hfr).
  destruct (download_gif_frame i d) as (Hm1 & Hs1 & Hp1 & Hmono1 & Hfr1).
  split; [congruence|]. split; [congruence|]. split; [congruence|]. split.
  - intros p Hx. apply Hmono, Hmono1, Hx.
  - intros p Hx. rewrite Hfr, Hfr1; [reflexivity| |]; intros; apply Hx; cbn; auto.
Qed.

Lemma dict_update_assoc (d new : Dict) k :
  NoDup (map fst new) ->
  assoc k (dict_update d new)
  = match assoc k new with Some v => Some v | None => assoc k d end.
Proof.
  unfold dict_update. revert d. induction new as [|[k1 v1] new IH]; intros d Hnd;
    cbn [fold_left assoc fst snd]; [reflexivity|].
  cbn [map fst] in Hnd. apply NoDup_cons in Hnd as [Hk1 Hnd]. rewrite (IH _ Hnd).
  destruct (String.eqb_spec k k1) as [->|Hne].
  - assert (Hnone : assoc k1 new = None).
    { destruct (assoc k1 new) as [v|] eqn:E; [|reflexivity]. exfalso. apply Hk1.
      apply list_elem_of_In, dict_has_In. unfold dict_has. now rewrite E. }
    rewrite Hnone. apply assoc_dict_set_eq.
  - destruct (assoc k new); [reflexivity|]. now apply assoc_dict_set_ne.
Qed.

Lemma dict_update_keys (d new : Dict) (P : string -> Prop) :
  Forall (fun kv => P (fst kv)) d -> Forall (fun kv => P (fst kv)) new ->
  Forall (fun kv => P (fst kv)) (dict_update d new).
Proof.
  unfold dict_update. intros Hd Hnew. revert d Hd.
  induction Hnew as [|[k v] new Hk Hnew IH]; intros d Hd; cbn [fold_left]; [exact Hd|].
  apply IH. cbn [fst snd] in *. clear IH Hnew.
  induction Hd as [|[k' v'] d Hk' Hd IHd]; cbn [dict_set].
  - constructor; [exact Hk|constructor].
  - destruct (String.eqb k k'); constructor; auto.
Qed.

Lemma merge_paths_spec (existing new : Dict) d :
  (forall sid rel, In (sid, rel) new -> is_Some (disk_files d !! fs_path rel)) ->
  (forall sid rel, assoc sid (merge_paths existing new d) = Some rel ->
                   is_Some (disk_files d !! fs_path rel))
  /\ (forall sid rel, In (sid, rel) existing -> is_Some (disk_files d !! fs_path rel) ->
                      dict_has sid (merge_paths existing new d) = true)
  /\ (forall sid, dict_has sid new = true -> dict_has sid (merge_paths existing new d) = true).
Proof.
  intros Hnew. unfold merge_paths.
  set (live := fun m : Dict =>
                 forall sid rel, assoc sid m = Some rel -> is_Some (disk_files d !! fs_path rel)).
  set (step1 := fun (merged : Dict) (kv : string * string) =>
                  if disk_exists (fs_path (snd kv)) d then dict_set (fst kv) (snd kv) merged
                  else merged).
  set (step2 := fun (merged : Dict) (kv : string * string) =>
                  if dict_has (fst kv) merged then merged
                  else dict_set (fst kv) (snd kv) merged).
  assert (Hset : forall m k v, live m -> is_Some (disk_files d !! fs_path v) ->
                               live (dict_set k v m)).
  { intros m k v Hm Hv sid rel. destruct (decide (sid = k)) as [->|Hne].
    - rewrite assoc_dict_set_eq. now intros [= <-].
    - rewrite assoc_dict_set_ne by exact Hne. apply Hm. }
  assert (H1 : forall l m, live m ->
             live (fold_left step1 l m)
             /\ (forall s, dict_has s m = true -> dict_has s (fold_left step1 l m) = true)
             /\ (forall sid rel, In (sid, rel) l -> is_Some (disk_files d !! fs_path rel) ->
                                 dict_has sid (fold_left step1 l m) = true)).
  { induction l as [|[k v] l IH]; intros m Hm; cbn [fold_left].
    - split; [exact Hm|]. split; [auto|]. intros sid rel [].
    - assert (Hm' : live (step1 m (k, v))).
      { unfold step1. cbn [fst snd]. destruct (disk_exists (fs_path v) d) eqn:Hex; [|exact Hm].
        apply Hset; [exact Hm|]. now apply bool_decide_eq_true in Hex. }
      destruct (IH _ Hm') as (Hl & Hk & Hin). split; [exact Hl|]. split.
      + intros s Hs. apply Hk. unfold step1. cbn [fst snd].
        destruct (disk_exists (fs_path v) d); [|exact Hs]. apply dict_has_set. now right.
      + intros sid rel [[= -> ->]|Hi] Hlive; [|now apply (Hin sid rel)].
        apply Hk. unfold step1. cbn [fst snd]. unfold disk_exists.
        rewrite (bool_decide_true _ Hlive). apply dict_has_set. now left. }
  assert (H2 : forall l m, live m ->
             (forall sid rel, In (sid, rel) l -> is_Some (disk_files d !! fs_path rel)) ->
             live (fold_left step2 l m)
             /\ (forall s, dict_has s m = true -> dict_has s (fold_left step2 l m) = true)
             /\ (forall s, dict_has s l = true -> dict_has s (fold_left step2 l m) = true)).
  { induction l as [|[k v] l IH]; intros m Hm Hl; cbn [fold_left].
    - split; [exact Hm|]. split; [auto|]. intros s Hs. discriminate.
    - assert (Hm' : live (step2 m (k, v))).
      { unfold step2. cbn [fst snd]. destruct (dict_has k m); [exact Hm|].
        apply Hset; [exact Hm|]. apply (Hl k v). now left. }
      assert (Hmono : forall s, dict_has s m = true -> dict_has s (step2 m (k, v)) = true).
      { intros s Hs. unfold step2. cbn [fst snd]. destruct (dict_has k m); [exact Hs|].
        apply dict_has_set. now right. }
      destruct (IH _ Hm' (fun sid rel Hi => Hl sid rel (or_intror Hi))) as (Hlv & Hk & Hin).
      split; [exact Hlv|]. split; [intros s Hs; apply Hk, Hmono, Hs|].
      intros s Hs. apply dict_has_In in Hs. cbn [map fst In] in Hs.
      destruct Hs as [<-|Hs]; [|apply Hin; now apply dict_has_In].
      apply Hk. unfold step2. cbn [fst snd]. destruct (dict_has k m) eqn:Hkm; [exact Hkm|].
      apply dict_has_set. now left. }
  assert (Hnil : live []) by (intros sid rel; discriminate).
  destruct (H1 existing [] Hnil) as (Hl1 & _ & Hin1).
  destruct (H2 new _ Hl1 Hnew) as (Hl2 & Hk2 & Hin2).
  split; [exact Hl2|]. split; [|exact Hin2].
  intros sid rel Hin Hlive. apply Hk2. now apply (Hin1 sid rel).
Qed.

(** X22: what the script leaves.  [main] keeps the server and the page,
    removes no file, and changes only raw files of the identifiers 1 to 300
    and files of the by-name directory.  When an exception leaves it, the
    mapping file is as before; this happens when the schedules page cannot
    be had.  When it ends, the mapping file holds the merged mapping: the
    name of an identifier is the one scraped from the page when there is
    one and the one of the old mapping otherwise; every reference of the
    merged mapping names a file that is on disk; an identifier whose old
    reference names a file on disk keeps a reference.  With a page and an
    old mapping whose name keys are flag identifiers, [main] ends. *)
Theorem main_outcome (d : Disk) :
  let r := fst (main d) in
  let d' := snd (main d) in
  let old := _load_existing_mapping d in
  (flag_server d' = flag_server d /\ schedules_page d' = schedules_page d)
  /\ (forall p, is_Some (disk_files d !! p) -> is_Some (disk_files d' !! p))
  /\ (forall p, ~ by_name_file p -> (forall i, 1 <= i <= 300 -> p <> raw_file (pretty i)) ->
        disk_files d' !! p = disk_files d !! p)
  /\ (r = None -> disk_mapping d' = disk_mapping d)
  /\ (schedules_page d = None -> r = None)
  /\ (r = Some tt ->
      exists new names paths,
        build_id_to_name_map d = Some new
        /\ disk_mapping d' = Some (names, paths)
        /\ (forall sid, assoc sid names = match assoc sid new with
                                          | Some v => Some v
                                          | None => assoc sid (fst old)
                                          end)
        /\ (forall sid rel, assoc sid paths = Some rel ->
                            is_Some (disk_files d' !! fs_path rel))
        /\ (forall sid rel, In (sid, rel) (snd old) ->
                            is_Some (disk_files d' !! fs_path rel) ->
                            dict_has sid paths = true))
  /\ (is_Some (schedules_page d) ->
      Forall (fun kv => is_flag_id (fst kv) = true) (fst old) -> r = Some tt).
Proof.
  intros r d' old. subst r d'. unfold main, finish_main. fold old.
  set (d1 := download_all (seq 1 300) d).
  destruct (download_loop_frame (seq 1 300) d) as (Hm1 & Hs1 & Hp1 & Hmono1 & Hfr1).
  fold d1 in Hm1, Hs1, Hp1, Hmono1, Hfr1.
  assert (Hchg1 : forall p, (forall i, 1 <= i <= 300 -> p <> raw_file (pretty i)) ->
                            disk_files d1 !! p = disk_files d !! p).
  { intros p Hp. apply Hfr1. intros i Hi. apply Hp.
    apply list_elem_of_In, elem_of_seq in Hi. lia. }
  assert (Hbuild : build_id_to_name_map d1 = build_id_to_name_map d)
    by (unfold build_id_to_name_map; now rewrite Hp1).
  rewrite Hbuild.
  destruct (schedules_page d) as [doc|] eqn:Hpage.
  2:{ unfold build_id_to_name_map. rewrite Hpage. cbn [fst snd].
      split; [split; congruence|]. split; [exact Hmono1|].
      split; [intros p _ Hnr; now apply Hchg1|]. split; [intros _; exact Hm1|].
      split; [reflexivity|]. split; [discriminate|]. intros [? Hx]. discriminate Hx. }
  assert (Hnew : exists new, build_id_to_name_map d = Some new
                             /\ NoDup (map fst new)
                             /\ Forall (fun kv => is_flag_id (fst kv) = true) new).
  { unfold build_id_to_name_map. rewrite Hpage. eexists. split; [reflexivity|].
    destruct (record_fold (recorded_pairs doc) []) as (Hn & Hf & _). cbv zeta in *.
    split; [apply Hn; constructor|].
    eapply Forall_impl; [apply Hf; constructor|]. now intros kv [Hk _]. }
  destruct Hnew as (new & Hb & Hnd & Hdig). rewrite Hb.
  set (names := dict_update (fst old) new).
  pose proof (write_loop_frame names ∅ [] d1) as Hfr2. cbv zeta in Hfr2.
  pose proof (write_loop_live names ∅ [] d1) as Hlive2.
  pose proof (write_loop_digits names ∅ [] d1) as Hdig2.
  change (write_loop names ∅ [] d1) with (write_by_name_gifs names d1) in Hfr2, Hlive2, Hdig2.
  destruct (write_by_name_gifs names d1) as [[paths|] d2]; cbn [fst snd] in *.
  - destruct Hfr2 as (Hm2 & Hs2 & Hp2 & Hmono2 & Hfr2).
    destruct (Hlive2 paths eq_refl) as (_ & _ & Hl).
    assert (Hl' : forall sid rel, In (sid, rel) paths ->
                                  is_Some (disk_files d2 !! fs_path rel)).
    { intros sid rel Hin. destruct (Hl sid rel Hin) as [[]|(f & _ & _ & Hf)]. exact Hf. }
    destruct (merge_paths_spec (snd old) paths d2 Hl') as (Hmlive & Hmkeep & _).
    cbn [flag_server schedules_page disk_files disk_mapping].
    split; [split; congruence|]. split; [intros p Hx; apply Hmono2, Hmono1, Hx|].
    split; [intros p Hnb Hnr; now rewrite (Hfr2 p Hnb), (Hchg1 p Hnr)|].
    split; [discriminate|]. split; [discriminate|]. split; [|auto].
    intros _. exists new, names, (merge_paths (snd old) paths d2).
    split; [reflexivity|]. split; [reflexivity|]. split; [|split; assumption].
    intros sid. unfold names. now apply dict_update_assoc.
  - destruct Hfr2 as (Hm2 & Hs2 & Hp2 & Hmono2 & Hfr2).
    split; [split; congruence|]. split; [intros p Hx; apply Hmono2, Hmono1, Hx|].
    split; [intros p Hnb Hnr; now rewrite (Hfr2 p Hnb), (Hchg1 p Hnr)|].
    split; [intros _; congruence|]. split; [discriminate|]. split; [discriminate|].
    intros _ Hold. exfalso.
    destruct (Hdig2 (dict_update_keys _ _ (fun k => is_flag_id k = true) Hold Hdig))
      as (paths & Hp & _).
    discriminate.
Qed.

(** ** Names that share a slug *)

Lemma script_rel_inj base c c' :
  is_slug base = true -> script_rel base c = script_rel base c' -> c = c'.
Proof.
  intros Hb. unfold script_rel. intros H. apply (inj (String.append _)) in H.
  destruct (bool_decide (c = 0)) eqn:Hc; destruct (bool_decide (c' = 0)) eqn:Hc'.
  - apply bool_decide_eq_true in Hc, Hc'. congruence.
  - exfalso. rewrite (append_assoc base) in H. apply (inj (String.append _)) in H.
    discriminate H.
  - exfalso. rewrite (append_assoc base) in H. apply (inj (String.append _)) in H.
    discriminate H.
  - rewrite !(append_assoc base) in H. apply (inj (String.append _)) in H.
    change (("-" +:+ pretty (c + 1)) +:+ ".gif") with ("-" +:+ (pretty (c + 1) +:+ ".gif")) in H.
    change (("-" +:+ pretty (c' + 1)) +:+ ".gif")
      with ("-" +:+ (pretty (c' + 1) +:+ ".gif")) in H.
    apply (inj (String.append _)) in H. apply append_inj_r in H.
    apply (inj pretty) in H. lia.
Qed.

Lemma write_loop_other items used acc d paths sid :
  fst (write_loop items used acc d) = Some paths ->
  ~ In sid (map fst items) -> assoc sid paths = assoc sid acc.
Proof.
  revert used acc d. induction items as [|[k name] r IH]; intros used acc d;
    cbn [write_loop map fst In].
  - cbn. now intros [= <-].
  - intros Hres Hnot.
    destruct (negb (disk_exists (path_join FLAGS_RAW_DIR (k +:+ ".gif")) d));
      [apply (IH _ _ _ Hres); tauto|].
    destruct (String.eqb _ _); [discriminate|].
    rewrite (IH _ _ _ Hres) by tauto. apply assoc_dict_set_ne. intros ->. tauto.
Qed.

(** The reference an item gets: its slug with the number of the items
    before it that have the same slug and a raw file. *)
Lemma write_loop_assign items used acc d paths :
  Forall (fun kv => is_flag_id (fst kv) = true) items ->
  NoDup (map fst items) ->
  fst (write_loop items used acc d) = Some paths ->
  forall pre sid name post,
    items = pre ++ (sid, name) :: post ->
    disk_exists (raw_file sid) d = true ->
    assoc sid paths
    = Some (script_rel (DownloadFlags.slugify name)
              (default 0 (used !! DownloadFlags.slugify name)
               + length (same_slug (DownloadFlags.slugify name) d pre))).
Proof.
  intros Hdig. revert used acc d.
  induction Hdig as [|[k nm] r Hk Hr IH]; intros used acc d Hnd Hres pre sid name post Hsplit Hex.
  - destruct pre; discriminate.
  - cbn [map fst] in Hnd. apply NoDup_cons in Hnd as [Hkr Hnd]. cbn [fst] in Hk.
    cbn [write_loop] in Hres. fold (raw_file k) in Hres.
    assert (Hraw : forall dst n s', is_flag_id s' = true -> by_name_file dst ->
              disk_exists (raw_file s') (disk_write dst n d) = disk_exists (raw_file s') d).
    { intros dst n s' Hs' Hby. unfold disk_exists, disk_write. cbn [disk_files].
      rewrite lookup_insert_ne; [reflexivity|].
      intros Heq. exact (script_raw_not_by_name _ _ Hs' Hby (eq_sym Heq)). }
    assert (Hsame : forall dst n b l, by_name_file dst ->
              Forall (fun kv => is_flag_id (fst kv) = true) l ->
              same_slug b (disk_write dst n d) l = same_slug b d l).
    { intros dst n b l Hby Hl. unfold same_slug. induction Hl as [|kv l Hkv Hl IHl];
        [reflexivity|]. rewrite !filter_cons, IHl.
      rewrite (Hraw dst n _ Hkv Hby). reflexivity. }
    destruct pre as [|[k0 nm0] pre].
    + cbn [app] in Hsplit. injection Hsplit as -> -> ->.
      rewrite Hex in Hres. cbn [negb] in Hres.
      destruct (String.eqb _ _); [discriminate|].
      rewrite (write_loop_other _ _ _ _ _ _ Hres) by (now rewrite <- list_elem_of_In).
      rewrite assoc_dict_set_eq. unfold script_rel, same_slug. cbn [filter length].
      now rewrite Nat.add_0_r.
    + cbn [app] in Hsplit. injection Hsplit as -> -> ->.
      assert (Hsid : is_flag_id sid = true).
      { rewrite Forall_forall in Hr. apply (Hr (sid, name)).
        apply list_elem_of_In, in_app_iff. right. now left. }
      assert (Hpre : Forall (fun kv => is_flag_id (fst kv) = true) pre).
      { apply Forall_app in Hr. tauto. }
      destruct (disk_exists (raw_file k0) d) eqn:Hex0; cbn [negb] in Hres.
      * set (count := default 0 (used !! DownloadFlags.slugify nm0)) in *.
        destruct (script_out_name nm0 count) as (_ & _ & _ & Hby). cbv zeta in Hby.
        destruct (String.eqb _ _); [discriminate|].
        erewrite (IH _ _ _ Hnd Hres pre sid name post eq_refl);
          [|now rewrite (Hraw _ _ _ Hsid Hby)].
        rewrite (Hsame _ _ _ _ Hby Hpre). f_equal. f_equal.
        unfold same_slug at 2. rewrite filter_cons. cbn [fst snd]. rewrite Hex0. cbn [andb].
        fold (same_slug (DownloadFlags.slugify name) d pre).
        destruct (String.eqb_spec (DownloadFlags.slugify nm0) (DownloadFlags.slugify name))
          as [Heq|Hne]; simpl.
        -- rewrite <- Heq, lookup_insert_eq. cbn [default]. fold count. unfold id. lia.
        -- now rewrite lookup_insert_ne.
      * rewrite (IH _ _ _ Hnd Hres pre sid name post eq_refl Hex). f_equal. f_equal. f_equal.
        unfold same_slug. rewrite filter_cons. cbn [fst snd]. now rewrite Hex0.
Qed.

(** X21: the script tells apart names that share a slug.  When the keys
    are flag identifiers, each once, two identifiers that both have a raw
    file and whose names have the same slug get different references from
    [write_by_name_gifs]: the first one the slug itself, a later one the
    slug with the number of its turn. *)
Theorem same_slug_distinct_copies (pre mid post : Dict) (s1 n1 s2 n2 : string) (d : Disk) :
  let items := pre ++ (s1, n1) :: mid ++ (s2, n2) :: post in
  Forall (fun kv => is_flag_id (fst kv) = true) items ->
  NoDup (map fst items) ->
  disk_exists (raw_file s1) d = true -> disk_exists (raw_file s2) d = true ->
  DownloadFlags.slugify n1 = DownloadFlags.slugify n2 ->
  exists paths r1 r2,
    fst (write_by_name_gifs items d) = Some paths
    /\ assoc s1 paths = Some r1 /\ assoc s2 paths = Some r2 /\ r1 <> r2
    /\ r1 = script_rel (DownloadFlags.slugify n1)
              (length (same_slug (DownloadFlags.slugify n1) d pre))
    /\ (same_slug (DownloadFlags.slugify n1) d pre = [] ->
        r1 = "/static/flags/by-name/" +:+ DownloadFlags.slugify n1 +:+ ".gif").
Proof.
  intros items Hdig Hnd Hex1 Hex2 Hslug.
  destruct (write_loop_digits items ∅ [] d Hdig) as (paths & Hp & _).
  change (write_loop items ∅ [] d) with (write_by_name_gifs items d) in Hp.
  pose proof (write_loop_assign items ∅ [] d paths Hdig Hnd Hp pre s1 n1
                (mid ++ (s2, n2) :: post) eq_refl Hex1) as H1.
  pose proof (write_loop_assign items ∅ [] d paths Hdig Hnd Hp (pre ++ (s1, n1) :: mid) s2 n2
                post) as H2.
  rewrite lookup_empty in H1. cbn [default] in H1.
  rewrite <- Hslug, lookup_empty in H2. cbn [default] in H2.
  specialize (H2 ltac:(unfold items; now rewrite <- app_assoc) Hex2).
  cbn [Nat.add] in H1, H2.
  eexists paths, _, _. split; [exact Hp|]. split; [exact H1|]. split; [exact H2|].
  split; [|split; [reflexivity|]].
  - intros Heq. apply script_rel_inj in Heq; [|apply slugify_is_slug].
    unfold same_slug in Heq. rewrite filter_app, filter_cons, length_app in Heq.
    cbn [fst snd] in Heq. rewrite Hex1, String.eqb_refl in Heq. simpl in Heq. lia.
  - intros ->. reflexivity.
Qed.

(** ** The downloads of the script *)

Lemma raw_file_inj (i j : nat) : raw_file (pretty i) = raw_file (pretty j) -> i = j.
Proof.
  unfold raw_file. change FLAGS_RAW_DIR with _FLAGS_RAW_DIR.
  rewrite !raw_path_form by apply pretty_nat_flag_id. intros H.
  do 2 apply (inj (String.append _)) in H. apply append_inj_r in H.
  now apply (inj pretty) in H.
Qed.

Lemma has_raw_dec i d : {has_raw i d} + {~ has_raw i d}.
Proof.
  unfold has_raw. destruct (disk_files d !! raw_file (pretty i)) as [n|].
  - destruct (decide (0 < n)) as [Hn|Hn]; [left; eauto|right].
    intros (m & [= <-] & Hm). contradiction.
  - right. intros (m & Hm & _). discriminate.
Qed.

(** One download. *)
Lemma download_gif_step i d :
  let d' := snd (download_gif i d) in
  (has_raw i d' <-> has_raw i d \/ served i d)
  /\ (has_raw i d \/ ~ served i d -> d' = d)
  /\ (forall j, j <> i -> has_raw j d' <-> has_raw j d).
Proof.
  cbv zeta. pose proof (download_gif_frame i d) as (_ & _ & _ & _ & Hfr). cbv zeta in Hfr.
  assert (Hother : forall j, j <> i -> has_raw j (snd (download_gif i d)) <-> has_raw j d).
  { intros j Hj. unfold has_raw. rewrite Hfr; [reflexivity|]. intros Heq.
    apply raw_file_inj in Heq. contradiction. }
  split; [|split; [|exact Hother]]; clear Hother Hfr;
    unfold download_gif, has_raw, served, disk_exists; fold (raw_file (pretty i)).
  - destruct (disk_files d !! raw_file (pretty i)) as [n|] eqn:Hn.
    + rewrite (bool_decide_true (is_Some (Some n))) by eauto. cbn [default andb]. unfold id.
      destruct (bool_decide (0 < n)) eqn:Hpos.
      * apply bool_decide_eq_true in Hpos. cbn [snd]. rewrite ?Hn.
        split; [intros _; left; eauto|intros _; eauto].
      * apply bool_decide_eq_false in Hpos.
        destruct (flag_server d _) as [len|] eqn:Hsrv.
        -- destruct (bool_decide (len < 100)) eqn:Hl; cbn [snd].
           ++ apply bool_decide_eq_true in Hl. rewrite ?Hn. split.
              ** intros (m & [= <-] & Hm). contradiction.
              ** intros [(m & [= <-] & Hm)|(m & [= <-] & Hm)]; [contradiction|lia].
           ++ apply bool_decide_eq_false in Hl. cbn [disk_write disk_files].
              rewrite lookup_insert_eq. split; [intros _; right; exists len; split; [auto|lia]|].
              intros _. exists len. split; [reflexivity|lia].
        -- cbn [snd]. rewrite ?Hn. split.
           ++ intros (m & [= <-] & Hm). contradiction.
           ++ intros [(m & [= <-] & Hm)|(m & Hm & _)]; [contradiction|discriminate].
    + rewrite (bool_decide_false (is_Some None)) by (intros [? ?]; discriminate).
      cbn [andb].
      destruct (flag_server d _) as [len|] eqn:Hsrv.
      * destruct (bool_decide (len < 100)) eqn:Hl; cbn [snd].
        -- apply bool_decide_eq_true in Hl. rewrite ?Hn. split.
           ++ intros (m & Hm & _). discriminate.
           ++ intros [(m & Hm & _)|(m & [= <-] & Hm)]; [discriminate|lia].
        -- apply bool_decide_eq_false in Hl. cbn [disk_write disk_files].
           rewrite lookup_insert_eq. split; [intros _; right; exists len; split; [auto|lia]|].
           intros _. exists len. split; [reflexivity|lia].
      * cbn [snd]. rewrite ?Hn. split.
        -- intros (m & Hm & _). discriminate.
        -- intros [(m & Hm & _)|(m & Hm & _)]; discriminate.
  - intros Hcase.
    destruct (bool_decide (is_Some (disk_files d !! raw_file (pretty i)))
              && bool_decide (0 < default 0 (disk_files d !! raw_file (pretty i)))) eqn:Hb;
      [reflexivity|].
    destruct (flag_server d _) as [len|] eqn:Hsrv; [|reflexivity].
    destruct (bool_decide (len < 100)) eqn:Hl; [reflexivity|exfalso].
    apply bool_decide_eq_false in Hl. destruct Hcase as [(n & Hn & Hpos)|Hns].
    + rewrite ?Hn in Hb. rewrite (bool_decide_true (is_Some (Some n))) in Hb by eauto.
      cbn [default andb] in Hb. unfold id in Hb. apply bool_decide_eq_false in Hb.
      contradiction.
    + apply Hns. exists len. split; [reflexivity|lia].
Qed.

Lemma download_all_spec ids d :
  NoDup ids ->
  flag_server (download_all ids d) = flag_server d
  /\ (forall i, In i ids -> has_raw i (download_all ids d) <-> has_raw i d \/ served i d)
  /\ (forall j, ~ In j ids -> has_raw j (download_all ids d) <-> has_raw j d).
Proof.
  unfold download_all. intros Hnd. revert d.
  induction Hnd as [|i ids Hi Hnd IH]; intros d; cbn [fold_left].
  - split; [reflexivity|]. split; [intros i []|reflexivity].
  - destruct (IH (snd (download_gif i d))) as (Hs & Hin & Hout).
    destruct (download_gif_step i d) as (Hi1 & _ & Hother). cbv zeta in Hi1, Hother.
    destruct (download_gif_frame i d) as (_ & Hsrv & _). cbv zeta in Hsrv.
    split; [congruence|]. split.
    + intros j [<-|Hj].
      * rewrite Hout by (now rewrite <- list_elem_of_In). exact Hi1.
      * rewrite (Hin j Hj).
        assert (Hne : j <> i) by (intros ->; apply Hi; now apply list_elem_of_In).
        rewrite (Hother j Hne). unfold served. now rewrite Hsrv.
    + intros j Hj. rewrite Hout by (intros Hx; apply Hj; now right).
      apply Hother. intros ->. apply Hj. now left.
Qed.

Lemma download_all_fixed ids d :
  (forall i, In i ids -> has_raw i d \/ ~ served i d) -> download_all ids d = d.
Proof.
  unfold download_all. induction ids as [|i ids IH]; intros Hall; cbn [fold_left];
    [reflexivity|].
  destruct (download_gif_step i d) as (_ & Hfix & _). cbv zeta in Hfix.
  rewrite Hfix by (apply Hall; now left). apply IH. intros j Hj. apply Hall. now right.
Qed.

(** X23: the downloads of the script.  After the first loop of [main] an
    identifier between 1 and 300 has a raw image that is not empty exactly
    when it had one before or the server answers with 100 bytes or more;
    the raw images of other identifiers are as before.  The raw files are a
    cache: running the loop again changes nothing. *)
Theorem script_downloads_are_cached (d : Disk) :
  let d1 := download_all (seq 1 300) d in
  (forall i, 1 <= i <= 300 -> has_raw i d1 <-> has_raw i d \/ served i d)
  /\ (forall j, ~ 1 <= j <= 300 -> has_raw j d1 <-> has_raw j d)
  /\ download_all (seq 1 300) d1 = d1.
Proof.
  intros d1.
  destruct (download_all_spec (seq 1 300) d (NoDup_seq 1 300)) as (Hs & Hin & Hout).
  fold d1 in Hs, Hin, Hout.
  assert (Hrange : forall i, In i (seq 1 300) <-> 1 <= i <= 300).
  { intros i. rewrite <- list_elem_of_In, elem_of_seq. lia. }
  split; [intros i Hi; apply Hin; now apply Hrange|].
  split; [intros j Hj; apply Hout; now rewrite Hrange|].
  apply download_all_fixed. intros i Hi.
  destruct (has_raw_dec i d1) as [Hr|Hr]; [now left|right].
  intros Hsv. apply Hr. apply (Hin i Hi). right. unfold served in *. now rewrite <- Hs.
Qed.

(** ** The endpoints *)

Lemma parse_scorecard_total doc :
  exists data, parse_scorecard_html doc = Some data /\ ok data = true.
Proof.
  unfold parse_scorecard_html.
  destruct (extract_title_and_teams_total (soup_of doc)) as (ttl & tms & -> & _). simpl.
  destruct (build_innings_total 0
              (filter (fun t => is_batting_table t) (find_all (has_tag "table") doc))
              (filter (fun t => is_bowling_table t) (find_all (has_tag "table") doc))
              tms) as (inns & -> & _). simpl.
  destruct (parse_match_info_total (soup_of doc)) as [inf ->]. simpl.
  eexists. split; reflexivity.
Qed.

(** X24: the answers of the endpoints.  [api_schedules] answers 200 with
    the entries of the page, their number and no key twice when the page was
    fetched, and 500 with the text of the failure, the world untouched,
    when the fetch failed.  [api_scorecard] answers 400 with "missing url"
    exactly when the parameter is absent or empty, whatever the fetch would
    do; with a url it answers 200 with the scorecard, marked ok, whenever
    the page was fetched, and 500 with the text of the failure when the
    fetch failed: the extraction itself never turns a fetched page into an
    error. *)
Theorem endpoint_answers :
  (forall fetched w,
      let resp := fst (api_schedules fetched w) in
      match fetched with
      | inl doc =>
          http_status resp = 200
          /\ body resp = ScheduleBody (length (fst (parse_schedules_html doc w)))
                           (fst (parse_schedules_html doc w))
          /\ NoDup (map key_for (fst (parse_schedules_html doc w)))
      | inr e =>
          http_status resp = 500 /\ body resp = ErrorBody e
          /\ snd (api_schedules fetched w) = w
      end)
  /\ (forall url fetch perr,
        let resp := api_scorecard url fetch perr in
        (http_status resp = 400 <-> url = None \/ url = Some "")
        /\ (http_status resp = 400 -> body resp = ErrorBody "missing url")
        /\ (forall u, url = Some u -> u <> "" ->
              match fetch u with
              | inl doc =>
                  http_status resp = 200
                  /\ exists data, body resp = ScorecardBody data
                                  /\ parse_scorecard_html doc = Some data
                                  /\ ok data = true
              | inr e => http_status resp = 500 /\ body resp = ErrorBody e
              end)
        /\ (forall perr', api_scorecard url fetch perr' = resp)).
Proof.
  split.
  - intros [doc|e] w; cbv zeta; unfold api_schedules; [|cbn; auto].
    unfold_state. 
    assert (Hnd : NoDup (map key_for (fst (parse_schedules_html doc w)))).
    { unfold parse_schedules_html. unfold_state.
      destruct (_parse_match_updates _ w) as [cards w1].
      destruct (_parse_schedule_table _ w1) as [rows w2]. cbn [fst].
      apply dedupe_NoDup. }
    destruct (parse_schedules_html doc w) as [items w1]. cbn [fst snd] in *. auto.
  - intros url fetch perr. cbv zeta. unfold api_scorecard.
    destruct url as [[|c u]|]; cbn [truthy nonempty negb].
    + cbn. repeat split; auto. intros u [= <-] Hu. congruence.
    + change (or_empty (Some (String c u))) with (String c u).
      destruct (fetch (String c u)) as [doc|e] eqn:Hf.
      * destruct (parse_scorecard_total doc) as (data & Hd & Hok). rewrite Hd. cbn.
        repeat split; try discriminate.
        -- intros [H|H]; discriminate.
        -- intros v [= <-] _. rewrite Hf. split; [reflexivity|]. exists data. auto.
      * cbn. repeat split; try discriminate.
        -- intros [H|H]; discriminate.
        -- intros v [= <-] _. rewrite Hf. auto.
    + cbn. repeat split; auto. intros u [=].
Qed.

(** ** Running the script again *)

Lemma apply_writes_lookup writes fs p :
  apply_writes writes fs !! p
  = match last_write p writes with Some n => Some n | None => fs !! p end.
Proof.
  unfold apply_writes. revert fs. induction writes as [|[q n] r IH]; intros fs;
    cbn [fold_left last_write fst snd]; [reflexivity|].
  rewrite IH. destruct (last_write p r); [reflexivity|].
  destruct (String.eqb_spec p q) as [->|Hne];
    [apply lookup_insert_eq|now apply lookup_insert_ne].
Qed.

Lemma apply_writes_idem writes fs :
  apply_writes writes (apply_writes writes fs) = apply_writes writes fs.
Proof.
  apply map_eq. intros p. rewrite !apply_writes_lookup. now destruct (last_write p writes).
Qed.

Lemma write_plan_agree items used acc d d0 :
  Forall (fun kv => is_flag_id (fst kv) = true) items ->
  (forall s, is_flag_id s = true -> disk_files d !! raw_file s = disk_files d0 !! raw_file s) ->
  write_plan items used acc d = write_plan items used acc d0.
Proof.
  intros Hdig Hraw. revert used acc.
  induction Hdig as [|[sid name] r Hsid Hr IH]; intros used acc; cbn [write_plan];
    [reflexivity|].
  cbn [fst] in Hsid. fold (raw_file sid). unfold disk_exists. rewrite (Hraw _ Hsid).
  destruct (negb _); [apply IH|]. now rewrite IH.
Qed.

Lemma write_loop_plan items used acc d :
  Forall (fun kv => is_flag_id (fst kv) = true) items ->
  write_loop items used acc d
  = (Some (fst (write_plan items used acc d)),
     mkDisk (disk_mapping d) (apply_writes (snd (write_plan items used acc d)) (disk_files d))
       (flag_server d) (schedules_page d)).
Proof.
  intros Hdig. revert used acc d.
  induction Hdig as [|[sid name] r Hsid Hr IH]; intros used acc d;
    cbn [write_loop write_plan].
  - cbn. now destruct d.
  - cbn [fst] in Hsid. fold (raw_file sid).
    destruct (negb (disk_exists (raw_file sid) d)); [apply IH|].
    set (count := default 0 (used !! DownloadFlags.slugify name)).
    destruct (script_out_name name count) as (_ & _ & _ & Hby). cbv zeta in Hby.
    set (out_name := if bool_decide (count = 0) then _ else _) in *.
    set (dst := path_join FLAGS_BY_NAME_DIR (out_name +:+ ".gif")) in *.
    destruct (String.eqb_spec (raw_file sid) dst) as [Heq|Hne];
      [exfalso; exact (script_raw_not_by_name _ _ Hsid Hby Heq)|].
    rewrite IH. cbn [fst snd].
    rewrite (write_plan_agree r _ _ (disk_write dst (default 0 (disk_files d !! raw_file sid)) d)
               d Hr).
    + reflexivity.
    + intros s Hs. unfold disk_write. cbn [disk_files]. apply lookup_insert_ne.
      intros Heq. exact (script_raw_not_by_name _ _ Hs Hby (eq_sym Heq)).
Qed.

Lemma dict_set_id k v (d : Dict) : assoc k d = Some v -> dict_set k v d = d.
Proof.
  induction d as [|[k' v'] d IH]; cbn [assoc dict_set]; [discriminate|].
  destruct (String.eqb_spec k k') as [->|Hne]; [now intros [= ->]|].
  intros H. now rewrite IH.
Qed.

Lemma dict_update_fixed (d new : Dict) :
  (forall k v, In (k, v) new -> assoc k d = Some v) -> dict_update d new = d.
Proof.
  unfold dict_update. induction new as [|[k v] new IH]; intros H; cbn [fold_left fst snd];
    [reflexivity|].
  rewrite dict_set_id by (apply H; now left). apply IH. intros k' v' Hin. apply H. now right.
Qed.

Lemma assoc_of_In k v (d : Dict) : NoDup (map fst d) -> In (k, v) d -> assoc k d = Some v.
Proof.
  induction d as [|[k' v'] d IH]; cbn [map fst In assoc]; [tauto|].
  intros Hnd [[= -> ->]|Hin]; [now rewrite String.eqb_refl|].
  apply NoDup_cons in Hnd as [Hk Hnd].
  destruct (String.eqb_spec k k') as [->|Hne]; [|now apply IH].
  exfalso. apply Hk. apply list_elem_of_In. apply (in_map fst) in Hin. exact Hin.
Qed.

Lemma dict_set_new k v (d : Dict) : dict_has k d = false -> dict_set k v d = d ++ [(k, v)].
Proof.
  unfold dict_has. induction d as [|[k' v'] d IH]; cbn [assoc dict_set app]; [reflexivity|].
  destruct (String.eqb_spec k k') as [->|Hne]; [discriminate|].
  intros H. now rewrite IH.
Qed.

Lemma merge_paths_NoDup existing new d : NoDup (map fst (merge_paths existing new d)).
Proof.
  unfold merge_paths.
  assert (H1 : forall l m, NoDup (map fst m) ->
             NoDup (map fst (fold_left
               (fun merged kv =>
                  if disk_exists (fs_path (snd kv)) d then dict_set (fst kv) (snd kv) merged
                  else merged) l m))).
  { induction l as [|kv l IH]; intros m Hm; cbn [fold_left]; [exact Hm|].
    apply IH. destruct (disk_exists _ d); [now apply dict_set_NoDup|exact Hm]. }
  assert (H2 : forall l m, NoDup (map fst m) ->
             NoDup (map fst (fold_left
               (fun merged kv =>
                  if dict_has (fst kv) merged then merged
                  else dict_set (fst kv) (snd kv) merged) l m))).
  { induction l as [|kv l IH]; intros m Hm; cbn [fold_left]; [exact Hm|].
    apply IH. destruct (dict_has _ m); [exact Hm|now apply dict_set_NoDup]. }
  apply H2, H1. constructor.
Qed.

(** Merging a merged mapping with the same new references gives it back. *)
Lemma merge_paths_fixed (merged new : Dict) d :
  NoDup (map fst merged) ->
  (forall k v, In (k, v) merged -> is_Some (disk_files d !! fs_path v)) ->
  (forall k, dict_has k new = true -> dict_has k merged = true) ->
  merge_paths merged new d = merged.
Proof.
  intros Hnd Hlive Hnew. unfold merge_paths.
  assert (H1 : forall l m,
             NoDup (map fst (m ++ l)) ->
             (forall k v, In (k, v) l -> is_Some (disk_files d !! fs_path v)) ->
             fold_left
               (fun merged kv =>
                  if disk_exists (fs_path (snd kv)) d then dict_set (fst kv) (snd kv) merged
                  else merged) l m = m ++ l).
  { induction l as [|[k v] l IH]; intros m Hm Hl; cbn [fold_left fst snd].
    - now rewrite app_nil_r.
    - assert (Hex : disk_exists (fs_path v) d = true)
        by (apply bool_decide_eq_true, (Hl k v); now left).
      rewrite Hex.
      assert (Hk : dict_has k m = false).
      { destruct (dict_has k m) eqn:E; [|reflexivity]. exfalso.
        apply dict_has_In in E. rewrite map_app in Hm. apply NoDup_app in Hm as (_ & Hdis & _).
        apply (Hdis k); [now apply list_elem_of_In|]. cbn. left. }
      rewrite (dict_set_new _ _ _ Hk).
      rewrite IH; [now rewrite <- app_assoc| |].
      + now rewrite <- app_assoc.
      + intros k' v' Hin. apply (Hl k' v'). now right. }
  rewrite (H1 merged [] Hnd Hlive). cbn [app].
  assert (H2 : forall l, (forall k, dict_has k l = true -> dict_has k merged = true) ->
             fold_left
               (fun m kv => if dict_has (fst kv) m then m else dict_set (fst kv) (snd kv) m)
               l merged = merged).
  { induction l as [|[k v] l IH]; intros Hl; cbn [fold_left fst snd]; [reflexivity|].
    rewrite (Hl k) by (unfold dict_has; cbn [assoc]; now rewrite String.eqb_refl).
    apply IH. intros k' Hk'. apply Hl. apply dict_has_In. apply dict_has_In in Hk'.
    cbn. now right. }
  apply H2, Hnew.
Qed.

(** The second run, from the downloads on. *)
Lemma finish_main_again (old : Dict * Dict) (d1 : Disk) :
  Forall (fun kv => is_flag_id (fst kv) = true) (fst old) ->
  (forall e, flag_server e = flag_server d1 ->
             (forall i : nat, disk_files e !! raw_file (pretty i)
                              = disk_files d1 !! raw_file (pretty i)) ->
             download_all (seq 1 300) e = e) ->
  main (snd (finish_main old d1)) = finish_main old d1.
Proof.
  intros Hold Hfix. remember (finish_main old d1) as run eqn:Hrun.
  unfold finish_main in Hrun.
  destruct (schedules_page d1) as [doc|] eqn:Hpage.
  2:{ unfold build_id_to_name_map in Hrun. rewrite Hpage in Hrun. subst run. cbn [fst snd].
      unfold main. rewrite (Hfix d1 eq_refl (fun i => eq_refl)).
      unfold finish_main, build_id_to_name_map. rewrite Hpage. reflexivity. }
  assert (Hnew : exists new, build_id_to_name_map d1 = Some new
                             /\ NoDup (map fst new)
                             /\ Forall (fun kv => is_flag_id (fst kv) = true) new).
  { unfold build_id_to_name_map. rewrite Hpage. eexists. split; [reflexivity|].
    destruct (record_fold (recorded_pairs doc) []) as (Hn & Hf & _). cbv zeta in *.
    split; [apply Hn; constructor|].
    eapply Forall_impl; [apply Hf; constructor|]. now intros kv [Hk _]. }
  destruct Hnew as (new & Hb & Hnd & Hdig). rewrite Hb in Hrun.
  set (names := dict_update (fst old) new) in *.
  assert (Hnames : Forall (fun kv => is_flag_id (fst kv) = true) names)
    by (apply (dict_update_keys _ _ (fun k => is_flag_id k = true)); assumption).
  (* the first run *)
  pose proof (write_loop_frame names ∅ [] d1) as Hfr2.
  pose proof (write_loop_live names ∅ [] d1) as Hlive2.
  unfold write_by_name_gifs in Hrun.
  rewrite (write_loop_plan names ∅ [] d1 Hnames) in Hrun, Hfr2, Hlive2.
  set (plan := write_plan names ∅ [] d1) in *.
  set (fs2 := apply_writes (snd plan) (disk_files d1)) in *.
  cbv zeta in Hfr2, Hlive2.
  cbn [fst snd disk_files flag_server schedules_page] in Hrun, Hfr2, Hlive2.
  set (d2 := mkDisk (disk_mapping d1) fs2 (flag_server d1) (schedules_page d1)) in *.
  set (merged := merge_paths (snd old) (fst plan) d2) in *.
  destruct Hfr2 as (_ & _ & _ & _ & Hfr2).
  destruct (Hlive2 (fst plan) eq_refl) as (_ & Hpnd & Hl).
  assert (Hrawsame : forall s, is_flag_id s = true ->
                               fs2 !! raw_file s = disk_files d1 !! raw_file s).
  { intros s Hs. apply Hfr2. intros Hby. exact (script_raw_not_by_name _ _ Hs Hby eq_refl). }
  subst run. cbn [fst snd].
  set (d' := mkDisk (Some (names, merged)) fs2 (flag_server d1) (schedules_page d1)).
  (* the second run *)
  unfold main. change (_load_existing_mapping d') with (names, merged).
  rewrite (Hfix d'); [|reflexivity|intros i; apply Hrawsame, pretty_nat_flag_id].
  unfold finish_main. cbn [fst snd].
  assert (Hb' : build_id_to_name_map d' = Some new).
  { unfold build_id_to_name_map in *. exact Hb. }
  rewrite Hb'.
  assert (Hnames' : dict_update names new = names).
  { apply dict_update_fixed. intros k v Hin. unfold names.
    rewrite (dict_update_assoc _ _ _ Hnd). now rewrite (assoc_of_In _ _ _ Hnd Hin). }
  rewrite Hnames'. unfold write_by_name_gifs. rewrite (write_loop_plan names ∅ [] d' Hnames).
  assert (Hplan : write_plan names ∅ [] d' = plan).
  { apply write_plan_agree; [exact Hnames|]. intros s Hs. cbn [disk_files d'].
    now apply Hrawsame. }
  rewrite Hplan. cbn [disk_files disk_mapping flag_server schedules_page d'].
  unfold fs2 at 1 2. rewrite apply_writes_idem. fold fs2.
  assert (Hmerged : merge_paths merged (fst plan)
                      (mkDisk (Some (names, merged)) fs2 (flag_server d1) (schedules_page d1))
                    = merged).
  { assert (Hl' : forall sid rel, In (sid, rel) (fst plan) -> is_Some (fs2 !! fs_path rel)).
    { intros sid rel Hin. destruct (Hl sid rel Hin) as [[]|(f & _ & _ & Hf)]. exact Hf. }
    destruct (merge_paths_spec (snd old) (fst plan) d2 Hl') as (Hmlive & _ & Hmnew).
    apply merge_paths_fixed.
    - apply merge_paths_NoDup.
    - intros k v Hin. cbn [disk_files]. apply (Hmlive k v).
      apply assoc_of_In; [apply merge_paths_NoDup|exact Hin].
    - exact Hmnew. }
  rewrite Hmerged. reflexivity.
Qed.

(** X25: running the script again changes nothing.  When the name keys of
    the mapping file are flag identifiers, a second run of [main], from
    the world the first run left and with the server and the page
    unchanged, ends the way the first did and leaves that world as it is:
    the same files and the same mapping file. *)
Theorem script_is_idempotent (d : Disk) :
  Forall (fun kv => is_flag_id (fst kv) = true) (fst (_load_existing_mapping d)) ->
  main (snd (main d)) = main d.
Proof.
  intros Hold. unfold main at 2 3.
  apply finish_main_again; [exact Hold|].
  destruct (download_loop_frame (seq 1 300) d) as (_ & Hs1 & _).
  destruct (download_all_spec (seq 1 300) d (NoDup_seq 1 300)) as (Hsrv & Hin1 & _).
  intros e Hse Hraw. apply download_all_fixed. intros i Hi.
  destruct (has_raw_dec i e) as [Hr|Hr]; [now left|right].
  intros Hsv. apply Hr. unfold has_raw. rewrite Hraw. apply (Hin1 i Hi). right.
  unfold served in *. rewrite <- Hsrv, <- Hse. exact Hsv.
Qed.

(** ** Extracting a page again *)

Lemma loaded_of_Some w : is_Some (flags_mem w) -> loaded w = w.
Proof. destruct w as [[m|] mf fs rm]; intros [x Hx]; [reflexivity|discriminate]. Qed.

Lemma loaded_is_Some w : is_Some (flags_mem (loaded w)).
Proof. destruct w as [[m|] mf fs rm]; cbn; eauto. Qed.

Lemma loaded_idem w : loaded (loaded w) = loaded w.
Proof. apply loaded_of_Some, loaded_is_Some. Qed.

Lemma ensure_of_loaded i nm w :
  _ensure_flag_local i nm (loaded w) = _ensure_flag_local i nm w.
Proof. destruct w as [[m|] mf fs rm]; reflexivity. Qed.

Lemma ensure_is_loaded i nm w :
  is_flag_id i = true -> is_Some (flags_mem (snd (_ensure_flag_local i nm w))).
Proof.
  intros Hi. resolver_cases i nm w Hi; rewrite Hrun; cbn; eauto.
Qed.

Lemma has_calls_ret {A : Type} (x : A) : has_calls (mret x) [].
Proof. intros w. reflexivity. Qed.

Lemma has_calls_bind {A B : Type} (m : State A) (k : A -> State B) c1 c2 :
  has_calls m c1 -> (forall x, has_calls (k x) c2) -> has_calls (m ≫= k) (c1 ++ c2).
Proof.
  intros Hm Hk w. unfold_state. specialize (Hm w).
  destruct (m w) as [x w1]. cbn [snd] in Hm. rewrite (Hk x w1), Hm.
  unfold run_calls. now rewrite fold_left_app.
Qed.

Lemma has_calls_eq {A : Type} (m : State A) c c' : has_calls m c -> c = c' -> has_calls m c'.
Proof. now intros H <-. Qed.

Lemma has_calls_load : has_calls _load_flags_mapping [].
Proof. intros w. apply loaded_idem. Qed.

Lemma has_calls_ensure i nm :
  is_flag_id i = true -> has_calls (_ensure_flag_local i nm) [(i, nm)].
Proof.
  intros Hi w. cbn. rewrite ensure_of_loaded. apply loaded_of_Some. now apply ensure_is_loaded.
Qed.

Lemma has_calls_norm_src src : has_calls (_norm_src src) [].
Proof.
  intros w. cbn. destruct (norm_src_world src w) as [-> | ->]; [reflexivity|apply loaded_idem].
Qed.

Lemma has_calls_team_image raw name : has_calls (team_image raw name) (team_calls raw name).
Proof.
  unfold team_image, team_calls.
  eapply has_calls_eq; [|apply app_nil_r]. apply has_calls_bind.
  - destruct (truthy raw && nonempty name); [|apply has_calls_ret].
    destruct (flag_id_search (or_empty raw)) as [fid|] eqn:Hs; [|apply has_calls_ret].
    apply has_calls_ensure. exact (flag_id_search_is_flag_id _ _ Hs).
  - intros enriched. destruct (truthy enriched); [apply has_calls_ret|apply has_calls_norm_src].
Qed.

Lemma has_calls_card_teams l :
  has_calls (card_teams l)
    (flat_map (fun tn => team_calls (card_team_raw_image tn) (card_team_name tn)) l).
Proof.
  induction l as [|tn r IH]; cbn [card_teams flat_map]; [apply has_calls_ret|].
  apply has_calls_bind; [apply has_calls_team_image|]. intros img.
  eapply has_calls_eq; [|apply app_nil_r]. apply has_calls_bind; [exact IH|].
  intros [ts imgs]. apply has_calls_ret.
Qed.

Lemma has_calls_card mu : has_calls (parse_match_update mu) (card_calls mu).
Proof.
  unfold parse_match_update, card_calls. destruct (card_title_status mu) as [t st].
  eapply has_calls_eq; [|apply app_nil_r].
  apply has_calls_bind; [apply has_calls_card_teams|]. intros [ts imgs].
  destruct (bool_decide (2 < length ts));
    (eapply has_calls_eq; [|apply app_nil_r];
     apply has_calls_bind; [apply has_calls_norm_src|]; intros href;
     destruct (negb _); apply has_calls_ret).
Qed.

Lemma has_calls_collect {A : Type} (f : A -> State (option MatchRecord)) g l :
  (forall x, has_calls (f x) (g x)) -> has_calls (collect f l) (flat_map g l).
Proof.
  intros Hf. induction l as [|x r IH]; cbn [collect flat_map]; [apply has_calls_ret|].
  apply has_calls_bind; [apply Hf|]. intros o.
  eapply has_calls_eq; [|apply app_nil_r]. apply has_calls_bind; [exact IH|].
  intros items. apply has_calls_ret.
Qed.

Lemma has_calls_table_teams l lk :
  has_calls (table_teams l lk)
    (flat_map (fun a => team_calls (table_team_raw_image a) (table_team_name a)) l).
Proof.
  revert lk. induction l as [|a r IH]; intros lk; cbn [table_teams flat_map];
    [apply has_calls_ret|].
  apply has_calls_bind; [apply has_calls_team_image|]. intros img.
  change (flat_map (fun a0 => team_calls (table_team_raw_image a0) (table_team_name a0)) r)
    with ([] ++ flat_map (fun a0 => team_calls (table_team_raw_image a0) (table_team_name a0)) r).
  apply has_calls_bind.
  - destruct (negb (truthy lk) && _); [apply has_calls_norm_src|apply has_calls_ret].
  - intros lk'. eapply has_calls_eq; [|apply app_nil_r]. apply has_calls_bind; [apply IH|].
    intros [[ns imgs] l3]. apply has_calls_ret.
Qed.

Lemma has_calls_row tr : has_calls (parse_schedule_row tr) (row_calls tr).
Proof.
  unfold parse_schedule_row, row_calls.
  destruct (find_all (has_tag "td") tr) as [|td0 rest]; [apply has_calls_ret|].
  eapply has_calls_eq; [|apply app_nil_r].
  apply has_calls_bind; [apply has_calls_table_teams|]. intros [[ns imgs] lk].
  eapply has_calls_eq; [|apply app_nil_r]. apply has_calls_bind.
  - destruct (negb (truthy lk)); [|apply has_calls_ret].
    destruct (find _ td0); [apply has_calls_norm_src|apply has_calls_ret].
  - intros lk'. destruct (negb _); apply has_calls_ret.
Qed.

Lemma has_calls_page doc : has_calls (parse_schedules_html doc) (page_calls doc).
Proof.
  unfold parse_schedules_html, page_calls. apply has_calls_bind.
  - apply has_calls_collect, has_calls_card.
  - intros cards. eapply has_calls_eq; [|apply app_nil_r]. apply has_calls_bind.
    + unfold _parse_schedule_table. destruct (schedule_table _); [|apply has_calls_ret].
      apply has_calls_collect, has_calls_row.
    + intros rows. apply has_calls_ret.
Qed.

Lemma team_calls_good raw name :
  Forall (fun c => is_flag_id (fst c) = true /\ snd c <> "") (team_calls raw name).
Proof.
  unfold team_calls. destruct (truthy raw && nonempty name) eqn:Hc; [|constructor].
  apply andb_true_iff in Hc as [_ Hn].
  destruct (flag_id_search (or_empty raw)) as [fid|] eqn:Hs; [|constructor].
  constructor; [|constructor]. cbn. split; [exact (flag_id_search_is_flag_id _ _ Hs)|].
  now apply nonempty_true.
Qed.

Lemma flat_map_good {A : Type} (g : A -> list (string * string)) l :
  (forall x, Forall (fun c => is_flag_id (fst c) = true /\ snd c <> "") (g x)) ->
  Forall (fun c => is_flag_id (fst c) = true /\ snd c <> "") (flat_map g l).
Proof.
  intros Hg. induction l as [|x l IH]; cbn [flat_map]; [constructor|].
  apply Forall_app. split; [apply Hg|exact IH].
Qed.

Lemma page_calls_good doc :
  Forall (fun c => is_flag_id (fst c) = true /\ snd c <> "") (page_calls doc).
Proof.
  unfold page_calls. apply Forall_app. split.
  - apply flat_map_good. intros mu. apply flat_map_good. intros tn. apply team_calls_good.
  - destruct (schedule_table _); [|constructor].
    apply flat_map_good. intros tr. unfold row_calls.
    destruct (find_all (has_tag "td") tr); [constructor|].
    apply flat_map_good. intros a. apply team_calls_good.
Qed.

Lemma raw_path_inj i j :
  is_flag_id i = true -> is_flag_id j = true ->
  path_join _FLAGS_RAW_DIR (i +:+ ".gif") = path_join _FLAGS_RAW_DIR (j +:+ ".gif") -> i = j.
Proof.
  intros Hi Hj. rewrite (raw_path_form _ Hi), (raw_path_form _ Hj). intros H.
  do 2 apply (inj (String.append _)) in H. now apply append_inj_r in H.
Qed.

(** Whether an image can be had depends on the raw file and on the server. *)
Lemma unavailable_depends i w w' :
  files w !! path_join _FLAGS_RAW_DIR (i +:+ ".gif")
  = files w' !! path_join _FLAGS_RAW_DIR (i +:+ ".gif") ->
  remote w = remote w' -> unavailable i w -> unavailable i w'.
Proof.
  unfold unavailable, _download_flag_gif, path_exists, getsize. intros -> ->.
  destruct (_ && _); [discriminate|].
  destruct (remote w' _) as [len|]; [|reflexivity].
  destruct (bool_decide (len < 100)); [reflexivity|discriminate].
Qed.

Lemma ensure_unavailable i nm m mf fs rm :
  id_to_path m !! i = None -> unavailable i (mkWorld (Some m) mf fs rm) ->
  _ensure_flag_local i nm (mkWorld (Some m) mf fs rm) = (None, mkWorld (Some m) mf fs rm).
Proof.
  intros Hp Hu. unfold _ensure_flag_local. unfold_state.
  cbn [_load_flags_mapping flags_mem]. unfold get_world. cbv beta iota. rewrite Hp.
  cbn [truthy andb or_empty default].
  destruct (download_flag_gif_spec i (mkWorld (Some m) mf fs rm)) as [[Hd _]|(fs' & k & Hd & _)].
  - now rewrite Hd.
  - unfold unavailable in Hu. rewrite Hd in Hu. discriminate Hu.
Qed.

(** What one call does to a world whose references are all live. *)
Lemma ensure_summary i nm m mf fs rm :
  is_flag_id i = true -> nm <> "" ->
  mapping_sound (mkWorld (Some m) mf fs rm) ->
  exists m' mf' fs',
    snd (_ensure_flag_local i nm (mkWorld (Some m) mf fs rm)) = mkWorld (Some m') mf' fs' rm
    /\ (forall j, j <> i -> id_to_path m' !! j = id_to_path m !! j
                            /\ id_to_name m' !! j = id_to_name m !! j)
    /\ (forall j, is_flag_id j = true -> j <> i ->
                  fs' !! path_join _FLAGS_RAW_DIR (j +:+ ".gif")
                  = fs !! path_join _FLAGS_RAW_DIR (j +:+ ".gif"))
    /\ ((is_Some (id_to_path m !! i) /\ id_to_path m' = id_to_path m /\ fs' = fs
         /\ id_to_name m' = <[i := nm]> (id_to_name m)
         /\ ((m' = m /\ mf' = mf) \/ mf' = Some m'))
        \/ (id_to_path m !! i = None /\ unavailable i (mkWorld (Some m) mf fs rm)
            /\ m' = m /\ mf' = mf /\ fs' = fs)
        \/ (id_to_path m !! i = None /\ ~ unavailable i (mkWorld (Some m) mf fs rm)
            /\ is_Some (id_to_path m' !! i) /\ id_to_name m' !! i = Some nm
            /\ mf' = Some m')).
Proof.
  intros Hi Hnm [Hsl _]. cur_simpl. cbn [files] in Hsl.
  apply nonempty_true in Hnm.
  destruct (id_to_path m !! i) as [e|] eqn:Hp.
  - pose proof (ensure_flag_local_cases i nm (Some m) mf fs rm Hi) as Hc. cbv zeta in Hc.
    rewrite Hnm in Hc.
    destruct Hc as
      [(e' & Hme & Hne & Hlive & [[Hrun Hn]|[Hrun Hn]])
      |(Hmiss & _)].
    + destruct Hn as [Hn|Hn]; [congruence|].
      exists m, mf, fs. rewrite Hrun. split; [reflexivity|]. split; [auto|]. split; [auto|].
      left. split; [eauto|]. split; [reflexivity|]. split; [reflexivity|].
      split; [now rewrite insert_id|now left].
    + eexists _, _, fs. rewrite Hrun. split; [reflexivity|]. cbn [id_to_path id_to_name].
      split; [intros j Hj; split; [reflexivity|now rewrite lookup_insert_ne]|].
      split; [auto|]. left. split; [eauto|]. split; [reflexivity|]. split; [reflexivity|].
      split; [reflexivity|now right].
    + exfalso. destruct (Hsl _ _ Hp) as (Hne & k & Hk & _).
      rewrite (Hmiss _ Hp Hne) in Hk. discriminate Hk.
  - destruct (fst (_download_flag_gif i (mkWorld (Some m) mf fs rm))) as [r|] eqn:Hd.
    + pose proof (ensure_flag_local_cases i nm (Some m) mf fs rm Hi) as Hc. cbv zeta in Hc.
      rewrite Hnm in Hc.
      destruct Hc as
        [(e' & Hme & _)
        |(Hmiss & [[Hrun Hdl]
                  |(fs' & k & out & Hfs' & Hk & Hpos & Hshape & Hfresh & Hname & Hrun)])].
      * congruence.
      * congruence.
      * eexists _, _, _. rewrite Hrun. split; [reflexivity|]. cbn [id_to_path id_to_name].
        split; [intros j Hj; now rewrite !lookup_insert_ne|].
        split.
        { intros j Hj Hji.
          rewrite lookup_insert_ne
            by (intros H; symmetry in H; exact (raw_not_by_name j _ Hj Hshape H)).
          destruct Hfs' as [->|[-> _]]; [reflexivity|].
          rewrite lookup_insert_ne; [reflexivity|].
          intros H. apply raw_path_inj in H; congruence. }
        right. right. split; [reflexivity|].
        split; [unfold unavailable; rewrite Hd; discriminate|].
        rewrite !lookup_insert_eq. eauto.
    + rewrite (ensure_unavailable i nm m mf fs rm Hp Hd).
      exists m, mf, fs. split; [reflexivity|]. split; [auto|]. split; [auto|].
      right. left. auto.
Qed.

Lemma last_name_cons_None j i nm calls :
  last_name j ((i, nm) :: calls) = None -> last_name j calls = None /\ j <> i.
Proof.
  cbn [last_name]. destruct (last_name j calls); [discriminate|].
  destruct (String.eqb_spec j i); [discriminate|auto].
Qed.

(** The first run of the calls of a page: an identifier of a call ends
    with a reference, or without one and with no image to be had; an
    identifier with a reference carries the name of its last call. *)
Lemma run_calls_first calls :
  Forall (fun c => is_flag_id (fst c) = true /\ snd c <> "") calls ->
  forall m mf fs rm,
    mapping_sound (mkWorld (Some m) mf fs rm) ->
    exists m1 mf1 fs1,
      run_calls calls (mkWorld (Some m) mf fs rm) = mkWorld (Some m1) mf1 fs1 rm
      /\ mapping_sound (mkWorld (Some m1) mf1 fs1 rm)
      /\ (forall j, is_flag_id j = true -> id_to_path m !! j = None ->
                    unavailable j (mkWorld (Some m) mf fs rm) ->
                    id_to_path m1 !! j = None /\ unavailable j (mkWorld (Some m1) mf1 fs1 rm))
      /\ (forall j, is_Some (id_to_path m !! j) -> is_Some (id_to_path m1 !! j))
      /\ Forall (fun c => is_Some (id_to_path m1 !! fst c)
                          \/ (id_to_path m1 !! fst c = None
                              /\ unavailable (fst c) (mkWorld (Some m1) mf1 fs1 rm))) calls
      /\ (forall j x, last_name j calls = Some x -> is_Some (id_to_path m1 !! j) ->
                      id_to_name m1 !! j = Some x)
      /\ (forall j, last_name j calls = None -> id_to_name m1 !! j = id_to_name m !! j)
      /\ ((m1 = m /\ mf1 = mf /\ fs1 = fs) \/ mf1 = Some m1).
Proof.
  induction 1 as [|[i nm] calls [Hi Hnm] Hgood IH]; intros m mf fs rm Hs.
  - exists m, mf, fs. split; [reflexivity|]. split; [exact Hs|].
    split; [auto|]. split; [auto|]. split; [constructor|]. split; [discriminate|auto].
  - cbn [fst snd] in Hi, Hnm.
    destruct (ensure_summary i nm m mf fs rm Hi Hnm Hs)
      as (m' & mf' & fs' & Hw' & Hoth & Hraw & Hcase).
    assert (Hs' : mapping_sound (mkWorld (Some m') mf' fs' rm)).
    { rewrite <- Hw'. now apply ensure_sound. }
    assert (Sa : forall j, is_flag_id j = true -> id_to_path m !! j = None ->
                   unavailable j (mkWorld (Some m) mf fs rm) ->
                   id_to_path m' !! j = None /\ unavailable j (mkWorld (Some m') mf' fs' rm)).
    { intros j Hj Hp Hu. destruct (decide (j = i)) as [->|Hji].
      - destruct Hcase as [([e He] & _)|[(_ & _ & -> & -> & ->)|(_ & Hnu & _)]];
          [congruence|auto|contradiction].
      - split; [now rewrite (proj1 (Hoth j Hji))|].
        apply (unavailable_depends j (mkWorld (Some m) mf fs rm)); [|reflexivity|exact Hu].
        cbn [files]. symmetry. now apply Hraw. }
    assert (Sb : forall j, is_Some (id_to_path m !! j) -> is_Some (id_to_path m' !! j)).
    { intros j Hj. destruct (decide (j = i)) as [->|Hji].
      - destruct Hcase as [(_ & -> & _)|[(_ & _ & -> & _)|(_ & _ & Hm' & _)]]; auto.
      - now rewrite (proj1 (Hoth j Hji)). }
    destruct (IH m' mf' fs' rm Hs')
      as (m1 & mf1 & fs1 & Hrun & Hs1 & Ia & Ib & Ic & Id & Ie & Ig).
    exists m1, mf1, fs1. split.
    { cbn [run_calls fold_left fst snd]. rewrite Hw'. exact Hrun. }
    split; [exact Hs1|]. split.
    { intros j Hj Hp Hu. destruct (Sa j Hj Hp Hu) as [Hp' Hu']. now apply Ia. }
    split; [auto|]. split.
    { constructor; [|exact Ic]. cbn [fst].
      destruct Hcase as [(Hm & Hpm & _)|[(Hp & Hu & -> & -> & ->)|(_ & _ & Hm' & _)]].
      - left. apply Ib. now rewrite Hpm.
      - right. now apply Ia.
      - left. now apply Ib. }
    split.
    { intros j x Hl Hj. cbn [last_name] in Hl.
      destruct (last_name j calls) as [y|] eqn:Hlj; [apply Id; [congruence|exact Hj]|].
      destruct (String.eqb_spec j i) as [->|]; [|discriminate]. injection Hl as <-.
      rewrite (Ie i Hlj).
      destruct Hcase as [(_ & _ & _ & -> & _)|[(Hp & Hu & -> & -> & ->)|(_ & _ & _ & Hn & _)]].
      - apply lookup_insert_eq.
      - exfalso. destruct (Ia i Hi Hp Hu) as [Hp1 _]. rewrite Hp1 in Hj.
        destruct Hj as [? Hj]. discriminate Hj.
      - exact Hn. }
    split.
    { intros j Hl. apply last_name_cons_None in Hl as [Hl Hji].
      rewrite (Ie j Hl). apply (Hoth j Hji). }
    destruct Ig as [(-> & -> & ->)|Hg]; [|now right].
    destruct Hcase as [(_ & _ & -> & _ & [[-> ->]|Hmf])|[(_ & _ & -> & -> & ->)
                                                         |(_ & _ & _ & _ & Hmf)]];
      auto.
Qed.

(** A run of calls that are all settled: files and references stay, the
    names are those of the last calls. *)
Lemma run_calls_again calls :
  Forall (fun c => is_flag_id (fst c) = true /\ snd c <> "") calls ->
  forall m mf fs rm,
    mapping_sound (mkWorld (Some m) mf fs rm) ->
    Forall (fun c => is_Some (id_to_path m !! fst c)
                     \/ (id_to_path m !! fst c = None
                         /\ unavailable (fst c) (mkWorld (Some m) mf fs rm))) calls ->
    exists m2 mf2,
      run_calls calls (mkWorld (Some m) mf fs rm) = mkWorld (Some m2) mf2 fs rm
      /\ id_to_path m2 = id_to_path m
      /\ (forall j, id_to_name m2 !! j
                    = match id_to_path m !! j, last_name j calls with
                      | Some _, Some x => Some x
                      | _, _ => id_to_name m !! j
                      end)
      /\ ((m2 = m /\ mf2 = mf) \/ mf2 = Some m2).
Proof.
  induction 1 as [|[i nm] calls [Hi Hnm] Hgood IH]; intros m mf fs rm Hs Hset.
  - exists m, mf. split; [reflexivity|]. split; [reflexivity|]. split; [|now left].
    intros j. cbn [last_name]. now destruct (id_to_path m !! j).
  - cbn [fst snd] in Hi, Hnm. inversion Hset as [|c l Hhead Htail]; subst c l. cbn [fst] in Hhead.
    destruct (ensure_summary i nm m mf fs rm Hi Hnm Hs)
      as (m' & mf' & fs' & Hw' & Hoth & Hraw & Hcase).
    assert (Hs' : mapping_sound (mkWorld (Some m') mf' fs' rm)).
    { rewrite <- Hw'. now apply ensure_sound. }
    assert (Hstep : id_to_path m' = id_to_path m /\ fs' = fs
                    /\ id_to_name m' !! i
                       = match id_to_path m !! i with Some _ => Some nm | None => id_to_name m !! i end
                    /\ ((m' = m /\ mf' = mf) \/ mf' = Some m')).
    { destruct Hcase as [([e He] & Hp & Hf & Hn & Hmf)|[(Hp & Hu & -> & -> & ->)|(Hp & Hnu & _)]].
      - split; [exact Hp|]. split; [exact Hf|]. rewrite He, Hn, lookup_insert_eq.
        split; [reflexivity|exact Hmf].
      - rewrite Hp. repeat split; auto.
      - exfalso. destruct Hhead as [[e He]|[_ Hu]]; [congruence|contradiction]. }
    destruct Hstep as (Hp' & -> & Hni & Hmf).
    destruct (IH m' mf' fs rm Hs') as (m2 & mf2 & Hrun & Hp2 & Hn2 & Hmf2).
    { rewrite Hp'. eapply Forall_impl; [exact Htail|]. intros c [Hc|[Hc Hu]]; [now left|right].
      split; [exact Hc|]. eapply unavailable_depends; [| |exact Hu]; reflexivity. }
    exists m2, mf2. split.
    { cbn [run_calls fold_left fst snd]. rewrite Hw'. exact Hrun. }
    split; [congruence|]. split.
    + intros j. rewrite Hn2, Hp'. cbn [last_name].
      destruct (id_to_path m !! j) as [e|] eqn:Hj.
      * destruct (last_name j calls) as [x|]; [reflexivity|].
        destruct (String.eqb_spec j i) as [->|Hji].
        -- now rewrite Hni, Hj.
        -- apply (Hoth j Hji).
      * destruct (decide (j = i)) as [->|Hji].
        -- rewrite Hni, Hj. now destruct (last_name i calls).
        -- rewrite (proj2 (Hoth j Hji)). now destruct (last_name j calls).
    + destruct Hmf2 as [[Hm2 Hf2]|Hf2]; [subst m2 mf2; exact Hmf|now right].
Qed.

Lemma parse_schedules_loaded doc w :
  is_Some (flags_mem w) -> is_Some (flags_mem (snd (parse_schedules_html doc w))).
Proof.
  apply (parse_schedules_preserves (fun x => is_Some (flags_mem x))).
  - intros x _. apply loaded_is_Some.
  - intros fid name Hfid x _. now apply ensure_is_loaded.
Qed.

Lemma parse_schedules_same_or_loaded doc w :
  snd (parse_schedules_html doc w) = w
  \/ is_Some (flags_mem (snd (parse_schedules_html doc w))).
Proof.
  apply (parse_schedules_preserves (fun x => x = w \/ is_Some (flags_mem x))); [| |now left].
  - intros x [->|Hx]; [right; apply loaded_is_Some|].
    right. fold (loaded x). now rewrite loaded_of_Some.
  - intros fid name Hfid x _. right. now apply ensure_is_loaded.
Qed.

(** X26: extracting a page again changes nothing.  From a world where
    every reference of the mapping names a file on disk that is not empty
    and no two identifiers share a file, the world the first extraction
    leaves is left as it is by a second extraction of the same page: no
    file is written, no by-name copy is added, and the mapping and the
    mapping file are the same, so every further extraction returns what
    the second one returned. *)
Theorem schedule_parse_settles (doc : Node) (w : World) :
  mapping_sound w ->
  let w1 := snd (parse_schedules_html doc w) in
  snd (parse_schedules_html doc w1) = w1
  /\ parse_schedules_html doc (snd (parse_schedules_html doc w1))
     = parse_schedules_html doc w1.
Proof.
  intros Hs w1.
  assert (Hfix : snd (parse_schedules_html doc w1) = w1); [|split; [exact Hfix|now rewrite Hfix]].
  destruct (parse_schedules_same_or_loaded doc w) as [Hsame|Hl]; fold w1 in Hsame || fold w1 in Hl.
  { rewrite Hsame. exact Hsame. }
  pose proof (has_calls_page doc w) as Hrun. fold w1 in Hrun.
  rewrite (loaded_of_Some w1 Hl) in Hrun.
  pose proof (load_sound w Hs) as Hs0. fold (loaded w) in Hs0.
  destruct (loaded_is_Some w) as [m Hm].
  destruct (loaded w) as [mem0 mf fs rm] eqn:Hw0. cbn [flags_mem] in Hm. subst mem0.
  destruct (run_calls_first (page_calls doc) (page_calls_good doc) m mf fs rm Hs0)
    as (m1 & mf1 & fs1 & Hr1 & Hs1 & _ & _ & Hset & Hlast & _ & Hch).
  rewrite Hr1 in Hrun.
  assert (Hagain : run_calls (page_calls doc) w1 = w1).
  { destruct Hch as [(Hm1 & Hf1 & Hfs1)|Hf1]; [subst m1 mf1 fs1; now rewrite Hrun, Hr1|].
    subst mf1.
    rewrite Hrun.
    destruct (run_calls_again (page_calls doc) (page_calls_good doc) m1 (Some m1) fs1 rm Hs1 Hset)
      as (m2 & mf2 & Hr2 & Hp2 & Hn2 & Hmf2).
    rewrite Hr2.
    assert (Heq : m2 = m1).
    { destruct m1 as [p1 n1], m2 as [p2 n2]. cbn [id_to_path id_to_name] in *. subst p2.
      f_equal. apply map_eq. intros j. rewrite Hn2.
      destruct (p1 !! j) as [e|] eqn:Hj; [|reflexivity].
      destruct (last_name j (page_calls doc)) as [x|] eqn:Hx; [|reflexivity].
      symmetry. apply Hlast; [exact Hx|]. rewrite Hj. eauto. }
    subst m2. destruct Hmf2 as [[_ Hf2]|Hf2]; now subst mf2. }
  pose proof (has_calls_page doc w1) as Hrun2.
  rewrite (loaded_of_Some w1 Hl), Hagain in Hrun2.
  rewrite loaded_of_Some in Hrun2; [exact Hrun2|].
  now apply parse_schedules_loaded.
Qed.

(** ** The scraper on the disk of the script *)

(** Every reference of the mapping [main] writes names a file on disk. *)
Lemma main_paths_live (d : Disk) names paths sid rel :
  fst (main d) = Some tt ->
  disk_mapping (snd (main d)) = Some (names, paths) ->
  assoc sid paths = Some rel ->
  is_Some (disk_files (snd (main d)) !! fs_path rel).
Proof.
  unfold main, finish_main.
  set (old := _load_existing_mapping d). set (d1 := download_all (seq 1 300) d).
  destruct (build_id_to_name_map d1) as [new|]; [|discriminate].
  set (items := dict_update (fst old) new).
  pose proof (write_loop_live items ∅ [] d1) as Hlive.
  change (write_loop items ∅ [] d1) with (write_by_name_gifs items d1) in Hlive.
  destruct (write_by_name_gifs items d1) as [[new_paths|] d2]; cbn [fst snd] in *;
    [|discriminate].
  intros _ [= <- <-] Hrel. cbn [disk_files].
  destruct (Hlive new_paths eq_refl) as (_ & _ & Hl).
  assert (Hl' : forall k v, In (k, v) new_paths -> is_Some (disk_files d2 !! fs_path v)).
  { intros k v Hin. destruct (Hl k v Hin) as [[]|(f & _ & _ & Hf)]. exact Hf. }
  destruct (merge_paths_spec (snd old) new_paths d2 Hl') as (Hmlive & _).
  exact (Hmlive sid rel Hrel).
Qed.

Lemma list_to_map_assoc (l : list (string * string)) k :
  (list_to_map l : gmap string string) !! k = assoc k l.
Proof.
  induction l as [|[k' v] r IH]; [reflexivity|].
  change (list_to_map ((k', v) :: r) : gmap string string) with (<[k' := v]> (list_to_map r : gmap string string)).
  cbn [assoc]. destruct (String.eqb_spec k k') as [->|Hk].
  - apply lookup_insert_eq.
  - rewrite lookup_insert_ne by congruence. exact IH.
Qed.

Lemma fs_path_ref_file rel : fs_path rel = ref_file rel.
Proof.
  unfold fs_path, ref_file. change BASE with "/workspace".
  destruct (startswith rel "/") eqn:Hs; [reflexivity|].
  destruct rel as [|c t]; [reflexivity|].
  unfold lstrip_char. cbn [lstrip_with].
  destruct (char_is "/" c) eqn:Hc; [|reflexivity].
  apply char_is_eq in Hc. subst c. unfold startswith in Hs. cbn in Hs.
  destruct t; discriminate Hs.
Qed.

(** A call for an identifier whose reference names a file on disk. *)
Lemma ensure_hit i nm mem0 mf fs rm e :
  let w := mkWorld mem0 mf fs rm in
  id_to_path (current_mapping w) !! i = Some e -> e <> "" -> is_Some (fs !! ref_file e) ->
  exists m' mf',
    _ensure_flag_local i nm w = (Some e, mkWorld (Some m') mf' fs rm)
    /\ id_to_path m' = id_to_path (current_mapping w).
Proof.
  intros w. subst w. rewrite current_mk.
  set (m := match mem0 with Some m => m | None => default (mkFlags ∅ ∅) mf end).
  intros Hp He Hf.
  pose proof (load_flags_mapping_spec mem0 mf fs rm) as Hload. cbv zeta in Hload. fold m in Hload.
  unfold _ensure_flag_local. unfold_state. rewrite Hload.
  unfold get_world. cbv beta iota. rewrite Hp. cbn [truthy or_empty default].
  apply nonempty_true in He. rewrite He. cbn [andb].
  unfold path_exists. cbn [files]. fold (ref_file e).
  rewrite (bool_decide_true _ Hf).
  destruct (nonempty nm && _); cbn; eauto.
Qed.

(** X27: the script prepares the flags for the scraper.  After a run of
    [main] that ends, a scraper process that starts on the disk the script
    left resolves every identifier of the written mapping from the disk:
    [_ensure_flag_local] returns the reference the script stored for it,
    writes no file, and leaves the references of the mapping as they
    are. *)
Theorem script_mapping_serves_scraper (d : Disk) (names paths : Dict)
    (sid rel name : string) :
  fst (main d) = Some tt ->
  disk_mapping (snd (main d)) = Some (names, paths) ->
  assoc sid paths = Some rel -> rel <> "" ->
  let w := world_of_disk (snd (main d)) in
  let run := _ensure_flag_local sid name w in
  fst run = Some rel
  /\ files (snd run) = files w
  /\ remote (snd run) = remote w
  /\ id_to_path (current_mapping (snd run)) = list_to_map paths.
Proof.
  intros Hend Hmap Hrel Hne w run.
  pose proof (main_paths_live d names paths sid rel Hend Hmap Hrel) as Hf.
  rewrite fs_path_ref_file in Hf.
  assert (Hw : w = mkWorld None (Some (mkFlags (list_to_map paths) (list_to_map names)))
                     (disk_files (snd (main d))) (flag_server (snd (main d)))).
  { unfold w, world_of_disk. now rewrite Hmap. }
  destruct (ensure_hit sid name None (Some (mkFlags (list_to_map paths) (list_to_map names)))
              (disk_files (snd (main d))) (flag_server (snd (main d))) rel)
    as (m' & mf' & Hrun & Hp').
  - change ((list_to_map paths : gmap string string) !! sid = Some rel).
    now rewrite list_to_map_assoc.
  - exact Hne.
  - exact Hf.
  - subst run. rewrite Hw, Hrun. cbn [fst snd files remote]. rewrite current_mk.
    repeat split. rewrite Hp', current_mk. reflexivity.
Qed.

(** ** The further properties at sample inputs *)

Lemma resolver_reference_is_live_witness :
  id_to_path (current_mapping (snd (_ensure_flag_local "12" "New Zealand" sample_world)))
    !! "12"
  = Some "/static/flags/by-name/new-zealand.gif".
Proof.
  assert (H : fst (_ensure_flag_local "12" "New Zealand" sample_world)
              = Some "/static/flags/by-name/new-zealand.gif")
    by (vm_compute; reflexivity).
  exact (proj1 (resolver_reference_is_live "12" "New Zealand" sample_world _ "" eq_refl H)).
Defined.

Lemma resolver_keeps_files_witness :
  is_flag_id "12" = true
  /\ keeps_files sample_world (snd (_ensure_flag_local "12" "New Zealand" sample_world)).
Proof.
  split; [reflexivity|].
  exact (proj1 (resolver_keeps_files "12" "New Zealand" sample_world eq_refl)).
Defined.

Lemma resolver_touches_own_id_witness :
  is_flag_id "12" = true
  /\ keeps_ids sample_world (snd (_ensure_flag_local "12" "New Zealand" sample_world)).
Proof.
  split; [reflexivity|].
  exact (proj2 (proj2 (proj2
           (resolver_touches_own_id "12" "New Zealand" sample_world eq_refl)))).
Defined.

Lemma resolver_new_reference_witness :
  fst (_ensure_flag_local "12" "New Zealand" sample_world)
  = Some "/static/flags/by-name/new-zealand.gif"
  /\ files sample_world !! ref_file "/static/flags/by-name/new-zealand.gif" = None.
Proof.
  assert (H : fst (_ensure_flag_local "12" "New Zealand" sample_world)
              = Some "/static/flags/by-name/new-zealand.gif")
    by (vm_compute; reflexivity).
  split; [exact H|].
  refine (proj1 (proj2 (resolver_new_reference "12" "New Zealand" sample_world _
                          eq_refl _ H))).
  intros e He. vm_compute in He. discriminate He.
Defined.

Lemma resolver_invariants_witness :
  cache_coherent sample_world
  /\ cache_coherent (snd (_ensure_flag_local "12" "New Zealand" sample_world)).
Proof.
  assert (H : cache_coherent sample_world) by (intros m Hm; discriminate Hm).
  split; [exact H|].
  exact (proj1 (resolver_invariants "12" "New Zealand" sample_world eq_refl) H).
Defined.

Lemma schedule_texts_are_trimmed_witness :
  In sample_row_entry
     (fst (_parse_schedule_table (_find_content_root (soup_of sample_schedule_page))
             sample_world))
  /\ strip (title sample_row_entry) = title sample_row_entry.
Proof.
  assert (H : In sample_row_entry
                (fst (_parse_schedule_table
                        (_find_content_root (soup_of sample_schedule_page)) sample_world)))
    by (vm_compute; left; reflexivity).
  split; [exact H|].
  exact (proj1 (schedule_texts_are_trimmed sample_schedule_page _ _ _
                  (or_intror (or_intror H)))).
Defined.

Lemma schedule_references_usable_witness :
  In sample_card_entry (fst (parse_schedules_html sample_schedule_page sample_world))
  /\ good_record (snd (parse_schedules_html sample_schedule_page sample_world))
       sample_card_entry.
Proof.
  assert (Hs : mapping_sound sample_world).
  { split.
    - intros fid e He. vm_compute in He. discriminate He.
    - intros f1 f2 e1 e2 He. vm_compute in He. discriminate He. }
  assert (H : In sample_card_entry
                (fst (parse_schedules_html sample_schedule_page sample_world)))
    by (vm_compute; left; reflexivity).
  split; [exact H|].
  exact (schedule_references_usable sample_schedule_page sample_world _ Hs H).
Defined.

Lemma norm_src_absolute_and_stable_witness :
  fst (_norm_src (Some "//x/y.png") sample_world) = Some "https://x/y.png"
  /\ "https://x/y.png" <> "".
Proof.
  assert (H : fst (_norm_src (Some "//x/y.png") sample_world) = Some "https://x/y.png")
    by reflexivity.
  split; [exact H|].
  exact (proj1 (norm_src_absolute_and_stable "//x/y.png" sample_world _ H)).
Defined.

Lemma same_slug_distinct_copies_witness :
  exists paths r1 r2,
    fst (write_by_name_gifs [("7", "Team A"); ("8", "team a")] sample_disk) = Some paths
    /\ assoc "7" paths = Some r1 /\ assoc "8" paths = Some r2 /\ r1 <> r2.
Proof.
  assert (Hd : Forall (fun kv : string * string => is_flag_id (fst kv) = true)
                 ([] ++ ("7", "Team A") :: [] ++ ("8", "team a") :: []))
    by (repeat constructor).
  assert (Hn : NoDup (map fst ([] ++ ("7", "Team A") :: [] ++ ("8", "team a") :: []))).
  { apply NoDup_cons. split; [|apply NoDup_singleton].
    intros Hin. apply list_elem_of_singleton in Hin. discriminate Hin. }
  destruct (same_slug_distinct_copies [] [] [] "7" "Team A" "8" "team a" sample_disk
              Hd Hn eq_refl eq_refl eq_refl)
    as (paths & r1 & r2 & Hp & H1 & H2 & Hne & _).
  exists paths, r1, r2. auto.
Defined.

Lemma script_is_idempotent_witness :
  Forall (fun kv : string * string => is_flag_id (fst kv) = true)
    (fst (_load_existing_mapping sample_disk))
  /\ main (snd (main sample_disk)) = main sample_disk.
Proof.
  assert (H : Forall (fun kv : string * string => is_flag_id (fst kv) = true)
                (fst (_load_existing_mapping sample_disk)))
    by (repeat constructor).
  split; [exact H|]. exact (script_is_idempotent sample_disk H).
Defined.

(** The script at the sample disk. *)

Example script_dirs :
  FLAGS_RAW_DIR = _FLAGS_RAW_DIR /\ FLAGS_BY_NAME_DIR = _FLAGS_BY_NAME_DIR
  /\ FLAGS_BASE_URL = _FLAGS_BASE_URL.
Proof. repeat split. Qed.

Example script_names_from_sample_page :
  build_id_to_name_map sample_disk = Some [("12", "Team A")].
Proof. vm_compute. reflexivity. Qed.

Example script_copies_at_sample_disk :
  fst (write_by_name_gifs [("7", "Team A"); ("8", "team a"); ("9", "Team B")] sample_disk)
  = Some [("7", "/static/flags/by-name/team-a.gif");
          ("8", "/static/flags/by-name/team-a-2.gif")].
Proof. vm_compute. reflexivity. Qed.

Example before_score_examples :
  before_score "India 250/3" = "India"
  /\ before_score "Sri Lanka  (20 ov)" = "Sri Lanka"
  /\ before_score "New Zealand" = "New Zealand".
Proof. repeat split. Qed.

Example main_at_sample_disk :
  fst (main sample_disk) = Some tt
  /\ disk_mapping (snd (main sample_disk))
     = Some ([("7", "Team A"); ("12", "Team A")],
             [("7", "/static/flags/by-name/team-a.gif");
              ("12", "/static/flags/by-name/team-a-2.gif")])
  /\ disk_files (snd (main sample_disk)) !! "/workspace/static/flags/by-name/team-a-2.gif"
     = Some 500.
Proof. vm_compute. repeat split. Qed.

Lemma schedule_parse_settles_witness :
  snd (parse_schedules_html sample_schedule_page
         (snd (parse_schedules_html sample_schedule_page sample_world)))
  = snd (parse_schedules_html sample_schedule_page sample_world).
Proof.
  assert (Hs : mapping_sound sample_world).
  { split.
    - intros fid e He. vm_compute in He. discriminate He.
    - intros f1 f2 e1 e2 He. vm_compute in He. discriminate He. }
  exact (proj1 (schedule_parse_settles sample_schedule_page sample_world Hs)).
Defined.

Lemma script_mapping_serves_scraper_witness :
  fst (_ensure_flag_local "12" "Team B" (world_of_disk (snd (main sample_disk))))
  = Some "/static/flags/by-name/team-a-2.gif".
Proof.
  assert (Hm : disk_mapping (snd (main sample_disk))
               = Some ([("7", "Team A"); ("12", "Team A")],
                       [("7", "/static/flags/by-name/team-a.gif");
                        ("12", "/static/flags/by-name/team-a-2.gif")]))
    by (vm_compute; reflexivity).
  assert (He : fst (main sample_disk) = Some tt) by (vm_compute; reflexivity).
  assert (Hr : assoc "12" [("7", "/static/flags/by-name/team-a.gif");
                           ("12", "/static/flags/by-name/team-a-2.gif")]
               = Some "/static/flags/by-name/team-a-2.gif") by reflexivity.
  assert (Hn : "/static/flags/by-name/team-a-2.gif" <> "") by discriminate.
  exact (proj1 (script_mapping_serves_scraper sample_disk _ _ "12" _ "Team B" He Hm Hr Hn)).
Defined.

(** With a reference that names no file the second extraction can differ
    from the first: the copy made for flag 7 takes the file name the stale
    reference of flag 12 holds, and the second extraction records a name for
    flag 12. *)
Example schedule_parse_stale_reference :
  let w1 := snd (parse_schedules_html stale_page stale_world) in
  let w2 := snd (parse_schedules_html stale_page w1) in
  id_to_name (current_mapping w1) !! "12" = None
  /\ id_to_name (current_mapping w2) !! "12" = Some "Team A".
Proof. vm_compute. split; reflexivity. Qed.
